(** * Helium rewards scraper: a shallow embedding of the ingestion core

    The development follows the JavaScript sources of the repository:
    - [src/scrapeHeliumRewards.js]   (single-device DC scraper),
    - [src/scrapePocRewards.js]      (single-device PoC scraper, wire-level),
    - [src/topEarnersScheduledScrape.js] (fleet top-N scan),
    - [scripts/scrape-device.js], [scripts/top-earners-dc.js] (debug tools).

    Buffers are lists of bytes, JavaScript numbers that hold integers are
    [Z], strings are [string], a call that may throw returns an [outcome],
    and a [Map] keyed by strings is a [gmap string _].  A loop that is not
    structural takes fuel and answers [None] when the fuel runs out; each
    such loop is shown to end within the fuel it is given.

    Part I holds the definitions, Part II the lemmas and theorems. *)

From Stdlib Require Import ZArith List Lia Ascii String Strings.Byte Sorting.Sorted.
From Stdlib Require Import DecimalString.
From stdpp Require Import gmap strings.
Import ListNotations.

(* ===================================================================== *)
(** * Part I. Definitions                                                  *)
(* ===================================================================== *)

(** ** Bytes and Buffers *)

(** The numeric value of a byte, as JavaScript reads [buf[i]]. *)
Definition byteZ (b : byte) : Z := Z.of_N (Byte.to_N b).

(** Storing a number into a [Uint8Array] / [Buffer] cell keeps it modulo 256. *)
Definition Zbyte (z : Z) : byte :=
  match Byte.of_N (Z.to_N (z mod 256)) with
  | Some b => b
  | None => x00
  end.

(** Relative indices of [slice] / [subarray]: a negative index counts from
    the end, and every index is clamped to [0, len]. *)
Definition clampIndex (len i : Z) : Z :=
  if (i <? 0)%Z then Z.max (len + i) 0 else Z.min i len.

(** [buf.subarray(start, end)]: a view on the same bytes. *)
Definition subarray (buf : list byte) (start end_ : Z) : list byte :=
  let len := Z.of_nat (length buf) in
  let s := clampIndex len start in
  let e := clampIndex len end_ in
  take (Z.to_nat (e - s)) (drop (Z.to_nat s) buf).

(** [buf.subarray(start)]: [end] defaults to the length. *)
Definition subarray_from (buf : list byte) (start : Z) : list byte :=
  subarray buf start (Z.of_nat (length buf)).

(** [buf.slice(start, end)]: on a Node [Buffer] the same bytes as [subarray]
    (a view), on a [Uint8Array] a copy; the contents are computed by the
    same index rule, written out again as the source calls it by this name. *)
Definition slice (buf : list byte) (start end_ : Z) : list byte :=
  let len := Z.of_nat (length buf) in
  let s := clampIndex len start in
  let e := clampIndex len end_ in
  if (e <=? s)%Z then [] else take (Z.to_nat (e - s)) (drop (Z.to_nat s) buf).

(** [Buffer.from(arrayOfBytes)] copies the bytes. *)
Definition Buffer_from (payload : list byte) : list byte := map (fun b => b) payload.

(** [Buffer.from([version])]: one cell holding [version] modulo 256. *)
Definition Buffer_from_number (version : Z) : list byte := [Zbyte version].

(** [Buffer.concat(list)]. *)
Definition Buffer_concat (bufs : list (list byte)) : list byte := concat bufs.

(** [buf.readUInt32BE(0)] on a buffer that holds at least four bytes (the
    only way the frame decoder calls it); on a shorter buffer Node raises a
    [RangeError], rendered by [None]. *)
Definition readUInt32BE (buf : list byte) : option Z :=
  match buf with
  | b0 :: b1 :: b2 :: b3 :: _ =>
      Some (byteZ b0 * 2 ^ 24 + byteZ b1 * 2 ^ 16 + byteZ b2 * 2 ^ 8 + byteZ b3)%Z
  | _ => None
  end.

(** The four bytes [writeUInt32BE] would produce; used to build streams. *)
Definition uint32BE (n : Z) : list byte :=
  [Zbyte (n / 2 ^ 24); Zbyte (n / 2 ^ 16); Zbyte (n / 2 ^ 8); Zbyte n].

(** ** Frame decoder: [framedMessages]

    The same generator is defined, character for character, in
    scrapeHeliumRewards.js, scrapePocRewards.js, topEarnersScheduledScrape.js
    and the two scripts.

    [drainBuffer] is the inner [while (buffer.length >= 4)] loop: it returns
    the frames yielded and the buffer left.  Every iteration that does not
    leave the loop removes at least four bytes, so [fuel] bounds the number
    of iterations; [None] means the fuel ran out. *)
Fixpoint drainBuffer (fuel : nat) (buffer : list byte)
  : option (list (list byte) * list byte) :=
  match fuel with
  | O => None
  | S fuel' =>
      if (Z.of_nat (length buffer) <? 4)%Z then Some ([], buffer)
      else
        match readUInt32BE buffer with
        | None => None
        | Some messageLength =>
            if (Z.of_nat (length buffer) <? 4 + messageLength)%Z
            then Some ([], buffer)
            else
              let message := subarray buffer 4 (4 + messageLength) in
              match drainBuffer fuel' (subarray_from buffer (4 + messageLength)) with
              | Some (frames, rest) => Some (message :: frames, rest)
              | None => None
              end
        end
  end.

(** The outer [for await (const chunk of stream)] loop, started with the
    working [buffer]; the result lists the frames in the order yielded.
    When the stream ends the generator returns and the buffer is dropped. *)
Fixpoint framedMessagesFrom (buffer : list byte) (stream : list (list byte))
  : option (list (list byte)) :=
  match stream with
  | [] => Some []
  | chunk :: stream' =>
      let buffer1 := Buffer_concat [buffer; chunk] in
      match drainBuffer (S (length buffer1)) buffer1 with
      | None => None
      | Some (frames, buffer2) =>
          match framedMessagesFrom buffer2 stream' with
          | None => None
          | Some frames' => Some (frames ++ frames')
          end
      end
  end.

(** [framedMessages(stream)]: [let buffer = Buffer.alloc(0)]. *)
Definition framedMessages (stream : list (list byte)) : option (list (list byte)) :=
  framedMessagesFrom [] stream.

(** A frame on the wire: its length on four bytes, big-endian, then its bytes. *)
Definition frameBytes (frame : list byte) : list byte :=
  uint32BE (Z.of_nat (length frame)) ++ frame.

(** A buffer that does not start with a complete frame: fewer than four
    bytes, or fewer than [4 + length] bytes for the length its prefix states. *)
Definition partialFrame (buffer : list byte) : Prop :=
  (Z.of_nat (length buffer) < 4)%Z \/
  exists messageLength,
    readUInt32BE buffer = Some messageLength /\
    (Z.of_nat (length buffer) < 4 + messageLength)%Z.

(** What the inner loop does, as a relation free of fuel:
    [Drains buffer frames rest] when the loop started on [buffer] yields
    [frames] and leaves [rest]. *)
Inductive Drains : list byte -> list (list byte) -> list byte -> Prop :=
| Drains_stop buffer :
    partialFrame buffer -> Drains buffer [] buffer
| Drains_yield buffer messageLength frames rest :
    readUInt32BE buffer = Some messageLength ->
    (4 + messageLength <= Z.of_nat (length buffer))%Z ->
    Drains (subarray_from buffer (4 + messageLength)) frames rest ->
    Drains buffer (subarray buffer 4 (4 + messageLength) :: frames) rest.

(** ** SHA-256 ([crypto.createHash("sha256")])

    Node's [crypto] module is not part of the repository; the digest is
    written here after FIPS 180-4, on 32-bit words held in [Z]. *)
Module SHA256.

Definition wrap32 (x : Z) : Z := (x mod 4294967296)%Z.

Definition add32 (x y : Z) : Z := wrap32 (x + y).

Definition rotr (n x : Z) : Z :=
  Z.lor (Z.shiftr x n) (wrap32 (Z.shiftl x (32 - n))).

Definition not32 (x : Z) : Z := Z.lxor x 4294967295.

Definition Ch (x y z : Z) : Z := Z.lxor (Z.land x y) (Z.land (not32 x) z).

Definition Maj (x y z : Z) : Z :=
  Z.lxor (Z.lxor (Z.land x y) (Z.land x z)) (Z.land y z).

Definition Sum0 (x : Z) : Z := Z.lxor (Z.lxor (rotr 2 x) (rotr 13 x)) (rotr 22 x).
Definition Sum1 (x : Z) : Z := Z.lxor (Z.lxor (rotr 6 x) (rotr 11 x)) (rotr 25 x).
Definition sig0 (x : Z) : Z := Z.lxor (Z.lxor (rotr 7 x) (rotr 18 x)) (Z.shiftr x 3).
Definition sig1 (x : Z) : Z := Z.lxor (Z.lxor (rotr 17 x) (rotr 19 x)) (Z.shiftr x 10).

(** The sixty-four round constants. *)
Definition K : list Z :=
  [1116352408; 1899447441; 3049323471; 3921009573; 961987163; 1508970993;
   2453635748; 2870763221; 3624381080; 310598401; 607225278; 1426881987;
   1925078388; 2162078206; 2614888103; 3248222580; 3835390401; 4022224774;
   264347078; 604807628; 770255983; 1249150122; 1555081692; 1996064986;
   2554220882; 2821834349; 2952996808; 3210313671; 3336571891; 3584528711;
   113926993; 338241895; 666307205; 773529912; 1294757372; 1396182291;
   1695183700; 1986661051; 2177026350; 2456956037; 2730485921; 2820302411;
   3259730800; 3345764771; 3516065817; 3600352804; 4094571909; 275423344;
   430227734; 506948616; 659060556; 883997877; 958139571; 1322822218;
   1537002063; 1747873779; 1955562222; 2024104815; 2227730452; 2361852424;
   2428436474; 2756734187; 3204031479; 3329325298]%Z.

(** The eight working words. *)
Record state := State {
  sa : Z; sb : Z; sc : Z; sd : Z; se : Z; sf : Z; sg : Z; sh : Z
}.

Definition initial : state :=
  State 1779033703 3144134277 1013904242 2773480762
        1359893119 2600822924 528734635 1541459225.

(** Padding: the byte 0x80, zero bytes up to 56 modulo 64, then the bit
    length on eight bytes, big-endian. *)
Definition be64 (n : Z) : list byte :=
  map (fun k => Zbyte (Z.shiftr n (8 * k))) [7; 6; 5; 4; 3; 2; 1; 0]%Z.

Definition pad (msg : list byte) : list byte :=
  let len := Z.of_nat (length msg) in
  msg ++ [x80] ++ repeat x00 (Z.to_nat ((55 - len) mod 64)) ++ be64 (8 * len).

Fixpoint wordsOf (bs : list byte) : list Z :=
  match bs with
  | b0 :: b1 :: b2 :: b3 :: rest =>
      (byteZ b0 * 16777216 + byteZ b1 * 65536 + byteZ b2 * 256 + byteZ b3)%Z
      :: wordsOf rest
  | _ => []
  end.

(** The message schedule, latest word first: sixteen words of the block,
    extended to sixty-four. *)
Definition nextWord (ws : list Z) : Z :=
  add32 (add32 (add32 (sig1 (nth 1 ws 0%Z)) (nth 6 ws 0%Z)) (sig0 (nth 14 ws 0%Z)))
        (nth 15 ws 0%Z).

Fixpoint extend (n : nat) (ws : list Z) : list Z :=
  match n with
  | O => ws
  | S n' => extend n' (nextWord ws :: ws)
  end.

Definition schedule (block : list Z) : list Z := rev (extend 48 (rev block)).

Definition round (s : state) (kw : Z * Z) : state :=
  let '(k, w) := kw in
  let t1 := add32 (add32 (add32 (add32 (sh s) (Sum1 (se s))) (Ch (se s) (sf s) (sg s))) k) w in
  let t2 := add32 (Sum0 (sa s)) (Maj (sa s) (sb s) (sc s)) in
  State (add32 t1 t2) (sa s) (sb s) (sc s) (add32 (sd s) t1) (se s) (sf s) (sg s).

Definition compress (s : state) (block : list Z) : state :=
  let r := fold_left round (combine K (schedule block)) s in
  State (add32 (sa s) (sa r)) (add32 (sb s) (sb r)) (add32 (sc s) (sc r))
        (add32 (sd s) (sd r)) (add32 (se s) (se r)) (add32 (sf s) (sf r))
        (add32 (sg s) (sg r)) (add32 (sh s) (sh r)).

(** Blocks of sixteen words; [n] is the number of blocks. *)
Fixpoint blocks (n : nat) (ws : list Z) : list (list Z) :=
  match n with
  | O => []
  | S n' => take 16 ws :: blocks n' (drop 16 ws)
  end.

Definition wordBytes (x : Z) : list byte :=
  [Zbyte (Z.shiftr x 24); Zbyte (Z.shiftr x 16); Zbyte (Z.shiftr x 8); Zbyte x].

Definition output (s : state) : list byte :=
  wordBytes (sa s) ++ wordBytes (sb s) ++ wordBytes (sc s) ++ wordBytes (sd s) ++
  wordBytes (se s) ++ wordBytes (sf s) ++ wordBytes (sg s) ++ wordBytes (sh s).

(** [crypto.createHash("sha256").update(msg).digest()]. *)
Definition digest (msg : list byte) : list byte :=
  let ws := wordsOf (pad msg) in
  output (fold_left compress (blocks (length ws / 16) ws) initial).

End SHA256.

(** ** Exceptions

    A JavaScript call either returns a value or throws; [tryCatch] is
    [try { body } catch (e) { handler }]. *)
Inductive outcome (A : Type) : Type :=
| Returns (a : A)
| Throws (message : string).
Arguments Returns {A} a.
Arguments Throws {A} message.

Definition tryCatch {A : Type} (body : outcome A) (handler : string -> outcome A)
  : outcome A :=
  match body with
  | Returns a => Returns a
  | Throws e => handler e
  end.

Definition bindOutcome {A B : Type} (x : outcome A) (k : A -> outcome B) : outcome B :=
  match x with
  | Returns a => k a
  | Throws e => Throws e
  end.

(** ** Base58 ([bs58], the npm package over [base-x])

    The package is a dependency, not part of the repository.  It is modelled
    by what it computes: every leading zero byte becomes the character '1',
    the remaining bytes, read as one big-endian number, are written in base
    58 without leading zero digit; [decode] inverts this and throws
    ["Non-base58 character"] on a character outside the alphabet. *)
Module bs58.

Definition ALPHABET : string :=
  "123456789ABCDEFGHJKLMNPQRSTUVWXYZabcdefghijkmnopqrstuvwxyz".

Definition alphabet : list ascii := list_ascii_of_string ALPHABET.

Definition digitChar (d : N) : ascii := nth (N.to_nat d) alphabet "1"%char.

Fixpoint indexOf (c : ascii) (l : list ascii) (i : N) : option N :=
  match l with
  | [] => None
  | x :: l' => if Ascii.eqb c x then Some i else indexOf c l' (N.succ i)
  end.

Definition charDigit (c : ascii) : option N := indexOf c alphabet 0%N.

(** Digits of [n] in [base], least significant first; it stops at zero, so
    the most significant digit produced is not zero. *)
Fixpoint digitsLE (fuel : nat) (base n : N) : list N :=
  match fuel with
  | O => []
  | S fuel' =>
      if (n =? 0)%N then [] else (n mod base)%N :: digitsLE fuel' base (n / base)%N
  end.

(** Each division at least halves [n]: [S (log2 n)] steps reach zero. *)
Definition digits (base n : N) : list N :=
  rev (digitsLE (S (N.to_nat (N.log2 n))) base n).

Definition valueLE (base : N) (ds : list N) : N :=
  fold_right (fun d acc => (d + base * acc)%N) 0%N ds.

(** The number written by big-endian digits. *)
Definition fromDigits (base : N) (ds : list N) : N := valueLE base (rev ds).

Fixpoint leadingZeroes (ds : list N) : nat :=
  match ds with
  | 0%N :: ds' => S (leadingZeroes ds')
  | _ => O
  end.

Definition byteOfDigit (d : N) : byte := Zbyte (Z.of_N d).

(** Little-endian digits without a zero in the most significant place. *)
Fixpoint canonicalLE (ds : list N) : bool :=
  match ds with
  | [] => true
  | [d] => negb (d =? 0)%N
  | _ :: ds' => canonicalLE ds'
  end.

(** Fuel [fuel] is enough to write [n]. *)
Definition enoughFuel (fuel : nat) (n : N) : Prop :=
  n = 0%N \/ (N.to_nat (N.log2 n) < fuel)%nat.

(** [bs58.encode(source)]. *)
Definition encode (source : list byte) : string :=
  let ds := map Byte.to_N source in
  let zeroes := leadingZeroes ds in
  string_of_list_ascii
    (repeat "1"%char zeroes ++ map digitChar (digits 58 (fromDigits 256 (drop zeroes ds)))).

(** [bs58.decode(string)]. *)
Definition decode (s : string) : outcome (list byte) :=
  match mapM charDigit (list_ascii_of_string s) with
  | None => Throws "Non-base58 character"
  | Some ds =>
      let zeroes := leadingZeroes ds in
      Returns (repeat x00 zeroes
               ++ map byteOfDigit (digits 256 (fromDigits 58 (drop zeroes ds))))
  end.

End bs58.

(** ** [buf.toString("hex")] and [buf.toString("base64")] *)

Definition hexDigit (d : Z) : ascii :=
  nth (Z.to_nat d) (list_ascii_of_string "0123456789abcdef") "0"%char.

Definition toHex (buf : list byte) : string :=
  string_of_list_ascii
    (flat_map (fun b => [hexDigit (byteZ b / 16); hexDigit (byteZ b mod 16)]) buf).

Definition base64Char (d : Z) : ascii :=
  nth (Z.to_nat d)
      (list_ascii_of_string
         "ABCDEFGHIJKLMNOPQRSTUVWXYZabcdefghijklmnopqrstuvwxyz0123456789+/")
      "A"%char.

Fixpoint base64Chars (buf : list byte) : list ascii :=
  match buf with
  | [] => []
  | [b0] =>
      [base64Char (byteZ b0 / 4); base64Char (byteZ b0 mod 4 * 16); "="%char; "="%char]
  | [b0; b1] =>
      [base64Char (byteZ b0 / 4);
       base64Char (byteZ b0 mod 4 * 16 + byteZ b1 / 16);
       base64Char (byteZ b1 mod 16 * 4); "="%char]
  | b0 :: b1 :: b2 :: rest =>
      [base64Char (byteZ b0 / 4);
       base64Char (byteZ b0 mod 4 * 16 + byteZ b1 / 16);
       base64Char (byteZ b1 mod 16 * 4 + byteZ b2 / 64);
       base64Char (byteZ b2 mod 64)] ++ base64Chars rest
  end.

Definition toBase64 (buf : list byte) : string :=
  string_of_list_ascii (base64Chars buf).

(** ** Checksummed base58

    [base58checkEncode(data, version = 0)], defined alike in every script of
    the repository. *)
Definition base58checkEncode (data : list byte) (version : Z) : string :=
  let versionedData := Buffer_concat [Buffer_from_number version; data] in
  let firstHash := SHA256.digest versionedData in
  let secondHash := SHA256.digest firstHash in
  let checksum := slice secondHash 0 4 in
  let finalData := Buffer_concat [versionedData; checksum] in
  bs58.encode finalData.

(** [base58checkEncodeRaw(payload, version = 0)] of scrapePocRewards.js. *)
Definition base58checkEncodeRaw (payload : list byte) (version : Z) : string :=
  let data := Buffer_concat [Buffer_from_number version; Buffer_from payload] in
  let chk := subarray (SHA256.digest (SHA256.digest data)) 0 4 in
  bs58.encode (Buffer_concat [data; chk]).

(** ** Target device formats

    The object returned by [getTargetDeviceFormats]; [base58check] is [None]
    when the property is absent. *)
Record DeviceKeyFormats := {
  original : string;
  rawBase58 : string;
  hex : string;
  base64 : string;
  base58check : option string
}.


(** ** Object enumerator: [listGzKeysInRange]

    Defined alike in topEarnersScheduledScrape.js and the two scripts. *)

Definition isPrefixOf (p l : list ascii) : bool :=
  (length p <=? length l)%nat && bool_decide (take (length p) l = p).

(** [s.endsWith(suffix)]. *)
Definition endsWith (s suffix : string) : bool :=
  isPrefixOf (rev (list_ascii_of_string suffix)) (rev (list_ascii_of_string s)).

(** [\d] *)
Definition isDigit (c : ascii) : bool :=
  (48 <=? nat_of_ascii c)%nat && (nat_of_ascii c <=? 57)%nat.

(** [key.match(/\.(\d{13})\.gz$/)]: the capture group when the key ends
    with a dot, thirteen digits and ".gz"; [None] for JavaScript's [null].
    The key is read from its end. *)
Definition matchTimestamp (key : string) : option string :=
  match rev (list_ascii_of_string key) with
  | "z"%char :: "g"%char :: "."%char :: rest =>
      let digits := take 13 rest in
      match drop 13 rest with
      | "."%char :: _ =>
          if (length digits =? 13)%nat && forallb isDigit digits
          then Some (string_of_list_ascii (rev digits))
          else None
      | _ => None
      end
  | _ => None
  end.

(** [parseInt(m[1], 10)] on a string of decimal digits. *)
Definition parseIntDigits (digits : string) : Z :=
  fold_left (fun acc c => (acc * 10 + (Z.of_nat (nat_of_ascii c) - 48))%Z)
            (list_ascii_of_string digits) 0%Z.

(** [const ts = m ? parseInt(m[1], 10) : 0]. *)
Definition timestampOfKey (key : string) : Z :=
  match matchTimestamp key with
  | Some digits => parseIntDigits digits
  | None => 0%Z
  end.

Record ListObjectsV2Command := {
  Bucket : string;
  Prefix : string;
  ContinuationToken : option string;
  MaxKeys : Z;
  RequestPayer : string
}.

Record S3Object := { Key : option string }.

Record ListObjectsV2Output := {
  Contents : option (list S3Object);
  IsTruncated : bool;
  NextContinuationToken : option string
}.

(** The entries [{ key, ts }] collected. *)
Record KeyTs := { key : string; ts : Z }.

(** [x || ""] on an optional string. *)
Definition orEmpty (x : option string) : string :=
  match x with
  | Some s => s
  | None => ""
  end.

(** [!token]: [undefined] and the empty string are falsy. *)
Definition noToken (token : option string) : bool :=
  match token with
  | None => true
  | Some t => String.eqb t ""
  end.

(** One turn of [for (const obj of contents)]. *)
Definition collectKey (startTs endTs : Z) (keys : list KeyTs) (obj : S3Object)
  : list KeyTs :=
  let key := orEmpty (Key obj) in
  if negb (endsWith key ".gz") then keys
  else
    let ts := timestampOfKey key in
    if (startTs <=? ts)%Z && (ts <=? endTs)%Z
    then keys ++ [{| key := key; ts := ts |}]
    else keys.

(** [keys.sort((a, b) => a.ts - b.ts)]: the sort of an array is stable, so
    its result is the one of any stable sort; insertion is used here. *)
Fixpoint insertByTs (x : KeyTs) (l : list KeyTs) : list KeyTs :=
  match l with
  | [] => [x]
  | y :: l' => if (ts x <=? ts y)%Z then x :: l else y :: insertByTs x l'
  end.

Definition sortByTs (l : list KeyTs) : list KeyTs := fold_right insertByTs [] l.

Section ObjectEnumerator.

(** The object store: [s3.send(new ListObjectsV2Command(...))]. *)
Variable send : ListObjectsV2Command -> outcome ListObjectsV2Output.
Variable BUCKET : string.

(** The [while (true)] loop; [None] when [fuel] requests were not enough to
    reach the end of the listing. *)
Fixpoint listLoop (fuel : nat) (prefix : string) (startTs endTs : Z)
         (continuationToken : option string) (keys : list KeyTs)
  : option (outcome (list KeyTs)) :=
  match fuel with
  | O => None
  | S fuel' =>
      match send {| Bucket := BUCKET; Prefix := prefix;
                    ContinuationToken := continuationToken;
                    MaxKeys := 1000; RequestPayer := "requester" |} with
      | Throws e => Some (Throws e)
      | Returns resp =>
          let contents := match Contents resp with Some c => c | None => [] end in
          let keys' := fold_left (collectKey startTs endTs) contents keys in
          if negb (IsTruncated resp) || noToken (NextContinuationToken resp)
          then Some (Returns keys')
          else listLoop fuel' prefix startTs endTs (NextContinuationToken resp) keys'
      end
  end.

Definition listGzKeysInRange (fuel : nat) (prefix : string) (startTs endTs : Z)
  : option (outcome (list KeyTs)) :=
  match listLoop fuel prefix startTs endTs None [] with
  | Some (Returns keys) => Some (Returns (sortByTs keys))
  | other => other
  end.

(** [Listing token pages]: asked from [token] on, the store answers with
    [pages], each but the last truncated and carrying the token of the next,
    the last one ending the listing. *)
Inductive Listing (prefix : string) : option string -> list ListObjectsV2Output -> Prop :=
| Listing_last token resp :
    send {| Bucket := BUCKET; Prefix := prefix; ContinuationToken := token;
            MaxKeys := 1000; RequestPayer := "requester" |} = Returns resp ->
    negb (IsTruncated resp) || noToken (NextContinuationToken resp) = true ->
    Listing prefix token [resp]
| Listing_next token resp pages :
    send {| Bucket := BUCKET; Prefix := prefix; ContinuationToken := token;
            MaxKeys := 1000; RequestPayer := "requester" |} = Returns resp ->
    negb (IsTruncated resp) || noToken (NextContinuationToken resp) = false ->
    Listing prefix (NextContinuationToken resp) pages ->
    Listing prefix token (resp :: pages).

End ObjectEnumerator.

(** The objects of a page, and the keys the enumerator keeps among a list
    of objects. *)
Definition pageObjects (resp : ListObjectsV2Output) : list S3Object :=
  match Contents resp with Some c => c | None => [] end.

Definition keptKey (startTs endTs : Z) (k : string) : bool :=
  endsWith k ".gz" && ((startTs <=? timestampOfKey k)%Z && (timestampOfKey k <=? endTs)%Z).

Definition keptKeys (startTs endTs : Z) (objs : list S3Object) : list KeyTs :=
  map (fun k => {| key := k; ts := timestampOfKey k |})
      (filter (fun k => keptKey startTs endTs k = true)
              (map (fun obj => orEmpty (Key obj)) objs)).

(** A store of two pages, used to run the enumerator on an example. *)
Definition twoPageStore (cmd : ListObjectsV2Command) : outcome ListObjectsV2Output :=
  match ContinuationToken cmd with
  | None =>
      Returns {| Contents := Some [ {| Key := Some "p/shares.1700000300000.gz" |};
                                    {| Key := Some "p/shares.1700000100000.gz" |};
                                    {| Key := Some "p/readme.txt" |} ];
                 IsTruncated := true;
                 NextContinuationToken := Some "page-2" |}
  | Some _ =>
      Returns {| Contents := Some [ {| Key := Some "p/shares.1700000200000.gz" |};
                                    {| Key := Some "p/shares.1600000000000.gz" |};
                                    {| Key := None |} ];
                 IsTruncated := false;
                 NextContinuationToken := None |}
  end.

(** ** The wire reader ([protobufjs/minimal], [Reader])

    The reader is a dependency, not part of the repository; its methods are
    written here after protobufjs' reader.js.  A read past the end of the
    buffer gives [undefined], for which [& 127] is 0 and [< 128] is false. *)
Module Reader.

Record t := { buf : list byte; pos : Z; len : Z }.

(** [protobuf.Reader.create(buffer)] *)
Definition create (buffer : list byte) : t :=
  {| buf := buffer; pos := 0; len := Z.of_nat (length buffer) |}.

Definition setPos (r : t) (p : Z) : t := {| buf := buf r; pos := p; len := len r |}.

(** [this.buf[i]] *)
Definition octet (r : t) (i : Z) : option Z :=
  if (i <? 0)%Z then None else option_map byteZ (nth_error (buf r) (Z.to_nat i)).

Definition bits (o : option Z) (mask : Z) : Z :=
  match o with
  | Some b => Z.land b mask
  | None => 0%Z
  end.

Definition below128 (o : option Z) : bool :=
  match o with
  | Some b => (b <? 128)%Z
  | None => false
  end.

(** [x << n] followed by [>>> 0]: the low 32 bits. *)
Definition shl32 (x n : Z) : Z := (Z.shiftl x n mod 4294967296)%Z.

(** [uint32()]: up to five octets are read; on a longer varint five more are
    passed over. *)
Definition uint32 (r : t) : outcome (Z * t) :=
  let p := pos r in
  let o0 := octet r p in
  let v0 := bits o0 127 in
  if below128 o0 then Returns (v0, setPos r (p + 1)) else
  let o1 := octet r (p + 1) in
  let v1 := Z.lor v0 (shl32 (bits o1 127) 7) in
  if below128 o1 then Returns (v1, setPos r (p + 2)) else
  let o2 := octet r (p + 2) in
  let v2 := Z.lor v1 (shl32 (bits o2 127) 14) in
  if below128 o2 then Returns (v2, setPos r (p + 3)) else
  let o3 := octet r (p + 3) in
  let v3 := Z.lor v2 (shl32 (bits o3 127) 21) in
  if below128 o3 then Returns (v3, setPos r (p + 4)) else
  let o4 := octet r (p + 4) in
  let v4 := Z.lor v3 (shl32 (bits o4 15) 28) in
  if below128 o4 then Returns (v4, setPos r (p + 5)) else
  if (len r <? p + 10)%Z then Throws "index out of range"
  else Returns (v4, setPos r (p + 10)).

(** The loops of [readLongVarint]: [n] octets at most, each giving seven bits
    to [acc] at [shift]; [checked] loops test [pos >= len] first.  The
    boolean tells whether an octet below 128 ended the varint. *)
Fixpoint groups (checked : bool) (n : nat) (shift : Z) (r : t) (acc : Z)
  : outcome (Z * t * bool) :=
  match n with
  | O => Returns (acc, r, false)
  | S n' =>
      if checked && (len r <=? pos r)%Z then Throws "index out of range"
      else
        let o := octet r (pos r) in
        let acc' := Z.lor acc (shl32 (bits o 127) shift) in
        let r' := setPos r (pos r + 1) in
        if below128 o then Returns (acc', r', true)
        else groups checked n' (shift + 7) r' acc'
  end.

(** The high word: octets six to ten. *)
Definition highGroups (lo hi : Z) (r : t) : outcome (Z * t) :=
  match groups (negb (4 <? len r - pos r)%Z) 5 3 r hi with
  | Throws e => Throws e
  | Returns (hi', r', true) => Returns ((lo + hi' * 4294967296)%Z, r')
  | Returns (_, _, false) => Throws "invalid varint encoding"
  end.

(** [uint64()]: the value of the varint read by [readLongVarint]. *)
Definition uint64 (r : t) : outcome (Z * t) :=
  if (4 <? len r - pos r)%Z then
    match groups false 4 0 r 0 with
    | Throws e => Throws e
    | Returns (lo, r', true) => Returns (lo, r')
    | Returns (lo, r', false) =>
        let o := octet r' (pos r') in
        let lo' := Z.lor lo (shl32 (bits o 127) 28) in
        let hi := Z.shiftr (bits o 127) 4 in
        let r'' := setPos r' (pos r' + 1) in
        if below128 o then Returns ((lo' + hi * 4294967296)%Z, r'')
        else highGroups lo' hi r''
    end
  else
    match groups true 3 0 r 0 with
    | Throws e => Throws e
    | Returns (lo, r', true) => Returns (lo, r')
    | Returns (lo, r', false) =>
        let o := octet r' (pos r') in
        Returns (Z.lor lo (shl32 (bits o 127) 21), setPos r' (pos r' + 1))
    end.

(** [skip(length)] *)
Definition skip (r : t) (length : Z) : outcome t :=
  if (len r <? pos r + length)%Z then Throws "index out of range"
  else Returns (setPos r (pos r + length)).

End Reader.

(** A reader that read on: same length, position not lower. *)
Definition readOn (r r' : Reader.t) : Prop :=
  Reader.len r' = Reader.len r /\ (Reader.pos r <= Reader.pos r')%Z.

(** Octets still to read. *)
Definition remaining (r : Reader.t) : nat := Z.to_nat (Reader.len r - Reader.pos r).

(** ** PoC scraper: src/scrapePocRewards.js *)

(** [Buffer.compare(a, b) === 0] *)
Fixpoint bufferEqual (a b : list byte) : bool :=
  match a, b with
  | [], [] => true
  | x :: a', y :: b' => Byte.eqb x y && bufferEqual a' b'
  | _, _ => false
  end.

(** A number as JavaScript prints it in a string. *)
Definition numberToString (n : Z) : string :=
  if (n <? 0)%Z
  then ("-" ++ NilZero.string_of_uint (N.to_uint (Z.to_N (- n))))%string
  else NilZero.string_of_uint (N.to_uint (Z.to_N n)).

(** [s.includes(sub)] *)
Fixpoint includesChars (s sub : list ascii) : bool :=
  isPrefixOf sub s ||
  match s with
  | [] => false
  | _ :: s' => includesChars s' sub
  end.

Definition includes (s sub : string) : bool :=
  includesChars (list_ascii_of_string s) (list_ascii_of_string sub).

(** [new TextDecoder().decode(bytes)] on 7-bit text; an octet above 127
    (where UTF-8 decoding would join octets or substitute U+FFFD) is kept as
    one character. *)
Definition TextDecoder_decode (bytes : list byte) : string :=
  string_of_list_ascii (map ascii_of_byte bytes).

(** [DATA_SOURCES.MOBILE_VERIFIED.prefix], the same in both scrapers. *)
Definition MOBILE_VERIFIED_prefix : string :=
  "foundation-mobile-verified/mobile_network_reward_shares_v1".

Module ScrapePocRewardsJs.

(** Loops over a message read a tag in every turn, hence at least one octet:
    [fuel] bounds the turns, and [None] means it ran out. *)
Fixpoint extractSubmessageLoop (fuel : nat) (frame : list byte) (fieldNo : Z)
         (r : Reader.t) : option (outcome (option (list byte))) :=
  match fuel with
  | O => None
  | S fuel' =>
      if (Reader.pos r <? Reader.len r)%Z then
        match Reader.uint32 r with
        | Throws e => Some (Throws e)
        | Returns (tag, r1) =>
            let field := Z.shiftr tag 3 in
            let wire := Z.land tag 7 in
            if (wire =? 2)%Z then
              match Reader.uint32 r1 with
              | Throws e => Some (Throws e)
              | Returns (len, r2) =>
                  let start := Reader.pos r2 in
                  let end_ := (start + len)%Z in
                  let slice := subarray frame start end_ in
                  let r3 := Reader.setPos r2 end_ in
                  if (field =? fieldNo)%Z then Some (Returns (Some slice))
                  else extractSubmessageLoop fuel' frame fieldNo r3
              end
            else if (wire =? 0)%Z then
              match Reader.uint64 r1 with
              | Throws e => Some (Throws e)
              | Returns (_, r2) => extractSubmessageLoop fuel' frame fieldNo r2
              end
            else if (wire =? 1)%Z then
              match Reader.skip r1 8 with
              | Throws e => Some (Throws e)
              | Returns r2 => extractSubmessageLoop fuel' frame fieldNo r2
              end
            else if (wire =? 5)%Z then
              match Reader.skip r1 4 with
              | Throws e => Some (Throws e)
              | Returns r2 => extractSubmessageLoop fuel' frame fieldNo r2
              end
            else Some (Throws ("unexpected wire type " ++ numberToString wire))
        end
      else Some (Returns None)
  end.

(** [extractSubmessage(frame, fieldNo)]: the bytes of the first
    length-delimited field [fieldNo], or [null]. *)
Definition extractSubmessage (frame : list byte) (fieldNo : Z)
  : option (outcome (option (list byte))) :=
  extractSubmessageLoop (S (length frame)) frame fieldNo (Reader.create frame).

Fixpoint getPeriodLoop (fuel : nat) (r : Reader.t) (start end_ : option Z)
  : option (outcome (option Z * option Z)) :=
  match fuel with
  | O => None
  | S fuel' =>
      if (Reader.pos r <? Reader.len r)%Z then
        match Reader.uint32 r with
        | Throws e => Some (Throws e)
        | Returns (tag, r1) =>
            let field := Z.shiftr tag 3 in
            let wire := Z.land tag 7 in
            if (wire =? 0)%Z then (* varint *)
              match Reader.uint64 r1 with
              | Throws e => Some (Throws e)
              | Returns (n, r2) =>
                  let start' := if (field =? 1)%Z then Some n else start in
                  let end' := if (field =? 2)%Z then Some n else end_ in
                  getPeriodLoop fuel' r2 start' end'
              end
            else if (wire =? 2)%Z then (* skip length-delimited *)
              match Reader.uint32 r1 with
              | Throws e => Some (Throws e)
              | Returns (len, r2) =>
                  getPeriodLoop fuel' (Reader.setPos r2 (Reader.pos r2 + len)) start end_
              end
            else if (wire =? 1)%Z then
              match Reader.skip r1 8 with
              | Throws e => Some (Throws e)
              | Returns r2 => getPeriodLoop fuel' r2 start end_
              end
            else if (wire =? 5)%Z then
              match Reader.skip r1 4 with
              | Throws e => Some (Throws e)
              | Returns r2 => getPeriodLoop fuel' r2 start end_
              end
            else getPeriodLoop fuel' r1 start end_
        end
      else Some (Returns (start, end_))
  end.

(** [getPeriodFromFrame(frame)]: [{ start, end }], or [null] when one of
    the two was not seen. *)
Definition getPeriodFromFrame (frame : list byte) : option (outcome (option (Z * Z))) :=
  match getPeriodLoop (S (length frame)) (Reader.create frame) None None with
  | None => None
  | Some (Throws e) => Some (Throws e)
  | Some (Returns (Some start, Some end_)) => Some (Returns (Some (start, end_)))
  | Some (Returns _) => Some (Returns None)
  end.

Record RadioRewardV2 := {
  hotspotId : option string;
  cbsdId : option string;
  basePoc : Z;
  boostedPoc : Z;
  totalPoc : Z
}.

(** The variables of the loop of [parseRadioRewardV2]. *)
Record rr2State := {
  hotspotPayload : option (list byte);
  cbsdIdSeen : option string;
  basePocSeen : Z;
  boostedPocSeen : Z
}.

Fixpoint parseRadioRewardV2Loop (fuel : nat) (rr2 : list byte) (r : Reader.t)
         (st : rr2State) : option (outcome rr2State) :=
  match fuel with
  | O => None
  | S fuel' =>
      if (Reader.pos r <? Reader.len r)%Z then
        match Reader.uint32 r with
        | Throws e => Some (Throws e)
        | Returns (tag, r1) =>
            let field := Z.shiftr tag 3 in
            let wire := Z.land tag 7 in
            if (wire =? 2)%Z then
              match Reader.uint32 r1 with
              | Throws e => Some (Throws e)
              | Returns (len, r2) =>
                  let start := Reader.pos r2 in
                  let end_ := (start + len)%Z in
                  let st1 :=
                    if (field =? 1)%Z
                    then {| hotspotPayload := Some (subarray rr2 start end_);
                            cbsdIdSeen := cbsdIdSeen st;
                            basePocSeen := basePocSeen st;
                            boostedPocSeen := boostedPocSeen st |}
                    else st in
                  let st2 :=
                    if (field =? 2)%Z
                    then {| hotspotPayload := hotspotPayload st1;
                            cbsdIdSeen := Some (TextDecoder_decode (subarray rr2 start end_));
                            basePocSeen := basePocSeen st1;
                            boostedPocSeen := boostedPocSeen st1 |}
                    else st1 in
                  parseRadioRewardV2Loop fuel' rr2 (Reader.setPos r2 end_) st2
              end
            else if (wire =? 0)%Z then
              match Reader.uint64 r1 with
              | Throws e => Some (Throws e)
              | Returns (n, r2) =>
                  let st1 :=
                    if (field =? 7)%Z
                    then {| hotspotPayload := hotspotPayload st;
                            cbsdIdSeen := cbsdIdSeen st;
                            basePocSeen := n;
                            boostedPocSeen := boostedPocSeen st |}
                    else st in
                  let st2 :=
                    if (field =? 8)%Z
                    then {| hotspotPayload := hotspotPayload st1;
                            cbsdIdSeen := cbsdIdSeen st1;
                            basePocSeen := basePocSeen st1;
                            boostedPocSeen := n |}
                    else st1 in
                  parseRadioRewardV2Loop fuel' rr2 r2 st2
              end
            else if (wire =? 1)%Z then
              match Reader.skip r1 8 with
              | Throws e => Some (Throws e)
              | Returns r2 => parseRadioRewardV2Loop fuel' rr2 r2 st
              end
            else if (wire =? 5)%Z then
              match Reader.skip r1 4 with
              | Throws e => Some (Throws e)
              | Returns r2 => parseRadioRewardV2Loop fuel' rr2 r2 st
              end
            else parseRadioRewardV2Loop fuel' rr2 r1 st
        end
      else Some (Returns st)
  end.

(** [parseRadioRewardV2(rr2)] *)
Definition parseRadioRewardV2 (rr2 : list byte) : option (outcome RadioRewardV2) :=
  match parseRadioRewardV2Loop (S (length rr2)) rr2 (Reader.create rr2)
          {| hotspotPayload := None; cbsdIdSeen := None;
             basePocSeen := 0; boostedPocSeen := 0 |} with
  | None => None
  | Some (Throws e) => Some (Throws e)
  | Some (Returns st) =>
      let hotspotId :=
        match hotspotPayload st with
        | None => None
        | Some payload =>
            if (Z.of_nat (length payload) =? 264)%Z
            then Some (base58checkEncodeRaw payload 0)
            else if (Z.of_nat (length payload) =? 32)%Z
            then Some (bs58.encode (Buffer_from payload))
            else Some ("<unexpected hotspot_key length "
                       ++ numberToString (Z.of_nat (length payload)) ++ " bytes>")%string
        end in
      Some (Returns {| hotspotId := hotspotId;
                       cbsdId := cbsdIdSeen st;
                       basePoc := basePocSeen st;
                       boostedPoc := boostedPocSeen st;
                       totalPoc := (basePocSeen st + boostedPocSeen st)%Z |})
  end.

(** [Object.entries(targetFormats)], string values only. *)
Definition formatValues (targetFormats : DeviceKeyFormats) : list string :=
  [original targetFormats; rawBase58 targetFormats; hex targetFormats;
   base64 targetFormats]
  ++ match base58check targetFormats with
     | Some s => [s]
     | None => []
     end.

(** [matchesTargetDevice(deviceKey, targetFormats)] *)
Definition matchesTargetDevice (deviceKey : option string)
           (targetFormats : DeviceKeyFormats) : bool :=
  match deviceKey with
  | None => false
  | Some deviceKey =>
      if String.eqb deviceKey "" then false
      else if String.eqb deviceKey (original targetFormats) then true
      else
        let sameBytes :=
          match bs58.decode deviceKey, bs58.decode (original targetFormats) with
          | Returns decoded, Returns targetDecoded =>
              bufferEqual decoded targetDecoded
          | _, _ => false (* Ignore decode errors *)
          end in
        if sameBytes then true
        else existsb (fun value => includes deviceKey value) (formatValues targetFormats)
  end.

(** An entry pushed on [pocRewards]. *)
Record PocReward := {
  file : string;
  timestamp : Z;                 (* [date] is [new Date(timestamp)] *)
  pocBase : Z;
  pocBoosted : Z;
  pocTotal : Z;
  rewardType : string;
  dataSource : string;
  period : option (Z * Z);
  pocHotspotId : option string;
  pocCbsdId : option string
}.

(** What the body of [for await (const frame of framedMessages(gunzip))]
    does with one frame; an error thrown inside the [try] leaves it. *)
Inductive frameResult :=
| Pushed (entry : PocReward)   (* the frame matched: an entry was pushed *)
| Passed                       (* the [try] block ended without a push *)
| Skipped (error : string).    (* an error was caught: "Ignore decode errors" *)

Definition scrapeFrame (fileKey : string) (fileTimestamp : Z)
           (targetFormats : DeviceKeyFormats) (frame : list byte)
  : option frameResult :=
  match getPeriodFromFrame frame with
  | None => None
  | Some (Throws e) => Some (Skipped e)
  | Some (Returns period) =>
      match extractSubmessage frame 8 with
      | None => None
      | Some (Throws e) => Some (Skipped e)
      | Some (Returns None) => Some Passed
      | Some (Returns (Some rr2)) =>
          match parseRadioRewardV2 rr2 with
          | None => None
          | Some (Throws e) => Some (Skipped e)
          | Some (Returns rr) =>
              let isTargetDevice :=
                matchesTargetDevice (cbsdId rr) targetFormats
                || matchesTargetDevice (hotspotId rr) targetFormats in
              if isTargetDevice
              then Some (Pushed {| file := fileKey;
                                   timestamp := fileTimestamp;
                                   pocBase := basePoc rr;
                                   pocBoosted := boostedPoc rr;
                                   pocTotal := totalPoc rr;
                                   rewardType := "mobile_verified_poc";
                                   dataSource := MOBILE_VERIFIED_prefix;
                                   period := period;
                                   pocHotspotId := hotspotId rr;
                                   pocCbsdId := cbsdId rr |})
              else Some Passed
          end
      end
  end.

(** The frames of one object, in order: the entries pushed. *)
Fixpoint scrapeFrames (fileKey : string) (fileTimestamp : Z)
         (targetFormats : DeviceKeyFormats) (frames : list (list byte))
  : option (list PocReward) :=
  match frames with
  | [] => Some []
  | frame :: frames' =>
      match scrapeFrame fileKey fileTimestamp targetFormats frame,
            scrapeFrames fileKey fileTimestamp targetFormats frames' with
      | Some (Pushed entry), Some entries => Some (entry :: entries)
      | Some _, Some entries => Some entries
      | _, _ => None
      end
  end.

End ScrapePocRewardsJs.

(** Example frames for the PoC scraper.  [hotspotKey32] is a hotspot key
    of 32 bytes; [radioRewardV2] a radio_reward_v2 message with this key in
    field 1, base PoC 100 in field 7 and boosted PoC 50 in field 8. *)
Definition hotspotKey32 : list byte := map (fun n => Zbyte (Z.of_nat n)) (seq 1 32).

Definition radioRewardV2 : list byte :=
  [x0a; x20] ++ hotspotKey32 ++ [x38; x64; x40; x32].

(** Period 10 to 20 (fields 1 and 2), the radio_reward_v2 in field 8, then a
    tag of field 1 with wire type 3. *)
Definition frameTrailingGroup : list byte :=
  [x08; x0a; x10; x14; x42; x26] ++ radioRewardV2 ++ [x0b].

(** The same fields after a leading tag of wire type 3. *)
Definition frameLeadingGroup : list byte :=
  [x0b; x08; x0a; x10; x14; x42; x26] ++ radioRewardV2.

(** A well-formed frame: the fields only. *)
Definition frameWellFormed : list byte :=
  [x08; x0a; x10; x14; x42; x26] ++ radioRewardV2.

(** The formats of the target whose key is the base58 form of [hotspotKey32]. *)
Definition targetOfHotspotKey32 : DeviceKeyFormats :=
  {| original := "4wBqpZM9xaSheZzJSMawUKKwhdpChKbZ5eu5ky4Vigw";
     rawBase58 := bs58.encode (slice hotspotKey32 1 (-4));
     hex := toHex (slice hotspotKey32 1 (-4));
     base64 := toBase64 (slice hotspotKey32 1 (-4));
     base58check := None |}.

(** ** Decoded messages

    [MobileRewardShare.decode(frame)] comes from the generated code of
    [@helium/proto], which is not part of the repository.  A decoded message
    is described by what the scrapers read of it: the [gatewayReward]
    sub-message when the share is a gateway reward, with its
    [dcTransferReward] (a uint64 field, decoded to an unsigned [Long]) and
    its other own properties in the order of [Object.entries], and the
    other own properties of the message. *)
#[local] Unset Elimination Schemes.
Inductive jsValue :=
| VBytes (bytes : list byte)           (* Uint8Array / Buffer *)
| VLong (value : N)                    (* unsigned Long *)
| VNumber (n : Z)
| VString (s : string)
| VBool (b : bool)
| VArray (items : list jsValue)
| VObject (fields : list (string * jsValue)).
#[local] Set Elimination Schemes.

Record GatewayReward := {
  dcTransferReward : option N;         (* [None]: undefined *)
  otherFields : list (string * jsValue)
}.

Record MobileRewardShare := {
  gatewayReward : option GatewayReward; (* [None]: null, another kind of reward *)
  otherProperties : list (string * jsValue)
}.

(** [x | 0]: the low 32 bits read as a signed integer. *)
Definition toInt32 (x : Z) : Z :=
  let m := (x mod 4294967296)%Z in
  if (m <? 2147483648)%Z then m else (m - 4294967296)%Z.

(** The fields [low] and [high] of the [Long] that holds [value]. *)
Definition Long_low (value : N) : Z := toInt32 (Z.of_N value).
Definition Long_high (value : N) : Z := toInt32 (Z.of_N value / 4294967296).

(** The message as a tree of own properties. *)
Definition gatewayRewardObject (gr : GatewayReward) : jsValue :=
  VObject (match dcTransferReward gr with
           | Some v => [("dcTransferReward"%string, VLong v)]
           | None => []
           end ++ otherFields gr).

Definition messageObject (m : MobileRewardShare) : jsValue :=
  VObject (match gatewayReward m with
           | Some gr => [("gatewayReward"%string, gatewayRewardObject gr)]
           | None => []
           end ++ otherProperties m).

(** ** JSON text of plain values *)
#[local] Unset Elimination Schemes.
Inductive json :=
| JString (s : string)
| JNumber (n : Z)
| JBool (b : bool)
| JArray (items : list json)
| JObject (fields : list (string * json)).
#[local] Set Elimination Schemes.

Fixpoint joinStrings (sep : string) (l : list string) : string :=
  match l with
  | [] => ""
  | [x] => x
  | x :: l' => (x ++ sep ++ joinStrings sep l')%string
  end.

(** The double quote and the backslash. *)
Definition quoteChar : ascii := ascii_of_nat 34.
Definition backslashChar : ascii := ascii_of_nat 92.

(** A string between quotes; the quote and the backslash are escaped
    (control characters, absent from the texts met here, are not). *)
Definition quoteString (s : string) : string :=
  String quoteChar
    (string_of_list_ascii
       (flat_map (fun c => if Ascii.eqb c quoteChar then [backslashChar; quoteChar]
                           else if Ascii.eqb c backslashChar then [backslashChar; backslashChar]
                           else [c])
                 (list_ascii_of_string s))
     ++ String quoteChar "")%string.

(** [JSON.stringify(value)] on plain objects, arrays, strings, integers and
    booleans. *)
Fixpoint JSON_stringify (j : json) : string :=
  match j with
  | JString s => quoteString s
  | JNumber n => numberToString n
  | JBool b => if b then "true" else "false"
  | JArray items => ("[" ++ joinStrings "," (map JSON_stringify items) ++ "]")%string
  | JObject fields =>
      ("{" ++ joinStrings ","
                (map (fun kv => let '(k, v) := kv in
                                (quoteString k ++ ":" ++ JSON_stringify v)%string)
                     fields) ++ "}")%string
  end.

(** [const dcTransfer = decoded.gatewayReward?.dcTransferReward;
    const dc = dcTransfer ? parseInt(dcTransfer.toString(), 10) : 0], the
    same two lines in topEarnersScheduledScrape.js and in both scripts: a
    [Long] is an object, hence truthy, and prints in full as a decimal
    number.  (Numbers are integers here; a JavaScript number holds them
    exactly up to 2^53.) *)
Definition dcOf (decoded : MobileRewardShare) : Z :=
  match gatewayReward decoded with
  | None => 0%Z
  | Some gr =>
      match dcTransferReward gr with
      | None => 0%Z
      | Some v => Z.of_N v
      end
  end.

(** [s.toLowerCase()] on 7-bit text. *)
Definition toLowerChar (c : ascii) : ascii :=
  let n := nat_of_ascii c in
  if (65 <=? n)%nat && (n <=? 90)%nat then ascii_of_nat (n + 32) else c.

Definition toLowerCase (s : string) : string :=
  string_of_list_ascii (map toLowerChar (list_ascii_of_string s)).

(** src/scrapeHeliumRewards.js *)
Module ScrapeHeliumRewardsJs.

(** [getTargetDeviceFormats(targetKey)]; src/scrapePocRewards.js defines the
    same function again. *)
Definition getTargetDeviceFormats (targetKey : string) : outcome DeviceKeyFormats :=
  tryCatch
    (bindOutcome (bs58.decode targetKey) (fun decoded =>
       let data := slice decoded 1 (-4) in (* Remove version and checksum *)
       let rawBase58 := bs58.encode data in
       Returns {| original := targetKey;
                  rawBase58 := rawBase58;
                  hex := toHex (Buffer_from data);
                  base64 := toBase64 (Buffer_from data);
                  base58check := None |}))
    (fun e =>
       (* If base58check decode fails, treat as raw base58 *)
       bindOutcome (bs58.decode targetKey) (fun forHex =>
       bindOutcome (bs58.decode targetKey) (fun forBase64 =>
         Returns {| original := targetKey;
                    rawBase58 := targetKey;
                    hex := toHex (Buffer_from forHex);
                    base64 := toBase64 (Buffer_from forBase64);
                    base58check := None |}))).

(** [enrichBytes(value)]: bytes become an object of four texts; arrays and
    objects (a [Long] is one, with own properties [low], [high] and
    [unsigned]) are rebuilt from their entries. *)
Fixpoint enrichBytes (value : jsValue) : json :=
  match value with
  | VBytes buf =>
      JObject [("_bytes_base64"%string, JString (toBase64 buf));
               ("_bytes_hex"%string, JString (toHex buf));
               ("_bytes_base58"%string, JString (bs58.encode buf));
               ("_bytes_base58check"%string, JString (base58checkEncode buf 0))]
  | VLong v =>
      JObject [("low"%string, JNumber (Long_low v));
               ("high"%string, JNumber (Long_high v));
               ("unsigned"%string, JBool true)]
  | VNumber n => JNumber n
  | VString s => JString s
  | VBool b => JBool b
  | VArray items => JArray (map enrichBytes items)
  | VObject fields =>
      JObject (map (fun kv => let '(k, v) := kv in (k, enrichBytes v)) fields)
  end.

(** [Object.entries(targetFormats)], values only; all are strings. *)
Definition formatValues (targetFormats : DeviceKeyFormats) : list string :=
  [original targetFormats; rawBase58 targetFormats; hex targetFormats;
   base64 targetFormats]
  ++ match base58check targetFormats with
     | Some s => [s]
     | None => []
     end.

Section Scraper.

(** [JSON.stringify(message)] on a decoded message: the text is made by the
    [toJSON] of the generated code. *)
Variable messageJSON : MobileRewardShare -> string.

(** [containsTargetDevice(message, targetFormats)] *)
Definition containsTargetDevice (message : MobileRewardShare)
           (targetFormats : DeviceKeyFormats) : bool :=
  let messageStr := messageJSON message in
  if existsb (fun value => includes messageStr value) (formatValues targetFormats)
  then true
  else
    (* Also check enriched bytes fields *)
    let enrichedStr := JSON_stringify (enrichBytes (messageObject message)) in
    existsb (fun value => includes enrichedStr value) (formatValues targetFormats).

(** [decoded.gatewayReward?.dcTransferReward?.low || 0] *)
Definition rewardAmountOf (decoded : MobileRewardShare) : Z :=
  match gatewayReward decoded with
  | None => 0%Z
  | Some gr =>
      match dcTransferReward gr with
      | None => 0%Z
      | Some v => if (Long_low v =? 0)%Z then 0%Z else Long_low v
      end
  end.

(** An entry pushed on [mobileRewards]. *)
Record RewardEntry := {
  file : string;
  timestamp : Z;                 (* [date] is [new Date(timestamp)] *)
  message : MobileRewardShare;
  enriched : json;
  rewardAmount : Z;
  rewardType : string;
  dataSource : string
}.

(** The body of [for await (const frame of framedMessages(gunzip))]: the
    entry pushed, if any.  A frame is given as what
    [MobileRewardShare.decode(frame)] does on it; an error thrown in the
    [try] block is ignored. *)
Definition scrapeFrame (fileKey : string) (fileTimestamp : Z)
           (targetFormats : DeviceKeyFormats) (frame : outcome MobileRewardShare)
  : option RewardEntry :=
  match frame with
  | Throws _ => None (* Ignore decode errors *)
  | Returns decoded =>
      if containsTargetDevice decoded targetFormats
      then Some {| file := fileKey;
                   timestamp := fileTimestamp;
                   message := decoded;
                   enriched := enrichBytes (messageObject decoded);
                   rewardAmount := rewardAmountOf decoded;
                   rewardType := "mobile_verified";
                   dataSource := MOBILE_VERIFIED_prefix |}
      else None
  end.

(** All the frames of one object: the entries it adds to [mobileRewards]. *)
Definition scrapeFrames (fileKey : string) (fileTimestamp : Z)
           (targetFormats : DeviceKeyFormats) (frames : list (outcome MobileRewardShare))
  : list RewardEntry :=
  flat_map (fun frame =>
              match scrapeFrame fileKey fileTimestamp targetFormats frame with
              | Some entry => [entry]
              | None => []
              end) frames.

(** [mobileRewards.reduce((sum, reward) => sum + reward.rewardAmount, 0)] *)
Definition totalRewards (mobileRewards : list RewardEntry) : Z :=
  fold_left (fun sum reward => (sum + rewardAmount reward)%Z) mobileRewards 0%Z.

End Scraper.

End ScrapeHeliumRewardsJs.

(** scripts/scrape-device.js *)
Module ScrapeDeviceJs.

Definition getTargetDeviceFormats (targetKey : string) : outcome DeviceKeyFormats :=
  tryCatch
    (bindOutcome (bs58.decode targetKey) (fun decoded =>
       let data := slice decoded 1 (-4) in (* Remove version and checksum *)
       let rawBase58 := bs58.encode data in
       Returns {| original := targetKey;
                  rawBase58 := rawBase58;
                  hex := toHex (Buffer_from data);
                  base64 := toBase64 (Buffer_from data);
                  base58check := Some (base58checkEncode data 0) |}))
    (fun e =>
       (* If base58check decode fails, treat as raw base58 *)
       bindOutcome (bs58.decode targetKey) (fun data =>
         Returns {| original := targetKey;
                    rawBase58 := targetKey;
                    hex := toHex (Buffer_from data);
                    base64 := toBase64 (Buffer_from data);
                    base58check := None |})).

Section Scraper.

Variable messageJSON : MobileRewardShare -> string.

(** [containsTargetDevice(decodedMessage, targetFormats)]; an empty value
    is skipped. *)
Definition containsTargetDevice (decodedMessage : MobileRewardShare)
           (targetFormats : DeviceKeyFormats) : bool :=
  let messageStr := messageJSON decodedMessage in
  existsb (fun value => negb (String.eqb value "") && includes messageStr value)
          (ScrapeHeliumRewardsJs.formatValues targetFormats).

Record Totals := {
  totalsByDay : gmap string Z;
  totalDc : Z;
  totalMatches : Z;
  totalFrames : Z
}.

(** The body of the frame loop of [scrape], for a frame of the object of
    day [day]. *)
Definition scrapeFrame (targetFormats : DeviceKeyFormats) (day : string)
           (t : Totals) (frame : outcome MobileRewardShare) : Totals :=
  let t1 := {| totalsByDay := totalsByDay t; totalDc := totalDc t;
               totalMatches := totalMatches t; totalFrames := (totalFrames t + 1)%Z |} in
  match frame with
  | Throws _ => t1
  | Returns decoded =>
      if negb (containsTargetDevice decoded targetFormats) then t1
      else
        let t2 := {| totalsByDay := totalsByDay t1; totalDc := totalDc t1;
                     totalMatches := (totalMatches t1 + 1)%Z;
                     totalFrames := totalFrames t1 |} in
        let dc := dcOf decoded in
        if (dc =? 0)%Z then t2
        else
          {| totalsByDay :=
               <[day := (match totalsByDay t2 !! day with
                         | Some x => x
                         | None => 0%Z (* || 0 *)
                         end + dc)%Z]> (totalsByDay t2);
             totalDc := (totalDc t2 + dc)%Z;
             totalMatches := totalMatches t2;
             totalFrames := totalFrames t2 |}
  end.

End Scraper.

End ScrapeDeviceJs.

(** src/topEarnersScheduledScrape.js; scripts/top-earners-dc.js has the
    same helpers and one window only. *)
Module TopEarnersJs.

Definition preferred : list string :=
  ["gateway"; "gatewayKey"; "gatewayPubkey"; "gatewayPubKey";
   "hotspot"; "hotspotKey"; "hotspotPubkey"; "hotspotPubKey"]%string.

(** [gatewayReward[k]] among the own properties. *)
Fixpoint getField (fields : list (string * jsValue)) (k : string) : option jsValue :=
  match fields with
  | [] => None
  | (k', v) :: fields' => if String.eqb k k' then Some v else getField fields' k
  end.

(** [for (const k of preferred)] *)
Fixpoint firstPreferred (fields : list (string * jsValue)) (ks : list string)
  : option (list byte) :=
  match ks with
  | [] => None
  | k :: ks' =>
      match getField fields k with
      | Some (VBytes v) => Some (Buffer_from v)
      | _ => firstPreferred fields ks'
      end
  end.

(** [for (const [k, v] of Object.entries(gatewayReward))]; the entry of
    [dcTransferReward], whose name includes "reward", is passed over like
    any other of that kind. *)
Fixpoint firstBytesField (entries : list (string * jsValue)) : option (list byte) :=
  match entries with
  | [] => None
  | (k, v) :: entries' =>
      if includes (toLowerCase k) "reward" then firstBytesField entries'
      else
        match v with
        | VBytes b => Some (Buffer_from b)
        | _ => firstBytesField entries'
        end
  end.

Definition pickDeviceBytesFromGatewayReward (gatewayReward : option GatewayReward)
  : option (list byte) :=
  match gatewayReward with
  | None => None
  | Some gr =>
      match firstPreferred (otherFields gr) preferred with
      | Some bytes => Some bytes
      | None => firstBytesField (otherFields gr)
      end
  end.

Definition deviceKeyStringFromDecoded (decoded : MobileRewardShare) : option string :=
  match pickDeviceBytesFromGatewayReward (gatewayReward decoded) with
  | None => None
  | Some bytes =>
      if (Z.of_nat (length bytes) =? 0)%Z then None
      else Some (base58checkEncode bytes 0)
  end.

(** [Array.from(new Set(list))]: first occurrences, in order. *)
Fixpoint dedupeFrom (seen l : list Z) : list Z :=
  match l with
  | [] => []
  | x :: l' =>
      if existsb (Z.eqb x) seen then dedupeFrom seen l'
      else x :: dedupeFrom (x :: seen) l'
  end.

Definition dedupe (l : list Z) : list Z := dedupeFrom [] l.

(** [.sort((a, b) => a - b)] *)
Fixpoint insertNumber (x : Z) (l : list Z) : list Z :=
  match l with
  | [] => [x]
  | y :: l' => if (x <=? y)%Z then x :: l else y :: insertNumber x l'
  end.

Definition sortNumbers (l : list Z) : list Z := fold_right insertNumber [] l.

(** The counters and the totals of [run]. *)
Record Scan := {
  totalsByWindow : gmap Z (gmap string Z);
  framesScanned : Z;
  decodedOk : Z;
  rewardsCounted : Z;
  deviceKeysExtracted : Z
}.

Section Run.

(** [CONFIG.WINDOWS_DAYS] and the time of the run, [endDate.getTime()]. *)
Variable CONFIG_WINDOWS_DAYS : list Z.
Variable endTs : Z.

Definition WINDOWS_DAYS : list Z := sortNumbers (dedupe CONFIG_WINDOWS_DAYS).

(** [cutoffs] and [totalsByWindow] are objects keyed by [String(d)]; the
    keys stand in one-to-one relation with the numbers [d], used here. *)
Definition cutoffs : gmap Z Z :=
  list_to_map (map (fun d => (d, endTs - d * 24 * 60 * 60 * 1000)%Z) WINDOWS_DAYS).

Definition initialTotals : gmap Z (gmap string Z) :=
  list_to_map (map (fun d => (d, (∅ : gmap string Z))) WINDOWS_DAYS).

(** [for (const windowDays of WINDOWS_DAYS)], from [windows] on.  A window
    without a map would make [m.set] throw a [TypeError]. *)
Fixpoint addToWindows (windows : list Z) (ts : Z) (deviceKey : string) (dc : Z)
         (totals : gmap Z (gmap string Z)) : outcome (gmap Z (gmap string Z)) :=
  match windows with
  | [] => Returns totals
  | windowDays :: windows' =>
      let before :=
        match cutoffs !! windowDays with
        | Some cutoff => (ts <? cutoff)%Z
        | None => false
        end in
      if before then addToWindows windows' ts deviceKey dc totals
      else
        match totals !! windowDays with
        | None => Throws "Cannot read properties of undefined (reading 'set')"
        | Some m =>
            let previous := match m !! deviceKey with Some x => x | None => 0%Z end in
            addToWindows windows' ts deviceKey dc
              (<[windowDays := <[deviceKey := (previous + dc)%Z]> m]> totals)
        end
  end.

(** The body of the frame loop of [run], for a frame of an object of
    timestamp [ts]. *)
Definition scanFrame (ts : Z) (s : Scan) (frame : outcome MobileRewardShare)
  : outcome Scan :=
  match frame with
  | Throws _ =>
      Returns {| totalsByWindow := totalsByWindow s;
                 framesScanned := (framesScanned s + 1)%Z;
                 decodedOk := decodedOk s;
                 rewardsCounted := rewardsCounted s;
                 deviceKeysExtracted := deviceKeysExtracted s |}
  | Returns decoded =>
      let skipped := {| totalsByWindow := totalsByWindow s;
                        framesScanned := (framesScanned s + 1)%Z;
                        decodedOk := (decodedOk s + 1)%Z;
                        rewardsCounted := rewardsCounted s;
                        deviceKeysExtracted := deviceKeysExtracted s |} in
      let dc := dcOf decoded in
      if (dc =? 0)%Z then Returns skipped
      else
        match deviceKeyStringFromDecoded decoded with
        | None => Returns skipped
        | Some deviceKey =>
            if String.eqb deviceKey "" then Returns skipped
            else
              bindOutcome (addToWindows WINDOWS_DAYS ts deviceKey dc (totalsByWindow s))
                (fun totals =>
                   Returns {| totalsByWindow := totals;
                              framesScanned := (framesScanned s + 1)%Z;
                              decodedOk := (decodedOk s + 1)%Z;
                              rewardsCounted := (rewardsCounted s + 1)%Z;
                              deviceKeysExtracted := (deviceKeysExtracted s + 1)%Z |})
        end
  end.

Fixpoint scanFrames (ts : Z) (s : Scan) (frames : list (outcome MobileRewardShare))
  : outcome Scan :=
  match frames with
  | [] => Returns s
  | frame :: frames' =>
      bindOutcome (scanFrame ts s frame) (fun s' => scanFrames ts s' frames')
  end.

(** An object of the listing: its timestamp and, when it has a body, its
    frames in order, each given as [MobileRewardShare.decode] returns or
    throws on it. *)
Record ObjectFrames := {
  objectTs : Z;
  objectBody : option (list (outcome MobileRewardShare))
}.

(** [for (const { key, ts } of files)] *)
Fixpoint scanFiles (s : Scan) (files : list ObjectFrames) : outcome Scan :=
  match files with
  | [] => Returns s
  | f :: files' =>
      match objectBody f with
      | None => scanFiles s files' (* if (!get.Body) continue *)
      | Some frames =>
          bindOutcome (scanFrames (objectTs f) s frames) (fun s' => scanFiles s' files')
      end
  end.

(** The single pass of [run] over the objects in range. *)
Definition run (files : list ObjectFrames) : outcome Scan :=
  scanFiles {| totalsByWindow := initialTotals;
               framesScanned := 0; decodedOk := 0;
               rewardsCounted := 0; deviceKeysExtracted := 0 |} files.

End Run.

(** [total(device, w)]: what the map of window [w] holds for [device], 0
    when it holds nothing. *)
Definition total (totals : gmap Z (gmap string Z)) (device : string) (w : Z) : Z :=
  match totals !! w with
  | Some m => match m !! device with Some x => x | None => 0%Z end
  | None => 0%Z
  end.

(** The cutoff of a window: [endTs - d * 24 * 60 * 60 * 1000]. *)
Definition cutoffOf (endTs d : Z) : Z := (endTs - d * 24 * 60 * 60 * 1000)%Z.

(** What one reward adds to the total of [device] in window [w], when the
    windows [ws] are gone through. *)
Definition added (endTs : Z) (ws : list Z) (ts : Z) (deviceKey : string) (dc : Z)
           (device : string) (w : Z) : Z :=
  if existsb (Z.eqb w) ws && (cutoffOf endTs w <=? ts)%Z && String.eqb device deviceKey
  then dc else 0%Z.

(** The invariant of the scan: every window has its map, and the totals of
    a device grow with the window. *)
Definition scanInvariant (config : list Z) (totals : gmap Z (gmap string Z)) : Prop :=
  (forall w, In w (WINDOWS_DAYS config) -> is_Some (totals !! w)) /\
  (forall device w1 w2,
      In w1 (WINDOWS_DAYS config) -> In w2 (WINDOWS_DAYS config) -> (w1 < w2)%Z ->
      (total totals device w1 <= total totals device w2)%Z).

End TopEarnersJs.

(** ** Example messages

    A gateway reward share for the hotspot of key [hotspotKey32], carrying
    [dc] as its [dcTransferReward]. *)
Definition gatewayShare (dc : N) : MobileRewardShare :=
  {| gatewayReward :=
       Some {| dcTransferReward := Some dc;
               otherFields := [("hotspotKey"%string, VBytes hotspotKey32)] |};
     otherProperties := [("startPeriod"%string, VLong 10); ("endPeriod"%string, VLong 20)] |}.

(** A share of another kind: no gateway reward in it. *)
Definition subscriberShare : MobileRewardShare :=
  {| gatewayReward := None;
     otherProperties :=
       [("subscriberReward"%string,
         VObject [("subscriberId"%string, VBytes [x01; x02; x03])])] |}.

(** The checksummed key of [hotspotKey32], version 0, and its formats as
    src/scrapeHeliumRewards.js derives them. *)
Definition hotspotKey32Checksummed : string :=
  "1SkB92YpWm4Q2ijQHH34cqbKkCZWszsiQgHVjtNeFF2Ds6STz".

Definition targetOfChecksummedKey : DeviceKeyFormats :=
  {| original := hotspotKey32Checksummed;
     rawBase58 := "4wBqpZM9xaSheZzJSMawUKKwhdpChKbZ5eu5ky4Vigw";
     hex := "0102030405060708090a0b0c0d0e0f101112131415161718191a1b1c1d1e1f20";
     base64 := "AQIDBAUGBwgJCgsMDQ4PEBESExQVFhcYGRobHB0eHyA=";
     base58check := None |}.

(** [JSON.stringify(message)] standing for a text in which nothing is found:
    the search of [containsTargetDevice] then rests on the enriched bytes. *)
Definition noMessageText (message : MobileRewardShare) : string := "{}".

(** ** Ranking: [topNFromTotals]

    Defined alike in topEarnersScheduledScrape.js and
    scripts/top-earners-dc.js. *)

(** [arr.slice(start, end)] on an array. *)
Definition Array_slice {A : Type} (arr : list A) (start end_ : Z) : list A :=
  let len := Z.of_nat (length arr) in
  let s := clampIndex len start in
  let e := clampIndex len end_ in
  take (Z.to_nat (e - s)) (drop (Z.to_nat s) arr).

(** [arr.sort((a, b) => b[1] - a[1])]: larger totals first; the sort of an
    array is stable, so entries of equal total keep their order. *)
Fixpoint insertByTotal (x : string * Z) (l : list (string * Z)) : list (string * Z) :=
  match l with
  | [] => [x]
  | y :: l' => if (snd y <=? snd x)%Z then x :: l else y :: insertByTotal x l'
  end.

Definition sortByTotal (l : list (string * Z)) : list (string * Z) :=
  fold_right insertByTotal [] l.

(** [topNFromTotals(totalsMap, n)]; [entries] stands for
    [Array.from(totalsMap.entries())], the entries of the map in the order
    in which their keys were first set. *)
Definition topNFromTotals (entries : list (string * Z)) (n : Z) : list (string * Z) :=
  let arr := sortByTotal entries in
  Array_slice arr 0 n.

(** ** What the scans account for *)

(** The reward the fleet scan counts for a frame: the device key and the
    amount, when the frame decodes, carries a non-zero amount and gives a
    device key. *)
Definition frameReward (frame : outcome MobileRewardShare) : option (string * Z) :=
  match frame with
  | Throws _ => None
  | Returns decoded =>
      if (dcOf decoded =? 0)%Z then None
      else
        match TopEarnersJs.deviceKeyStringFromDecoded decoded with
        | Some deviceKey =>
            if String.eqb deviceKey "" then None else Some (deviceKey, dcOf decoded)
        | None => None
        end
  end.

(** The rewards of the frames of an object of timestamp [ts], and those of
    a list of objects, in the order of the scan. *)
Definition frameRewards (ts : Z) (frames : list (outcome MobileRewardShare))
  : list (Z * (string * Z)) :=
  flat_map (fun frame => match frameReward frame with
                         | Some r => [(ts, r)]
                         | None => []
                         end) frames.

Definition objectRewards (f : TopEarnersJs.ObjectFrames) : list (Z * (string * Z)) :=
  match TopEarnersJs.objectBody f with
  | Some frames => frameRewards (TopEarnersJs.objectTs f) frames
  | None => []
  end.

Definition rewardsOf (files : list TopEarnersJs.ObjectFrames) : list (Z * (string * Z)) :=
  flat_map objectRewards files.

(** The amounts of [device] among [rewards], from the timestamp [cutoff] on. *)
Definition sumSince (cutoff : Z) (device : string) (rewards : list (Z * (string * Z))) : Z :=
  fold_right (fun r acc =>
                ((if (cutoff <=? fst r)%Z && String.eqb device (fst (snd r))
                  then snd (snd r) else 0) + acc)%Z) 0%Z rewards.

(** The amounts of [device] among [rewards]. *)
Definition sumOf (device : string) (rewards : list (Z * (string * Z))) : Z :=
  fold_right (fun r acc =>
                ((if String.eqb device (fst (snd r)) then snd (snd r) else 0) + acc)%Z)
             0%Z rewards.

(** The frames of the objects that have a body. *)
Definition framesOf (files : list TopEarnersJs.ObjectFrames) : list (outcome MobileRewardShare) :=
  flat_map (fun f => match TopEarnersJs.objectBody f with
                     | Some frames => frames
                     | None => []
                     end) files.

Definition decodes (frame : outcome MobileRewardShare) : bool :=
  match frame with
  | Returns _ => true
  | Throws _ => false
  end.

(** ** A [Map] keyed by strings

    The entries are kept in the order in which their keys were first set,
    the order of [map.entries()] and [map.values()]. *)
Fixpoint Map_get {V : Type} (m : list (string * V)) (k : string) : option V :=
  match m with
  | [] => None
  | (k', v) :: m' => if String.eqb k k' then Some v else Map_get m' k
  end.

Fixpoint Map_set {V : Type} (m : list (string * V)) (k : string) (v : V)
  : list (string * V) :=
  match m with
  | [] => [(k, v)]
  | (k', v') :: m' => if String.eqb k k' then (k', v) :: m' else (k', v') :: Map_set m' k v
  end.

(** [x || 0] on what [get] returns. *)
Definition orZero (x : option Z) : Z :=
  match x with
  | Some v => v
  | None => 0%Z
  end.

(** scripts/top-earners-dc.js *)
Module TopEarnersDcJs.

(** The totals and the counters of [main]. *)
Record Scan := {
  totalsByDevice : list (string * Z);
  framesScanned : Z;
  decodedOk : Z;
  rewardsCounted : Z
}.

(** The body of the frame loop of [main]. *)
Definition scanFrame (s : Scan) (frame : outcome MobileRewardShare) : Scan :=
  match frame with
  | Throws _ =>
      {| totalsByDevice := totalsByDevice s;
         framesScanned := (framesScanned s + 1)%Z;
         decodedOk := decodedOk s;
         rewardsCounted := rewardsCounted s |}
  | Returns decoded =>
      let skipped := {| totalsByDevice := totalsByDevice s;
                        framesScanned := (framesScanned s + 1)%Z;
                        decodedOk := (decodedOk s + 1)%Z;
                        rewardsCounted := rewardsCounted s |} in
      let dc := dcOf decoded in
      if (dc =? 0)%Z then skipped
      else
        match TopEarnersJs.deviceKeyStringFromDecoded decoded with
        | None => skipped
        | Some deviceKey =>
            if String.eqb deviceKey "" then skipped
            else
              {| totalsByDevice :=
                   Map_set (totalsByDevice s) deviceKey
                           (orZero (Map_get (totalsByDevice s) deviceKey) + dc)%Z;
                 framesScanned := (framesScanned s + 1)%Z;
                 decodedOk := (decodedOk s + 1)%Z;
                 rewardsCounted := (rewardsCounted s + 1)%Z |}
        end
  end.

(** [for (const { key } of files)]; an object without a body is passed. *)
Fixpoint scanFiles (s : Scan) (files : list TopEarnersJs.ObjectFrames) : Scan :=
  match files with
  | [] => s
  | f :: files' =>
      match TopEarnersJs.objectBody f with
      | None => scanFiles s files'
      | Some frames => scanFiles (fold_left scanFrame frames s) files'
      end
  end.

(** [main], from the listing on: the ranking printed and the counters. *)
Definition main (TOP_N : Z) (files : list TopEarnersJs.ObjectFrames)
  : list (string * Z) * Scan :=
  let s := scanFiles {| totalsByDevice := []; framesScanned := 0;
                        decodedOk := 0; rewardsCounted := 0 |} files in
  let top := topNFromTotals (totalsByDevice s) TOP_N in
  (top, s).

End TopEarnersDcJs.

(** ** The loop of [scrape] in scripts/scrape-device.js *)

(** The sum of the values of a map of daily totals. *)
Definition sumValues (m : gmap string Z) : Z :=
  map_fold (fun _ v acc => (v + acc)%Z) 0%Z m.

Module ScrapeDeviceLoop.

Section Scrape.

Variable messageJSON : MobileRewardShare -> string.

(** [toYyyyMmDd(new Date(ts))]: the day of a timestamp, as the runtime
    prints it. *)
Variable toYyyyMmDd : Z -> string.

Variable targetFormats : DeviceKeyFormats.

(** [for (const { key, ts } of files)] *)
Fixpoint scrapeFiles (t : ScrapeDeviceJs.Totals) (files : list TopEarnersJs.ObjectFrames)
  : ScrapeDeviceJs.Totals :=
  match files with
  | [] => t
  | f :: files' =>
      let day := toYyyyMmDd (TopEarnersJs.objectTs f) in
      match TopEarnersJs.objectBody f with
      | None => scrapeFiles t files' (* if (!get.Body) continue *)
      | Some frames =>
          scrapeFiles
            (fold_left (ScrapeDeviceJs.scrapeFrame messageJSON targetFormats day) frames t)
            files'
      end
  end.

Definition scrape (files : list TopEarnersJs.ObjectFrames) : ScrapeDeviceJs.Totals :=
  scrapeFiles {| ScrapeDeviceJs.totalsByDay := ∅; ScrapeDeviceJs.totalDc := 0;
                 ScrapeDeviceJs.totalMatches := 0; ScrapeDeviceJs.totalFrames := 0 |}
              files.

(** The amount a frame adds for the target device. *)
Definition matchedAmount (frame : outcome MobileRewardShare) : Z :=
  match frame with
  | Throws _ => 0%Z
  | Returns decoded =>
      if ScrapeDeviceJs.containsTargetDevice messageJSON decoded targetFormats
      then dcOf decoded else 0%Z
  end.

(** The amounts of the frames of the objects of day [day]. *)
Definition dayAmount (day : string) (files : list TopEarnersJs.ObjectFrames) : Z :=
  fold_right (fun f acc =>
                ((if String.eqb (toYyyyMmDd (TopEarnersJs.objectTs f)) day
                  then fold_right (fun frame acc' => (matchedAmount frame + acc')%Z) 0%Z
                                  (match TopEarnersJs.objectBody f with
                                   | Some frames => frames
                                   | None => []
                                   end)
                  else 0) + acc)%Z) 0%Z files.

End Scrape.

End ScrapeDeviceLoop.

(** ** Bytes held by a decoded message *)

(** [holdsBytes payload v]: the bytes [payload] are a value somewhere in
    the tree [v] of own properties and array items. *)
Inductive holdsBytes (payload : list byte) : jsValue -> Prop :=
| holdsBytes_here :
    holdsBytes payload (VBytes payload)
| holdsBytes_item items v :
    In v items -> holdsBytes payload v -> holdsBytes payload (VArray items)
| holdsBytes_field fields k v :
    In (k, v) fields -> holdsBytes payload v -> holdsBytes payload (VObject fields).

(** ** [scrapeHeliumRewards], from the listing to the result

    src/scrapeHeliumRewards.js.  The dates of the range are given by their
    timestamps [startTimestamp] and [endTimestamp]. *)
Module ScrapeHeliumRewardsRun.

(** [{ file, timestamp, date }]; [date] is [new Date(timestamp)]. *)
Record FileInfo := { file : string; timestamp : Z }.

(** [.sort((a, b) => a.timestamp - b.timestamp)] *)
Fixpoint insertByTimestamp (x : FileInfo) (l : list FileInfo) : list FileInfo :=
  match l with
  | [] => [x]
  | y :: l' =>
      if (timestamp x <=? timestamp y)%Z then x :: l else y :: insertByTimestamp x l'
  end.

Definition sortByTimestamp (l : list FileInfo) : list FileInfo :=
  fold_right insertByTimestamp [] l.

(** [files.map(...).filter(...).sort(...)]; [parseInt] without a radix
    reads a group of thirteen digits in base ten. *)
Definition targetDateFilesOf (files : list string) (startTimestamp endTimestamp : Z)
  : list FileInfo :=
  sortByTimestamp
    (List.filter
       (fun item => (startTimestamp <=? timestamp item)%Z
                    && (timestamp item <=? endTimestamp)%Z)
       (map (fun file => {| file := file; timestamp := timestampOfKey file |}) files)).

(** One turn of [for (const obj of contents)]. *)
Definition collectFile (files : list string) (obj : S3Object) : list string :=
  let key := orEmpty (Key obj) in
  if endsWith key ".gz" then files ++ [key] else files.

(** The [summary] of the early return; [dateRange] holds the two dates. *)
Record Summary := {
  totalRewards : Z;
  filesProcessed : Z;
  filesInRange : Z;
  dateRange : Z * Z
}.

Record Result := {
  deviceKey : string;
  rewards : list ScrapeHeliumRewardsJs.RewardEntry;
  summary : Summary
}.

Section Scrape.

Variable send : ListObjectsV2Command -> outcome ListObjectsV2Output.

(** [s3.send(new GetObjectCommand(...))] for a key: it throws, or gives an
    object without [Body], or one whose body holds the frames listed, each
    given as [MobileRewardShare.decode] returns or throws on it. *)
Variable getObject : string -> outcome (option (list (outcome MobileRewardShare))).

Variable BUCKET : string.
Variable messageJSON : MobileRewardShare -> string.

(** The [while (true)] loop of the listing. *)
Fixpoint listFilesLoop (fuel : nat) (continuationToken : option string)
         (files : list string) : option (outcome (list string)) :=
  match fuel with
  | O => None
  | S fuel' =>
      match send {| Bucket := BUCKET; Prefix := MOBILE_VERIFIED_prefix;
                    ContinuationToken := continuationToken;
                    MaxKeys := 1000; RequestPayer := "requester" |} with
      | Throws e => Some (Throws e)
      | Returns resp =>
          let contents := match Contents resp with Some c => c | None => [] end in
          let files' := fold_left collectFile contents files in
          if negb (IsTruncated resp) || noToken (NextContinuationToken resp)
          then Some (Returns files')
          else listFilesLoop fuel' (NextContinuationToken resp) files'
      end
  end.

(** The body of [for (const fileInfo of targetDateFiles)]: the entries it
    pushes on [mobileRewards].  An error of the request is caught and
    logged; an object without body is passed. *)
Definition processFile (targetFormats : DeviceKeyFormats) (fileInfo : FileInfo)
  : list ScrapeHeliumRewardsJs.RewardEntry :=
  match getObject (file fileInfo) with
  | Throws _ => []
  | Returns None => []
  | Returns (Some frames) =>
      ScrapeHeliumRewardsJs.scrapeFrames messageJSON (file fileInfo) (timestamp fileInfo)
                                         targetFormats frames
  end.

(** [scrapeHeliumRewards(deviceKey, customDateRange)].  The listing and the
    scan stand in a [try] block whose handler throws the error again.
    [targetDateFiles] is declared with [const] inside that block; the
    [return] statement that follows the block reads [targetDateFiles.length]
    for [filesInRange], outside the scope of the declaration, which throws a
    [ReferenceError].  Only the [return] inside the block, taken when no
    file is in range, gives a result. *)
Definition scrapeHeliumRewards (fuel : nat) (deviceKey : string)
           (startTimestamp endTimestamp : Z) : option (outcome Result) :=
  if String.eqb deviceKey "" then Some (Throws "Device key is required")
  else
    match ScrapeHeliumRewardsJs.getTargetDeviceFormats deviceKey with
    | Throws e => Some (Throws e)
    | Returns targetFormats =>
        match listFilesLoop fuel None [] with
        | None => None
        | Some (Throws e) => Some (Throws e)
        | Some (Returns files) =>
            let totalFilesProcessed := Z.of_nat (length files) in
            let targetDateFiles := targetDateFilesOf files startTimestamp endTimestamp in
            if (Z.of_nat (length targetDateFiles) =? 0)%Z
            then Some (Returns {| deviceKey := deviceKey;
                                  rewards := [];
                                  summary := {| totalRewards := 0;
                                                filesProcessed := totalFilesProcessed;
                                                filesInRange := 0;
                                                dateRange := (startTimestamp, endTimestamp) |} |})
            else
              let mobileRewards := flat_map (processFile targetFormats) targetDateFiles in
              let totalRewards :=
                ScrapeHeliumRewardsJs.totalRewards mobileRewards in
              Some (Throws "targetDateFiles is not defined")
        end
    end.

End Scrape.

End ScrapeHeliumRewardsRun.

(** The keys ending in ".gz" among a list of objects. *)
Definition gzKeys (objs : list S3Object) : list string :=
  List.filter (fun k => endsWith k ".gz") (map (fun obj => orEmpty (Key obj)) objs).

(** ** The summary of [scrapePocRewards] *)
Module ScrapePocSummary.

(** The three sums of "Calculate summary". *)
Definition totalBasePoc (pocRewards : list ScrapePocRewardsJs.PocReward) : Z :=
  fold_left (fun sum reward => (sum + ScrapePocRewardsJs.pocBase reward)%Z) pocRewards 0%Z.

Definition totalBoostedPoc (pocRewards : list ScrapePocRewardsJs.PocReward) : Z :=
  fold_left (fun sum reward => (sum + ScrapePocRewardsJs.pocBoosted reward)%Z) pocRewards 0%Z.

Definition totalPoc (pocRewards : list ScrapePocRewardsJs.PocReward) : Z :=
  fold_left (fun sum reward => (sum + ScrapePocRewardsJs.pocTotal reward)%Z) pocRewards 0%Z.

(** The entries pushed for the objects [files], each given by its key, its
    timestamp and the frames of its body; [None] when the fuel of a loop
    over a frame ran out. *)
Fixpoint scrapeFiles (targetFormats : DeviceKeyFormats)
         (files : list (string * Z * list (list byte)))
  : option (list ScrapePocRewardsJs.PocReward) :=
  match files with
  | [] => Some []
  | (fileKey, fileTimestamp, frames) :: files' =>
      match ScrapePocRewardsJs.scrapeFrames fileKey fileTimestamp targetFormats frames,
            scrapeFiles targetFormats files' with
      | Some entries, Some entries' => Some (entries ++ entries')
      | _, _ => None
      end
  end.

End ScrapePocSummary.

(** ** Messages on the wire

    What a protobuf writer puts on the wire, used to state what the loops
    of src/scrapePocRewards.js read back. *)

(** The varint of [n]: groups of seven bits, the least significant first,
    every byte but the last with its high bit set. *)
Fixpoint varintFuel (fuel : nat) (n : Z) : list byte :=
  match fuel with
  | O => []
  | S fuel' =>
      if (n <? 128)%Z then [Zbyte n]
      else Zbyte (n mod 128 + 128) :: varintFuel fuel' (n / 128)
  end.

(** Ten bytes hold every number below 2^64. *)
Definition varint (n : Z) : list byte := varintFuel 10 n.

(** A varint given by its groups: those followed by another group, then
    the last one. *)
Definition varintOfGroups (gs : list Z) (last : Z) : list byte :=
  map (fun g => Zbyte (g + 128)) gs ++ [Zbyte last].

Definition valueOfGroups (gs : list Z) (last : Z) : Z :=
  fold_right (fun g acc => (g + 128 * acc)%Z) last gs.

(** A field of a message: its number and its value, by wire type. *)
Inductive wireField :=
| Varint (fieldNo : Z) (value : Z)                    (* wire type 0 *)
| Fixed64 (fieldNo : Z) (payload : list byte)         (* wire type 1 *)
| LengthDelimited (fieldNo : Z) (payload : list byte) (* wire type 2 *)
| Fixed32 (fieldNo : Z) (payload : list byte).        (* wire type 5 *)

(** The tag [(fieldNo << 3) | wire], then the value. *)
Definition encodeField (f : wireField) : list byte :=
  match f with
  | Varint fieldNo value => varint (fieldNo * 8 + 0) ++ varint value
  | Fixed64 fieldNo payload => varint (fieldNo * 8 + 1) ++ payload
  | LengthDelimited fieldNo payload =>
      varint (fieldNo * 8 + 2) ++ varint (Z.of_nat (length payload)) ++ payload
  | Fixed32 fieldNo payload => varint (fieldNo * 8 + 5) ++ payload
  end.

Definition encodeMessage (fields : list wireField) : list byte :=
  flat_map encodeField fields.

(** Field numbers take 29 bits, varint values 64, lengths 32; fixed values
    have eight and four bytes. *)
Definition wellFormed (f : wireField) : Prop :=
  match f with
  | Varint fieldNo value => (0 <= fieldNo < 2 ^ 29)%Z /\ (0 <= value < 2 ^ 64)%Z
  | Fixed64 fieldNo payload => (0 <= fieldNo < 2 ^ 29)%Z /\ length payload = 8%nat
  | LengthDelimited fieldNo payload =>
      (0 <= fieldNo < 2 ^ 29)%Z /\ (Z.of_nat (length payload) < 2 ^ 32)%Z
  | Fixed32 fieldNo payload => (0 <= fieldNo < 2 ^ 29)%Z /\ length payload = 4%nat
  end.

(** Values that JavaScript holds without loss: varints below 2^53 (they
    pass through [Number]) and 7-bit text in the length-delimited field 2
    (it passes through [TextDecoder]). *)
Definition exactlyHeld (f : wireField) : Prop :=
  match f with
  | Varint _ value => (value < 2 ^ 53)%Z
  | LengthDelimited fieldNo payload =>
      fieldNo = 2%Z -> Forall (fun b => (byteZ b < 128)%Z) payload
  | _ => True
  end.

(** The payload of the first length-delimited field [fieldNo]. *)
Fixpoint firstLengthDelimited (fieldNo : Z) (fields : list wireField) : option (list byte) :=
  match fields with
  | [] => None
  | LengthDelimited k payload :: fields' =>
      if (k =? fieldNo)%Z then Some payload else firstLengthDelimited fieldNo fields'
  | _ :: fields' => firstLengthDelimited fieldNo fields'
  end.

(** The payload of the last length-delimited field [fieldNo], and the value
    of the last varint field [fieldNo], after [seen]. *)
Fixpoint lastLengthDelimited (fieldNo : Z) (fields : list wireField)
         (seen : option (list byte)) : option (list byte) :=
  match fields with
  | [] => seen
  | LengthDelimited k payload :: fields' =>
      lastLengthDelimited fieldNo fields' (if (k =? fieldNo)%Z then Some payload else seen)
  | _ :: fields' => lastLengthDelimited fieldNo fields' seen
  end.

Fixpoint lastVarint (fieldNo : Z) (fields : list wireField) (seen : option Z) : option Z :=
  match fields with
  | [] => seen
  | Varint k value :: fields' =>
      lastVarint fieldNo fields' (if (k =? fieldNo)%Z then Some value else seen)
  | _ :: fields' => lastVarint fieldNo fields' seen
  end.

(** A reader that stands after the bytes [before] of its buffer, with
    [ahead] still to read. *)
Definition readerAt (r : Reader.t) (before ahead : list byte) : Prop :=
  Reader.buf r = before ++ ahead /\
  Reader.pos r = Z.of_nat (length before) /\
  Reader.len r = Z.of_nat (length (Reader.buf r)).

(** ** The windows of the fleet scan *)

(** [a[a.length - 1]]; [None] stands for [undefined]. *)
Fixpoint lastElement (a : list Z) : option Z :=
  match a with
  | [] => None
  | [x] => Some x
  | _ :: a' => lastElement a'
  end.

(** [const LOOKBACK_DAYS = WINDOWS_DAYS[WINDOWS_DAYS.length - 1]] *)
Definition LOOKBACK_DAYS (CONFIG_WINDOWS_DAYS : list Z) : option Z :=
  lastElement (TopEarnersJs.WINDOWS_DAYS CONFIG_WINDOWS_DAYS).

(** ** A listing that breaks off

    [ListingBreaks token pages e]: asked from [token] on, the store answers
    with the pages [pages], each truncated and carrying the token of the
    next, and the request that follows throws [e]. *)
Inductive ListingBreaks (send : ListObjectsV2Command -> outcome ListObjectsV2Output)
          (BUCKET prefix : string)
  : option string -> list ListObjectsV2Output -> string -> Prop :=
| ListingBreaks_now token e :
    send {| Bucket := BUCKET; Prefix := prefix; ContinuationToken := token;
            MaxKeys := 1000; RequestPayer := "requester" |} = Throws e ->
    ListingBreaks send BUCKET prefix token [] e
| ListingBreaks_later token resp pages e :
    send {| Bucket := BUCKET; Prefix := prefix; ContinuationToken := token;
            MaxKeys := 1000; RequestPayer := "requester" |} = Returns resp ->
    negb (IsTruncated resp) || noToken (NextContinuationToken resp) = false ->
    ListingBreaks send BUCKET prefix (NextContinuationToken resp) pages e ->
    ListingBreaks send BUCKET prefix token (resp :: pages) e.

(** A store whose second page cannot be had. *)
Definition brokenStore (cmd : ListObjectsV2Command) : outcome ListObjectsV2Output :=
  match ContinuationToken cmd with
  | None =>
      Returns {| Contents := Some [ {| Key := Some "p/shares.1700000300000.gz" |} ];
                 IsTruncated := true;
                 NextContinuationToken := Some "page-2" |}
  | Some _ => Throws "SlowDown"
  end.

(** ** src/parseRewardsData.js *)
Module ParseRewardsDataJs.

(** What [scrapeHeliumRewards] and [scrapePocRewards] hand over. *)
Record ScrapedData := {
  scrapedDeviceKey : string;
  rewards : option (list ScrapeHeliumRewardsJs.RewardEntry); (* [None]: no [rewards] *)
  dateRange : Z * Z                                           (* [summary.dateRange] *)
}.

Record PocData := {
  pocRewards : option (list ScrapePocRewardsJs.PocReward)
}.

Record RawEntry := {
  rawTimestamp : Z;
  rawRewardAmount : Z;
  rawFile : string
}.

Record PocRawEntry := {
  pocRawTimestamp : Z;
  pocRawBasePoc : Z;
  pocRawBoostedPoc : Z;
  pocRawTotalPoc : Z;
  pocRawFile : string;
  pocRawHotspotId : option string;
  pocRawCbsdId : option string
}.

(** The entry of a day in [dailyRewards]. *)
Record DayData := {
  date : string;
  deviceKey : string;
  totalRewardsDC : Z;
  totalBasePoc : Z;
  totalBoostedPoc : Z;
  totalPoc : Z;
  rewardCount : Z;
  pocRewardCount : Z;
  rewardType : string;
  dataSource : string;
  rawEntries : list RawEntry;
  pocRawEntries : list PocRawEntry
}.

(** What [parseRewardsData] returns.  Of [summary.dailyBreakdown] the
    fields that are integers are kept; [uptimePercentage], [averageDailyDC]
    and [averageDailyPoc], rounded floating-point quotients, are left out,
    as is [parsedAt].  For [Math.max] and [Math.min] over no day at all,
    which give [-Infinity] and [Infinity], [None] stands. *)
Record Parsed := {
  parsedDeviceKey : string;
  dailyRewards : list DayData;
  activeDays : Z;
  totalDC : Z;
  sumBasePoc : Z;
  sumBoostedPoc : Z;
  sumPoc : Z;
  maxDailyDC : option Z;
  minDailyDC : option Z;
  maxDailyPoc : option Z;
  minDailyPoc : option Z;
  totalEntries : Z;
  dailyEntries : Z
}.

(** [Math.max(...values)] and [Math.min(...values)] *)
Definition maxOf (values : list Z) : option Z :=
  match values with
  | [] => None
  | v :: values' => Some (fold_left Z.max values' v)
  end.

Definition minOf (values : list Z) : option Z :=
  match values with
  | [] => None
  | v :: values' => Some (fold_left Z.min values' v)
  end.

Section Parse.

(** [new Date(timestamp).toISOString().split('T')[0]] and
    [new Date(dateKey)] as a number: the runtime's calendar. *)
Variable isoDay : Z -> string.
Variable dateValue : string -> Z.

(** The body of [rewards.forEach(reward => ...)]: the day is created when
    the map has not its key, then updated where it stands. *)
Definition addReward (deviceKey : string) (dailyRewards : list (string * DayData))
           (reward : ScrapeHeliumRewardsJs.RewardEntry) : list (string * DayData) :=
  let dateKey := isoDay (ScrapeHeliumRewardsJs.timestamp reward) in
  let dailyRewards1 :=
    match Map_get dailyRewards dateKey with
    | Some _ => dailyRewards
    | None =>
        Map_set dailyRewards dateKey
          {| date := dateKey;
             deviceKey := deviceKey;
             totalRewardsDC := 0;
             totalBasePoc := 0;
             totalBoostedPoc := 0;
             totalPoc := 0;
             rewardCount := 0;
             pocRewardCount := 0;
             rewardType := if String.eqb (ScrapeHeliumRewardsJs.rewardType reward) ""
                           then "mobile_verified"
                           else ScrapeHeliumRewardsJs.rewardType reward;
             dataSource := ScrapeHeliumRewardsJs.dataSource reward;
             rawEntries := [];
             pocRawEntries := [] |}
    end in
  match Map_get dailyRewards1 dateKey with
  | None => dailyRewards1
  | Some dayData =>
      Map_set dailyRewards1 dateKey
        {| date := date dayData;
           deviceKey := ParseRewardsDataJs.deviceKey dayData;
           totalRewardsDC :=
             (totalRewardsDC dayData + ScrapeHeliumRewardsJs.rewardAmount reward)%Z;
           totalBasePoc := totalBasePoc dayData;
           totalBoostedPoc := totalBoostedPoc dayData;
           totalPoc := totalPoc dayData;
           rewardCount := (rewardCount dayData + 1)%Z;
           pocRewardCount := pocRewardCount dayData;
           rewardType := rewardType dayData;
           dataSource := dataSource dayData;
           rawEntries :=
             rawEntries dayData
             ++ [{| rawTimestamp := ScrapeHeliumRewardsJs.timestamp reward;
                    rawRewardAmount := ScrapeHeliumRewardsJs.rewardAmount reward;
                    rawFile := ScrapeHeliumRewardsJs.file reward |}];
           pocRawEntries := pocRawEntries dayData |}
  end.

(** The body of [pocData.pocRewards.forEach(pocReward => ...)] *)
Definition addPocReward (deviceKey : string) (dailyRewards : list (string * DayData))
           (pocReward : ScrapePocRewardsJs.PocReward) : list (string * DayData) :=
  let dateKey := isoDay (ScrapePocRewardsJs.timestamp pocReward) in
  let dailyRewards1 :=
    match Map_get dailyRewards dateKey with
    | Some _ => dailyRewards
    | None =>
        Map_set dailyRewards dateKey
          {| date := dateKey;
             deviceKey := deviceKey;
             totalRewardsDC := 0;
             totalBasePoc := 0;
             totalBoostedPoc := 0;
             totalPoc := 0;
             rewardCount := 0;
             pocRewardCount := 0;
             rewardType := "mobile_verified";
             dataSource := ScrapePocRewardsJs.dataSource pocReward;
             rawEntries := [];
             pocRawEntries := [] |}
    end in
  match Map_get dailyRewards1 dateKey with
  | None => dailyRewards1
  | Some dayData =>
      Map_set dailyRewards1 dateKey
        {| date := date dayData;
           deviceKey := ParseRewardsDataJs.deviceKey dayData;
           totalRewardsDC := totalRewardsDC dayData;
           totalBasePoc := (totalBasePoc dayData + ScrapePocRewardsJs.pocBase pocReward)%Z;
           totalBoostedPoc :=
             (totalBoostedPoc dayData + ScrapePocRewardsJs.pocBoosted pocReward)%Z;
           totalPoc := (totalPoc dayData + ScrapePocRewardsJs.pocTotal pocReward)%Z;
           rewardCount := rewardCount dayData;
           pocRewardCount := (pocRewardCount dayData + 1)%Z;
           rewardType := rewardType dayData;
           dataSource := dataSource dayData;
           rawEntries := rawEntries dayData;
           pocRawEntries :=
             pocRawEntries dayData
             ++ [{| pocRawTimestamp := ScrapePocRewardsJs.timestamp pocReward;
                    pocRawBasePoc := ScrapePocRewardsJs.pocBase pocReward;
                    pocRawBoostedPoc := ScrapePocRewardsJs.pocBoosted pocReward;
                    pocRawTotalPoc := ScrapePocRewardsJs.pocTotal pocReward;
                    pocRawFile := ScrapePocRewardsJs.file pocReward;
                    pocRawHotspotId := ScrapePocRewardsJs.pocHotspotId pocReward;
                    pocRawCbsdId := ScrapePocRewardsJs.pocCbsdId pocReward |}] |}
  end.

(** [.sort((a, b) => new Date(a.date) - new Date(b.date))] *)
Fixpoint insertByDate (x : DayData) (l : list DayData) : list DayData :=
  match l with
  | [] => [x]
  | y :: l' =>
      if (dateValue (date x) <=? dateValue (date y))%Z then x :: l
      else y :: insertByDate x l'
  end.

Definition sortByDate (l : list DayData) : list DayData := fold_right insertByDate [] l.

(** [.sort((a, b) => b.totalRewardsDC - a.totalRewardsDC)] *)
Fixpoint insertByDC (x : DayData) (l : list DayData) : list DayData :=
  match l with
  | [] => [x]
  | y :: l' =>
      if (totalRewardsDC y <=? totalRewardsDC x)%Z then x :: l
      else y :: insertByDC x l'
  end.

Definition sortByDC (l : list DayData) : list DayData := fold_right insertByDC [] l.

(** [parseRewardsData(scrapedData, pocData)].  [Array.prototype.sort]
    sorts the array it is called on: the sort by date makes
    [dailyRewardsArray]; the statistics are taken; then [topDaysDC] is made
    by sorting [dailyRewardsArray] itself by descending [totalRewardsDC]
    before [slice] copies five entries out of it.  The array returned as
    [dailyRewards] is that same array, left in the order of the second
    sort.  ([topDaysPoc] is sorted after [filter], on a copy.) *)
Definition parseRewardsData (scrapedData : option ScrapedData) (pocData : option PocData)
  : outcome Parsed :=
  match scrapedData with
  | None => Throws "Invalid scraped data provided"
  | Some data =>
      match rewards data with
      | None => Throws "Invalid scraped data provided"
      | Some rewards =>
          let deviceKey := scrapedDeviceKey data in
          let dailyRewards := fold_left (addReward deviceKey) rewards [] in
          let dailyRewards :=
            match pocData with
            | Some poc =>
                match pocRewards poc with
                | Some pocRewards => fold_left (addPocReward deviceKey) pocRewards dailyRewards
                | None => dailyRewards
                end
            | None => dailyRewards
            end in
          let dailyRewardsArray := sortByDate (map snd dailyRewards) in
          let totalDC :=
            fold_left (fun sum day => (sum + totalRewardsDC day)%Z) dailyRewardsArray 0%Z in
          let totalBasePoc :=
            fold_left (fun sum day => (sum + totalBasePoc day)%Z) dailyRewardsArray 0%Z in
          let totalBoostedPoc :=
            fold_left (fun sum day => (sum + totalBoostedPoc day)%Z) dailyRewardsArray 0%Z in
          let totalPoc :=
            fold_left (fun sum day => (sum + ParseRewardsDataJs.totalPoc day)%Z)
                      dailyRewardsArray 0%Z in
          let activeDays := Z.of_nat (length dailyRewardsArray) in
          let maxDailyDC := maxOf (map totalRewardsDC dailyRewardsArray) in
          let minDailyDC := minOf (map totalRewardsDC dailyRewardsArray) in
          let maxDailyPoc := maxOf (map ParseRewardsDataJs.totalPoc dailyRewardsArray) in
          let minDailyPoc := minOf (map ParseRewardsDataJs.totalPoc dailyRewardsArray) in
          (* topDaysDC: the sort is done on dailyRewardsArray itself *)
          let dailyRewardsArray := sortByDC dailyRewardsArray in
          Returns {| parsedDeviceKey := deviceKey;
                     dailyRewards := dailyRewardsArray;
                     activeDays := activeDays;
                     totalDC := totalDC;
                     sumBasePoc := totalBasePoc;
                     sumBoostedPoc := totalBoostedPoc;
                     sumPoc := totalPoc;
                     maxDailyDC := maxDailyDC;
                     minDailyDC := minDailyDC;
                     maxDailyPoc := maxDailyPoc;
                     minDailyPoc := minDailyPoc;
                     totalEntries := Z.of_nat (length rewards);
                     dailyEntries := Z.of_nat (length dailyRewardsArray) |}
      end
  end.

End Parse.

(** [validateRewardData(parsedData)]: the errors collected, then [true] or
    an exception that lists them. *)
Definition dayErrors (index : nat) (day : DayData) : list string :=
  (if String.eqb (date day) ""
   then [("Missing date for entry " ++ numberToString (Z.of_nat index))%string]
   else [])
  ++ (if (totalRewardsDC day <? 0)%Z
      then [("Invalid reward amount for " ++ date day ++ ": "
             ++ numberToString (totalRewardsDC day))%string]
      else [])
  ++ (if String.eqb (rewardType day) ""
      then [("Missing reward type for " ++ date day)%string]
      else []).

Fixpoint daysErrors (index : nat) (days : list DayData) : list string :=
  match days with
  | [] => []
  | day :: days' => dayErrors index day ++ daysErrors (S index) days'
  end.

Definition validateRewardData (parsedData : Parsed) : outcome bool :=
  let errors :=
    (if String.eqb (parsedDeviceKey parsedData) "" then ["Missing device key"%string] else [])
    ++ daysErrors 0 (dailyRewards parsedData) in
  if (0 <? Z.of_nat (length errors))%Z
  then Throws ("Validation failed: " ++ joinStrings ", " errors)
  else Returns true.

End ParseRewardsDataJs.

(** Days of the first of January 1970 and after, for examples: the day
    number of a timestamp, written in decimal, as its day. *)
Definition dayNumber (timestamp : Z) : string := numberToString (timestamp / 86400000).

Definition dayNumberValue (day : string) : Z := (parseIntDigits day * 86400000)%Z.

(** ** What the daily aggregation accounts for *)

(** The sum of [f] over a list. *)
Definition sumBy {A : Type} (f : A -> Z) (l : list A) : Z :=
  fold_right (fun x acc => (f x + acc)%Z) 0%Z l.

(** The PoC entries handed to [parseRewardsData], none when [pocData] or
    its [pocRewards] is missing. *)
Definition pocRewardsOf (pocData : option ParseRewardsDataJs.PocData)
  : list ScrapePocRewardsJs.PocReward :=
  match pocData with
  | Some poc =>
      match ParseRewardsDataJs.pocRewards poc with
      | Some pocRewards => pocRewards
      | None => []
      end
  | None => []
  end.

(** The entries of the day [day]. *)
Definition rewardsOfDay (isoDay : Z -> string) (day : string)
           (rewards : list ScrapeHeliumRewardsJs.RewardEntry)
  : list ScrapeHeliumRewardsJs.RewardEntry :=
  List.filter (fun r => String.eqb (isoDay (ScrapeHeliumRewardsJs.timestamp r)) day) rewards.

Definition pocRewardsOfDay (isoDay : Z -> string) (day : string)
           (pocRewards : list ScrapePocRewardsJs.PocReward)
  : list ScrapePocRewardsJs.PocReward :=
  List.filter (fun p => String.eqb (isoDay (ScrapePocRewardsJs.timestamp p)) day) pocRewards.

(** A day that carries the sums and the counts of the entries of its
    date, of which there is one at least. *)
Definition dayAccounts (isoDay : Z -> string)
           (rewards : list ScrapeHeliumRewardsJs.RewardEntry)
           (pocRewards : list ScrapePocRewardsJs.PocReward)
           (d : ParseRewardsDataJs.DayData) : Prop :=
  let dayRewards := rewardsOfDay isoDay (ParseRewardsDataJs.date d) rewards in
  let dayPocRewards := pocRewardsOfDay isoDay (ParseRewardsDataJs.date d) pocRewards in
  ParseRewardsDataJs.totalRewardsDC d = sumBy ScrapeHeliumRewardsJs.rewardAmount dayRewards /\
  ParseRewardsDataJs.rewardCount d = Z.of_nat (length dayRewards) /\
  ParseRewardsDataJs.totalBasePoc d = sumBy ScrapePocRewardsJs.pocBase dayPocRewards /\
  ParseRewardsDataJs.totalBoostedPoc d = sumBy ScrapePocRewardsJs.pocBoosted dayPocRewards /\
  ParseRewardsDataJs.totalPoc d = sumBy ScrapePocRewardsJs.pocTotal dayPocRewards /\
  ParseRewardsDataJs.pocRewardCount d = Z.of_nat (length dayPocRewards) /\
  (0 < length dayRewards + length dayPocRewards)%nat /\
  ParseRewardsDataJs.rewardType d <> ""%string.

(** What the map of days holds after the entries [rewards] and
    [pocRewards]: a day for each date met and no other, under its date. *)
Definition aggregates (isoDay : Z -> string)
           (m : list (string * ParseRewardsDataJs.DayData))
           (rewards : list ScrapeHeliumRewardsJs.RewardEntry)
           (pocRewards : list ScrapePocRewardsJs.PocReward) : Prop :=
  NoDup (map fst m) /\
  forall day,
    match Map_get m day with
    | None => rewardsOfDay isoDay day rewards = [] /\
              pocRewardsOfDay isoDay day pocRewards = []
    | Some d => ParseRewardsDataJs.date d = day /\ dayAccounts isoDay rewards pocRewards d
    end.

(** The sums over the days of the map are the sums over the entries. *)
Definition sumsAgree (m : list (string * ParseRewardsDataJs.DayData))
           (rewards : list ScrapeHeliumRewardsJs.RewardEntry)
           (pocRewards : list ScrapePocRewardsJs.PocReward) : Prop :=
  sumBy ParseRewardsDataJs.totalRewardsDC (map snd m)
  = sumBy ScrapeHeliumRewardsJs.rewardAmount rewards /\
  sumBy ParseRewardsDataJs.totalBasePoc (map snd m)
  = sumBy ScrapePocRewardsJs.pocBase pocRewards /\
  sumBy ParseRewardsDataJs.totalBoostedPoc (map snd m)
  = sumBy ScrapePocRewardsJs.pocBoosted pocRewards /\
  sumBy ParseRewardsDataJs.totalPoc (map snd m)
  = sumBy ScrapePocRewardsJs.pocTotal pocRewards.

(** The order in which the second sort leaves the days: by descending
    [totalRewardsDC], and by ascending date among days of one total. *)
Definition beforeByDC (dateValue : string -> Z) (a b : ParseRewardsDataJs.DayData) : Prop :=
  (ParseRewardsDataJs.totalRewardsDC b <= ParseRewardsDataJs.totalRewardsDC a)%Z /\
  (ParseRewardsDataJs.totalRewardsDC a = ParseRewardsDataJs.totalRewardsDC b ->
   (dateValue (ParseRewardsDataJs.date a) <= dateValue (ParseRewardsDataJs.date b))%Z).

(** A day that passes [validateRewardData]. *)
Definition validDay (day : ParseRewardsDataJs.DayData) : Prop :=
  ParseRewardsDataJs.date day <> ""%string /\
  (0 <= ParseRewardsDataJs.totalRewardsDC day)%Z /\
  ParseRewardsDataJs.rewardType day <> ""%string.

(** An entry of [scrapeHeliumRewards] for examples. *)
Definition rewardEntryAt (timestamp rewardAmount : Z) : ScrapeHeliumRewardsJs.RewardEntry :=
  {| ScrapeHeliumRewardsJs.file := "shares.gz";
     ScrapeHeliumRewardsJs.timestamp := timestamp;
     ScrapeHeliumRewardsJs.message := subscriberShare;
     ScrapeHeliumRewardsJs.enriched := JObject [];
     ScrapeHeliumRewardsJs.rewardAmount := rewardAmount;
     ScrapeHeliumRewardsJs.rewardType := "mobile_verified";
     ScrapeHeliumRewardsJs.dataSource := "aws_s3" |}.

(* ===================================================================== *)
(** * Part II. Lemmas and theorems                                         *)
(* ===================================================================== *)

(** ** Bytes *)

Lemma byteZ_range (b : byte) : (0 <= byteZ b < 256)%Z.
Proof.
  unfold byteZ. pose proof (Byte.to_N_bounded b). lia.
Qed.

Lemma Zbyte_byteZ (b : byte) : Zbyte (byteZ b) = b.
Proof.
  unfold Zbyte. pose proof (byteZ_range b) as Hr.
  rewrite Z.mod_small by lia. unfold byteZ.
  rewrite N2Z.id, Byte.of_to_N. reflexivity.
Qed.

Lemma byteZ_Zbyte (z : Z) : byteZ (Zbyte z) = (z mod 256)%Z.
Proof.
  unfold Zbyte, byteZ.
  pose proof (Z.mod_pos_bound z 256 ltac:(lia)) as Hr.
  destruct (Byte.of_N (Z.to_N (z mod 256))) as [b|] eqn:Hb.
  - apply Byte.to_of_N in Hb. rewrite Hb. lia.
  - apply Byte.of_N_None_iff in Hb. lia.
Qed.

(** ** Buffers *)

Lemma clampIndex_inside (len i : Z) : (0 <= i <= len)%Z -> clampIndex len i = i.
Proof.
  intros H. unfold clampIndex. destruct (Z.ltb_spec i 0); lia.
Qed.

Lemma subarray_inside (buf : list byte) (s e : Z) :
  (0 <= s <= e)%Z -> (e <= Z.of_nat (length buf))%Z ->
  subarray buf s e = take (Z.to_nat (e - s)) (drop (Z.to_nat s) buf).
Proof.
  intros Hs He. unfold subarray.
  rewrite !clampIndex_inside by lia. reflexivity.
Qed.

Lemma subarray_from_inside (buf : list byte) (s : Z) :
  (0 <= s <= Z.of_nat (length buf))%Z ->
  subarray_from buf s = drop (Z.to_nat s) buf.
Proof.
  intros Hs. unfold subarray_from. rewrite subarray_inside by lia.
  apply take_ge. rewrite length_drop. lia.
Qed.

Lemma slice_subarray (buf : list byte) (s e : Z) : slice buf s e = subarray buf s e.
Proof.
  unfold slice, subarray. cbv zeta.
  destruct (Z.leb_spec (clampIndex (Z.of_nat (length buf)) e)
                       (clampIndex (Z.of_nat (length buf)) s)) as [H|H]; [|reflexivity].
  replace (Z.to_nat _) with 0%nat by lia. reflexivity.
Qed.

Lemma Buffer_from_id (payload : list byte) : Buffer_from payload = payload.
Proof. unfold Buffer_from. apply map_id. Qed.

Lemma readUInt32BE_Some (buf : list byte) :
  (4 <= Z.of_nat (length buf))%Z ->
  exists n, readUInt32BE buf = Some n /\ (0 <= n < 2 ^ 32)%Z.
Proof.
  intros Hlen.
  destruct buf as [|b0 [|b1 [|b2 [|b3 buf]]]]; simpl in Hlen; try lia.
  eexists; split; [reflexivity|].
  pose proof (byteZ_range b0). pose proof (byteZ_range b1).
  pose proof (byteZ_range b2). pose proof (byteZ_range b3). lia.
Qed.

Lemma readUInt32BE_app (buf more : list byte) (n : Z) :
  readUInt32BE buf = Some n -> readUInt32BE (buf ++ more) = Some n.
Proof.
  destruct buf as [|b0 [|b1 [|b2 [|b3 buf]]]]; simpl; congruence.
Qed.

Lemma readUInt32BE_uint32BE (n : Z) (more : list byte) :
  (0 <= n < 2 ^ 32)%Z -> readUInt32BE (uint32BE n ++ more) = Some n.
Proof.
  intros Hn. unfold uint32BE. simpl. f_equal.
  rewrite !byteZ_Zbyte.
  change (2 ^ 24)%Z with 16777216%Z. change (2 ^ 16)%Z with 65536%Z.
  change (2 ^ 8)%Z with 256%Z. change (2 ^ 32)%Z with 4294967296%Z in Hn.
  Z.to_euclidean_division_equations. lia.
Qed.

Lemma readUInt32BE_inv (buf : list byte) (n : Z) :
  readUInt32BE buf = Some n ->
  (4 <= Z.of_nat (length buf))%Z /\ (0 <= n < 2 ^ 32)%Z.
Proof.
  intros H.
  assert (Hlen : (4 <= Z.of_nat (length buf))%Z).
  { destruct buf as [|b0 [|b1 [|b2 [|b3 buf]]]]; simpl in *; try discriminate; lia. }
  split; [exact Hlen|].
  destruct (readUInt32BE_Some buf Hlen) as (m & Hm & Hr). congruence.
Qed.

Lemma Zbyte_mod (z : Z) : Zbyte (z mod 256) = Zbyte z.
Proof. unfold Zbyte. rewrite Z.mod_mod by lia. reflexivity. Qed.

Lemma uint32BE_readUInt32BE (buf : list byte) (n : Z) :
  readUInt32BE buf = Some n -> take 4 buf = uint32BE n.
Proof.
  destruct buf as [|b0 [|b1 [|b2 [|b3 buf]]]]; simpl; try discriminate.
  intros [= <-]. unfold uint32BE.
  pose proof (byteZ_range b0). pose proof (byteZ_range b1).
  pose proof (byteZ_range b2). pose proof (byteZ_range b3).
  change (2 ^ 24)%Z with 16777216%Z. change (2 ^ 16)%Z with 65536%Z.
  change (2 ^ 8)%Z with 256%Z.
  set (n := (byteZ b0 * 16777216 + byteZ b1 * 65536 + byteZ b2 * 256 + byteZ b3)%Z).
  rewrite <- (Zbyte_byteZ b0) at 1. rewrite <- (Zbyte_byteZ b1) at 1.
  rewrite <- (Zbyte_byteZ b2) at 1. rewrite <- (Zbyte_byteZ b3) at 1.
  rewrite <- (Zbyte_mod (n / 16777216)), <- (Zbyte_mod (n / 65536)),
    <- (Zbyte_mod (n / 256)), <- (Zbyte_mod n).
  assert ((n / 16777216) mod 256 = byteZ b0)%Z as ->
    by (subst n; Z.to_euclidean_division_equations; lia).
  assert ((n / 65536) mod 256 = byteZ b1)%Z as ->
    by (subst n; Z.to_euclidean_division_equations; lia).
  assert ((n / 256) mod 256 = byteZ b2)%Z as ->
    by (subst n; Z.to_euclidean_division_equations; lia).
  assert (n mod 256 = byteZ b3)%Z as ->
    by (subst n; Z.to_euclidean_division_equations; lia).
  reflexivity.
Qed.

Lemma length_uint32BE (n : Z) : length (uint32BE n) = 4%nat.
Proof. reflexivity. Qed.

(** ** Frame decoder *)

(** The inner loop always ends: a fuel above the buffer length is enough,
    and what it computes is what [Drains] describes. *)
Lemma drainBuffer_Drains (fuel : nat) :
  forall buffer : list byte,
    (length buffer < fuel)%nat ->
    exists frames rest,
      drainBuffer fuel buffer = Some (frames, rest) /\ Drains buffer frames rest.
Proof.
  induction fuel as [|fuel IH]; intros buffer Hfuel; [lia|].
  simpl. destruct (Z.ltb_spec (Z.of_nat (length buffer)) 4) as [Hshort|Hlong].
  - exists [], buffer. split; [reflexivity|]. apply Drains_stop. left. exact Hshort.
  - destruct (readUInt32BE_Some buffer Hlong) as (n & Hn & Hrange).
    rewrite Hn.
    destruct (Z.ltb_spec (Z.of_nat (length buffer)) (4 + n)) as [Hpart|Hfull].
    + exists [], buffer. split; [reflexivity|]. apply Drains_stop. right. eauto.
    + destruct (IH (subarray_from buffer (4 + n))) as (frames & rest & Hd & HD).
      { rewrite subarray_from_inside by lia. rewrite length_drop. lia. }
      rewrite Hd. exists (subarray buffer 4 (4 + n) :: frames), rest.
      split; [reflexivity|]. eapply Drains_yield; eauto.
Qed.

Lemma Drains_det (buffer : list byte) (frames1 frames2 : list (list byte))
      (rest1 rest2 : list byte) :
  Drains buffer frames1 rest1 -> Drains buffer frames2 rest2 ->
  frames1 = frames2 /\ rest1 = rest2.
Proof.
  intros H1. revert frames2 rest2.
  induction H1 as [buffer Hp | buffer n frames rest Hn Hlen H1 IH];
    intros frames2 rest2 H2; inversion H2 as [? Hp2 | ? n2 ? ? Hn2 Hlen2 H2']; subst.
  - split; reflexivity.
  - exfalso. apply readUInt32BE_inv in Hn2 as Hi.
    destruct Hp as [Hs | (m & Hm & Hs)]; [lia|]. rewrite Hn2 in Hm. inversion Hm. lia.
  - exfalso. apply readUInt32BE_inv in Hn as Hi.
    destruct Hp2 as [Hs | (m & Hm & Hs)]; [lia|]. rewrite Hn in Hm. inversion Hm. lia.
  - rewrite Hn in Hn2. inversion Hn2; subst n2.
    destruct (IH _ _ H2') as [-> ->]. split; reflexivity.
Qed.

Lemma Drains_rest_partial (buffer : list byte) (frames : list (list byte)) (rest : list byte) :
  Drains buffer frames rest -> partialFrame rest.
Proof. induction 1; assumption. Qed.

(** Bytes that arrive later do not change the frames already complete. *)
Lemma Drains_app (buffer : list byte) (frames : list (list byte)) (rest : list byte) :
  Drains buffer frames rest ->
  forall (chunk : list byte) (frames' : list (list byte)) (rest' : list byte),
    Drains (rest ++ chunk) frames' rest' ->
    Drains (buffer ++ chunk) (frames ++ frames') rest'.
Proof.
  induction 1 as [buffer Hp | buffer n frames rest Hn Hlen H1 IH];
    intros chunk frames' rest' H2.
  - exact H2.
  - apply readUInt32BE_inv in Hn as Hi.
    assert (Hmsg : subarray (buffer ++ chunk) 4 (4 + n) = subarray buffer 4 (4 + n)).
    { rewrite !subarray_inside by (rewrite ?length_app; lia).
      rewrite drop_app_le by lia. rewrite take_app_le; [reflexivity|].
      rewrite length_drop. lia. }
    assert (Hrest : subarray_from (buffer ++ chunk) (4 + n)
                    = subarray_from buffer (4 + n) ++ chunk).
    { rewrite !subarray_from_inside by (rewrite ?length_app; lia).
      apply drop_app_le. lia. }
    simpl. rewrite <- Hmsg. eapply Drains_yield.
    + apply readUInt32BE_app. exact Hn.
    + rewrite length_app. lia.
    + rewrite Hrest. apply IH. exact H2.
Qed.

(** The frames yielded, put back on the wire, are the buffer read so far. *)
Lemma Drains_decompose (buffer : list byte) (frames : list (list byte)) (rest : list byte) :
  Drains buffer frames rest ->
  buffer = flat_map frameBytes frames ++ rest /\
  Forall (fun f => (Z.of_nat (length f) < 2 ^ 32)%Z) frames.
Proof.
  induction 1 as [buffer Hp | buffer n frames rest Hn Hlen H1 [IHb IHf]].
  - split; [reflexivity | constructor].
  - apply readUInt32BE_inv in Hn as Hi.
    assert (Hl : length (subarray buffer 4 (4 + n)) = Z.to_nat n).
    { rewrite subarray_inside by lia. rewrite length_take, length_drop. lia. }
    split.
    + cbn [flat_map]. unfold frameBytes at 1. rewrite Hl, Z2Nat.id by lia.
      rewrite <- (uint32BE_readUInt32BE _ _ Hn).
      rewrite <- !app_assoc. rewrite <- IHb.
      rewrite subarray_inside, subarray_from_inside by lia.
      replace (Z.to_nat (4 + n)) with (4 + Z.to_nat n)%nat by lia.
      replace (Z.to_nat (4 + n - 4)) with (Z.to_nat n) by lia.
      change (Z.to_nat 4) with 4%nat.
      rewrite <- drop_drop, take_drop, take_drop. reflexivity.
    + constructor; [rewrite Hl; lia | exact IHf].
Qed.

(** Conversely, frames written on the wire and followed by a partial frame
    are read back as they were written. *)
Lemma Drains_frames (frames : list (list byte)) (partial : list byte) :
  Forall (fun f => (Z.of_nat (length f) < 2 ^ 32)%Z) frames ->
  partialFrame partial ->
  Drains (flat_map frameBytes frames ++ partial) frames partial.
Proof.
  intros Hf Hp. induction Hf as [|f frames Hlt Hf IH]; cbn [flat_map].
  - apply Drains_stop. exact Hp.
  - rewrite <- app_assoc.
    set (rest := flat_map frameBytes frames ++ partial) in *.
    set (n := Z.of_nat (length f)) in *.
    assert (Hn : readUInt32BE (frameBytes f ++ rest) = Some n).
    { unfold frameBytes. rewrite <- app_assoc. apply readUInt32BE_uint32BE. lia. }
    assert (Hlen : length (frameBytes f ++ rest) = (4 + length f + length rest)%nat).
    { unfold frameBytes. rewrite !length_app, length_uint32BE. lia. }
    assert (Hmsg : subarray (frameBytes f ++ rest) 4 (4 + n) = f).
    { rewrite subarray_inside by lia. unfold frameBytes. rewrite <- app_assoc.
      change (Z.to_nat 4) with (length (uint32BE n)).
      rewrite drop_app_length. replace (Z.to_nat (4 + n - 4)) with (length f) by lia.
      apply take_app_length. }
    assert (Hrest : subarray_from (frameBytes f ++ rest) (4 + n) = rest).
    { rewrite subarray_from_inside by lia.
      replace (Z.to_nat (4 + n)) with (length (frameBytes f)).
      - apply drop_app_length.
      - unfold frameBytes. rewrite length_app, length_uint32BE. lia. }
    rewrite <- Hmsg at 2. eapply Drains_yield.
    + exact Hn.
    + lia.
    + rewrite Hrest. exact IH.
Qed.

(** The generator, started on a buffer that holds no complete frame, yields
    what one pass of the inner loop over all the bytes would yield. *)
Lemma framedMessagesFrom_Drains (stream : list (list byte)) :
  forall buffer : list byte,
    partialFrame buffer ->
    exists frames rest,
      framedMessagesFrom buffer stream = Some frames /\
      Drains (buffer ++ concat stream) frames rest.
Proof.
  induction stream as [|chunk stream IH]; intros buffer Hp.
  - exists [], buffer. split; [reflexivity|].
    simpl. rewrite app_nil_r. apply Drains_stop. exact Hp.
  - cbn [framedMessagesFrom concat]. unfold Buffer_concat. cbn [concat].
    rewrite app_nil_r.
    destruct (drainBuffer_Drains (S (length (buffer ++ chunk))) (buffer ++ chunk))
      as (frames1 & buffer2 & Hd & HD); [lia|].
    rewrite Hd.
    destruct (IH buffer2 (Drains_rest_partial _ _ _ HD)) as (frames2 & rest & Hf & HD2).
    rewrite Hf. exists (frames1 ++ frames2), rest. split; [reflexivity|].
    rewrite app_assoc. eapply Drains_app; eauto.
Qed.

Lemma partialFrame_nil : partialFrame [].
Proof. left. simpl. lia. Qed.

Lemma framedMessages_Drains (stream : list (list byte)) :
  exists frames rest,
    framedMessages stream = Some frames /\ Drains (concat stream) frames rest.
Proof.
  exact (framedMessagesFrom_Drains stream [] partialFrame_nil).
Qed.

(** C4. Chunk-boundary independence of the frame decoder: two streams that
    carry the same bytes, however they are cut into chunks, make
    [framedMessages] yield the same frames; the frames yielded are exactly
    the byte runs that follow each four-byte big-endian length prefix, in
    order (each shorter than 2^32 bytes, so that its prefix states its
    length), and what is left over is not a complete frame. *)
Theorem framedMessages_chunk_independent (stream1 stream2 : list (list byte)) :
  concat stream1 = concat stream2 ->
  framedMessages stream1 = framedMessages stream2 /\
  exists frames rest,
    framedMessages stream1 = Some frames /\
    concat stream1 = flat_map frameBytes frames ++ rest /\
    Forall (fun f => (Z.of_nat (length f) < 2 ^ 32)%Z) frames /\
    partialFrame rest.
Proof.
  intros Hsame.
  destruct (framedMessages_Drains stream1) as (frames1 & rest1 & Hf1 & HD1).
  destruct (framedMessages_Drains stream2) as (frames2 & rest2 & Hf2 & HD2).
  rewrite Hsame in HD1.
  destruct (Drains_det _ _ _ _ _ HD1 HD2) as [-> ->].
  split; [congruence|].
  exists frames2, rest2. split; [exact Hf1|].
  destruct (Drains_decompose _ _ _ HD2) as [Hbytes Hshort].
  split; [rewrite Hsame; exact Hbytes|]. split; [exact Hshort|].
  apply (Drains_rest_partial _ _ _ HD2).
Qed.

(** One byte at a time against the whole buffer at once: two frames
    ([01 02] and the empty frame) followed by three stray bytes. *)
Lemma framedMessages_chunk_independent_witness :
  framedMessages [[x00]; [x00]; [x00]; [x02]; [x01]; [x02];
                  [x00]; [x00]; [x00]; [x00]; [x00]; [x00]; [x09]]
  = framedMessages [[x00; x00; x00; x02; x01; x02;
                     x00; x00; x00; x00; x00; x00; x09]] /\
  exists frames rest,
    framedMessages [[x00]; [x00]; [x00]; [x02]; [x01]; [x02];
                    [x00]; [x00]; [x00]; [x00]; [x00]; [x00]; [x09]] = Some frames /\
    concat [[x00]; [x00]; [x00]; [x02]; [x01]; [x02];
            [x00]; [x00]; [x00]; [x00]; [x00]; [x00]; [x09]]
    = flat_map frameBytes frames ++ rest /\
    Forall (fun f => (Z.of_nat (length f) < 2 ^ 32)%Z) frames /\
    partialFrame rest.
Proof.
  apply (framedMessages_chunk_independent
           [[x00]; [x00]; [x00]; [x02]; [x01]; [x02];
            [x00]; [x00]; [x00]; [x00]; [x00]; [x00]; [x09]]
           [[x00; x00; x00; x02; x01; x02;
             x00; x00; x00; x00; x00; x00; x09]]).
  reflexivity.
Defined.

Example framedMessages_two_frames :
  framedMessages [[x00; x00; x00]; [x02; x01]; [x02; x00; x00; x00; x00; x00; x00; x09]]
  = Some [[x01; x02]; []].
Proof. reflexivity. Qed.

(** C5. A stream that ends inside a frame: when the bytes of the stream are
    complete frames followed by a partial one (fewer than four bytes, or
    fewer than [4 + length] bytes for the stated length), [framedMessages]
    ends normally, yields exactly the complete frames and drops the rest. *)
Theorem framedMessages_trailing_partial
        (frames : list (list byte)) (partial : list byte) (stream : list (list byte)) :
  Forall (fun f => (Z.of_nat (length f) < 2 ^ 32)%Z) frames ->
  partialFrame partial ->
  concat stream = flat_map frameBytes frames ++ partial ->
  framedMessages stream = Some frames.
Proof.
  intros Hf Hp Hstream.
  destruct (framedMessages_Drains stream) as (frames' & rest' & Hfm & HD).
  rewrite Hstream in HD.
  destruct (Drains_det _ _ _ _ _ HD (Drains_frames frames partial Hf Hp)) as [-> _].
  exact Hfm.
Qed.

(** A frame of two bytes, then a prefix that announces five bytes of which
    only one is ever supplied. *)
Lemma framedMessages_trailing_partial_witness :
  framedMessages [[x00; x00; x00; x02; x01]; [x02; x00; x00; x00; x05; x07]]
  = Some [[x01; x02]].
Proof.
  apply (framedMessages_trailing_partial [[x01; x02]] [x00; x00; x00; x05; x07]).
  - repeat constructor.
  - right. exists 5%Z. split; [reflexivity | simpl; lia].
  - reflexivity.
Defined.

(** ** SHA-256 *)

(** The digest of "abc" (FIPS 180-4, appendix B.1). *)
Example sha256_abc :
  map byteZ (SHA256.digest ["a"%byte; "b"%byte; "c"%byte])
  = [186; 120; 22; 191; 143; 1; 207; 234; 65; 65; 64; 222; 93; 174; 34; 35;
     176; 3; 97; 163; 150; 23; 122; 156; 180; 16; 255; 97; 242; 0; 21; 173]%Z.
Proof. vm_compute. reflexivity. Qed.

Lemma sha256_digest_length (msg : list byte) : length (SHA256.digest msg) = 32%nat.
Proof. reflexivity. Qed.

Example sha256_two_blocks :
  map byteZ (SHA256.digest (map (fun n => Zbyte (Z.of_nat n)) (seq 0 70)))
  = [87; 103; 214; 154; 144; 109; 72; 96; 219; 144; 121; 235; 126; 144; 171; 74;
     84; 62; 92; 176; 50; 252; 232; 70; 85; 74; 239; 108; 235; 96; 14; 29]%Z.
Proof. vm_compute. reflexivity. Qed.

(** ** Base58 *)

Lemma bs58_charDigit_digitChar (d : N) :
  (d < 58)%N -> bs58.charDigit (bs58.digitChar d) = Some d.
Proof.
  intros Hd.
  assert (Hall : forallb (fun k => match bs58.charDigit (bs58.digitChar k) with
                                   | Some k' => (k' =? k)%N
                                   | None => false
                                   end)
                         (map N.of_nat (seq 0 58)) = true) by (vm_compute; reflexivity).
  rewrite forallb_forall in Hall.
  specialize (Hall d). 
  assert (Hin : In d (map N.of_nat (seq 0 58))).
  { apply in_map_iff. exists (N.to_nat d). split; [lia|]. apply in_seq. lia. }
  specialize (Hall Hin).
  destruct (bs58.charDigit (bs58.digitChar d)) as [k|]; [|discriminate].
  apply N.eqb_eq in Hall. congruence.
Qed.

Lemma enoughFuel_div (fuel : nat) (base n : N) :
  (2 <= base)%N -> n <> 0%N -> bs58.enoughFuel (S fuel) n -> bs58.enoughFuel fuel (n / base).
Proof.
  intros Hbase Hn [H0 | Hlog]; [congruence|].
  destruct (N.eq_dec (n / base)%N 0%N) as [Hz | Hnz]; [left; exact Hz | right].
  assert (Hle : (2 * (n / base) <= n)%N).
  { transitivity (base * (n / base))%N.
    - apply N.mul_le_mono_r. exact Hbase.
    - apply N.Div0.mul_div_le. }
  apply N.log2_le_mono in Hle.
  rewrite N.log2_double in Hle by (apply N.neq_0_lt_0; exact Hnz).
  set (a := N.log2 (n / base)) in *. set (b := N.log2 n) in *. lia.
Qed.

Lemma enoughFuel_log2 (n : N) : bs58.enoughFuel (S (N.to_nat (N.log2 n))) n.
Proof. right. lia. Qed.

Lemma digitsLE_value (base : N) (fuel : nat) :
  (2 <= base)%N ->
  forall n, bs58.enoughFuel fuel n -> bs58.valueLE base (bs58.digitsLE fuel base n) = n.
Proof.
  intros Hbase. induction fuel as [|fuel IH]; intros n Hfuel.
  - destruct Hfuel as [-> | H]; [reflexivity | lia].
  - simpl. destruct (N.eqb_spec n 0) as [-> | Hn]; [reflexivity|].
    simpl. rewrite IH by (apply enoughFuel_div; assumption).
    rewrite N.add_comm. symmetry. apply N.div_mod. lia.
Qed.

Lemma digitsLE_bound (base : N) (fuel : nat) :
  (0 < base)%N ->
  forall n, Forall (fun d => (d < base)%N) (bs58.digitsLE fuel base n).
Proof.
  intros Hbase. induction fuel as [|fuel IH]; intros n; simpl; [constructor|].
  destruct (N.eqb_spec n 0); constructor.
  - apply N.mod_lt. lia.
  - apply IH.
Qed.

Lemma digitsLE_canonical (base : N) (fuel : nat) :
  (2 <= base)%N ->
  forall n, bs58.enoughFuel fuel n -> bs58.canonicalLE (bs58.digitsLE fuel base n) = true.
Proof.
  intros Hbase. induction fuel as [|fuel IH]; intros n Hfuel; [reflexivity|].
  simpl. destruct (N.eqb_spec n 0) as [-> | Hn]; [reflexivity|].
  pose proof (enoughFuel_div fuel base n Hbase Hn Hfuel) as Hdiv.
  specialize (IH _ Hdiv).
  destruct fuel as [|fuel].
  - destruct Hdiv as [Hz | Hl]; [|lia]. simpl.
    apply negb_true_iff, N.eqb_neq. intros Hmod.
    apply Hn. rewrite (N.div_mod n base) by lia. rewrite Hz, Hmod. lia.
  - simpl in *. destruct (N.eqb_spec (n / base) 0) as [Hz | Hnz].
    + apply negb_true_iff, N.eqb_neq. intros Hmod.
      apply Hn. rewrite (N.div_mod n base) by lia. rewrite Hz, Hmod. lia.
    + exact IH.
Qed.

Lemma canonicalLE_value_nonzero (base : N) (ds : list N) :
  (2 <= base)%N -> ds <> [] -> bs58.canonicalLE ds = true ->
  bs58.valueLE base ds <> 0%N.
Proof.
  intros Hbase. induction ds as [|d ds IH]; intros Hne Hc; [congruence|].
  destruct ds as [|d' ds].
  - simpl in *. apply negb_true_iff, N.eqb_neq in Hc. lia.
  - assert (Hv : bs58.valueLE base (d' :: ds) <> 0%N) by (apply IH; [discriminate | exact Hc]).
    change (bs58.valueLE base (d :: d' :: ds))
      with (d + base * bs58.valueLE base (d' :: ds))%N.
    nia.
Qed.

(** A canonical digit list is the only one that writes its value. *)
Lemma digitsLE_unique (base : N) (ds : list N) :
  (2 <= base)%N ->
  Forall (fun d => (d < base)%N) ds -> bs58.canonicalLE ds = true ->
  forall fuel, (length ds <= fuel)%nat ->
    bs58.digitsLE fuel base (bs58.valueLE base ds) = ds.
Proof.
  intros Hbase Hall. induction Hall as [|d ds Hd Hall IH]; intros Hc fuel Hfuel.
  - destruct fuel; reflexivity.
  - destruct fuel as [|fuel]; [simpl in Hfuel; lia|].
    pose proof (canonicalLE_value_nonzero base (d :: ds) Hbase ltac:(discriminate) Hc) as Hnz.
    cbn [bs58.digitsLE].
    destruct (N.eqb_spec (bs58.valueLE base (d :: ds)) 0) as [|_]; [congruence|].
    change (bs58.valueLE base (d :: ds)) with (d + base * bs58.valueLE base ds)%N.
    assert (Hmod : ((d + base * bs58.valueLE base ds) mod base = d)%N).
    { replace (d + base * bs58.valueLE base ds)%N
        with (d + bs58.valueLE base ds * base)%N by lia.
      rewrite N.Div0.mod_add. apply N.mod_small. exact Hd. }
    assert (Hdiv : ((d + base * bs58.valueLE base ds) / base = bs58.valueLE base ds)%N).
    { replace (d + base * bs58.valueLE base ds)%N
        with (d + bs58.valueLE base ds * base)%N by lia.
      rewrite N.div_add by lia. rewrite (N.div_small d base) by exact Hd. lia. }
    rewrite Hmod, Hdiv. f_equal. apply IH.
    + destruct ds; [reflexivity | exact Hc].
    + simpl in Hfuel. lia.
Qed.

Lemma digitsLE_more_fuel (base : N) (fuel : nat) :
  (2 <= base)%N ->
  forall n k, bs58.enoughFuel fuel n ->
    bs58.digitsLE (fuel + k) base n = bs58.digitsLE fuel base n.
Proof.
  intros Hbase. induction fuel as [|fuel IH]; intros n k Hfuel.
  - destruct Hfuel as [-> | H]; [|lia]. destruct k; reflexivity.
  - simpl. destruct (N.eqb_spec n 0) as [|Hn]; [reflexivity|].
    f_equal. apply IH. apply enoughFuel_div; assumption.
Qed.

Lemma bs58_fromDigits_digits (base n : N) :
  (2 <= base)%N -> bs58.fromDigits base (bs58.digits base n) = n.
Proof.
  intros Hbase. unfold bs58.fromDigits, bs58.digits. rewrite rev_involutive.
  apply digitsLE_value; [exact Hbase | apply enoughFuel_log2].
Qed.

Lemma bs58_digits_bound (base n : N) :
  (0 < base)%N -> Forall (fun d => (d < base)%N) (bs58.digits base n).
Proof.
  intros Hbase. unfold bs58.digits. apply Forall_rev. apply digitsLE_bound. exact Hbase.
Qed.

Lemma canonicalLE_snoc (ds : list N) (d : N) :
  bs58.canonicalLE (ds ++ [d]) = negb (d =? 0)%N.
Proof.
  induction ds as [|x ds IH]; [reflexivity|].
  simpl. destruct (ds ++ [d]) eqn:E; [destruct ds; discriminate | exact IH].
Qed.

Lemma canonicalLE_rev (ds : list N) :
  bs58.leadingZeroes ds = 0%nat -> bs58.canonicalLE (rev ds) = true.
Proof.
  destruct ds as [|d ds]; [reflexivity|].
  intros Hz. simpl. rewrite canonicalLE_snoc.
  destruct d; [discriminate | reflexivity].
Qed.

Lemma leadingZeroes_rev_canonical (ds : list N) :
  bs58.canonicalLE ds = true -> bs58.leadingZeroes (rev ds) = 0%nat.
Proof.
  destruct ds as [|d ds] using rev_ind; [reflexivity|].
  rewrite canonicalLE_snoc, rev_app_distr. simpl.
  destruct d; [discriminate | reflexivity].
Qed.

Lemma bs58_digits_no_leading_zero (base n : N) :
  (2 <= base)%N -> bs58.leadingZeroes (bs58.digits base n) = 0%nat.
Proof.
  intros Hbase. unfold bs58.digits. apply leadingZeroes_rev_canonical.
  apply digitsLE_canonical; [exact Hbase | apply enoughFuel_log2].
Qed.

(** Writing a number read from canonical digits gives the digits back. *)
Lemma bs58_digits_fromDigits (base : N) (ds : list N) :
  (2 <= base)%N ->
  Forall (fun d => (d < base)%N) ds -> bs58.leadingZeroes ds = 0%nat ->
  bs58.digits base (bs58.fromDigits base ds) = ds.
Proof.
  intros Hbase Hall Hz. unfold bs58.digits, bs58.fromDigits.
  set (v := bs58.valueLE base (rev ds)).
  rewrite <- (digitsLE_more_fuel base _ Hbase v (length ds) (enoughFuel_log2 v)).
  subst v. rewrite digitsLE_unique.
  - apply rev_involutive.
  - exact Hbase.
  - apply Forall_rev. exact Hall.
  - apply canonicalLE_rev. exact Hz.
  - rewrite length_rev. lia.
Qed.

Lemma leadingZeroes_split (ds : list N) :
  ds = repeat 0%N (bs58.leadingZeroes ds) ++ drop (bs58.leadingZeroes ds) ds /\
  bs58.leadingZeroes (drop (bs58.leadingZeroes ds) ds) = 0%nat.
Proof.
  induction ds as [|d ds [IH1 IH2]]; [split; reflexivity|].
  destruct d as [|p]; simpl.
  - split; [f_equal; exact IH1 | exact IH2].
  - split; reflexivity.
Qed.

Lemma leadingZeroes_repeat_app (z : nat) (ds : list N) :
  bs58.leadingZeroes ds = 0%nat ->
  bs58.leadingZeroes (repeat 0%N z ++ ds) = z.
Proof.
  intros Hz. induction z as [|z IH]; simpl; [exact Hz | f_equal; exact IH].
Qed.

Lemma byte_to_N_zero (b : byte) : Byte.to_N b = 0%N -> b = x00.
Proof.
  intros H. pose proof (Byte.of_to_N b) as Hb. rewrite H in Hb.
  simpl in Hb. congruence.
Qed.

Lemma byteOfDigit_to_N (b : byte) : bs58.byteOfDigit (Byte.to_N b) = b.
Proof. apply Zbyte_byteZ. Qed.

Lemma leading_zero_bytes (source : list byte) :
  repeat x00 (bs58.leadingZeroes (map Byte.to_N source))
  ++ drop (bs58.leadingZeroes (map Byte.to_N source)) source = source.
Proof.
  induction source as [|b source IH]; [reflexivity|].
  simpl. destruct (Byte.to_N b) eqn:Hb; simpl.
  - apply byte_to_N_zero in Hb. subst b. f_equal. exact IH.
  - reflexivity.
Qed.

Lemma mapM_charDigit_digits (z : nat) (ds : list N) :
  Forall (fun d => (d < 58)%N) ds ->
  mapM bs58.charDigit (repeat "1"%char z ++ map bs58.digitChar ds)
  = Some (repeat 0%N z ++ ds).
Proof.
  intros Hall. apply mapM_Some_2. apply Forall2_app.
  - induction z; simpl; constructor; [reflexivity | assumption].
  - induction Hall as [|d ds Hd Hall IH]; simpl; constructor.
    + apply bs58_charDigit_digitChar. exact Hd.
    + exact IH.
Qed.

(** [bs58.decode(bs58.encode(source))] is [source], for every buffer. *)
Lemma bs58_decode_encode (source : list byte) :
  bs58.decode (bs58.encode source) = Returns source.
Proof.
  unfold bs58.decode, bs58.encode.
  set (ds := map Byte.to_N source).
  set (z := bs58.leadingZeroes ds).
  set (v := bs58.fromDigits 256 (drop z ds)).
  rewrite list_ascii_of_string_of_list_ascii.
  rewrite mapM_charDigit_digits by (apply bs58_digits_bound; lia).
  rewrite leadingZeroes_repeat_app by (apply bs58_digits_no_leading_zero; lia).
  rewrite drop_app_length' by (symmetry; apply repeat_length).
  rewrite bs58_fromDigits_digits by lia.
  subst v. rewrite bs58_digits_fromDigits.
  - f_equal. subst z ds. rewrite skipn_map, map_map.
    rewrite (map_ext _ (fun b => b)) by apply byteOfDigit_to_N.
    rewrite map_id. apply leading_zero_bytes.
  - lia.
  - apply Forall_drop. subst ds. apply Forall_map, Forall_forall. intros b _.
    pose proof (Byte.to_N_bounded b). simpl. lia.
  - apply leadingZeroes_split.
Qed.

(** ** Checksummed base58 *)

Lemma slice_checksum (digest : list byte) :
  length digest = 32%nat -> length (slice digest 0 4) = 4%nat.
Proof.
  intros H. rewrite slice_subarray, subarray_inside by lia.
  rewrite length_take, length_drop. lia.
Qed.

(** Removing the first byte and the last four of [version :: payload ++ checksum]. *)
Lemma slice_version_checksum (v : byte) (payload checksum : list byte) :
  length checksum = 4%nat ->
  slice (v :: payload ++ checksum) 1 (-4) = payload /\
  slice (v :: payload ++ checksum) 0 1 = [v].
Proof.
  intros Hc. rewrite !slice_subarray. unfold subarray, clampIndex.
  cbn [length]. rewrite length_app, Hc.
  replace (Z.of_nat (S (length payload + 4))) with (Z.of_nat (length payload) + 5)%Z by lia.
  destruct (Z.ltb_spec 1 0); [lia|]. destruct (Z.ltb_spec (-4) 0); [|lia].
  destruct (Z.ltb_spec 0 0); [lia|].
  split.
  - replace (Z.to_nat (Z.min 1 _)) with 1%nat by lia.
    replace (Z.to_nat _) with (length payload) by lia.
    simpl. apply take_app_length.
  - replace (Z.to_nat (Z.min 0 _)) with 0%nat by lia.
    replace (Z.to_nat _) with 1%nat by lia. reflexivity.
Qed.

(** What [base58checkEncode] hands to [bs58.encode]. *)
Lemma base58checkEncode_layout (data : list byte) (version : Z) :
  exists checksum,
    length checksum = 4%nat /\
    base58checkEncode data version = bs58.encode (Zbyte version :: data ++ checksum).
Proof.
  unfold base58checkEncode, Buffer_concat, Buffer_from_number.
  eexists. split; [apply slice_checksum, sha256_digest_length|].
  cbn [concat app]. rewrite !app_nil_r. reflexivity.
Qed.

(** C3. Round trip of the checksummed encoding: base58-decoding
    [base58checkEncode(payload, v)], then taking the first byte as version
    and removing it and the last four bytes (the checksum), as
    [getTargetDeviceFormats] does with [slice(1, -4)], gives back exactly
    the version byte and the payload. *)
Theorem base58check_decode_encode (payload : list byte) (v : byte) :
  bindOutcome (bs58.decode (base58checkEncode payload (byteZ v)))
              (fun decoded => Returns (slice decoded 0 1, slice decoded 1 (-4)))
  = Returns ([v], payload).
Proof.
  destruct (base58checkEncode_layout payload (byteZ v)) as (checksum & Hlen & ->).
  rewrite bs58_decode_encode, Zbyte_byteZ. cbn [bindOutcome].
  destruct (slice_version_checksum v payload checksum Hlen) as [-> ->].
  reflexivity.
Qed.

Example base58check_example :
  base58checkEncode [x01; x02; x03] 0 = "13DV5niCGP"%string /\
  bs58.decode "13DV5niCGP" =
    Returns [x00; x01; x02; x03; xf7; xa3; x55; xc0].
Proof. split; vm_compute; reflexivity. Qed.

(** On a checksummed key the formats are those of the payload. *)
Lemma getTargetDeviceFormats_checksummed (payload : list byte) (v : byte) :
  ScrapeDeviceJs.getTargetDeviceFormats (base58checkEncode payload (byteZ v))
  = Returns {| original := base58checkEncode payload (byteZ v);
               rawBase58 := bs58.encode payload;
               hex := toHex payload;
               base64 := toBase64 payload;
               base58check := Some (base58checkEncode payload 0) |}.
Proof.
  unfold ScrapeDeviceJs.getTargetDeviceFormats.
  destruct (base58checkEncode_layout payload (byteZ v)) as (checksum & Hlen & Henc).
  rewrite Henc at 1. rewrite bs58_decode_encode, Zbyte_byteZ. cbn [bindOutcome tryCatch].
  destruct (slice_version_checksum v payload checksum Hlen) as [-> _].
  rewrite Buffer_from_id. reflexivity.
Qed.

(** C10. The two checksummed encoders of scrapePocRewards.js,
    [base58checkEncode] and [base58checkEncodeRaw], return the same string
    for every payload of bytes and every version. *)
Theorem base58checkEncodeRaw_same (payload : list byte) (version : Z) :
  base58checkEncodeRaw payload version = base58checkEncode payload version.
Proof.
  unfold base58checkEncodeRaw, base58checkEncode.
  rewrite Buffer_from_id, slice_subarray. reflexivity.
Qed.

(** ** The fallback of [getTargetDeviceFormats] *)

(** In the [try] block only [bs58.decode] can throw, and the [catch] block
    decodes the same key again: whenever the handler runs it throws. *)
Lemma getTargetDeviceFormats_throws (targetKey e : string) :
  bs58.decode targetKey = Throws e ->
  ScrapeDeviceJs.getTargetDeviceFormats targetKey = Throws e /\
  ScrapeHeliumRewardsJs.getTargetDeviceFormats targetKey = Throws e.
Proof.
  intros H.
  unfold ScrapeDeviceJs.getTargetDeviceFormats, ScrapeHeliumRewardsJs.getTargetDeviceFormats.
  rewrite H. split; reflexivity.
Qed.

(** Every key made of base58 characters takes the checksummed branch,
    whatever its length and whatever its last four bytes. *)
Lemma getTargetDeviceFormats_returns (targetKey : string) (decoded : list byte) :
  bs58.decode targetKey = Returns decoded ->
  ScrapeDeviceJs.getTargetDeviceFormats targetKey
  = Returns {| original := targetKey;
               rawBase58 := bs58.encode (slice decoded 1 (-4));
               hex := toHex (slice decoded 1 (-4));
               base64 := toBase64 (slice decoded 1 (-4));
               base58check := Some (base58checkEncode (slice decoded 1 (-4)) 0) |}.
Proof.
  intros H. unfold ScrapeDeviceJs.getTargetDeviceFormats. rewrite H.
  cbn [bindOutcome tryCatch]. rewrite Buffer_from_id. reflexivity.
Qed.

(** The formats of the fallback (whole key as raw base58, no [base58check])
    are never returned by scripts/scrape-device.js. *)
Lemma getTargetDeviceFormats_never_plain (targetKey : string) (formats : DeviceKeyFormats) :
  ScrapeDeviceJs.getTargetDeviceFormats targetKey = Returns formats ->
  base58check formats <> None.
Proof.
  destruct (bs58.decode targetKey) as [decoded|e] eqn:Hd.
  - rewrite (getTargetDeviceFormats_returns _ _ Hd). intros [= <-]. discriminate.
  - rewrite (proj1 (getTargetDeviceFormats_throws _ _ Hd)). discriminate.
Qed.

(** C9 (defect of the code). The key "0x1234" holds characters outside the
    base58 alphabet, so it cannot be decoded as checksummed base58: both
    versions of [getTargetDeviceFormats] throw on it instead of returning the
    plain-base58 formats.  The key "2g" is base58 for the single byte 0x61,
    too short to hold a version byte and a checksum: it is taken as
    checksummed all the same, with an empty raw form and a [base58check]. *)
Theorem getTargetDeviceFormats_fallback_defect :
  ScrapeDeviceJs.getTargetDeviceFormats "0x1234" = Throws "Non-base58 character" /\
  ScrapeHeliumRewardsJs.getTargetDeviceFormats "0x1234" = Throws "Non-base58 character" /\
  ScrapeDeviceJs.getTargetDeviceFormats "2g"
  = Returns {| original := "2g"; rawBase58 := ""; hex := ""; base64 := "";
               base58check := Some "1Wh4bh" |}.
Proof. repeat split; vm_compute; reflexivity. Qed.

(** ** Object enumerator *)

Lemma isPrefixOf_spec (p l : list ascii) :
  isPrefixOf p l = true <-> exists rest, l = p ++ rest.
Proof.
  unfold isPrefixOf. rewrite andb_true_iff, bool_decide_eq_true, Nat.leb_le. split.
  - intros [_ Ht]. exists (drop (length p) l). rewrite <- Ht at 1. symmetry. apply take_drop.
  - intros [rest ->]. rewrite length_app. split; [lia|]. apply take_app_length.
Qed.

Lemma endsWith_spec (s suffix : string) :
  endsWith s suffix = true <->
  exists stem, list_ascii_of_string s = stem ++ list_ascii_of_string suffix.
Proof.
  unfold endsWith. rewrite isPrefixOf_spec. split.
  - intros [rest H]. exists (rev rest).
    apply (f_equal (@rev ascii)) in H. rewrite rev_involutive, rev_app_distr, rev_involutive in H.
    exact H.
  - intros [stem H]. exists (rev stem). rewrite H, rev_app_distr. reflexivity.
Qed.

Lemma length_chars (s : string) : length (list_ascii_of_string s) = String.length s.
Proof. induction s as [|c s IH]; simpl; [reflexivity | f_equal; exact IH]. Qed.

(** The regular expression [/\.(\d{13})\.gz$/]: a match captures the thirteen
    digits that stand between a dot and the final ".gz". *)
Lemma matchTimestamp_spec (k : string) (digits : string) :
  matchTimestamp k = Some digits <->
  exists stem,
    list_ascii_of_string k
    = stem ++ "."%char :: list_ascii_of_string digits ++ list_ascii_of_string ".gz" /\
    String.length digits = 13%nat /\
    forallb isDigit (list_ascii_of_string digits) = true.
Proof.
  unfold matchTimestamp. split.
  - intros H.
    destruct (rev (list_ascii_of_string k)) as [|c1 [|c2 [|c3 rest]]] eqn:Hrev;
      try discriminate; try (destruct c1 as [[] [] [] [] [] [] [] []]; discriminate).
    + destruct c1 as [[] [] [] [] [] [] [] []]; try discriminate.
      destruct c2 as [[] [] [] [] [] [] [] []]; discriminate.
    + destruct c1 as [[] [] [] [] [] [] [] []]; try discriminate.
      destruct c2 as [[] [] [] [] [] [] [] []]; try discriminate.
      destruct c3 as [[] [] [] [] [] [] [] []]; try discriminate.
      destruct (drop 13 rest) as [|d rest'] eqn:Hdrop; [discriminate|].
      destruct d as [[] [] [] [] [] [] [] []]; try discriminate.
      destruct ((length (take 13 rest) =? 13)%nat && forallb isDigit (take 13 rest)) eqn:Hc;
        [|discriminate].
      apply andb_true_iff in Hc as [Hlen Hdig]. apply Nat.eqb_eq in Hlen.
      injection H as <-. exists (rev rest').
      rewrite list_ascii_of_string_of_list_ascii.
      split; [|split].
      * apply (f_equal (@rev ascii)) in Hrev. rewrite rev_involutive in Hrev.
        rewrite Hrev. rewrite <- (take_drop 13 rest) at 1. rewrite Hdrop.
        simpl. rewrite rev_app_distr. simpl. rewrite <- !app_assoc. reflexivity.
      * rewrite <- length_chars, list_ascii_of_string_of_list_ascii, length_rev.
        exact Hlen.
      * rewrite forallb_forall in *. intros c Hin. apply Hdig. apply in_rev. exact Hin.
  - intros (stem & Hk & Hlen & Hdig).
    rewrite Hk. rewrite rev_app_distr. simpl. rewrite !rev_app_distr. simpl.
    rewrite <- length_chars in Hlen.
    set (ds := list_ascii_of_string digits) in *.
    assert (Hr : length (rev ds) = 13%nat) by (rewrite length_rev; exact Hlen).
    rewrite <- app_assoc. simpl.
    assert (Ht : take 13 (rev ds ++ "."%char :: rev stem) = rev ds)
      by (rewrite <- Hr; apply take_app_length).
    assert (Hdr : drop 13 (rev ds ++ "."%char :: rev stem) = "."%char :: rev stem)
      by (rewrite <- Hr; apply drop_app_length).
    rewrite Ht, Hdr, Hr. simpl.
    assert (Hd : forallb isDigit (rev ds) = true).
    { rewrite forallb_forall in *. intros c Hin. apply Hdig. apply in_rev. exact Hin. }
    rewrite Hd, rev_involutive. subst ds. rewrite string_of_list_ascii_of_string. reflexivity.
Qed.

Example timestampOfKey_example :
  timestampOfKey "foundation-mobile-verified/mobile_network_reward_shares_v1.1700000000000.gz"
  = 1700000000000%Z /\
  timestampOfKey "mobile_network_reward_shares_v1.17000000000000.gz" = 0%Z /\
  timestampOfKey "report-20240101.gz" = 0%Z.
Proof. repeat split; vm_compute; reflexivity. Qed.

Lemma collectKey_keptKey (startTs endTs : Z) (keys : list KeyTs) (obj : S3Object) :
  collectKey startTs endTs keys obj
  = if keptKey startTs endTs (orEmpty (Key obj))
    then keys ++ [{| key := orEmpty (Key obj); ts := timestampOfKey (orEmpty (Key obj)) |}]
    else keys.
Proof.
  unfold collectKey, keptKey. destruct (endsWith (orEmpty (Key obj)) ".gz"); reflexivity.
Qed.

Lemma collectKey_keptKeys (startTs endTs : Z) (contents : list S3Object) :
  forall keys,
    fold_left (collectKey startTs endTs) contents keys
    = keys ++ keptKeys startTs endTs contents.
Proof.
  induction contents as [|obj contents IH]; intros keys; cbn [fold_left].
  - symmetry. apply app_nil_r.
  - rewrite IH, collectKey_keptKey. unfold keptKeys. cbn [map].
    rewrite filter_cons.
    destruct (keptKey startTs endTs (orEmpty (Key obj))) eqn:Hk.
    + rewrite decide_True by reflexivity. rewrite <- app_assoc. reflexivity.
    + rewrite decide_False by discriminate. reflexivity.
Qed.

Lemma keptKeys_app (startTs endTs : Z) (l1 l2 : list S3Object) :
  keptKeys startTs endTs (l1 ++ l2) = keptKeys startTs endTs l1 ++ keptKeys startTs endTs l2.
Proof.
  unfold keptKeys. rewrite map_app, filter_app, map_app. reflexivity.
Qed.

(** The loop asks for every page of the listing, and for nothing more. *)
Lemma listLoop_Listing (send : ListObjectsV2Command -> outcome ListObjectsV2Output)
      (BUCKET prefix : string) (startTs endTs : Z)
      (token : option string) (pages : list ListObjectsV2Output) :
  Listing send BUCKET prefix token pages ->
  forall (fuel : nat) (keys : list KeyTs),
    (length pages <= fuel)%nat ->
    listLoop send BUCKET fuel prefix startTs endTs token keys
    = Some (Returns (keys ++ keptKeys startTs endTs (flat_map pageObjects pages))).
Proof.
  induction 1 as [token resp Hsend Hend | token resp pages Hsend Hmore HL IH];
    intros fuel keys Hfuel; (destruct fuel as [|fuel]; [simpl in Hfuel; lia|]);
    cbn [listLoop]; rewrite Hsend.
  - rewrite Hend. rewrite collectKey_keptKeys. cbn [flat_map]. rewrite app_nil_r. reflexivity.
  - rewrite Hmore. rewrite IH by (simpl in Hfuel; lia).
    rewrite collectKey_keptKeys. cbn [flat_map]. rewrite keptKeys_app, app_assoc. reflexivity.
Qed.

Lemma insertByTs_perm (x : KeyTs) (l : list KeyTs) : Permutation (insertByTs x l) (x :: l).
Proof.
  induction l as [|y l IH]; simpl; [reflexivity|].
  destruct (ts x <=? ts y)%Z; [reflexivity|].
  rewrite IH. apply perm_swap.
Qed.

Lemma sortByTs_perm (l : list KeyTs) : Permutation (sortByTs l) l.
Proof.
  induction l as [|x l IH]; simpl; [reflexivity|].
  rewrite insertByTs_perm. constructor. exact IH.
Qed.

Lemma insertByTs_sorted (x : KeyTs) (l : list KeyTs) :
  StronglySorted (fun a b => (ts a <= ts b)%Z) l ->
  StronglySorted (fun a b => (ts a <= ts b)%Z) (insertByTs x l).
Proof.
  induction 1 as [|y l Hs IH Hall]; simpl.
  - repeat constructor.
  - destruct (Z.leb_spec (ts x) (ts y)) as [Hle|Hlt].
    + constructor; [constructor; assumption|].
      constructor; [exact Hle|].
      eapply Forall_impl; [exact Hall|]. simpl. intros z Hz. lia.
    + constructor; [exact IH|].
      rewrite (insertByTs_perm x l). constructor; [lia | exact Hall].
Qed.

Lemma sortByTs_sorted (l : list KeyTs) :
  StronglySorted (fun a b => (ts a <= ts b)%Z) (sortByTs l).
Proof.
  induction l as [|x l IH]; simpl; [constructor | apply insertByTs_sorted; exact IH].
Qed.

Lemma keptKeys_In (startTs endTs : Z) (objs : list S3Object) (k : string) (t : Z) :
  In {| key := k; ts := t |} (keptKeys startTs endTs objs) <->
  (exists obj, In obj objs /\ orEmpty (Key obj) = k) /\
  endsWith k ".gz" = true /\
  t = timestampOfKey k /\ (startTs <= t <= endTs)%Z.
Proof.
  unfold keptKeys. rewrite in_map_iff. split.
  - intros (k' & [= -> <-] & Hin).
    apply list_elem_of_In, list_elem_of_filter in Hin as [Hkept Hin].
    apply list_elem_of_In, in_map_iff in Hin as (obj & Hk & Hobj).
    unfold keptKey in Hkept. apply andb_true_iff in Hkept as [He Hr].
    apply andb_true_iff in Hr as [H1 H2].
    split; [exists obj; split; assumption|]. split; [exact He|].
    split; [reflexivity | lia].
  - intros ((obj & Hobj & Hk) & He & -> & Hr).
    exists k. split; [reflexivity|].
    apply list_elem_of_In, list_elem_of_filter. split.
    + unfold keptKey. rewrite He. simpl. apply andb_true_iff. split; lia.
    + apply list_elem_of_In, in_map_iff. exists obj. split; assumption.
Qed.



Example listGzKeysInRange_example :
  listGzKeysInRange twoPageStore "bucket" 2 "p" 1700000000000 1700000300000
  = Some (Returns [ {| key := "p/shares.1700000100000.gz"; ts := 1700000100000 |};
                    {| key := "p/shares.1700000200000.gz"; ts := 1700000200000 |};
                    {| key := "p/shares.1700000300000.gz"; ts := 1700000300000 |} ]).
Proof. vm_compute. reflexivity. Qed.

(** ** The wire reader *)

Lemma readOn_refl (r : Reader.t) : readOn r r.
Proof. split; [reflexivity | lia]. Qed.

Lemma readOn_trans (r1 r2 r3 : Reader.t) : readOn r1 r2 -> readOn r2 r3 -> readOn r1 r3.
Proof. intros [H1 H2] [H3 H4]. split; [congruence | lia]. Qed.

Lemma readOn_setPos (r : Reader.t) (p : Z) :
  (Reader.pos r <= p)%Z -> readOn r (Reader.setPos r p).
Proof. intros H. split; [reflexivity | exact H]. Qed.

Lemma bits_nonneg (o : option Z) (mask : Z) : (0 <= mask)%Z -> (0 <= Reader.bits o mask)%Z.
Proof.
  intros Hm. destruct o as [b|]; simpl; [|lia]. apply Z.land_nonneg. right. exact Hm.
Qed.

Lemma shl32_nonneg (x n : Z) : (0 <= Reader.shl32 x n)%Z.
Proof. unfold Reader.shl32. apply Z.mod_pos_bound. lia. Qed.

(** [uint32] consumes at least one octet and returns a number that is not
    negative. *)
Lemma uint32_readOn (r r' : Reader.t) (v : Z) :
  Reader.uint32 r = Returns (v, r') ->
  Reader.len r' = Reader.len r /\ (Reader.pos r < Reader.pos r')%Z /\ (0 <= v)%Z.
Proof.
  unfold Reader.uint32.
  pose proof (bits_nonneg (Reader.octet r (Reader.pos r)) 127 ltac:(lia)).
  pose proof (shl32_nonneg (Reader.bits (Reader.octet r (Reader.pos r + 1)) 127) 7).
  pose proof (shl32_nonneg (Reader.bits (Reader.octet r (Reader.pos r + 2)) 127) 14).
  pose proof (shl32_nonneg (Reader.bits (Reader.octet r (Reader.pos r + 3)) 127) 21).
  pose proof (shl32_nonneg (Reader.bits (Reader.octet r (Reader.pos r + 4)) 15) 28).
  repeat match goal with
         | |- context [if ?c then _ else _] => destruct c
         end;
    intros [= <- <-] || discriminate;
    (split; [reflexivity|]); (split; [simpl; lia|]);
    repeat (apply Z.lor_nonneg; split); assumption.
Qed.

Lemma groups_readOn (checked : bool) (n : nat) :
  forall (shift : Z) (r : Reader.t) (acc acc' : Z) (r' : Reader.t) (ended : bool),
    Reader.groups checked n shift r acc = Returns (acc', r', ended) -> readOn r r'.
Proof.
  induction n as [|n IH]; intros shift r acc acc' r' ended; simpl.
  - intros [= _ <- _]. apply readOn_refl.
  - destruct (checked && (Reader.len r <=? Reader.pos r)%Z); [discriminate|].
    destruct (Reader.below128 _).
    + intros [= _ <- _]. apply readOn_setPos. lia.
    + intros H. apply IH in H. eapply readOn_trans; [|exact H]. apply readOn_setPos. lia.
Qed.

Lemma uint64_readOn (r r' : Reader.t) (v : Z) :
  Reader.uint64 r = Returns (v, r') -> readOn r r'.
Proof.
  unfold Reader.uint64, Reader.highGroups.
  destruct (4 <? Reader.len r - Reader.pos r)%Z.
  - destruct (Reader.groups false 4 0 r 0) as [[[lo r1] ended]|e] eqn:Hg; [|discriminate].
    apply groups_readOn in Hg. destruct ended.
    + intros [= _ <-]. exact Hg.
    + destruct (Reader.below128 _).
      * intros [= _ <-]. eapply readOn_trans; [exact Hg|]. apply readOn_setPos. lia.
      * match goal with
        | |- context [Reader.groups ?c 5 3 ?r2 ?h] =>
            destruct (Reader.groups c 5 3 r2 h) as [[[hi r3] ended]|e] eqn:Hh; [|discriminate]
        end.
        apply groups_readOn in Hh. destruct ended; [|discriminate].
        intros [= _ <-]. eapply readOn_trans; [exact Hg|].
        eapply readOn_trans; [|exact Hh]. apply readOn_setPos. lia.
  - destruct (Reader.groups true 3 0 r 0) as [[[lo r1] ended]|e] eqn:Hg; [|discriminate].
    apply groups_readOn in Hg. destruct ended.
    + intros [= _ <-]. exact Hg.
    + intros [= _ <-]. eapply readOn_trans; [exact Hg|]. apply readOn_setPos. lia.
Qed.

Lemma skip_readOn (r r' : Reader.t) (n : Z) :
  (0 <= n)%Z -> Reader.skip r n = Returns r' -> readOn r r'.
Proof.
  intros Hn. unfold Reader.skip. destruct (Reader.len r <? Reader.pos r + n)%Z; [discriminate|].
  intros [= <-]. apply readOn_setPos. lia.
Qed.

Lemma remaining_after_tag (r r1 r2 : Reader.t) (fuel : nat) (tag : Z) :
  (remaining r < S fuel)%nat ->
  (Reader.pos r < Reader.len r)%Z ->
  Reader.uint32 r = Returns (tag, r1) ->
  readOn r1 r2 ->
  (remaining r2 < fuel)%nat.
Proof.
  unfold remaining. intros Hfuel Hpos Htag [Hl Hp].
  apply uint32_readOn in Htag as (Hl1 & Hp1 & _). lia.
Qed.

Lemma readOn_length_delimited (r1 r2 : Reader.t) (n : Z) :
  Reader.uint32 r1 = Returns (n, r2) ->
  readOn r1 (Reader.setPos r2 (Reader.pos r2 + n)).
Proof.
  intros H. apply uint32_readOn in H as (Hl & Hp & Hn).
  split; [exact Hl | simpl; lia].
Qed.

(** ** PoC scraper: every loop over a message ends *)

Lemma skip_readOn_8 (r r' : Reader.t) : Reader.skip r 8 = Returns r' -> readOn r r'.
Proof. apply skip_readOn. lia. Qed.

Lemma skip_readOn_4 (r r' : Reader.t) : Reader.skip r 4 = Returns r' -> readOn r r'.
Proof. apply skip_readOn. lia. Qed.

Create HintDb reader.
#[local] Hint Resolve readOn_refl readOn_length_delimited uint64_readOn
  skip_readOn_8 skip_readOn_4 : reader.

(** One turn of a loop over a message: every read is taken apart; a branch
    that leaves the loop has its result, a branch that goes round again has
    fewer octets left than fuel. *)
Ltac loop_turn IH :=
  repeat match goal with
         | |- context [if ?c then _ else _] => destruct c
         | |- context [match Reader.uint32 ?r with _ => _ end] =>
             destruct (Reader.uint32 r) as [[? ?]|?] eqn:?
         | |- context [match Reader.uint64 ?r with _ => _ end] =>
             destruct (Reader.uint64 r) as [[? ?]|?] eqn:?
         | |- context [match Reader.skip ?r ?n with _ => _ end] =>
             destruct (Reader.skip r n) as [?|?] eqn:?
         end;
  first [ solve [eauto]
        | apply IH; eapply remaining_after_tag; eauto with reader ].

Lemma extractSubmessageLoop_total (frame : list byte) (fieldNo : Z) (fuel : nat) :
  forall r : Reader.t,
    (remaining r < fuel)%nat ->
    exists res, ScrapePocRewardsJs.extractSubmessageLoop fuel frame fieldNo r = Some res.
Proof.
  induction fuel as [|fuel IH]; intros r Hfuel; [lia|].
  cbn [ScrapePocRewardsJs.extractSubmessageLoop].
  destruct (Z.ltb_spec (Reader.pos r) (Reader.len r)) as [Hpos|_]; [|eauto].
  destruct (Reader.uint32 r) as [[tag r1]|e] eqn:Htag; [|eauto].
  loop_turn IH.
Qed.

Lemma getPeriodLoop_total (fuel : nat) :
  forall (r : Reader.t) (start end_ : option Z),
    (remaining r < fuel)%nat ->
    exists res, ScrapePocRewardsJs.getPeriodLoop fuel r start end_ = Some res.
Proof.
  induction fuel as [|fuel IH]; intros r start end_ Hfuel; [lia|].
  cbn [ScrapePocRewardsJs.getPeriodLoop].
  destruct (Z.ltb_spec (Reader.pos r) (Reader.len r)) as [Hpos|_]; [|eauto].
  destruct (Reader.uint32 r) as [[tag r1]|e] eqn:Htag; [|eauto].
  loop_turn IH.
Qed.

Lemma parseRadioRewardV2Loop_total (rr2 : list byte) (fuel : nat) :
  forall (r : Reader.t) (st : ScrapePocRewardsJs.rr2State),
    (remaining r < fuel)%nat ->
    exists res, ScrapePocRewardsJs.parseRadioRewardV2Loop fuel rr2 r st = Some res.
Proof.
  induction fuel as [|fuel IH]; intros r st Hfuel; [lia|].
  cbn [ScrapePocRewardsJs.parseRadioRewardV2Loop].
  destruct (Z.ltb_spec (Reader.pos r) (Reader.len r)) as [Hpos|_]; [|eauto].
  destruct (Reader.uint32 r) as [[tag r1]|e] eqn:Htag; [|eauto].
  loop_turn IH.
Qed.

Lemma remaining_create (buffer : list byte) :
  (remaining (Reader.create buffer) < S (length buffer))%nat.
Proof. unfold remaining. simpl. lia. Qed.

(** The body of the frame loop always ends, with a push, without one, or
    with an error caught. *)
Lemma scrapeFrame_total (fileKey : string) (fileTimestamp : Z)
      (targetFormats : DeviceKeyFormats) (frame : list byte) :
  exists res,
    ScrapePocRewardsJs.scrapeFrame fileKey fileTimestamp targetFormats frame = Some res.
Proof.
  unfold ScrapePocRewardsJs.scrapeFrame, ScrapePocRewardsJs.getPeriodFromFrame,
    ScrapePocRewardsJs.extractSubmessage, ScrapePocRewardsJs.parseRadioRewardV2.
  destruct (getPeriodLoop_total (S (length frame)) (Reader.create frame) None None
              (remaining_create frame)) as [p ->].
  destruct (extractSubmessageLoop_total frame 8 (S (length frame)) (Reader.create frame)
              (remaining_create frame)) as [x ->].
  destruct p as [[[start|] [end_|]]|e]; try (eexists; reflexivity);
    (destruct x as [[rr2|]|e']; try (eexists; reflexivity);
     destruct (parseRadioRewardV2Loop_total rr2 (S (length rr2)) (Reader.create rr2)
                 {| ScrapePocRewardsJs.hotspotPayload := None;
                    ScrapePocRewardsJs.cbsdIdSeen := None;
                    ScrapePocRewardsJs.basePocSeen := 0;
                    ScrapePocRewardsJs.boostedPocSeen := 0 |}
                 (remaining_create rr2)) as [y ->];
     destruct y as [st|e'']; try (eexists; reflexivity);
     match goal with
     | |- context [if ?c then _ else _] => destruct c; eexists; reflexivity
     end).
Qed.

(** The scan of an object goes through all its frames: it always yields a
    list of entries, and a frame that is skipped leaves the entries of the
    other frames as they are. *)
Lemma scrapeFrames_total (fileKey : string) (fileTimestamp : Z)
      (targetFormats : DeviceKeyFormats) (frames : list (list byte)) :
  exists entries,
    ScrapePocRewardsJs.scrapeFrames fileKey fileTimestamp targetFormats frames = Some entries.
Proof.
  induction frames as [|frame frames [entries IH]]; [eexists; reflexivity|].
  cbn [ScrapePocRewardsJs.scrapeFrames]. rewrite IH.
  destruct (scrapeFrame_total fileKey fileTimestamp targetFormats frame) as [res ->].
  destruct res; eexists; reflexivity.
Qed.

Lemma scrapeFrames_app (fileKey : string) (fileTimestamp : Z)
      (targetFormats : DeviceKeyFormats) (before after : list (list byte))
      (entries1 entries2 : list ScrapePocRewardsJs.PocReward) :
  ScrapePocRewardsJs.scrapeFrames fileKey fileTimestamp targetFormats before = Some entries1 ->
  ScrapePocRewardsJs.scrapeFrames fileKey fileTimestamp targetFormats after = Some entries2 ->
  ScrapePocRewardsJs.scrapeFrames fileKey fileTimestamp targetFormats (before ++ after)
  = Some (entries1 ++ entries2).
Proof.
  revert entries1. induction before as [|frame before IH]; intros entries1 H1 H2.
  - injection H1 as <-. exact H2.
  - cbn [ScrapePocRewardsJs.scrapeFrames app] in *.
    destruct (ScrapePocRewardsJs.scrapeFrame _ _ _ frame) as [res|]; [|discriminate].
    destruct (ScrapePocRewardsJs.scrapeFrames _ _ _ before) as [entries|] eqn:Hb;
      [|destruct res; discriminate].
    rewrite (IH entries eq_refl H2).
    destruct res; injection H1 as <-; reflexivity.
Qed.

(** A frame whose processing throws is skipped, and only that frame: the
    entries are those of the frames before and after it. *)
Lemma scrapeFrames_skips_only_that_frame (fileKey : string) (fileTimestamp : Z)
      (targetFormats : DeviceKeyFormats) (before after : list (list byte))
      (frame : list byte) (e : string) :
  ScrapePocRewardsJs.scrapeFrame fileKey fileTimestamp targetFormats frame
  = Some (ScrapePocRewardsJs.Skipped e) ->
  ScrapePocRewardsJs.scrapeFrames fileKey fileTimestamp targetFormats (before ++ frame :: after)
  = ScrapePocRewardsJs.scrapeFrames fileKey fileTimestamp targetFormats (before ++ after).
Proof.
  intros Hskip.
  destruct (scrapeFrames_total fileKey fileTimestamp targetFormats before) as [e1 H1].
  destruct (scrapeFrames_total fileKey fileTimestamp targetFormats after) as [e2 H2].
  rewrite (scrapeFrames_app _ _ _ _ _ _ _ H1 H2).
  apply scrapeFrames_app; [exact H1|].
  cbn [ScrapePocRewardsJs.scrapeFrames]. rewrite Hskip, H2. reflexivity.
Qed.

(** [extractSubmessage] throws as soon as it reads a tag whose wire type is
    not 0, 1, 2 or 5. *)
Lemma extractSubmessageLoop_unknown_wire (fuel : nat) (frame : list byte) (fieldNo : Z)
      (r r1 : Reader.t) (tag : Z) :
  (Reader.pos r < Reader.len r)%Z ->
  Reader.uint32 r = Returns (tag, r1) ->
  Z.land tag 7 <> 0%Z -> Z.land tag 7 <> 1%Z ->
  Z.land tag 7 <> 2%Z -> Z.land tag 7 <> 5%Z ->
  ScrapePocRewardsJs.extractSubmessageLoop (S fuel) frame fieldNo r
  = Some (Throws ("unexpected wire type " ++ numberToString (Z.land tag 7))).
Proof.
  intros Hpos Htag H0 H1 H2 H5. cbn [ScrapePocRewardsJs.extractSubmessageLoop].
  destruct (Z.ltb_spec (Reader.pos r) (Reader.len r)); [|lia].
  rewrite Htag.
  destruct (Z.eqb_spec (Z.land tag 7) 2); [contradiction|].
  destruct (Z.eqb_spec (Z.land tag 7) 0); [contradiction|].
  destruct (Z.eqb_spec (Z.land tag 7) 1); [contradiction|].
  destruct (Z.eqb_spec (Z.land tag 7) 5); [contradiction|].
  reflexivity.
Qed.

(** [getPeriodFromFrame] does not: on such a tag its loop goes on with the
    next octet, nothing thrown and nothing skipped. *)
Lemma getPeriodLoop_unknown_wire (fuel : nat) (r r1 : Reader.t) (tag : Z)
      (start end_ : option Z) :
  (Reader.pos r < Reader.len r)%Z ->
  Reader.uint32 r = Returns (tag, r1) ->
  Z.land tag 7 <> 0%Z -> Z.land tag 7 <> 1%Z ->
  Z.land tag 7 <> 2%Z -> Z.land tag 7 <> 5%Z ->
  ScrapePocRewardsJs.getPeriodLoop (S fuel) r start end_
  = ScrapePocRewardsJs.getPeriodLoop fuel r1 start end_.
Proof.
  intros Hpos Htag H0 H1 H2 H5. cbn [ScrapePocRewardsJs.getPeriodLoop].
  destruct (Z.ltb_spec (Reader.pos r) (Reader.len r)); [|lia].
  rewrite Htag.
  destruct (Z.eqb_spec (Z.land tag 7) 0); [contradiction|].
  destruct (Z.eqb_spec (Z.land tag 7) 2); [contradiction|].
  destruct (Z.eqb_spec (Z.land tag 7) 1); [contradiction|].
  destruct (Z.eqb_spec (Z.land tag 7) 5); [contradiction|].
  reflexivity.
Qed.

(** C8 (defect of the code). [frameTrailingGroup] carries, after its
    radio_reward_v2 field, a tag of wire type 3.  [getPeriodFromFrame] walks
    over that tag and returns the period without raising an error;
    [extractSubmessage] has returned field 8 before reaching it; the frame
    is not skipped, its reward is pushed.  Only when the tag stands before
    field 8 ([frameLeadingGroup]) does [extractSubmessage] throw
    "unexpected wire type 3" and the frame get skipped, while
    [getPeriodFromFrame] still returns normally on it. *)
Theorem getPeriodFromFrame_unknown_wire_defect :
  ScrapePocRewardsJs.getPeriodFromFrame frameTrailingGroup = Some (Returns (Some (10, 20)%Z)) /\
  ScrapePocRewardsJs.scrapeFrame "shares.1700000000000.gz" 1700000000000
    targetOfHotspotKey32 frameTrailingGroup
  = Some (ScrapePocRewardsJs.Pushed
            {| ScrapePocRewardsJs.file := "shares.1700000000000.gz";
               ScrapePocRewardsJs.timestamp := 1700000000000;
               ScrapePocRewardsJs.pocBase := 100;
               ScrapePocRewardsJs.pocBoosted := 50;
               ScrapePocRewardsJs.pocTotal := 150;
               ScrapePocRewardsJs.rewardType := "mobile_verified_poc";
               ScrapePocRewardsJs.dataSource := MOBILE_VERIFIED_prefix;
               ScrapePocRewardsJs.period := Some (10, 20)%Z;
               ScrapePocRewardsJs.pocHotspotId :=
                 Some "4wBqpZM9xaSheZzJSMawUKKwhdpChKbZ5eu5ky4Vigw";
               ScrapePocRewardsJs.pocCbsdId := None |}) /\
  ScrapePocRewardsJs.getPeriodFromFrame frameLeadingGroup = Some (Returns (Some (10, 20)%Z)) /\
  ScrapePocRewardsJs.extractSubmessage frameLeadingGroup 8
  = Some (Throws "unexpected wire type 3") /\
  ScrapePocRewardsJs.scrapeFrame "shares.1700000000000.gz" 1700000000000
    targetOfHotspotKey32 frameLeadingGroup
  = Some (ScrapePocRewardsJs.Skipped "unexpected wire type 3").
Proof. repeat split; vm_compute; reflexivity. Qed.

(** The frame without the stray tag gives the same entry. *)
Example scrapeFrame_well_formed :
  ScrapePocRewardsJs.scrapeFrame "shares.1700000000000.gz" 1700000000000
    targetOfHotspotKey32 frameWellFormed
  = ScrapePocRewardsJs.scrapeFrame "shares.1700000000000.gz" 1700000000000
      targetOfHotspotKey32 frameTrailingGroup.
Proof. vm_compute. reflexivity. Qed.

Example targetOfHotspotKey32_formats :
  ScrapeHeliumRewardsJs.getTargetDeviceFormats "4wBqpZM9xaSheZzJSMawUKKwhdpChKbZ5eu5ky4Vigw"
  = Returns targetOfHotspotKey32 /\
  bs58.encode hotspotKey32 = "4wBqpZM9xaSheZzJSMawUKKwhdpChKbZ5eu5ky4Vigw"%string.
Proof. split; vm_compute; reflexivity. Qed.

(** ** Fleet scan: the windows *)

Lemma dedupeFrom_spec (l : list Z) :
  forall seen : list Z,
    NoDup (TopEarnersJs.dedupeFrom seen l) /\
    (forall x, In x (TopEarnersJs.dedupeFrom seen l) -> ~ In x seen).
Proof.
  induction l as [|x l IH]; intros seen; simpl.
  - split; [constructor | intros x []].
  - destruct (existsb (Z.eqb x) seen) eqn:Hseen; [apply IH|].
    destruct (IH (x :: seen)) as [Hnd Hnot]. split.
    + apply NoDup_cons. split; [|exact Hnd].
      intros Hin. apply list_elem_of_In, Hnot in Hin. apply Hin. left. reflexivity.
    + intros y [<- | Hin].
      * intros Hin. assert (existsb (Z.eqb x) seen = true); [|congruence].
        apply existsb_exists. exists x. split; [exact Hin | apply Z.eqb_refl].
      * intros Hy. apply (Hnot y Hin). right. exact Hy.
Qed.

Lemma insertNumber_perm (x : Z) (l : list Z) :
  Permutation (TopEarnersJs.insertNumber x l) (x :: l).
Proof.
  induction l as [|y l IH]; simpl; [reflexivity|].
  destruct (x <=? y)%Z; [reflexivity|]. rewrite IH. apply perm_swap.
Qed.

Lemma sortNumbers_perm (l : list Z) : Permutation (TopEarnersJs.sortNumbers l) l.
Proof.
  induction l as [|x l IH]; simpl; [reflexivity|].
  rewrite insertNumber_perm. constructor. exact IH.
Qed.

Lemma insertNumber_sorted (x : Z) (l : list Z) :
  StronglySorted Z.le l -> StronglySorted Z.le (TopEarnersJs.insertNumber x l).
Proof.
  induction 1 as [|y l Hs IH Hall]; simpl.
  - repeat constructor.
  - destruct (Z.leb_spec x y) as [Hle|Hlt].
    + constructor; [constructor; assumption|].
      constructor; [exact Hle|].
      eapply Forall_impl; [exact Hall|]. simpl. intros z Hz. lia.
    + constructor; [exact IH|].
      rewrite (insertNumber_perm x l). constructor; [lia | exact Hall].
Qed.

(** [WINDOWS_DAYS] is ascending and without repetition. *)
Lemma WINDOWS_DAYS_sorted (config : list Z) :
  StronglySorted Z.le (TopEarnersJs.WINDOWS_DAYS config).
Proof.
  unfold TopEarnersJs.WINDOWS_DAYS.
  induction (TopEarnersJs.dedupe config) as [|x l IH]; simpl;
    [constructor | apply insertNumber_sorted; exact IH].
Qed.

Lemma WINDOWS_DAYS_NoDup (config : list Z) : NoDup (TopEarnersJs.WINDOWS_DAYS config).
Proof.
  unfold TopEarnersJs.WINDOWS_DAYS. rewrite sortNumbers_perm.
  apply dedupeFrom_spec.
Qed.

Lemma lookup_list_to_map_fun {V : Type} (f : Z -> V) (l : list Z) (k : Z) :
  (list_to_map (map (fun d => (d, f d)) l) : gmap Z V) !! k
  = if existsb (Z.eqb k) l then Some (f k) else None.
Proof.
  induction l as [|d l IH]; simpl; [apply lookup_empty|].
  destruct (Z.eqb_spec k d) as [->|Hne]; simpl.
  - apply lookup_insert_eq.
  - rewrite lookup_insert_ne by congruence. exact IH.
Qed.

Lemma existsb_eqb_In (k : Z) (l : list Z) : existsb (Z.eqb k) l = true <-> In k l.
Proof.
  rewrite existsb_exists. split.
  - intros (x & Hin & Heq). apply Z.eqb_eq in Heq. subst. exact Hin.
  - intros Hin. exists k. split; [exact Hin | apply Z.eqb_refl].
Qed.

Section FleetScan.

Variable config : list Z.
Variable endTs : Z.

Local Abbreviation W := (TopEarnersJs.WINDOWS_DAYS config).
Local Abbreviation cutoffOf := (TopEarnersJs.cutoffOf endTs).
Local Abbreviation added := (TopEarnersJs.added endTs).
Local Abbreviation invariant := (TopEarnersJs.scanInvariant config).

Lemma cutoffs_lookup (w : Z) :
  In w W -> TopEarnersJs.cutoffs config endTs !! w = Some (cutoffOf w).
Proof.
  intros Hin. unfold TopEarnersJs.cutoffs. rewrite lookup_list_to_map_fun.
  apply existsb_eqb_In in Hin. rewrite Hin. reflexivity.
Qed.

Lemma addToWindows_effect (ts : Z) (deviceKey : string) (dc : Z) (ws : list Z) :
  NoDup ws -> (forall w, In w ws -> In w W) ->
  forall totals : gmap Z (gmap string Z),
    (forall w, In w W -> is_Some (totals !! w)) ->
    exists totals',
      TopEarnersJs.addToWindows config endTs ws ts deviceKey dc totals = Returns totals' /\
      (forall w, In w W -> is_Some (totals' !! w)) /\
      (forall device w,
          TopEarnersJs.total totals' device w
          = (TopEarnersJs.total totals device w + added ws ts deviceKey dc device w)%Z).
Proof.
  induction ws as [|d ws IH]; intros Hnd Hsub totals Hdom.
  - exists totals. split; [reflexivity|]. split; [exact Hdom|].
    intros device w. unfold TopEarnersJs.added. simpl. lia.
  - apply NoDup_cons in Hnd as [Hd Hnd].
    assert (HdW : In d W) by (apply Hsub; left; reflexivity).
    assert (Hsub' : forall w, In w ws -> In w W) by (intros w Hw; apply Hsub; right; exact Hw).
    cbn [TopEarnersJs.addToWindows]. rewrite (cutoffs_lookup d HdW).
    destruct (Z.ltb_spec ts (cutoffOf d)) as [Hbefore|Hafter].
    + destruct (IH Hnd Hsub' totals Hdom) as (totals' & Hrun & Hdom' & Htot).
      exists totals'. split; [exact Hrun|]. split; [exact Hdom'|].
      intros device w. rewrite Htot. unfold TopEarnersJs.added. cbn [existsb].
      destruct (Z.eqb_spec w d) as [->|Hne]; [|reflexivity].
      assert (existsb (Z.eqb d) ws = false) as ->.
      { apply not_true_is_false. rewrite existsb_eqb_In. intros Hin. apply Hd.
        apply list_elem_of_In. exact Hin. }
      simpl. destruct (Z.leb_spec (cutoffOf d) ts); [lia | reflexivity].
    + destruct (Hdom d HdW) as [m Hm]. rewrite Hm.
      set (previous := match m !! deviceKey with Some x => x | None => 0%Z end).
      set (m' := <[deviceKey := (previous + dc)%Z]> m).
      destruct (IH Hnd Hsub' (<[d := m']> totals)) as (totals' & Hrun & Hdom' & Htot).
      { intros w Hw. destruct (Z.eq_dec d w) as [->|Hne].
        - rewrite lookup_insert_eq. eauto.
        - rewrite lookup_insert_ne by exact Hne. apply Hdom. exact Hw. }
      exists totals'. split; [exact Hrun|]. split; [exact Hdom'|].
      intros device w. rewrite Htot. unfold TopEarnersJs.added, TopEarnersJs.total. cbn [existsb].
      destruct (Z.eqb_spec w d) as [->|Hne].
      * assert (existsb (Z.eqb d) ws = false) as ->.
        { apply not_true_is_false. rewrite existsb_eqb_In. intros Hin. apply Hd.
          apply list_elem_of_In. exact Hin. }
        rewrite lookup_insert_eq, Hm. cbn [orb andb].
        destruct (Z.leb_spec (cutoffOf d) ts); [|lia]. cbn [andb].
        subst m' previous. destruct (String.eqb_spec device deviceKey) as [->|Hdev].
        -- rewrite lookup_insert_eq. lia.
        -- rewrite lookup_insert_ne by congruence. lia.
      * rewrite lookup_insert_ne by congruence. reflexivity.
Qed.

Lemma initialTotals_invariant : invariant (TopEarnersJs.initialTotals config).
Proof.
  assert (Hlook : forall w, In w W ->
            TopEarnersJs.initialTotals config !! w = Some (∅ : gmap string Z)).
  { intros w Hin. unfold TopEarnersJs.initialTotals.
    rewrite (lookup_list_to_map_fun (fun _ => (∅ : gmap string Z))).
    apply existsb_eqb_In in Hin. rewrite Hin. reflexivity. }
  split.
  - intros w Hin. rewrite (Hlook w Hin). eauto.
  - intros device w1 w2 H1 H2 _. unfold TopEarnersJs.total.
    rewrite (Hlook w1 H1), (Hlook w2 H2), lookup_empty. lia.
Qed.

Lemma addToWindows_invariant (ts : Z) (deviceKey : string) (dc : Z)
      (totals : gmap Z (gmap string Z)) :
  (0 <= dc)%Z -> invariant totals ->
  exists totals',
    TopEarnersJs.addToWindows config endTs W ts deviceKey dc totals = Returns totals' /\
    invariant totals'.
Proof.
  intros Hdc [Hdom Hmono].
  destruct (addToWindows_effect ts deviceKey dc W (WINDOWS_DAYS_NoDup config)
              (fun w H => H) totals Hdom) as (totals' & Hrun & Hdom' & Htot).
  exists totals'. split; [exact Hrun|]. split; [exact Hdom'|].
  intros device w1 w2 H1 H2 Hlt. rewrite !Htot.
  specialize (Hmono device w1 w2 H1 H2 Hlt).
  unfold TopEarnersJs.added.
  apply existsb_eqb_In in H1, H2. rewrite H1, H2. cbn [andb].
  destruct (String.eqb device deviceKey); rewrite ?andb_false_r, ?andb_true_r; [|lia].
  destruct (Z.leb_spec (cutoffOf w1) ts) as [Hin1|Hout1];
    destruct (Z.leb_spec (cutoffOf w2) ts) as [Hin2|Hout2]; try lia.
  unfold TopEarnersJs.cutoffOf in *. lia.
Qed.

Lemma dcOf_nonneg (decoded : MobileRewardShare) : (0 <= dcOf decoded)%Z.
Proof.
  unfold dcOf. destruct (gatewayReward decoded) as [gr|]; [|lia].
  destruct (dcTransferReward gr); lia.
Qed.

Lemma scanFrame_invariant (ts : Z) (s : TopEarnersJs.Scan) (frame : outcome MobileRewardShare) :
  invariant (TopEarnersJs.totalsByWindow s) ->
  exists s',
    TopEarnersJs.scanFrame config endTs ts s frame = Returns s' /\
    invariant (TopEarnersJs.totalsByWindow s').
Proof.
  intros Hinv. unfold TopEarnersJs.scanFrame.
  destruct frame as [decoded|e]; [|eexists; split; [reflexivity | exact Hinv]].
  destruct (dcOf decoded =? 0)%Z; [eexists; split; [reflexivity | exact Hinv]|].
  destruct (TopEarnersJs.deviceKeyStringFromDecoded decoded) as [deviceKey|];
    [|eexists; split; [reflexivity | exact Hinv]].
  destruct (String.eqb deviceKey ""); [eexists; split; [reflexivity | exact Hinv]|].
  destruct (addToWindows_invariant ts deviceKey (dcOf decoded) _ (dcOf_nonneg decoded) Hinv)
    as (totals' & Hrun & Hinv').
  rewrite Hrun. eexists; split; [reflexivity | exact Hinv'].
Qed.

Lemma scanFrames_invariant (ts : Z) (frames : list (outcome MobileRewardShare)) :
  forall s : TopEarnersJs.Scan,
    invariant (TopEarnersJs.totalsByWindow s) ->
    exists s',
      TopEarnersJs.scanFrames config endTs ts s frames = Returns s' /\
      invariant (TopEarnersJs.totalsByWindow s').
Proof.
  induction frames as [|frame frames IH]; intros s Hinv.
  - exists s. split; [reflexivity | exact Hinv].
  - cbn [TopEarnersJs.scanFrames].
    destruct (scanFrame_invariant ts s frame Hinv) as (s1 & -> & Hinv1).
    cbn [bindOutcome]. apply IH. exact Hinv1.
Qed.

Lemma scanFiles_invariant (files : list TopEarnersJs.ObjectFrames) :
  forall s : TopEarnersJs.Scan,
    invariant (TopEarnersJs.totalsByWindow s) ->
    exists s',
      TopEarnersJs.scanFiles config endTs s files = Returns s' /\
      invariant (TopEarnersJs.totalsByWindow s').
Proof.
  induction files as [|f files IH]; intros s Hinv.
  - exists s. split; [reflexivity | exact Hinv].
  - cbn [TopEarnersJs.scanFiles].
    destruct (TopEarnersJs.objectBody f) as [frames|]; [|apply IH; exact Hinv].
    destruct (scanFrames_invariant (TopEarnersJs.objectTs f) frames s Hinv) as (s1 & -> & Hinv1).
    cbn [bindOutcome]. apply IH. exact Hinv1.
Qed.

(** The single pass always ends with totals that grow with the window. *)
Lemma run_monotone (files : list TopEarnersJs.ObjectFrames) :
  exists s,
    TopEarnersJs.run config endTs files = Returns s /\
    forall device w1 w2,
      In w1 W -> In w2 W -> (w1 < w2)%Z ->
      (TopEarnersJs.total (TopEarnersJs.totalsByWindow s) device w1
       <= TopEarnersJs.total (TopEarnersJs.totalsByWindow s) device w2)%Z.
Proof.
  destruct (scanFiles_invariant files
              {| TopEarnersJs.totalsByWindow := TopEarnersJs.initialTotals config;
                 TopEarnersJs.framesScanned := 0; TopEarnersJs.decodedOk := 0;
                 TopEarnersJs.rewardsCounted := 0; TopEarnersJs.deviceKeysExtracted := 0 |}
              initialTotals_invariant) as (s & Hrun & _ & Hmono).
  exists s. split; [exact Hrun | exact Hmono].
Qed.

End FleetScan.

(** C6. Monotone window totals of the fleet scan: whatever the configured
    windows, the time of the run and the objects scanned, the single pass of
    [run] ends, and for every device and every two windows [w1 < w2] of
    [WINDOWS_DAYS] the total of the device over [w1] is at most its total
    over [w2]. *)
Theorem windowed_totals_monotone
        (config : list Z) (endTs : Z) (files : list TopEarnersJs.ObjectFrames)
        (device : string) (w1 w2 : Z) :
  In w1 (TopEarnersJs.WINDOWS_DAYS config) ->
  In w2 (TopEarnersJs.WINDOWS_DAYS config) ->
  (w1 < w2)%Z ->
  exists s,
    TopEarnersJs.run config endTs files = Returns s /\
    (TopEarnersJs.total (TopEarnersJs.totalsByWindow s) device w1
     <= TopEarnersJs.total (TopEarnersJs.totalsByWindow s) device w2)%Z.
Proof.
  intros H1 H2 Hlt.
  destruct (run_monotone config endTs files) as (s & Hrun & Hmono).
  exists s. split; [exact Hrun | apply Hmono; assumption].
Qed.

(** Windows 30, 1, 7 and 7 again; an object five days before the run with a
    reward of 100, one of the last day with a reward of 300. *)
Lemma windowed_totals_monotone_witness :
  exists s,
    TopEarnersJs.run [30; 1; 7; 7]%Z 1700000000000
      [ {| TopEarnersJs.objectTs := 1699568000000;
           TopEarnersJs.objectBody := Some [Returns (gatewayShare 100)] |};
        {| TopEarnersJs.objectTs := 1699990000000;
           TopEarnersJs.objectBody :=
             Some [Throws "index out of range"; Returns (gatewayShare 300);
                   Returns subscriberShare] |} ] = Returns s /\
    (TopEarnersJs.total (TopEarnersJs.totalsByWindow s)
       "1SkB92YpWm4Q2ijQHH34cqbKkCZWszsiQgHVjtNeFF2Ds6STz" 1
     <= TopEarnersJs.total (TopEarnersJs.totalsByWindow s)
          "1SkB92YpWm4Q2ijQHH34cqbKkCZWszsiQgHVjtNeFF2Ds6STz" 7)%Z.
Proof.
  apply (windowed_totals_monotone [30; 1; 7; 7]%Z).
  - vm_compute. left. reflexivity.
  - vm_compute. right. left. reflexivity.
  - lia.
Defined.

Example run_example :
  exists s,
    TopEarnersJs.run [30; 1; 7; 7]%Z 1700000000000
      [ {| TopEarnersJs.objectTs := 1699568000000;
           TopEarnersJs.objectBody := Some [Returns (gatewayShare 100)] |};
        {| TopEarnersJs.objectTs := 1699990000000;
           TopEarnersJs.objectBody :=
             Some [Throws "index out of range"; Returns (gatewayShare 300);
                   Returns subscriberShare] |} ] = Returns s /\
    TopEarnersJs.WINDOWS_DAYS [30; 1; 7; 7]%Z = [1; 7; 30]%Z /\
    map (TopEarnersJs.total (TopEarnersJs.totalsByWindow s) hotspotKey32Checksummed)
        [1; 7; 30]%Z = [300; 400; 400]%Z /\
    TopEarnersJs.framesScanned s = 4%Z /\ TopEarnersJs.decodedOk s = 3%Z /\
    TopEarnersJs.rewardsCounted s = 2%Z.
Proof.
  eexists. split; [vm_compute; reflexivity|].
  repeat split; vm_compute; reflexivity.
Qed.

Example hotspotKey32Checksummed_formats :
  base58checkEncode hotspotKey32 0 = hotspotKey32Checksummed /\
  ScrapeHeliumRewardsJs.getTargetDeviceFormats hotspotKey32Checksummed
  = Returns targetOfChecksummedKey.
Proof. split; vm_compute; reflexivity. Qed.

(** ** Single-device scraper: the amount recorded *)

Lemma Long_low_small (v : N) : (v < 2147483648)%N -> Long_low v = Z.of_N v.
Proof.
  intros Hv. unfold Long_low, toInt32.
  rewrite Z.mod_small by lia. destruct (Z.ltb_spec (Z.of_N v) 2147483648); lia.
Qed.

(** [rewardAmount] is the field [low] of the [Long]: the low 32 bits of the
    amount, read as a signed integer. *)
Lemma rewardAmountOf_low (decoded : MobileRewardShare) (gr : GatewayReward) (v : N) :
  gatewayReward decoded = Some gr -> dcTransferReward gr = Some v ->
  ScrapeHeliumRewardsJs.rewardAmountOf decoded = Long_low v.
Proof.
  intros Hgr Hv. unfold ScrapeHeliumRewardsJs.rewardAmountOf. rewrite Hgr, Hv.
  destruct (Z.eqb_spec (Long_low v) 0) as [->|]; reflexivity.
Qed.

(** It is the amount itself below 2^31, and 0 when the field is absent. *)
Lemma rewardAmountOf_small (decoded : MobileRewardShare) (gr : GatewayReward) (v : N) :
  gatewayReward decoded = Some gr -> dcTransferReward gr = Some v ->
  (v < 2147483648)%N ->
  ScrapeHeliumRewardsJs.rewardAmountOf decoded = Z.of_N v.
Proof.
  intros Hgr Hv Hsmall. rewrite (rewardAmountOf_low _ _ _ Hgr Hv).
  apply Long_low_small. exact Hsmall.
Qed.

Lemma rewardAmountOf_absent (decoded : MobileRewardShare) :
  (gatewayReward decoded = None \/
   exists gr, gatewayReward decoded = Some gr /\ dcTransferReward gr = None) ->
  ScrapeHeliumRewardsJs.rewardAmountOf decoded = 0%Z /\ dcOf decoded = 0%Z.
Proof.
  unfold ScrapeHeliumRewardsJs.rewardAmountOf, dcOf.
  intros [-> | (gr & -> & ->)]; split; reflexivity.
Qed.

(** C1 (defect of the code). A share that matches the target and carries
    the amount 4294967301 (2^32 + 5) is recorded by [scrapeHeliumRewards]
    with [rewardAmount] 5, the low word of the [Long], where
    scripts/scrape-device.js reads the full 4294967301 from the same
    message; the amount 3000000000 is recorded as -1294967296. *)
Theorem rewardAmount_low_word_defect :
  option_map ScrapeHeliumRewardsJs.rewardAmount
    (ScrapeHeliumRewardsJs.scrapeFrame noMessageText "shares.1700000000000.gz" 1700000000000
       targetOfChecksummedKey (Returns (gatewayShare 4294967301)))
  = Some 5%Z /\
  dcOf (gatewayShare 4294967301) = 4294967301%Z /\
  ScrapeHeliumRewardsJs.rewardAmountOf (gatewayShare 3000000000) = (-1294967296)%Z /\
  dcOf (gatewayShare 3000000000) = 3000000000%Z.
Proof. repeat split; vm_compute; reflexivity. Qed.

(** ** Which frames give a reward *)

(** Counterexample to C2 as stated: a share whose only amount is 0 and that
    matches the target is emitted by [scrapeHeliumRewards], with
    [rewardAmount] 0. *)
Lemma zero_amount_entry_emitted :
  dcOf (gatewayShare 0) = 0%Z /\
  option_map ScrapeHeliumRewardsJs.rewardAmount
    (ScrapeHeliumRewardsJs.scrapeFrame noMessageText "shares.1700000000000.gz" 1700000000000
       targetOfChecksummedKey (Returns (gatewayShare 0)))
  = Some 0%Z.
Proof. split; vm_compute; reflexivity. Qed.

Lemma scrapeFrames_app_single (messageJSON : MobileRewardShare -> string)
      (fileKey : string) (fileTs : Z) (targetFormats : DeviceKeyFormats)
      (l1 l2 : list (outcome MobileRewardShare)) :
  ScrapeHeliumRewardsJs.scrapeFrames messageJSON fileKey fileTs targetFormats (l1 ++ l2)
  = ScrapeHeliumRewardsJs.scrapeFrames messageJSON fileKey fileTs targetFormats l1
    ++ ScrapeHeliumRewardsJs.scrapeFrames messageJSON fileKey fileTs targetFormats l2.
Proof. unfold ScrapeHeliumRewardsJs.scrapeFrames. apply flat_map_app. Qed.

Lemma totalRewards_sum (entries : list ScrapeHeliumRewardsJs.RewardEntry) (start : Z) :
  fold_left (fun sum reward => (sum + ScrapeHeliumRewardsJs.rewardAmount reward)%Z) entries start
  = (start + ScrapeHeliumRewardsJs.totalRewards entries)%Z.
Proof.
  unfold ScrapeHeliumRewardsJs.totalRewards.
  revert start. induction entries as [|e entries IH] using rev_ind; intros start; simpl; [lia|].
  rewrite !fold_left_app. simpl. rewrite IH. lia.
Qed.

(** An entry of amount 0 leaves the DC total as it is. *)
Lemma totalRewards_zero_entry (before after : list ScrapeHeliumRewardsJs.RewardEntry)
      (entry : ScrapeHeliumRewardsJs.RewardEntry) :
  ScrapeHeliumRewardsJs.rewardAmount entry = 0%Z ->
  ScrapeHeliumRewardsJs.totalRewards (before ++ entry :: after)
  = ScrapeHeliumRewardsJs.totalRewards (before ++ after).
Proof.
  intros Hz. unfold ScrapeHeliumRewardsJs.totalRewards.
  rewrite !fold_left_app. cbn [fold_left]. rewrite Hz, Z.add_0_r. reflexivity.
Qed.

(** C2, amended. In single-device mode [scrapeHeliumRewards] emits an entry
    for a frame exactly when the frame decodes and the decoded message
    contains the target device, whatever the amount; a frame that emits
    nothing leaves the list of entries as it is.  In fleet mode [run] counts
    a frame only if it decodes, its DC amount is not zero and a device key
    was derived from it; a frame that fails one of these leaves every total
    and the count of rewards as they are. *)
Theorem reward_event_gating
        (messageJSON : MobileRewardShare -> string)
        (fileKey : string) (fileTs : Z) (targetFormats : DeviceKeyFormats)
        (config : list Z) (endTs ts : Z) (s : TopEarnersJs.Scan)
        (frame : outcome MobileRewardShare) :
  (forall entry,
      ScrapeHeliumRewardsJs.scrapeFrame messageJSON fileKey fileTs targetFormats frame
      = Some entry <->
      exists decoded,
        frame = Returns decoded /\
        ScrapeHeliumRewardsJs.containsTargetDevice messageJSON decoded targetFormats = true /\
        entry = {| ScrapeHeliumRewardsJs.file := fileKey;
                   ScrapeHeliumRewardsJs.timestamp := fileTs;
                   ScrapeHeliumRewardsJs.message := decoded;
                   ScrapeHeliumRewardsJs.enriched :=
                     ScrapeHeliumRewardsJs.enrichBytes (messageObject decoded);
                   ScrapeHeliumRewardsJs.rewardAmount :=
                     ScrapeHeliumRewardsJs.rewardAmountOf decoded;
                   ScrapeHeliumRewardsJs.rewardType := "mobile_verified";
                   ScrapeHeliumRewardsJs.dataSource := MOBILE_VERIFIED_prefix |}) /\
  (ScrapeHeliumRewardsJs.scrapeFrame messageJSON fileKey fileTs targetFormats frame = None ->
   forall before after,
     ScrapeHeliumRewardsJs.scrapeFrames messageJSON fileKey fileTs targetFormats
       (before ++ frame :: after)
     = ScrapeHeliumRewardsJs.scrapeFrames messageJSON fileKey fileTs targetFormats
         (before ++ after)) /\
  (forall s',
      TopEarnersJs.scanFrame config endTs ts s frame = Returns s' ->
      (exists decoded deviceKey,
          frame = Returns decoded /\ dcOf decoded <> 0%Z /\
          TopEarnersJs.deviceKeyStringFromDecoded decoded = Some deviceKey /\
          TopEarnersJs.addToWindows config endTs (TopEarnersJs.WINDOWS_DAYS config) ts
            deviceKey (dcOf decoded) (TopEarnersJs.totalsByWindow s)
          = Returns (TopEarnersJs.totalsByWindow s') /\
          TopEarnersJs.rewardsCounted s' = (TopEarnersJs.rewardsCounted s + 1)%Z) \/
      (TopEarnersJs.totalsByWindow s' = TopEarnersJs.totalsByWindow s /\
       TopEarnersJs.rewardsCounted s' = TopEarnersJs.rewardsCounted s /\
       TopEarnersJs.deviceKeysExtracted s' = TopEarnersJs.deviceKeysExtracted s)) /\
  ((forall decoded,
       frame = Returns decoded ->
       dcOf decoded = 0%Z \/ TopEarnersJs.deviceKeyStringFromDecoded decoded = None) ->
   exists s',
     TopEarnersJs.scanFrame config endTs ts s frame = Returns s' /\
     TopEarnersJs.totalsByWindow s' = TopEarnersJs.totalsByWindow s /\
     TopEarnersJs.rewardsCounted s' = TopEarnersJs.rewardsCounted s /\
     TopEarnersJs.deviceKeysExtracted s' = TopEarnersJs.deviceKeysExtracted s).
Proof.
  split; [|split; [|split]].
  - intros entry. unfold ScrapeHeliumRewardsJs.scrapeFrame. split.
    + destruct frame as [decoded|e]; [|discriminate].
      destruct (ScrapeHeliumRewardsJs.containsTargetDevice messageJSON decoded targetFormats)
        eqn:Hc; [|discriminate].
      intros [= <-]. exists decoded. repeat split; assumption.
    + intros (decoded & -> & Hc & ->). rewrite Hc. reflexivity.
  - intros Hnone before after. rewrite !scrapeFrames_app_single. f_equal.
    unfold ScrapeHeliumRewardsJs.scrapeFrames. cbn [flat_map]. rewrite Hnone. reflexivity.
  - intros s'. unfold TopEarnersJs.scanFrame.
    destruct frame as [decoded|e]; [|intros [= <-]; right; repeat split].
    destruct (Z.eqb_spec (dcOf decoded) 0) as [Hz|Hnz]; [intros [= <-]; right; repeat split|].
    destruct (TopEarnersJs.deviceKeyStringFromDecoded decoded) as [deviceKey|] eqn:Hk;
      [|intros [= <-]; right; repeat split].
    destruct (String.eqb deviceKey ""); [intros [= <-]; right; repeat split|].
    destruct (TopEarnersJs.addToWindows _ _ _ _ _ _ _) as [totals|e] eqn:Ha; [|discriminate].
    cbn [bindOutcome]. intros [= <-]. left. exists decoded, deviceKey.
    repeat split; try assumption; reflexivity.
  - intros Hfail. unfold TopEarnersJs.scanFrame.
    destruct frame as [decoded|e]; [|eexists; repeat split].
    destruct (Hfail decoded eq_refl) as [Hz | Hk].
    + rewrite Hz. eexists; repeat split.
    + rewrite Hk. destruct (dcOf decoded =? 0)%Z; eexists; repeat split.
Qed.

(** The fleet scan on a share of amount 0: nothing is counted. *)
Lemma reward_event_gating_witness :
  exists s',
    TopEarnersJs.scanFrame [1; 7; 30]%Z 1700000000000 1699990000000
      {| TopEarnersJs.totalsByWindow := TopEarnersJs.initialTotals [1; 7; 30]%Z;
         TopEarnersJs.framesScanned := 0; TopEarnersJs.decodedOk := 0;
         TopEarnersJs.rewardsCounted := 0; TopEarnersJs.deviceKeysExtracted := 0 |}
      (Returns (gatewayShare 0)) = Returns s' /\
    TopEarnersJs.totalsByWindow s' = TopEarnersJs.initialTotals [1; 7; 30]%Z /\
    TopEarnersJs.rewardsCounted s' = 0%Z /\
    TopEarnersJs.deviceKeysExtracted s' = 0%Z.
Proof.
  apply (reward_event_gating noMessageText "shares.1700000000000.gz" 1700000000000
           targetOfChecksummedKey [1; 7; 30]%Z 1700000000000 1699990000000
           {| TopEarnersJs.totalsByWindow := TopEarnersJs.initialTotals [1; 7; 30]%Z;
              TopEarnersJs.framesScanned := 0; TopEarnersJs.decodedOk := 0;
              TopEarnersJs.rewardsCounted := 0; TopEarnersJs.deviceKeysExtracted := 0 |}
           (Returns (gatewayShare 0))).
  intros decoded [= <-]. left. reflexivity.
Defined.

(** The debug script scripts/scrape-device.js, for comparison: a frame
    changes the day totals or the DC total only if it decodes, matches the
    target and carries an amount that is not zero. *)
Lemma scrape_device_counts_nonzero_only
      (messageJSON : MobileRewardShare -> string) (targetFormats : DeviceKeyFormats)
      (day : string) (t : ScrapeDeviceJs.Totals) (frame : outcome MobileRewardShare) :
  ScrapeDeviceJs.totalDc (ScrapeDeviceJs.scrapeFrame messageJSON targetFormats day t frame)
  <> ScrapeDeviceJs.totalDc t \/
  ScrapeDeviceJs.totalsByDay (ScrapeDeviceJs.scrapeFrame messageJSON targetFormats day t frame)
  <> ScrapeDeviceJs.totalsByDay t ->
  exists decoded,
    frame = Returns decoded /\
    ScrapeDeviceJs.containsTargetDevice messageJSON decoded targetFormats = true /\
    dcOf decoded <> 0%Z.
Proof.
  unfold ScrapeDeviceJs.scrapeFrame.
  destruct frame as [decoded|e]; [|simpl; intros [H|H]; congruence].
  destruct (ScrapeDeviceJs.containsTargetDevice messageJSON decoded targetFormats) eqn:Hc;
    [|simpl; intros [H|H]; congruence].
  destruct (Z.eqb_spec (dcOf decoded) 0) as [Hz|Hnz]; [simpl; intros [H|H]; congruence|].
  intros _. exists decoded. repeat split; assumption.
Qed.

(** On a window that starts after the epoch, as every window of the scans
    does, a key that is kept carries its thirteen digits: the timestamp 0 of
    a key without them falls outside. *)
Lemma keptKey_has_timestamp (startTs endTs : Z) (k : string) :
  (0 < startTs)%Z -> keptKey startTs endTs k = true ->
  exists digits,
    matchTimestamp k = Some digits /\ timestampOfKey k = parseIntDigits digits.
Proof.
  intros Hpos Hkept. unfold keptKey in Hkept.
  apply andb_true_iff in Hkept as [_ Hr]. apply andb_true_iff in Hr as [Hlo _].
  apply Z.leb_le in Hlo. unfold timestampOfKey in *.
  destruct (matchTimestamp k) as [digits|]; [|lia].
  exists digits. split; reflexivity.
Qed.

(** ** The frame decoder on a stream that goes on *)

(** X1. The frame decoder can be resumed: after the chunks [stream1] it has
    yielded the complete frames [first] of their bytes and holds the bytes
    [rest] that follow them; on the chunks [stream2] that come next it
    yields what it would yield when started on [rest], and nothing of what
    was yielded before changes. *)
Theorem framedMessages_resumes (stream1 stream2 : list (list byte)) :
  exists first rest later,
    framedMessages stream1 = Some first /\
    concat stream1 = flat_map frameBytes first ++ rest /\
    framedMessagesFrom rest stream2 = Some later /\
    framedMessages (stream1 ++ stream2) = Some (first ++ later).
Proof.
  destruct (framedMessages_Drains stream1) as (first & rest & H1 & D1).
  destruct (framedMessagesFrom_Drains stream2 rest (Drains_rest_partial _ _ _ D1))
    as (later & rest' & H2 & D2).
  destruct (framedMessages_Drains (stream1 ++ stream2)) as (all & rest'' & H & D).
  rewrite concat_app in D.
  destruct (Drains_det _ _ _ _ _ D (Drains_app _ _ _ D1 _ _ _ D2)) as [-> _].
  exists first, rest, later. repeat split; try assumption.
  apply (Drains_decompose _ _ _ D1).
Qed.

(** ** The device key of a gateway reward *)

Lemma getField_In (fields : list (string * jsValue)) (k : string) (v : jsValue) :
  TopEarnersJs.getField fields k = Some v -> In (k, v) fields.
Proof.
  induction fields as [|[k' v'] fields IH]; simpl; [discriminate|].
  destruct (String.eqb_spec k k') as [->|Hne].
  - intros [= ->]. left. reflexivity.
  - intros H. right. exact (IH H).
Qed.

Lemma firstPreferred_Some (fields : list (string * jsValue)) (ks : list string) (b : list byte) :
  TopEarnersJs.firstPreferred fields ks = Some b ->
  exists k, In k ks /\ TopEarnersJs.getField fields k = Some (VBytes b).
Proof.
  induction ks as [|k ks IH]; simpl; [discriminate|].
  destruct (TopEarnersJs.getField fields k) as [[v| | | | | |]|] eqn:Hk;
    try (intros H; destruct (IH H) as (k0 & Hin & Hg); exists k0; split; [right|]; assumption).
  rewrite Buffer_from_id. intros [= ->]. exists k. split; [left; reflexivity | exact Hk].
Qed.

Lemma firstPreferred_None (fields : list (string * jsValue)) (ks : list string) :
  TopEarnersJs.firstPreferred fields ks = None ->
  forall k b, In k ks -> TopEarnersJs.getField fields k <> Some (VBytes b).
Proof.
  induction ks as [|k ks IH]; simpl; [intros _ ? ? []|].
  destruct (TopEarnersJs.getField fields k) as [[v| | | | | |]|] eqn:Hk; try discriminate;
    intros H k0 b0 [<-|Hin]; try (rewrite Hk; discriminate); apply IH; assumption.
Qed.

Lemma firstBytesField_Some (entries : list (string * jsValue)) (b : list byte) :
  TopEarnersJs.firstBytesField entries = Some b ->
  exists k, In (k, VBytes b) entries /\ includes (toLowerCase k) "reward" = false.
Proof.
  induction entries as [|[k v] entries IH]; simpl; [discriminate|].
  destruct (includes (toLowerCase k) "reward") eqn:Hr.
  - intros H. destruct (IH H) as (k0 & Hin & Hk0). exists k0. split; [right|]; assumption.
  - destruct v as [v| | | | | |];
      try (intros H; destruct (IH H) as (k0 & Hin & Hk0); exists k0; split; [right|]; assumption).
    rewrite Buffer_from_id. intros [= ->]. exists k. split; [left; reflexivity | exact Hr].
Qed.

Lemma firstBytesField_None (entries : list (string * jsValue)) :
  TopEarnersJs.firstBytesField entries = None <->
  forall k b, In (k, VBytes b) entries -> includes (toLowerCase k) "reward" = true.
Proof.
  induction entries as [|[k v] entries IH]; simpl.
  - split; [intros _ ? ? [] | reflexivity].
  - destruct (includes (toLowerCase k) "reward") eqn:Hr.
    + rewrite IH. split.
      * intros H k0 b [[= <- _]|Hin]; [exact Hr | exact (H _ _ Hin)].
      * intros H k0 b Hin. apply (H k0 b). right. exact Hin.
    + destruct v as [v| | | | | |];
        try (rewrite IH; split;
             [ intros H k0 b0 [[=]|Hin]; exact (H _ _ Hin)
             | intros H k0 b0 Hin; apply (H k0 b0); right; exact Hin ]).
      split; [discriminate|]. intros H.
      rewrite (H k v) in Hr by (left; reflexivity). discriminate.
Qed.

Lemma preferred_not_reward (k : string) :
  In k TopEarnersJs.preferred -> includes (toLowerCase k) "reward" = false.
Proof.
  unfold TopEarnersJs.preferred. simpl.
  intros H. repeat (destruct H as [<-|H]; [vm_compute; reflexivity|]). destruct H.
Qed.


(** X3. The key of the fleet scan is a key of the single-device scraper:
    when [deviceKeyStringFromDecoded] gives a key, the bytes picked from the
    gateway reward are not empty, and [getTargetDeviceFormats] of
    scripts/scrape-device.js applied to that key returns the raw base58, hex
    and base64 forms of these very bytes, with the key itself as
    [base58check]. *)
Theorem deviceKey_formats_round_trip (decoded : MobileRewardShare) (deviceKey : string) :
  TopEarnersJs.deviceKeyStringFromDecoded decoded = Some deviceKey ->
  exists bytes,
    TopEarnersJs.pickDeviceBytesFromGatewayReward (gatewayReward decoded) = Some bytes /\
    bytes <> [] /\
    ScrapeDeviceJs.getTargetDeviceFormats deviceKey
    = Returns {| original := deviceKey;
                 rawBase58 := bs58.encode bytes;
                 hex := toHex bytes;
                 base64 := toBase64 bytes;
                 base58check := Some deviceKey |}.
Proof.
  unfold TopEarnersJs.deviceKeyStringFromDecoded.
  destruct (TopEarnersJs.pickDeviceBytesFromGatewayReward (gatewayReward decoded))
    as [bytes|]; [|discriminate].
  destruct (Z.eqb_spec (Z.of_nat (length bytes)) 0) as [|Hlen]; [discriminate|].
  intros [= <-]. exists bytes. split; [reflexivity|]. split.
  - intros ->. apply Hlen. reflexivity.
  - exact (getTargetDeviceFormats_checksummed bytes x00).
Qed.

Lemma deviceKey_formats_round_trip_witness :
  exists bytes,
    TopEarnersJs.pickDeviceBytesFromGatewayReward (gatewayReward (gatewayShare 7))
    = Some bytes /\
    bytes <> [] /\
    ScrapeDeviceJs.getTargetDeviceFormats hotspotKey32Checksummed
    = Returns {| original := hotspotKey32Checksummed;
                 rawBase58 := bs58.encode bytes;
                 hex := toHex bytes;
                 base64 := toBase64 bytes;
                 base58check := Some hotspotKey32Checksummed |}.
Proof.
  apply (deviceKey_formats_round_trip (gatewayShare 7) hotspotKey32Checksummed).
  vm_compute. reflexivity.
Defined.

(** ** Ranking *)

Lemma insertByTotal_perm (x : string * Z) (l : list (string * Z)) :
  Permutation (insertByTotal x l) (x :: l).
Proof.
  induction l as [|y l IH]; simpl; [reflexivity|].
  destruct (snd y <=? snd x)%Z; [reflexivity|].
  rewrite IH. apply perm_swap.
Qed.

Lemma sortByTotal_perm (l : list (string * Z)) : Permutation (sortByTotal l) l.
Proof.
  induction l as [|x l IH]; simpl; [reflexivity|].
  rewrite insertByTotal_perm. constructor. exact IH.
Qed.

Lemma insertByTotal_sorted (x : string * Z) (l : list (string * Z)) :
  StronglySorted (fun a b => (snd b <= snd a)%Z) l ->
  StronglySorted (fun a b => (snd b <= snd a)%Z) (insertByTotal x l).
Proof.
  induction 1 as [|y l Hs IH Hall]; simpl.
  - repeat constructor.
  - destruct (Z.leb_spec (snd y) (snd x)) as [Hle|Hlt].
    + constructor; [constructor; assumption|].
      constructor; [exact Hle|].
      eapply Forall_impl; [exact Hall|]. simpl. intros z Hz. lia.
    + constructor; [exact IH|].
      rewrite (insertByTotal_perm x l). constructor; [lia | exact Hall].
Qed.

Lemma sortByTotal_sorted (l : list (string * Z)) :
  StronglySorted (fun a b => (snd b <= snd a)%Z) (sortByTotal l).
Proof.
  induction l as [|x l IH]; simpl; [constructor | apply insertByTotal_sorted; exact IH].
Qed.

Lemma Array_slice_take {A : Type} (arr : list A) (n : Z) :
  (0 <= n)%Z -> Array_slice arr 0 n = take (Z.to_nat n) arr.
Proof.
  intros Hn. unfold Array_slice, clampIndex.
  destruct (Z.ltb_spec 0 0); [lia|]. destruct (Z.ltb_spec n 0); [lia|].
  replace (Z.to_nat (Z.min 0 _)) with 0%nat by lia. rewrite drop_0.
  destruct (Z.le_ge_cases n (Z.of_nat (length arr))) as [Hle|Hge].
  - f_equal. lia.
  - rewrite !take_ge by lia. reflexivity.
Qed.

Lemma StronglySorted_app_inv {A : Type} (R : A -> A -> Prop) (l1 l2 : list A) :
  StronglySorted R (l1 ++ l2) ->
  StronglySorted R l1 /\ forall a b, In a l1 -> In b l2 -> R a b.
Proof.
  induction l1 as [|x l1 IH]; simpl; intros H.
  - split; [constructor | intros ? ? []].
  - inversion H as [|? ? Hs Hall]; subst. destruct (IH Hs) as [Hs1 Hcross].
    split.
    + constructor; [exact Hs1|]. apply Forall_app in Hall as [Hall _]. exact Hall.
    + intros a b [<-|Ha] Hb.
      * apply Forall_app in Hall as [_ Hall]. rewrite Forall_forall in Hall.
        apply Hall. apply list_elem_of_In. exact Hb.
      * apply Hcross; assumption.
Qed.

(** X4. The ranking of [topNFromTotals(totalsMap, n)], for [n >= 0]: it
    returns [min(n, size)] entries of the map, by descending total, and no
    entry left out has a larger total than a returned one; the returned
    entries followed by those left out are the entries of the map, each
    once. *)
Theorem topNFromTotals_ranking (entries : list (string * Z)) (n : Z) :
  (0 <= n)%Z ->
  length (topNFromTotals entries n) = Nat.min (Z.to_nat n) (length entries) /\
  StronglySorted (fun a b => (snd b <= snd a)%Z) (topNFromTotals entries n) /\
  exists rest,
    Permutation (topNFromTotals entries n ++ rest) entries /\
    forall a b, In a (topNFromTotals entries n) -> In b rest -> (snd b <= snd a)%Z.
Proof.
  intros Hn. unfold topNFromTotals. rewrite Array_slice_take by exact Hn.
  pose proof (sortByTotal_sorted entries) as Hs.
  pose proof (sortByTotal_perm entries) as Hp.
  rewrite <- (take_drop (Z.to_nat n) (sortByTotal entries)) in Hs.
  destruct (StronglySorted_app_inv _ _ _ Hs) as [Hs1 Hcross].
  split; [|split].
  - rewrite length_take. rewrite (Permutation_length Hp). reflexivity.
  - exact Hs1.
  - exists (drop (Z.to_nat n) (sortByTotal entries)). split.
    + rewrite take_drop. exact Hp.
    + exact Hcross.
Qed.

Lemma topNFromTotals_ranking_witness :
  length (topNFromTotals [("a"%string, 5%Z); ("b"%string, 9%Z); ("c"%string, 5%Z)] 2)
  = Nat.min (Z.to_nat 2) (length [("a"%string, 5%Z); ("b"%string, 9%Z); ("c"%string, 5%Z)]) /\
  StronglySorted (fun a b => (snd b <= snd a)%Z)
    (topNFromTotals [("a"%string, 5%Z); ("b"%string, 9%Z); ("c"%string, 5%Z)] 2) /\
  exists rest,
    Permutation
      (topNFromTotals [("a"%string, 5%Z); ("b"%string, 9%Z); ("c"%string, 5%Z)] 2 ++ rest)
      [("a"%string, 5%Z); ("b"%string, 9%Z); ("c"%string, 5%Z)] /\
    forall a b,
      In a (topNFromTotals [("a"%string, 5%Z); ("b"%string, 9%Z); ("c"%string, 5%Z)] 2) ->
      In b rest -> (snd b <= snd a)%Z.
Proof.
  apply (topNFromTotals_ranking [("a"%string, 5%Z); ("b"%string, 9%Z); ("c"%string, 5%Z)] 2).
  lia.
Defined.

Lemma insertByTotal_filter (v : Z) (x : string * Z) (l : list (string * Z)) :
  filter (fun e => snd e = v) (insertByTotal x l) = filter (fun e => snd e = v) (x :: l).
Proof.
  induction l as [|y l IH]; simpl; [reflexivity|].
  destruct (Z.leb_spec (snd y) (snd x)) as [Hle|Hlt]; [reflexivity|].
  rewrite !filter_cons. rewrite IH, filter_cons.
  destruct (decide (snd y = v)) as [Hy|Hy]; destruct (decide (snd x = v)) as [Hx|Hx];
    try reflexivity.
  lia.
Qed.

Lemma sortByTotal_stable (v : Z) (l : list (string * Z)) :
  filter (fun e => snd e = v) (sortByTotal l) = filter (fun e => snd e = v) l.
Proof.
  induction l as [|x l IH]; simpl; [reflexivity|].
  rewrite insertByTotal_filter, !filter_cons, IH. reflexivity.
Qed.

Lemma filter_take_prefix {A : Type} (P : A -> Prop) `{forall x, Decision (P x)}
      (l : list A) (n : nat) :
  exists k, filter P (take n l) = take k (filter P l).
Proof.
  revert n. induction l as [|x l IH]; intros n.
  - exists 0%nat. rewrite take_nil. reflexivity.
  - destruct n as [|n]; [exists 0%nat; reflexivity|].
    destruct (IH n) as [k Hk]. cbn [take]. rewrite !filter_cons.
    destruct (decide (P x)).
    + exists (S k). cbn [take]. rewrite Hk. reflexivity.
    + exists k. exact Hk.
Qed.

(** X5. Ties in the ranking: among the entries of one and the same total,
    [topNFromTotals] returns those whose key was set first in the map, in
    the order of the map. *)
Theorem topNFromTotals_ties (entries : list (string * Z)) (n v : Z) :
  (0 <= n)%Z ->
  exists k,
    filter (fun e => snd e = v) (topNFromTotals entries n)
    = take k (filter (fun e => snd e = v) entries).
Proof.
  intros Hn. unfold topNFromTotals. rewrite Array_slice_take by exact Hn.
  destruct (filter_take_prefix (fun e : string * Z => snd e = v)
                               (sortByTotal entries) (Z.to_nat n)) as [k Hk].
  exists k. rewrite Hk, sortByTotal_stable. reflexivity.
Qed.

Lemma topNFromTotals_ties_witness :
  exists k,
    filter (fun e => snd e = 5%Z)
           (topNFromTotals [("a"%string, 5%Z); ("b"%string, 9%Z); ("c"%string, 5%Z)] 2)
    = take k (filter (fun e => snd e = 5%Z)
                     [("a"%string, 5%Z); ("b"%string, 9%Z); ("c"%string, 5%Z)]).
Proof.
  apply (topNFromTotals_ties [("a"%string, 5%Z); ("b"%string, 9%Z); ("c"%string, 5%Z)] 2 5).
  lia.
Defined.

Example topNFromTotals_example :
  topNFromTotals [("a"%string, 5%Z); ("b"%string, 9%Z); ("c"%string, 5%Z); ("d"%string, 7%Z)] 3
  = [("b"%string, 9%Z); ("d"%string, 7%Z); ("a"%string, 5%Z)] /\
  topNFromTotals [("a"%string, 5%Z); ("b"%string, 9%Z)] (-1) = [("b"%string, 9%Z)].
Proof. split; reflexivity. Qed.

(** ** Fleet scan: what the totals hold *)

Lemma sumSince_app (cutoff : Z) (device : string) (r1 r2 : list (Z * (string * Z))) :
  sumSince cutoff device (r1 ++ r2)
  = (sumSince cutoff device r1 + sumSince cutoff device r2)%Z.
Proof.
  unfold sumSince. induction r1 as [|r r1 IH]; simpl; [reflexivity|]. rewrite IH. lia.
Qed.

Lemma sumOf_app (device : string) (r1 r2 : list (Z * (string * Z))) :
  sumOf device (r1 ++ r2) = (sumOf device r1 + sumOf device r2)%Z.
Proof.
  unfold sumOf. induction r1 as [|r r1 IH]; simpl; [reflexivity|]. rewrite IH. lia.
Qed.

Lemma frameRewards_cons (ts : Z) (frame : outcome MobileRewardShare)
      (frames : list (outcome MobileRewardShare)) :
  frameRewards ts (frame :: frames) = frameRewards ts [frame] ++ frameRewards ts frames.
Proof. unfold frameRewards. cbn [flat_map]. rewrite app_nil_r. reflexivity. Qed.

Lemma frameRewards_le (ts : Z) (frames : list (outcome MobileRewardShare)) :
  (length (frameRewards ts frames) <= length (List.filter decodes frames))%nat.
Proof.
  induction frames as [|frame frames IH]; [simpl; lia|].
  rewrite frameRewards_cons, length_app. cbn [List.filter].
  unfold frameRewards at 1. cbn [flat_map]. rewrite app_nil_r.
  destruct frame as [decoded|e]; cbn [decodes frameReward]; [|simpl; lia].
  destruct (dcOf decoded =? 0)%Z; [simpl; lia|].
  destruct (TopEarnersJs.deviceKeyStringFromDecoded decoded) as [k|]; [|simpl; lia].
  destruct (String.eqb k ""); simpl; lia.
Qed.

Lemma rewardsOf_le (files : list TopEarnersJs.ObjectFrames) :
  (length (rewardsOf files) <= length (List.filter decodes (framesOf files)))%nat.
Proof.
  unfold rewardsOf, framesOf.
  induction files as [|f files IH]; [simpl; lia|].
  cbn [flat_map]. rewrite List.filter_app, !length_app.
  apply Nat.add_le_mono; [|exact IH]. unfold objectRewards.
  destruct (TopEarnersJs.objectBody f) as [frames|]; [apply frameRewards_le | simpl; lia].
Qed.

Section FleetAccounts.

Variable config : list Z.
Variable endTs : Z.

Local Abbreviation W := (TopEarnersJs.WINDOWS_DAYS config).

(** What a part of the scan does to the state: the counters go up by the
    frames, the decoded frames and the rewards met, and every window total
    by the amounts of the rewards not older than its cutoff. *)
Local Abbreviation accounts s s' frames rewards :=
  ((forall w, In w W -> is_Some (TopEarnersJs.totalsByWindow s' !! w)) /\
   (forall device w, In w W ->
      TopEarnersJs.total (TopEarnersJs.totalsByWindow s') device w
      = (TopEarnersJs.total (TopEarnersJs.totalsByWindow s) device w
         + sumSince (TopEarnersJs.cutoffOf endTs w) device rewards)%Z) /\
   TopEarnersJs.framesScanned s'
   = (TopEarnersJs.framesScanned s + Z.of_nat (length frames))%Z /\
   TopEarnersJs.decodedOk s'
   = (TopEarnersJs.decodedOk s + Z.of_nat (length (List.filter decodes frames)))%Z /\
   TopEarnersJs.rewardsCounted s'
   = (TopEarnersJs.rewardsCounted s + Z.of_nat (length rewards))%Z /\
   TopEarnersJs.deviceKeysExtracted s'
   = (TopEarnersJs.deviceKeysExtracted s + Z.of_nat (length rewards))%Z).

Lemma scanFrame_accounts (ts : Z) (s : TopEarnersJs.Scan) (frame : outcome MobileRewardShare) :
  (forall w, In w W -> is_Some (TopEarnersJs.totalsByWindow s !! w)) ->
  exists s',
    TopEarnersJs.scanFrame config endTs ts s frame = Returns s' /\
    accounts s s' [frame] (frameRewards ts [frame]).
Proof.
  intros Hdom. unfold TopEarnersJs.scanFrame, frameRewards, frameReward.
  cbn [flat_map]. rewrite app_nil_r.
  assert (Hskip : forall s' : TopEarnersJs.Scan,
             TopEarnersJs.totalsByWindow s' = TopEarnersJs.totalsByWindow s ->
             (forall w, In w W -> is_Some (TopEarnersJs.totalsByWindow s' !! w)) /\
             (forall device w, In w W ->
                TopEarnersJs.total (TopEarnersJs.totalsByWindow s') device w
                = (TopEarnersJs.total (TopEarnersJs.totalsByWindow s) device w
                   + sumSince (TopEarnersJs.cutoffOf endTs w) device [])%Z)).
  { intros s' ->. split; [exact Hdom|]. intros device w _. simpl. lia. }
  destruct frame as [decoded|e].
  - destruct (dcOf decoded =? 0)%Z.
    { eexists. split; [reflexivity|].
      destruct (Hskip _ eq_refl) as [H1 H2]. repeat split; try assumption; simpl; lia. }
    destruct (TopEarnersJs.deviceKeyStringFromDecoded decoded) as [deviceKey|].
    2:{ eexists. split; [reflexivity|].
        destruct (Hskip _ eq_refl) as [H1 H2]. repeat split; try assumption; simpl; lia. }
    destruct (String.eqb deviceKey "").
    { eexists. split; [reflexivity|].
      destruct (Hskip _ eq_refl) as [H1 H2]. repeat split; try assumption; simpl; lia. }
    destruct (addToWindows_effect config endTs ts deviceKey (dcOf decoded) W
                (WINDOWS_DAYS_NoDup config) (fun w H => H) _ Hdom)
      as (totals' & Hrun & Hdom' & Htot).
    rewrite Hrun. cbn [bindOutcome]. eexists. split; [reflexivity|].
    cbn [TopEarnersJs.totalsByWindow TopEarnersJs.framesScanned TopEarnersJs.decodedOk
         TopEarnersJs.rewardsCounted TopEarnersJs.deviceKeysExtracted].
    split; [exact Hdom'|]. split.
    + intros device w Hw. rewrite Htot. unfold TopEarnersJs.added, sumSince.
      apply existsb_eqb_In in Hw. rewrite Hw. cbn [andb fold_right fst snd].
      rewrite Z.add_0_r. reflexivity.
    + repeat split; simpl; lia.
  - eexists. split; [reflexivity|].
    destruct (Hskip _ eq_refl) as [H1 H2]. repeat split; try assumption; simpl; lia.
Qed.

Lemma scanFrames_accounts (ts : Z) (frames : list (outcome MobileRewardShare)) :
  forall s : TopEarnersJs.Scan,
    (forall w, In w W -> is_Some (TopEarnersJs.totalsByWindow s !! w)) ->
    exists s',
      TopEarnersJs.scanFrames config endTs ts s frames = Returns s' /\
      accounts s s' frames (frameRewards ts frames).
Proof.
  induction frames as [|frame frames IH]; intros s Hdom.
  - exists s. split; [reflexivity|]. split; [exact Hdom|].
    split; [intros device w _; simpl; lia|]. repeat split; simpl; lia.
  - cbn [TopEarnersJs.scanFrames].
    destruct (scanFrame_accounts ts s frame Hdom)
      as (s1 & -> & Hdom1 & Htot1 & Hf1 & Hd1 & Hr1 & Hk1).
    cbn [bindOutcome].
    destruct (IH s1 Hdom1) as (s' & Hrun & Hdom' & Htot' & Hf' & Hd' & Hr' & Hk').
    exists s'. split; [exact Hrun|]. split; [exact Hdom'|].
    rewrite (frameRewards_cons ts frame frames).
    split.
    + intros device w Hw. rewrite (Htot' device w Hw), (Htot1 device w Hw), sumSince_app. lia.
    + rewrite Hf', Hd', Hr', Hk', Hf1, Hd1, Hr1, Hk1. rewrite !length_app.
      change (frame :: frames) with ([frame] ++ frames).
      rewrite List.filter_app, !length_app. repeat split; lia.
Qed.

Lemma scanFiles_accounts (files : list TopEarnersJs.ObjectFrames) :
  forall s : TopEarnersJs.Scan,
    (forall w, In w W -> is_Some (TopEarnersJs.totalsByWindow s !! w)) ->
    exists s',
      TopEarnersJs.scanFiles config endTs s files = Returns s' /\
      accounts s s' (framesOf files) (rewardsOf files).
Proof.
  induction files as [|f files IH]; intros s Hdom.
  - exists s. split; [reflexivity|]. split; [exact Hdom|].
    split; [intros device w _; simpl; lia|]. repeat split; simpl; lia.
  - cbn [TopEarnersJs.scanFiles]. unfold framesOf, rewardsOf. cbn [flat_map].
    assert (Hobj : objectRewards f
                   = match TopEarnersJs.objectBody f with
                     | Some frames => frameRewards (TopEarnersJs.objectTs f) frames
                     | None => []
                     end) by reflexivity.
    rewrite Hobj. clear Hobj.
    destruct (TopEarnersJs.objectBody f) as [frames|]; [|exact (IH s Hdom)].
    destruct (scanFrames_accounts (TopEarnersJs.objectTs f) frames s Hdom)
      as (s1 & -> & Hdom1 & Htot1 & Hf1 & Hd1 & Hr1 & Hk1).
    cbn [bindOutcome].
    destruct (IH s1 Hdom1) as (s' & Hrun & Hdom' & Htot' & Hf' & Hd' & Hr' & Hk').
    exists s'. split; [exact Hrun|]. split; [exact Hdom'|]. split.
    + intros device w Hw. rewrite (Htot' device w Hw), (Htot1 device w Hw), sumSince_app.
      unfold rewardsOf. lia.
    + fold (framesOf files). fold (rewardsOf files).
      rewrite Hf', Hd', Hr', Hk', Hf1, Hd1, Hr1, Hk1.
      rewrite List.filter_app, !length_app. repeat split; lia.
Qed.

Lemma run_accounts (files : list TopEarnersJs.ObjectFrames) :
  exists s,
    TopEarnersJs.run config endTs files = Returns s /\
    (forall device w, In w W ->
        TopEarnersJs.total (TopEarnersJs.totalsByWindow s) device w
        = sumSince (TopEarnersJs.cutoffOf endTs w) device (rewardsOf files)) /\
    TopEarnersJs.framesScanned s = Z.of_nat (length (framesOf files)) /\
    TopEarnersJs.decodedOk s = Z.of_nat (length (List.filter decodes (framesOf files))) /\
    TopEarnersJs.rewardsCounted s = Z.of_nat (length (rewardsOf files)) /\
    TopEarnersJs.deviceKeysExtracted s = Z.of_nat (length (rewardsOf files)).
Proof.
  destruct (initialTotals_invariant config) as [Hdom Hzero].
  destruct (scanFiles_accounts files
              {| TopEarnersJs.totalsByWindow := TopEarnersJs.initialTotals config;
                 TopEarnersJs.framesScanned := 0; TopEarnersJs.decodedOk := 0;
                 TopEarnersJs.rewardsCounted := 0; TopEarnersJs.deviceKeysExtracted := 0 |}
              Hdom) as (s & Hrun & _ & Htot & Hf & Hd & Hr & Hk).
  exists s. split; [exact Hrun|]. split.
  - intros device w Hw. rewrite (Htot device w Hw).
    cbn [TopEarnersJs.totalsByWindow].
    assert (TopEarnersJs.total (TopEarnersJs.initialTotals config) device w = 0%Z) as ->;
      [|lia].
    unfold TopEarnersJs.total, TopEarnersJs.initialTotals.
    rewrite (lookup_list_to_map_fun (fun _ => (∅ : gmap string Z))).
    apply existsb_eqb_In in Hw. rewrite Hw, lookup_empty. reflexivity.
  - rewrite Hf, Hd, Hr, Hk. simpl. repeat split; lia.
Qed.

End FleetAccounts.



(** X7. The counters of the fleet scan, written to [meta]: [frames_scanned]
    is the number of frames of the objects that have a body, [decoded_ok]
    the number of those that decode, and [rewards_counted] and
    [device_keys_extracted] are one and the same number, that of the
    rewards added to the totals. *)
Theorem run_counters
        (config : list Z) (endTs : Z) (files : list TopEarnersJs.ObjectFrames) :
  exists s,
    TopEarnersJs.run config endTs files = Returns s /\
    TopEarnersJs.framesScanned s = Z.of_nat (length (framesOf files)) /\
    TopEarnersJs.decodedOk s = Z.of_nat (length (List.filter decodes (framesOf files))) /\
    TopEarnersJs.rewardsCounted s = Z.of_nat (length (rewardsOf files)) /\
    TopEarnersJs.deviceKeysExtracted s = TopEarnersJs.rewardsCounted s /\
    (TopEarnersJs.rewardsCounted s <= TopEarnersJs.decodedOk s
     <= TopEarnersJs.framesScanned s)%Z.
Proof.
  destruct (run_accounts config endTs files) as (s & Hrun & _ & Hf & Hd & Hr & Hk).
  exists s. split; [exact Hrun|]. rewrite Hf, Hd, Hr, Hk.
  repeat split; try reflexivity.
  - apply inj_le. apply rewardsOf_le.
  - apply inj_le. apply List.filter_length_le.
Qed.

(** ** scripts/top-earners-dc.js: the totals by device *)

Lemma Map_get_set {V : Type} (m : list (string * V)) (k k' : string) (v : V) :
  Map_get (Map_set m k v) k' = if String.eqb k' k then Some v else Map_get m k'.
Proof.
  induction m as [|[k0 v0] m IH]; simpl.
  - destruct (String.eqb k' k); reflexivity.
  - destruct (String.eqb_spec k k0) as [->|Hne]; simpl.
    + destruct (String.eqb k' k0); reflexivity.
    + rewrite IH. destruct (String.eqb_spec k' k0) as [->|Hne'];
        [|reflexivity].
      destruct (String.eqb_spec k0 k) as [->|]; [congruence | reflexivity].
Qed.

Lemma Map_set_In {V : Type} (m : list (string * V)) (k : string) (v : V)
      (k' : string) (v' : V) :
  In (k', v') (Map_set m k v) -> (k' = k /\ v' = v) \/ In (k', v') m.
Proof.
  induction m as [|[k0 v0] m IH]; simpl.
  - intros [[= <- <-]|[]]. left. split; reflexivity.
  - destruct (String.eqb_spec k k0) as [->|Hne]; simpl.
    + intros [[= <- <-]|Hin]; [left; split; reflexivity | right; right; exact Hin].
    + intros [Heq|Hin]; [right; left; exact Heq|].
      destruct (IH Hin) as [Hk|Hm]; [left; exact Hk | right; right; exact Hm].
Qed.

Lemma Map_set_keys {V : Type} (m : list (string * V)) (k : string) (v : V) :
  NoDup (map fst m) -> NoDup (map fst (Map_set m k v)).
Proof.
  induction m as [|[k0 v0] m IH]; simpl; intros Hnd.
  - repeat constructor. intros H. inversion H.
  - apply NoDup_cons in Hnd as [Hk0 Hnd].
    destruct (String.eqb_spec k k0) as [->|Hne]; simpl.
    + apply NoDup_cons. split; assumption.
    + apply NoDup_cons. split; [|exact (IH Hnd)].
      intros Hin. apply list_elem_of_In, in_map_iff in Hin as ([k1 v1] & Hfst & Hin).
      simpl in Hfst. subst k1.
      destruct (Map_set_In _ _ _ _ _ Hin) as [[Hk _]|Hm]; [congruence|].
      apply Hk0, list_elem_of_In, in_map_iff. exists (k0, v1). split; [reflexivity | exact Hm].
Qed.

Lemma Map_get_In {V : Type} (m : list (string * V)) (k : string) (v : V) :
  NoDup (map fst m) -> In (k, v) m -> Map_get m k = Some v.
Proof.
  induction m as [|[k0 v0] m IH]; simpl; intros Hnd; [intros []|].
  apply NoDup_cons in Hnd as [Hk0 Hnd].
  intros [[= -> ->]|Hin].
  - rewrite String.eqb_refl. reflexivity.
  - destruct (String.eqb_spec k k0) as [->|Hne]; [|exact (IH Hnd Hin)].
    exfalso. apply Hk0, list_elem_of_In, in_map_iff. exists (k0, v). split; [reflexivity | exact Hin].
Qed.

(** The state of the scan of the script after the rewards [rewards]. *)
Lemma script_scanFrame_accounts (ts : Z) (s : TopEarnersDcJs.Scan) (frame : outcome MobileRewardShare) :
  NoDup (map fst (TopEarnersDcJs.totalsByDevice s)) ->
  (forall k v, In (k, v) (TopEarnersDcJs.totalsByDevice s) -> (0 < v)%Z) ->
  NoDup (map fst (TopEarnersDcJs.totalsByDevice (TopEarnersDcJs.scanFrame s frame))) /\
  (forall k v, In (k, v) (TopEarnersDcJs.totalsByDevice (TopEarnersDcJs.scanFrame s frame)) ->
               (0 < v)%Z) /\
  (forall device,
      orZero (Map_get (TopEarnersDcJs.totalsByDevice (TopEarnersDcJs.scanFrame s frame)) device)
      = (orZero (Map_get (TopEarnersDcJs.totalsByDevice s) device)
         + sumOf device (frameRewards ts [frame]))%Z) /\
  TopEarnersDcJs.rewardsCounted (TopEarnersDcJs.scanFrame s frame)
  = (TopEarnersDcJs.rewardsCounted s + Z.of_nat (length (frameRewards ts [frame])))%Z.
Proof.
  intros Hnd Hpos. unfold TopEarnersDcJs.scanFrame, frameRewards, frameReward.
  cbn [flat_map]. rewrite app_nil_r.
  assert (Hskip : forall s' : TopEarnersDcJs.Scan,
             TopEarnersDcJs.totalsByDevice s' = TopEarnersDcJs.totalsByDevice s ->
             TopEarnersDcJs.rewardsCounted s' = TopEarnersDcJs.rewardsCounted s ->
             NoDup (map fst (TopEarnersDcJs.totalsByDevice s')) /\
             (forall k v, In (k, v) (TopEarnersDcJs.totalsByDevice s') -> (0 < v)%Z) /\
             (forall device,
                 orZero (Map_get (TopEarnersDcJs.totalsByDevice s') device)
                 = (orZero (Map_get (TopEarnersDcJs.totalsByDevice s) device)
                    + sumOf device [])%Z) /\
             TopEarnersDcJs.rewardsCounted s'
             = (TopEarnersDcJs.rewardsCounted s + Z.of_nat (length (@nil (Z * (string * Z)))))%Z).
  { intros s' -> ->. repeat split; try assumption; simpl; intros; lia. }
  destruct frame as [decoded|e]; [|apply Hskip; reflexivity].
  pose proof (dcOf_nonneg decoded) as Hdc.
  destruct (Z.eqb_spec (dcOf decoded) 0) as [|Hnz]; [apply Hskip; reflexivity|].
  destruct (TopEarnersJs.deviceKeyStringFromDecoded decoded) as [deviceKey|];
    [|apply Hskip; reflexivity].
  destruct (String.eqb deviceKey ""); [apply Hskip; reflexivity|].
  cbn [TopEarnersDcJs.totalsByDevice TopEarnersDcJs.rewardsCounted].
  split; [apply Map_set_keys; exact Hnd|]. split; [|split].
  - intros k v Hin. destruct (Map_set_In _ _ _ _ _ Hin) as [[_ ->]|Hm]; [|exact (Hpos k v Hm)].
    destruct (Map_get (TopEarnersDcJs.totalsByDevice s) deviceKey) as [x|] eqn:Hg; simpl; [|lia].
    assert (0 < x)%Z; [|lia]. apply (Hpos deviceKey).
    clear - Hg. induction (TopEarnersDcJs.totalsByDevice s) as [|[k0 v0] m IH]; simpl in *;
      [discriminate|].
    destruct (String.eqb_spec deviceKey k0) as [->|]; [injection Hg as ->; left; reflexivity|].
    right. exact (IH Hg).
  - intros device. rewrite Map_get_set. unfold sumOf. cbn [fold_right fst snd].
    destruct (String.eqb device deviceKey) eqn:Heq; simpl; [|lia].
    apply String.eqb_eq in Heq. subst device. lia.
  - simpl. lia.
Qed.

Lemma script_scanFrames_accounts (ts : Z) (frames : list (outcome MobileRewardShare)) :
  forall s : TopEarnersDcJs.Scan,
    NoDup (map fst (TopEarnersDcJs.totalsByDevice s)) ->
    (forall k v, In (k, v) (TopEarnersDcJs.totalsByDevice s) -> (0 < v)%Z) ->
    NoDup (map fst (TopEarnersDcJs.totalsByDevice (fold_left TopEarnersDcJs.scanFrame frames s))) /\
    (forall k v,
        In (k, v) (TopEarnersDcJs.totalsByDevice (fold_left TopEarnersDcJs.scanFrame frames s)) ->
        (0 < v)%Z) /\
    (forall device,
        orZero (Map_get (TopEarnersDcJs.totalsByDevice
                           (fold_left TopEarnersDcJs.scanFrame frames s)) device)
        = (orZero (Map_get (TopEarnersDcJs.totalsByDevice s) device)
           + sumOf device (frameRewards ts frames))%Z) /\
    TopEarnersDcJs.rewardsCounted (fold_left TopEarnersDcJs.scanFrame frames s)
    = (TopEarnersDcJs.rewardsCounted s + Z.of_nat (length (frameRewards ts frames)))%Z.
Proof.
  induction frames as [|frame frames IH]; intros s Hnd Hpos.
  - repeat split; try assumption; simpl; intros; lia.
  - cbn [fold_left].
    destruct (script_scanFrame_accounts ts s frame Hnd Hpos) as (Hnd1 & Hpos1 & Htot1 & Hr1).
    destruct (IH _ Hnd1 Hpos1) as (Hnd' & Hpos' & Htot' & Hr').
    split; [exact Hnd'|]. split; [exact Hpos'|].
    rewrite (frameRewards_cons ts frame frames). split.
    + intros device. rewrite Htot', Htot1, sumOf_app. lia.
    + rewrite Hr', Hr1, length_app. lia.
Qed.

Lemma script_scanFiles_accounts (files : list TopEarnersJs.ObjectFrames) :
  forall s : TopEarnersDcJs.Scan,
    NoDup (map fst (TopEarnersDcJs.totalsByDevice s)) ->
    (forall k v, In (k, v) (TopEarnersDcJs.totalsByDevice s) -> (0 < v)%Z) ->
    NoDup (map fst (TopEarnersDcJs.totalsByDevice (TopEarnersDcJs.scanFiles s files))) /\
    (forall k v,
        In (k, v) (TopEarnersDcJs.totalsByDevice (TopEarnersDcJs.scanFiles s files)) ->
        (0 < v)%Z) /\
    (forall device,
        orZero (Map_get (TopEarnersDcJs.totalsByDevice (TopEarnersDcJs.scanFiles s files)) device)
        = (orZero (Map_get (TopEarnersDcJs.totalsByDevice s) device)
           + sumOf device (rewardsOf files))%Z) /\
    TopEarnersDcJs.rewardsCounted (TopEarnersDcJs.scanFiles s files)
    = (TopEarnersDcJs.rewardsCounted s + Z.of_nat (length (rewardsOf files)))%Z.
Proof.
  induction files as [|f files IH]; intros s Hnd Hpos.
  - repeat split; try assumption; simpl; intros; lia.
  - cbn [TopEarnersDcJs.scanFiles]. unfold rewardsOf. cbn [flat_map].
    fold (rewardsOf files). unfold objectRewards.
    destruct (TopEarnersJs.objectBody f) as [frames|]; [|exact (IH s Hnd Hpos)].
    destruct (script_scanFrames_accounts (TopEarnersJs.objectTs f) frames s Hnd Hpos)
      as (Hnd1 & Hpos1 & Htot1 & Hr1).
    destruct (IH _ Hnd1 Hpos1) as (Hnd' & Hpos' & Htot' & Hr').
    split; [exact Hnd'|]. split; [exact Hpos'|]. split.
    + intros device. rewrite Htot', Htot1, sumOf_app. lia.
    + rewrite Hr', Hr1, length_app. lia.
Qed.

Lemma Array_slice_In {A : Type} (arr : list A) (start end_ : Z) (x : A) :
  In x (Array_slice arr start end_) -> In x arr.
Proof.
  unfold Array_slice. intros H.
  set (n := Z.to_nat _) in H. set (s := Z.to_nat _) in H.
  rewrite <- (take_drop s arr). apply in_or_app. right.
  rewrite <- (take_drop n (drop s arr)). apply in_or_app. left. exact H.
Qed.

Lemma top_earners_dc_totals_aux (files : list TopEarnersJs.ObjectFrames) :
  NoDup (map fst (TopEarnersDcJs.totalsByDevice
                    (TopEarnersDcJs.scanFiles
                       {| TopEarnersDcJs.totalsByDevice := []; TopEarnersDcJs.framesScanned := 0;
                          TopEarnersDcJs.decodedOk := 0; TopEarnersDcJs.rewardsCounted := 0 |}
                       files))) /\
  (forall k v,
      In (k, v) (TopEarnersDcJs.totalsByDevice
                   (TopEarnersDcJs.scanFiles
                      {| TopEarnersDcJs.totalsByDevice := []; TopEarnersDcJs.framesScanned := 0;
                         TopEarnersDcJs.decodedOk := 0; TopEarnersDcJs.rewardsCounted := 0 |}
                      files)) -> (0 < v)%Z) /\
  (forall device,
      orZero (Map_get (TopEarnersDcJs.totalsByDevice
                         (TopEarnersDcJs.scanFiles
                            {| TopEarnersDcJs.totalsByDevice := []; TopEarnersDcJs.framesScanned := 0;
                               TopEarnersDcJs.decodedOk := 0; TopEarnersDcJs.rewardsCounted := 0 |}
                            files)) device)
      = sumOf device (rewardsOf files)) /\
  TopEarnersDcJs.rewardsCounted
    (TopEarnersDcJs.scanFiles
       {| TopEarnersDcJs.totalsByDevice := []; TopEarnersDcJs.framesScanned := 0;
          TopEarnersDcJs.decodedOk := 0; TopEarnersDcJs.rewardsCounted := 0 |} files)
  = Z.of_nat (length (rewardsOf files)).
Proof.
  destruct (script_scanFiles_accounts files
              {| TopEarnersDcJs.totalsByDevice := []; TopEarnersDcJs.framesScanned := 0;
                 TopEarnersDcJs.decodedOk := 0; TopEarnersDcJs.rewardsCounted := 0 |})
    as (Hnd & Hpos & Htot & Hr).
  { constructor. }
  { intros k v []. }
  cbn [TopEarnersDcJs.totalsByDevice TopEarnersDcJs.rewardsCounted Map_get orZero] in Htot, Hr.
  split; [exact Hnd|]. split; [exact Hpos|]. split.
  - intros device. rewrite Htot. lia.
  - rewrite Hr. lia.
Qed.


Lemma sumSince_all (cutoff : Z) (device : string) (rewards : list (Z * (string * Z))) :
  (forall r, In r rewards -> (cutoff <= fst r)%Z) ->
  sumSince cutoff device rewards = sumOf device rewards.
Proof.
  unfold sumSince, sumOf. induction rewards as [|r rewards IH]; intros H; simpl; [reflexivity|].
  rewrite IH by (intros r' Hr'; apply H; right; exact Hr').
  destruct (Z.leb_spec cutoff (fst r)) as [|Hlt]; [reflexivity|].
  specialize (H r (or_introl eq_refl)). lia.
Qed.

Lemma rewardsOf_ts (files : list TopEarnersJs.ObjectFrames) (r : Z * (string * Z)) :
  In r (rewardsOf files) -> exists f, In f files /\ fst r = TopEarnersJs.objectTs f.
Proof.
  unfold rewardsOf. rewrite in_flat_map. intros (f & Hf & Hr). exists f. split; [exact Hf|].
  unfold objectRewards in Hr. destruct (TopEarnersJs.objectBody f) as [frames|]; [|destruct Hr].
  unfold frameRewards in Hr. rewrite in_flat_map in Hr. destruct Hr as (frame & _ & Hr).
  destruct (frameReward frame); [|destruct Hr]. destruct Hr as [<-|[]]. reflexivity.
Qed.

(** X9. The scheduled scrape against the script: when no object scanned is
    older than the cutoff of a window [w] of [WINDOWS_DAYS] (so it is for
    the widest window and the objects listed from [startTs] on), the total
    of a device over [w] in [run] is the total scripts/top-earners-dc.js
    holds for it after scanning the same objects. *)
Theorem run_window_equals_script_total
        (config : list Z) (endTs : Z) (files : list TopEarnersJs.ObjectFrames)
        (TOP_N : Z) (device : string) (w : Z) :
  In w (TopEarnersJs.WINDOWS_DAYS config) ->
  (forall f, In f files -> (endTs - w * 24 * 60 * 60 * 1000 <= TopEarnersJs.objectTs f)%Z) ->
  exists s,
    TopEarnersJs.run config endTs files = Returns s /\
    TopEarnersJs.total (TopEarnersJs.totalsByWindow s) device w
    = orZero (Map_get (TopEarnersDcJs.totalsByDevice (snd (TopEarnersDcJs.main TOP_N files)))
                      device).
Proof.
  intros Hw Hts.
  destruct (run_accounts config endTs files) as (s & Hrun & Htot & _).
  exists s. split; [exact Hrun|]. rewrite (Htot device w Hw).
  destruct (top_earners_dc_totals_aux files) as (_ & _ & Hscript & _).
  unfold TopEarnersDcJs.main. cbn [snd]. rewrite Hscript.
  apply sumSince_all. intros r Hr. destruct (rewardsOf_ts files r Hr) as (f & Hf & ->).
  apply Hts. exact Hf.
Qed.

Lemma run_window_equals_script_total_witness :
  exists s,
    TopEarnersJs.run [30; 1; 7; 7]%Z 1700000000000
      [ {| TopEarnersJs.objectTs := 1699568000000;
           TopEarnersJs.objectBody := Some [Returns (gatewayShare 100)] |};
        {| TopEarnersJs.objectTs := 1699990000000;
           TopEarnersJs.objectBody :=
             Some [Throws "index out of range"; Returns (gatewayShare 300);
                   Returns subscriberShare] |} ] = Returns s /\
    TopEarnersJs.total (TopEarnersJs.totalsByWindow s) hotspotKey32Checksummed 7
    = orZero (Map_get
                (TopEarnersDcJs.totalsByDevice
                   (snd (TopEarnersDcJs.main 10
                           [ {| TopEarnersJs.objectTs := 1699568000000;
                                TopEarnersJs.objectBody := Some [Returns (gatewayShare 100)] |};
                             {| TopEarnersJs.objectTs := 1699990000000;
                                TopEarnersJs.objectBody :=
                                  Some [Throws "index out of range"; Returns (gatewayShare 300);
                                        Returns subscriberShare] |} ])))
                hotspotKey32Checksummed).
Proof.
  apply (run_window_equals_script_total [30; 1; 7; 7]%Z).
  - vm_compute. right. left. reflexivity.
  - intros f [<-|[<-|[]]]; simpl; lia.
Defined.

Example top_earners_dc_example :
  fst (TopEarnersDcJs.main 10
         [ {| TopEarnersJs.objectTs := 1699568000000;
              TopEarnersJs.objectBody := Some [Returns (gatewayShare 100)] |};
           {| TopEarnersJs.objectTs := 1699990000000;
              TopEarnersJs.objectBody :=
                Some [Throws "index out of range"; Returns (gatewayShare 300);
                      Returns subscriberShare] |} ])
  = [(hotspotKey32Checksummed, 400%Z)].
Proof. vm_compute. reflexivity. Qed.

(** ** scripts/scrape-device.js: the daily totals *)

Lemma sumValues_insert (m : gmap string Z) (k : string) (v : Z) :
  sumValues (<[k := v]> m) = (sumValues m - orZero (m !! k) + v)%Z.
Proof.
  unfold sumValues.
  assert (Hcomm : forall (m0 : gmap string Z) (j1 j2 : string) (z1 z2 y : Z),
             j1 <> j2 -> m0 !! j1 = Some z1 -> m0 !! j2 = Some z2 ->
             (z1 + (z2 + y) = z2 + (z1 + y))%Z) by (intros; lia).
  destruct (m !! k) as [x|] eqn:Hk; simpl.
  - rewrite (map_fold_delete_L _ _ k x m (Hcomm m) Hk).
    rewrite <- (insert_delete_eq m k v).
    rewrite (map_fold_insert_L _ _ k v (delete k m) (Hcomm _) (lookup_delete_eq m k)).
    lia.
  - rewrite (map_fold_insert_L _ _ k v m (Hcomm _) Hk). lia.
Qed.

Section ScrapeDevice.

Variable messageJSON : MobileRewardShare -> string.
Variable toYyyyMmDd : Z -> string.
Variable targetFormats : DeviceKeyFormats.

Local Abbreviation scrapeFrame := (ScrapeDeviceJs.scrapeFrame messageJSON targetFormats).
Local Abbreviation matchedAmount := (ScrapeDeviceLoop.matchedAmount messageJSON targetFormats).

(** What holds of the totals all along the scan. *)
Local Abbreviation consistent t :=
  (ScrapeDeviceJs.totalDc t = sumValues (ScrapeDeviceJs.totalsByDay t) /\
   (forall day x, ScrapeDeviceJs.totalsByDay t !! day = Some x -> (0 < x)%Z) /\
   Z.le 0 (ScrapeDeviceJs.totalMatches t) /\
   Z.le (ScrapeDeviceJs.totalMatches t) (ScrapeDeviceJs.totalFrames t)).

Lemma device_scrapeFrame_effect (day : string) (t : ScrapeDeviceJs.Totals)
      (frame : outcome MobileRewardShare) :
  consistent t ->
  consistent (scrapeFrame day t frame) /\
  (forall d,
      orZero (ScrapeDeviceJs.totalsByDay (scrapeFrame day t frame) !! d)
      = (orZero (ScrapeDeviceJs.totalsByDay t !! d)
         + if String.eqb day d then matchedAmount frame else 0)%Z) /\
  ScrapeDeviceJs.totalFrames (scrapeFrame day t frame)
  = (ScrapeDeviceJs.totalFrames t + 1)%Z.
Proof.
  intros (Hsum & Hpos & Hle0 & Hle).
  unfold ScrapeDeviceJs.scrapeFrame, ScrapeDeviceLoop.matchedAmount.
  destruct frame as [decoded|e]; cbv beta iota zeta;
    cbn [ScrapeDeviceJs.totalsByDay ScrapeDeviceJs.totalDc ScrapeDeviceJs.totalMatches
         ScrapeDeviceJs.totalFrames].
  2:{ split; [|split; [|lia]].
      - split; [exact Hsum|]. split; [exact Hpos|]. split; lia.
      - intros d. destruct (String.eqb day d); lia. }
  destruct (ScrapeDeviceJs.containsTargetDevice messageJSON decoded targetFormats);
    cbn [negb ScrapeDeviceJs.totalsByDay ScrapeDeviceJs.totalDc ScrapeDeviceJs.totalMatches
         ScrapeDeviceJs.totalFrames].
  2:{ split; [|split; [|lia]].
      - split; [exact Hsum|]. split; [exact Hpos|]. split; lia.
      - intros d. destruct (String.eqb day d); lia. }
  pose proof (dcOf_nonneg decoded) as Hdc.
  destruct (Z.eqb_spec (dcOf decoded) 0) as [Hz|Hnz];
    cbn [ScrapeDeviceJs.totalsByDay ScrapeDeviceJs.totalDc ScrapeDeviceJs.totalMatches
         ScrapeDeviceJs.totalFrames].
  { split; [|split; [|lia]].
    - split; [exact Hsum|]. split; [exact Hpos|]. split; lia.
    - intros d. rewrite Hz. destruct (String.eqb day d); lia. }
  fold (orZero (ScrapeDeviceJs.totalsByDay t !! day)).
  assert (Hday : (0 <= orZero (ScrapeDeviceJs.totalsByDay t !! day))%Z).
  { destruct (ScrapeDeviceJs.totalsByDay t !! day) as [x|] eqn:Hx; simpl; [|lia].
    specialize (Hpos day x Hx). lia. }
  split; [|split; [|lia]].
  - split; [rewrite sumValues_insert, Hsum; lia|]. split; [|split; lia].
    intros d x. destruct (String.eqb_spec day d) as [->|Hne].
    + rewrite lookup_insert_eq. intros [= <-]. lia.
    + rewrite lookup_insert_ne by exact Hne. apply Hpos.
  - intros d. destruct (String.eqb_spec day d) as [->|Hne].
    + rewrite lookup_insert_eq. reflexivity.
    + rewrite lookup_insert_ne by exact Hne. lia.
Qed.

Lemma device_scrapeFrames_effect (day : string) (frames : list (outcome MobileRewardShare)) :
  forall t : ScrapeDeviceJs.Totals,
    consistent t ->
    consistent (fold_left (scrapeFrame day) frames t) /\
    (forall d,
        orZero (ScrapeDeviceJs.totalsByDay (fold_left (scrapeFrame day) frames t) !! d)
        = (orZero (ScrapeDeviceJs.totalsByDay t !! d)
           + if String.eqb day d
             then fold_right (fun frame acc => (matchedAmount frame + acc)%Z) 0%Z frames
             else 0)%Z) /\
    ScrapeDeviceJs.totalFrames (fold_left (scrapeFrame day) frames t)
    = (ScrapeDeviceJs.totalFrames t + Z.of_nat (length frames))%Z.
Proof.
  induction frames as [|frame frames IH]; intros t Hc.
  - cbn [fold_left fold_right length]. split; [exact Hc|]. split; [|lia].
    intros d. destruct (String.eqb day d); lia.
  - cbn [fold_left fold_right length].
    destruct (device_scrapeFrame_effect day t frame Hc) as (Hc1 & Hday1 & Hf1).
    destruct (IH _ Hc1) as (Hc' & Hday' & Hf').
    split; [exact Hc'|]. split.
    + intros d. rewrite Hday', Hday1. destruct (String.eqb day d); lia.
    + rewrite Hf', Hf1. lia.
Qed.

Lemma device_scrapeFiles_effect (files : list TopEarnersJs.ObjectFrames) :
  forall t : ScrapeDeviceJs.Totals,
    consistent t ->
    consistent (ScrapeDeviceLoop.scrapeFiles messageJSON toYyyyMmDd targetFormats t files) /\
    (forall d,
        orZero (ScrapeDeviceJs.totalsByDay
                  (ScrapeDeviceLoop.scrapeFiles messageJSON toYyyyMmDd targetFormats t files) !! d)
        = (orZero (ScrapeDeviceJs.totalsByDay t !! d)
           + ScrapeDeviceLoop.dayAmount messageJSON toYyyyMmDd targetFormats d files)%Z) /\
    ScrapeDeviceJs.totalFrames
      (ScrapeDeviceLoop.scrapeFiles messageJSON toYyyyMmDd targetFormats t files)
    = (ScrapeDeviceJs.totalFrames t + Z.of_nat (length (framesOf files)))%Z.
Proof.
  induction files as [|f files IH]; intros t Hc.
  - cbn. split; [exact Hc|]. split; [intros d|]; lia.
  - cbn [ScrapeDeviceLoop.scrapeFiles]. unfold ScrapeDeviceLoop.dayAmount, framesOf.
    cbn [fold_right flat_map].
    fold (ScrapeDeviceLoop.dayAmount messageJSON toYyyyMmDd targetFormats).
    fold (framesOf files).
    destruct (TopEarnersJs.objectBody f) as [frames|].
    + destruct (device_scrapeFrames_effect (toYyyyMmDd (TopEarnersJs.objectTs f)) frames t Hc)
        as (Hc1 & Hday1 & Hf1).
      destruct (IH _ Hc1) as (Hc' & Hday' & Hf').
      split; [exact Hc'|]. split.
      * intros d. rewrite Hday', Hday1. unfold ScrapeDeviceLoop.dayAmount. lia.
      * rewrite Hf', Hf1, length_app. lia.
    + destruct (IH _ Hc) as (Hc' & Hday' & Hf').
      split; [exact Hc'|]. split.
      * intros d. rewrite Hday'. unfold ScrapeDeviceLoop.dayAmount. cbn [fold_right].
        destruct (String.eqb (toYyyyMmDd (TopEarnersJs.objectTs f)) d); lia.
      * rewrite Hf'. cbn [app]. lia.
Qed.

End ScrapeDevice.


(** ** Searching a text: [includes] *)

Lemma includesChars_spec (s sub : list ascii) :
  includesChars s sub = true <-> exists pre post, s = pre ++ sub ++ post.
Proof.
  split.
  - induction s as [|c s IH]; cbn [includesChars].
    + rewrite orb_false_r. intros H. apply isPrefixOf_spec in H as [rest H].
      exists [], rest. exact H.
    + intros H. apply orb_true_iff in H as [H|H].
      * apply isPrefixOf_spec in H as [rest H]. exists [], rest. exact H.
      * destruct (IH H) as (pre & post & ->). exists (c :: pre), post. reflexivity.
  - intros (pre & post & ->). induction pre as [|c pre IH].
    + cbn [app]. assert (Hp : isPrefixOf sub (sub ++ post) = true)
        by (apply isPrefixOf_spec; exists post; reflexivity).
      destruct (sub ++ post); cbn [includesChars]; rewrite Hp; reflexivity.
    + cbn [app includesChars]. rewrite IH. apply orb_true_r.
Qed.

Lemma chars_app (a b : string) :
  list_ascii_of_string (a ++ b) = list_ascii_of_string a ++ list_ascii_of_string b.
Proof. induction a as [|c a IH]; simpl; [reflexivity | rewrite IH; reflexivity]. Qed.

Lemma includes_spec (s sub : string) :
  includes s sub = true <->
  exists pre post, list_ascii_of_string s = pre ++ list_ascii_of_string sub ++ post.
Proof. apply includesChars_spec. Qed.

Lemma includes_refl (s : string) : includes s s = true.
Proof. apply includes_spec. exists [], []. rewrite app_nil_r. reflexivity. Qed.

Lemma includes_empty (s : string) : includes s "" = true.
Proof. apply includes_spec. exists [], (list_ascii_of_string s). reflexivity. Qed.

Lemma includes_trans (a b c : string) :
  includes a b = true -> includes b c = true -> includes a c = true.
Proof.
  rewrite !includes_spec. intros (p1 & q1 & H1) (p2 & q2 & H2).
  exists (p1 ++ p2), (q2 ++ q1). rewrite H1, H2, <- !app_assoc. reflexivity.
Qed.

Lemma includes_app_l (a b x : string) :
  includes a x = true -> includes (a ++ b) x = true.
Proof.
  rewrite !includes_spec. intros (p & q & H).
  exists p, (q ++ list_ascii_of_string b). rewrite chars_app, H, <- !app_assoc. reflexivity.
Qed.

Lemma includes_app_r (a b x : string) :
  includes b x = true -> includes (a ++ b) x = true.
Proof.
  rewrite !includes_spec. intros (p & q & H).
  exists (list_ascii_of_string a ++ p), q. rewrite chars_app, H, <- !app_assoc. reflexivity.
Qed.

Lemma includes_joinStrings (sep : string) (l : list string) (y x : string) :
  In y l -> includes y x = true -> includes (joinStrings sep l) x = true.
Proof.
  intros Hin Hy. induction l as [|z l IH]; [destruct Hin|].
  cbn [joinStrings]. destruct l as [|z' l].
  - destruct Hin as [->|[]]. exact Hy.
  - destruct Hin as [->|Hin].
    + apply includes_app_l. exact Hy.
    + apply includes_app_r, includes_app_r. apply IH. exact Hin.
Qed.

(** A text without quote nor backslash stands unchanged between the quotes. *)
Lemma quoteString_plain (s : string) :
  Forall (fun c => Ascii.eqb c quoteChar = false /\ Ascii.eqb c backslashChar = false)
         (list_ascii_of_string s) ->
  includes (quoteString s) s = true.
Proof.
  intros Hplain. unfold quoteString.
  assert (Hid : flat_map (fun c => if Ascii.eqb c quoteChar then [backslashChar; quoteChar]
                                   else if Ascii.eqb c backslashChar
                                        then [backslashChar; backslashChar]
                                        else [c])
                         (list_ascii_of_string s) = list_ascii_of_string s).
  { induction Hplain as [|c cs [Hq Hb] _ IH]; simpl; [reflexivity|].
    rewrite Hq, Hb, IH. reflexivity. }
  rewrite Hid, string_of_list_ascii_of_string.
  apply (includes_app_r (String quoteChar "") (s ++ String quoteChar "")).
  apply includes_app_l, includes_refl.
Qed.

Lemma hexDigit_plain (d : Z) :
  Ascii.eqb (hexDigit d) quoteChar = false /\ Ascii.eqb (hexDigit d) backslashChar = false.
Proof.
  unfold hexDigit. generalize (Z.to_nat d). intros n.
  do 16 (destruct n as [|n]; [split; reflexivity|]). destruct n; split; reflexivity.
Qed.

Lemma toHex_plain (buf : list byte) :
  Forall (fun c => Ascii.eqb c quoteChar = false /\ Ascii.eqb c backslashChar = false)
         (list_ascii_of_string (toHex buf)).
Proof.
  unfold toHex. rewrite list_ascii_of_string_of_list_ascii.
  induction buf as [|b buf IH]; simpl; [constructor|].
  constructor; [apply hexDigit_plain|]. constructor; [apply hexDigit_plain | exact IH].
Qed.

(** ** The enriched message holds the hex form of every bytes value *)

Lemma enrichBytes_holds_hex (payload : list byte) (v : jsValue) :
  holdsBytes payload v ->
  includes (JSON_stringify (ScrapeHeliumRewardsJs.enrichBytes v)) (toHex payload) = true.
Proof.
  induction 1 as [| items v Hin _ IH | fields k v Hin _ IH].
  - cbn [ScrapeHeliumRewardsJs.enrichBytes JSON_stringify map].
    apply includes_app_r, includes_app_l.
    eapply includes_joinStrings; [right; left; reflexivity|].
    apply includes_app_r, includes_app_r. apply quoteString_plain, toHex_plain.
  - cbn [ScrapeHeliumRewardsJs.enrichBytes JSON_stringify].
    apply includes_app_r, includes_app_l.
    eapply includes_joinStrings; [|exact IH].
    apply in_map, in_map. exact Hin.
  - cbn [ScrapeHeliumRewardsJs.enrichBytes JSON_stringify].
    apply includes_app_r, includes_app_l.
    eapply includes_joinStrings.
    + apply in_map_iff. exists (k, ScrapeHeliumRewardsJs.enrichBytes v). split; [reflexivity|].
      apply in_map_iff. exists (k, v). split; [reflexivity | exact Hin].
    + apply includes_app_r, includes_app_r. exact IH.
Qed.

Lemma getTargetDeviceFormats_checksummed_main (payload : list byte) (v : byte) :
  ScrapeHeliumRewardsJs.getTargetDeviceFormats (base58checkEncode payload (byteZ v))
  = Returns {| original := base58checkEncode payload (byteZ v);
               rawBase58 := bs58.encode payload;
               hex := toHex payload;
               base64 := toBase64 payload;
               base58check := None |}.
Proof.
  unfold ScrapeHeliumRewardsJs.getTargetDeviceFormats.
  destruct (base58checkEncode_layout payload (byteZ v)) as (checksum & Hlen & Henc).
  rewrite Henc at 1. rewrite bs58_decode_encode, Zbyte_byteZ. cbn [bindOutcome tryCatch].
  destruct (slice_version_checksum v payload checksum Hlen) as [-> _].
  rewrite Buffer_from_id. reflexivity.
Qed.

(** X11. The search of src/scrapeHeliumRewards.js does not miss its device:
    when the bytes [payload] are a value anywhere in a decoded message
    (a property of the message, of its gateway reward or of any object or
    array nested in it) and the target is the checksummed key of [payload],
    of whatever version byte, [containsTargetDevice] answers true, whatever
    text [JSON.stringify] gives for the message. *)
Theorem containsTargetDevice_finds_bytes
        (messageJSON : MobileRewardShare -> string) (message : MobileRewardShare)
        (payload : list byte) (v : byte) :
  holdsBytes payload (messageObject message) ->
  exists targetFormats,
    ScrapeHeliumRewardsJs.getTargetDeviceFormats (base58checkEncode payload (byteZ v))
    = Returns targetFormats /\
    ScrapeHeliumRewardsJs.containsTargetDevice messageJSON message targetFormats = true.
Proof.
  intros Hholds. eexists. split; [apply getTargetDeviceFormats_checksummed_main|].
  unfold ScrapeHeliumRewardsJs.containsTargetDevice.
  destruct (existsb _ _); [reflexivity|].
  apply existsb_exists. exists (toHex payload). split.
  - unfold ScrapeHeliumRewardsJs.formatValues. cbn. right. right. left. reflexivity.
  - apply enrichBytes_holds_hex. exact Hholds.
Qed.

Lemma containsTargetDevice_finds_bytes_witness :
  exists targetFormats,
    ScrapeHeliumRewardsJs.getTargetDeviceFormats (base58checkEncode hotspotKey32 (byteZ x00))
    = Returns targetFormats /\
    ScrapeHeliumRewardsJs.containsTargetDevice noMessageText (gatewayShare 7) targetFormats
    = true.
Proof.
  apply (containsTargetDevice_finds_bytes noMessageText (gatewayShare 7) hotspotKey32 x00).
  unfold messageObject, gatewayShare. cbn [gatewayReward otherProperties app].
  eapply holdsBytes_field; [left; reflexivity|].
  unfold gatewayRewardObject. cbn [dcTransferReward otherFields app].
  eapply holdsBytes_field; [right; left; reflexivity|].
  apply holdsBytes_here.
Defined.

(** ** Keys too short for a version byte and a checksum *)

Lemma slice_short (decoded : list byte) :
  (length decoded <= 5)%nat -> slice decoded 1 (-4) = [].
Proof.
  intros H. unfold slice, clampIndex.
  destruct (Z.ltb_spec 1 0); [lia|]. destruct (Z.ltb_spec (-4) 0); [|lia].
  destruct (Z.leb_spec (Z.max (Z.of_nat (length decoded) + -4) 0)
                       (Z.min 1 (Z.of_nat (length decoded)))); [reflexivity | lia].
Qed.

Lemma bs58_encode_nonempty (source : list byte) : source <> [] -> bs58.encode source <> ""%string.
Proof.
  intros Hne Henc. pose proof (bs58_decode_encode source) as Hd.
  rewrite Henc in Hd. vm_compute in Hd. injection Hd as <-. apply Hne. reflexivity.
Qed.



Lemma base58checkEncodeRaw_eq (payload : list byte) (version : Z) :
  base58checkEncodeRaw payload version = base58checkEncode payload version.
Proof.
  unfold base58checkEncodeRaw, base58checkEncode.
  rewrite Buffer_from_id, slice_subarray. reflexivity.
Qed.

Lemma matchesTargetDevice_hotspot (payload : list byte) (v : byte) :
  payload <> [] ->
  exists targetFormats,
    ScrapeHeliumRewardsJs.getTargetDeviceFormats (base58checkEncode payload (byteZ v))
    = Returns targetFormats /\
    ScrapePocRewardsJs.matchesTargetDevice (Some (bs58.encode payload)) targetFormats = true.
Proof.
  intros Hne. eexists. split; [apply getTargetDeviceFormats_checksummed_main|].
  unfold ScrapePocRewardsJs.matchesTargetDevice.
  destruct (String.eqb_spec (bs58.encode payload) "") as [He|_];
    [exfalso; exact (bs58_encode_nonempty payload Hne He)|].
  cbn [original]. destruct (String.eqb _ _); [reflexivity|].
  match goal with |- (if ?b then true else _) = true => destruct b; [reflexivity|] end.
  apply existsb_exists. exists (bs58.encode payload). split; [|apply includes_refl].
  cbn. right. left. reflexivity.
Qed.

(** X13. A target given as the checksummed key of [payload] (not empty)
    matches the hotspot identifiers that [parseRadioRewardV2] makes of
    [payload]: the plain base58 text it gives a key of 32 bytes, and the
    checksummed text of version 0 it gives a key of 264 bytes when the
    target key is of version 0 as well; a missing or empty identifier never
    matches. *)
Theorem matchesTargetDevice_renderings (payload : list byte) (v : byte) :
  payload <> [] ->
  exists targetFormats,
    ScrapeHeliumRewardsJs.getTargetDeviceFormats (base58checkEncode payload (byteZ v))
    = Returns targetFormats /\
    ScrapePocRewardsJs.matchesTargetDevice (Some (bs58.encode (Buffer_from payload)))
                                           targetFormats = true /\
    (v = x00 ->
     ScrapePocRewardsJs.matchesTargetDevice (Some (base58checkEncodeRaw payload 0))
                                            targetFormats = true) /\
    ScrapePocRewardsJs.matchesTargetDevice None targetFormats = false /\
    ScrapePocRewardsJs.matchesTargetDevice (Some ""%string) targetFormats = false.
Proof.
  intros Hne. eexists. split; [apply getTargetDeviceFormats_checksummed_main|].
  split; [|split; [|split; reflexivity]].
  - unfold ScrapePocRewardsJs.matchesTargetDevice. rewrite Buffer_from_id.
    destruct (String.eqb_spec (bs58.encode payload) "") as [He|_];
      [exfalso; exact (bs58_encode_nonempty payload Hne He)|].
    cbn [original]. destruct (String.eqb _ _); [reflexivity|].
    match goal with |- (if ?b then true else _) = true => destruct b; [reflexivity|] end.
    apply existsb_exists. exists (bs58.encode payload). split; [|apply includes_refl].
    cbn. right. left. reflexivity.
  - intros ->. unfold ScrapePocRewardsJs.matchesTargetDevice.
    rewrite base58checkEncodeRaw_eq.
    destruct (String.eqb_spec (base58checkEncode payload 0) "") as [He|_].
    + exfalso. destruct (base58checkEncode_layout payload 0) as (checksum & _ & Hl).
      rewrite Hl in He. revert He. apply bs58_encode_nonempty. discriminate.
    + cbn [original]. change (byteZ x00) with 0%Z. rewrite String.eqb_refl. reflexivity.
Qed.

Lemma matchesTargetDevice_renderings_witness :
  exists targetFormats,
    ScrapeHeliumRewardsJs.getTargetDeviceFormats (base58checkEncode hotspotKey32 (byteZ x00))
    = Returns targetFormats /\
    ScrapePocRewardsJs.matchesTargetDevice (Some (bs58.encode (Buffer_from hotspotKey32)))
                                           targetFormats = true /\
    (x00 = x00 ->
     ScrapePocRewardsJs.matchesTargetDevice (Some (base58checkEncodeRaw hotspotKey32 0))
                                            targetFormats = true) /\
    ScrapePocRewardsJs.matchesTargetDevice None targetFormats = false /\
    ScrapePocRewardsJs.matchesTargetDevice (Some ""%string) targetFormats = false.
Proof.
  apply (matchesTargetDevice_renderings hotspotKey32 x00). discriminate.
Defined.

(** ** [scrapeHeliumRewards]: the listing *)

Lemma collectFile_gzKeys (contents : list S3Object) :
  forall files,
    fold_left ScrapeHeliumRewardsRun.collectFile contents files = files ++ gzKeys contents.
Proof.
  unfold gzKeys.
  induction contents as [|obj contents IH]; intros files; cbn [fold_left map List.filter].
  - symmetry. apply app_nil_r.
  - rewrite IH. unfold ScrapeHeliumRewardsRun.collectFile.
    destruct (endsWith (orEmpty (Key obj)) ".gz"); [|reflexivity].
    rewrite <- app_assoc. reflexivity.
Qed.

Lemma gzKeys_app (l1 l2 : list S3Object) : gzKeys (l1 ++ l2) = gzKeys l1 ++ gzKeys l2.
Proof. unfold gzKeys. rewrite map_app, List.filter_app. reflexivity. Qed.

Lemma listFilesLoop_Listing (send : ListObjectsV2Command -> outcome ListObjectsV2Output)
      (BUCKET : string) (token : option string) (pages : list ListObjectsV2Output) :
  Listing send BUCKET MOBILE_VERIFIED_prefix token pages ->
  forall (fuel : nat) (files : list string),
    (length pages <= fuel)%nat ->
    ScrapeHeliumRewardsRun.listFilesLoop send BUCKET fuel token files
    = Some (Returns (files ++ gzKeys (flat_map pageObjects pages))).
Proof.
  induction 1 as [token resp Hsend Hend | token resp pages Hsend Hmore HL IH];
    intros fuel files Hfuel; (destruct fuel as [|fuel]; [simpl in Hfuel; lia|]);
    cbn [ScrapeHeliumRewardsRun.listFilesLoop]; rewrite Hsend.
  - rewrite Hend. rewrite collectFile_gzKeys. cbn [flat_map]. rewrite app_nil_r. reflexivity.
  - rewrite Hmore. rewrite IH by (simpl in Hfuel; lia).
    rewrite collectFile_gzKeys. cbn [flat_map]. rewrite gzKeys_app, app_assoc. reflexivity.
Qed.

Lemma insertByTimestamp_KeyTs (x : ScrapeHeliumRewardsRun.FileInfo)
      (l : list ScrapeHeliumRewardsRun.FileInfo) :
  map (fun f => {| key := ScrapeHeliumRewardsRun.file f;
                   ts := ScrapeHeliumRewardsRun.timestamp f |})
      (ScrapeHeliumRewardsRun.insertByTimestamp x l)
  = insertByTs {| key := ScrapeHeliumRewardsRun.file x;
                  ts := ScrapeHeliumRewardsRun.timestamp x |}
               (map (fun f => {| key := ScrapeHeliumRewardsRun.file f;
                                 ts := ScrapeHeliumRewardsRun.timestamp f |}) l).
Proof.
  induction l as [|y l IH]; cbn [ScrapeHeliumRewardsRun.insertByTimestamp insertByTs map ts];
    [reflexivity|].
  destruct (ScrapeHeliumRewardsRun.timestamp x <=? ScrapeHeliumRewardsRun.timestamp y)%Z;
    cbn [map]; [reflexivity|]. rewrite IH. reflexivity.
Qed.

Lemma sortByTimestamp_KeyTs (l : list ScrapeHeliumRewardsRun.FileInfo) :
  map (fun f => {| key := ScrapeHeliumRewardsRun.file f;
                   ts := ScrapeHeliumRewardsRun.timestamp f |})
      (ScrapeHeliumRewardsRun.sortByTimestamp l)
  = sortByTs (map (fun f => {| key := ScrapeHeliumRewardsRun.file f;
                               ts := ScrapeHeliumRewardsRun.timestamp f |}) l).
Proof.
  induction l as [|x l IH]; [reflexivity|].
  cbn [ScrapeHeliumRewardsRun.sortByTimestamp sortByTs fold_right map].
  fold (ScrapeHeliumRewardsRun.sortByTimestamp l).
  rewrite insertByTimestamp_KeyTs, IH. reflexivity.
Qed.

(** Keeping the ".gz" keys first and the timestamps in range afterwards
    keeps what [listGzKeysInRange] keeps in one go. *)
Lemma targetDateFilesOf_keptKeys (objs : list S3Object) (startTs endTs : Z) :
  map (fun f => {| key := ScrapeHeliumRewardsRun.file f;
                   ts := ScrapeHeliumRewardsRun.timestamp f |})
      (ScrapeHeliumRewardsRun.targetDateFilesOf (gzKeys objs) startTs endTs)
  = sortByTs (keptKeys startTs endTs objs).
Proof.
  unfold ScrapeHeliumRewardsRun.targetDateFilesOf. rewrite sortByTimestamp_KeyTs. f_equal.
  unfold gzKeys, keptKeys.
  induction (map (fun obj => orEmpty (Key obj)) objs) as [|k ks IH]; [reflexivity|].
  cbn [List.filter]. rewrite filter_cons.
  destruct (keptKey startTs endTs k) eqn:Hk.
  - rewrite decide_True by reflexivity. unfold keptKey in Hk.
    apply andb_true_iff in Hk as [He Hr]. rewrite He.
    cbn [map List.filter ScrapeHeliumRewardsRun.timestamp]. rewrite Hr.
    cbn [map ScrapeHeliumRewardsRun.timestamp ScrapeHeliumRewardsRun.file].
    rewrite IH. reflexivity.
  - rewrite decide_False by discriminate. unfold keptKey in Hk.
    destruct (endsWith k ".gz"); [|exact IH]. cbn [andb] in Hk.
    cbn [map List.filter ScrapeHeliumRewardsRun.timestamp]. rewrite Hk. exact IH.
Qed.

(** X14. The listing written out in [scrapeHeliumRewards] and
    [listGzKeysInRange] select the same objects: on a store that answers
    with the pages [pages], the first collects every key ending in ".gz"
    and then keeps, sorts and numbers the files of the date range; the
    files it is left with are, key for key and timestamp for timestamp and
    in the same order, the entries [listGzKeysInRange] returns for the same
    prefix and the same bounds. *)
Theorem scrapeHeliumRewards_listing_agrees
        (send : ListObjectsV2Command -> outcome ListObjectsV2Output)
        (BUCKET : string) (startTimestamp endTimestamp : Z)
        (pages : list ListObjectsV2Output) (fuel : nat) :
  Listing send BUCKET MOBILE_VERIFIED_prefix None pages ->
  (length pages <= fuel)%nat ->
  exists files keys,
    ScrapeHeliumRewardsRun.listFilesLoop send BUCKET fuel None [] = Some (Returns files) /\
    files = gzKeys (flat_map pageObjects pages) /\
    listGzKeysInRange send BUCKET fuel MOBILE_VERIFIED_prefix startTimestamp endTimestamp
    = Some (Returns keys) /\
    map (fun f => {| key := ScrapeHeliumRewardsRun.file f;
                     ts := ScrapeHeliumRewardsRun.timestamp f |})
        (ScrapeHeliumRewardsRun.targetDateFilesOf files startTimestamp endTimestamp)
    = keys.
Proof.
  intros HL Hfuel.
  exists (gzKeys (flat_map pageObjects pages)),
         (sortByTs (keptKeys startTimestamp endTimestamp (flat_map pageObjects pages))).
  split; [exact (listFilesLoop_Listing _ _ _ _ HL fuel [] Hfuel)|].
  split; [reflexivity|]. split.
  - unfold listGzKeysInRange.
    rewrite (listLoop_Listing _ _ _ startTimestamp endTimestamp _ _ HL fuel [] Hfuel).
    reflexivity.
  - apply targetDateFilesOf_keptKeys.
Qed.

Lemma scrapeHeliumRewards_listing_agrees_witness :
  exists files keys,
    ScrapeHeliumRewardsRun.listFilesLoop twoPageStore "bucket" 2 None [] = Some (Returns files) /\
    files = gzKeys (flat_map pageObjects
                      [ {| Contents := Some [ {| Key := Some "p/shares.1700000300000.gz" |};
                                              {| Key := Some "p/shares.1700000100000.gz" |};
                                              {| Key := Some "p/readme.txt" |} ];
                           IsTruncated := true;
                           NextContinuationToken := Some "page-2" |};
                        {| Contents := Some [ {| Key := Some "p/shares.1700000200000.gz" |};
                                              {| Key := Some "p/shares.1600000000000.gz" |};
                                              {| Key := None |} ];
                           IsTruncated := false;
                           NextContinuationToken := None |} ]) /\
    listGzKeysInRange twoPageStore "bucket" 2 MOBILE_VERIFIED_prefix
                      1700000000000 1700000300000
    = Some (Returns keys) /\
    map (fun f => {| key := ScrapeHeliumRewardsRun.file f;
                     ts := ScrapeHeliumRewardsRun.timestamp f |})
        (ScrapeHeliumRewardsRun.targetDateFilesOf files 1700000000000 1700000300000)
    = keys.
Proof.
  apply (scrapeHeliumRewards_listing_agrees twoPageStore "bucket" 1700000000000 1700000300000).
  - apply Listing_next; [reflexivity | reflexivity |].
    apply Listing_last; reflexivity.
  - simpl. lia.
Defined.

(** X15. What [scrapeHeliumRewards] gives back: for a device key that
    [getTargetDeviceFormats] accepts and a store whose listing ends, the
    call returns only when no file of the prefix lies in the date range,
    and then with no reward, [totalRewards] 0, [filesInRange] 0 and the
    number of ".gz" keys as [filesProcessed]; as soon as one file lies in
    the range the scan is made and the call then throws the
    [ReferenceError] of [targetDateFiles], read by the final [return]
    outside the block that declares it: no list of rewards is ever
    returned. *)
Theorem scrapeHeliumRewards_outcome
        (send : ListObjectsV2Command -> outcome ListObjectsV2Output)
        (getObject : string -> outcome (option (list (outcome MobileRewardShare))))
        (BUCKET : string) (messageJSON : MobileRewardShare -> string)
        (deviceKey : string) (targetFormats : DeviceKeyFormats)
        (startTimestamp endTimestamp : Z)
        (pages : list ListObjectsV2Output) (fuel : nat) :
  deviceKey <> ""%string ->
  ScrapeHeliumRewardsJs.getTargetDeviceFormats deviceKey = Returns targetFormats ->
  Listing send BUCKET MOBILE_VERIFIED_prefix None pages ->
  (length pages <= fuel)%nat ->
  ScrapeHeliumRewardsRun.scrapeHeliumRewards send getObject BUCKET messageJSON fuel deviceKey
                                             startTimestamp endTimestamp
  = Some (match keptKeys startTimestamp endTimestamp (flat_map pageObjects pages) with
          | [] =>
              Returns {| ScrapeHeliumRewardsRun.deviceKey := deviceKey;
                         ScrapeHeliumRewardsRun.rewards := [];
                         ScrapeHeliumRewardsRun.summary :=
                           {| ScrapeHeliumRewardsRun.totalRewards := 0;
                              ScrapeHeliumRewardsRun.filesProcessed :=
                                Z.of_nat (length (gzKeys (flat_map pageObjects pages)));
                              ScrapeHeliumRewardsRun.filesInRange := 0;
                              ScrapeHeliumRewardsRun.dateRange :=
                                (startTimestamp, endTimestamp) |} |}
          | _ :: _ => Throws "targetDateFiles is not defined"
          end).
Proof.
  intros Hkey Hformats HL Hfuel. unfold ScrapeHeliumRewardsRun.scrapeHeliumRewards.
  destruct (String.eqb_spec deviceKey "") as [|_]; [contradiction|].
  rewrite Hformats, (listFilesLoop_Listing _ _ _ _ HL fuel [] Hfuel). cbn [app].
  pose proof (targetDateFilesOf_keptKeys (flat_map pageObjects pages)
                                         startTimestamp endTimestamp) as Hsame.
  apply (f_equal (@length KeyTs)) in Hsame.
  rewrite length_map, (Permutation_length (sortByTs_perm _)) in Hsame.
  cbv zeta. rewrite Hsame.
  destruct (keptKeys startTimestamp endTimestamp (flat_map pageObjects pages)); reflexivity.
Qed.

Lemma scrapeHeliumRewards_outcome_witness :
  ScrapeHeliumRewardsRun.scrapeHeliumRewards
    twoPageStore (fun _ => Returns (Some [Returns (gatewayShare 7)])) "bucket" noMessageText
    2 hotspotKey32Checksummed 1700000000000 1700000300000
  = Some (match keptKeys 1700000000000 1700000300000
                  (flat_map pageObjects
                     [ {| Contents := Some [ {| Key := Some "p/shares.1700000300000.gz" |};
                                             {| Key := Some "p/shares.1700000100000.gz" |};
                                             {| Key := Some "p/readme.txt" |} ];
                          IsTruncated := true;
                          NextContinuationToken := Some "page-2" |};
                       {| Contents := Some [ {| Key := Some "p/shares.1700000200000.gz" |};
                                             {| Key := Some "p/shares.1600000000000.gz" |};
                                             {| Key := None |} ];
                          IsTruncated := false;
                          NextContinuationToken := None |} ]) with
          | [] =>
              Returns {| ScrapeHeliumRewardsRun.deviceKey := hotspotKey32Checksummed;
                         ScrapeHeliumRewardsRun.rewards := [];
                         ScrapeHeliumRewardsRun.summary :=
                           {| ScrapeHeliumRewardsRun.totalRewards := 0;
                              ScrapeHeliumRewardsRun.filesProcessed :=
                                Z.of_nat
                                  (length
                                     (gzKeys
                                        (flat_map pageObjects
                                           [ {| Contents :=
                                                  Some [ {| Key := Some "p/shares.1700000300000.gz" |};
                                                         {| Key := Some "p/shares.1700000100000.gz" |};
                                                         {| Key := Some "p/readme.txt" |} ];
                                                IsTruncated := true;
                                                NextContinuationToken := Some "page-2" |};
                                             {| Contents :=
                                                  Some [ {| Key := Some "p/shares.1700000200000.gz" |};
                                                         {| Key := Some "p/shares.1600000000000.gz" |};
                                                         {| Key := None |} ];
                                                IsTruncated := false;
                                                NextContinuationToken := None |} ])));
                              ScrapeHeliumRewardsRun.filesInRange := 0;
                              ScrapeHeliumRewardsRun.dateRange :=
                                (1700000000000, 1700000300000)%Z |} |}
          | _ :: _ => Throws "targetDateFiles is not defined"
          end).
Proof.
  apply (scrapeHeliumRewards_outcome twoPageStore
           (fun _ => Returns (Some [Returns (gatewayShare 7)])) "bucket" noMessageText
           hotspotKey32Checksummed targetOfChecksummedKey).
  - discriminate.
  - vm_compute. reflexivity.
  - apply Listing_next; [reflexivity | reflexivity |].
    apply Listing_last; reflexivity.
  - simpl. lia.
Defined.

Example scrapeHeliumRewards_example :
  ScrapeHeliumRewardsRun.scrapeHeliumRewards
    twoPageStore (fun _ => Returns (Some [Returns (gatewayShare 7)])) "bucket" noMessageText
    2 hotspotKey32Checksummed 1700000000000 1700000300000
  = Some (Throws "targetDateFiles is not defined") /\
  ScrapeHeliumRewardsRun.scrapeHeliumRewards
    twoPageStore (fun _ => Returns (Some [Returns (gatewayShare 7)])) "bucket" noMessageText
    2 hotspotKey32Checksummed 1800000000000 1800000300000
  = Some (Returns {| ScrapeHeliumRewardsRun.deviceKey := hotspotKey32Checksummed;
                     ScrapeHeliumRewardsRun.rewards := [];
                     ScrapeHeliumRewardsRun.summary :=
                       {| ScrapeHeliumRewardsRun.totalRewards := 0;
                          ScrapeHeliumRewardsRun.filesProcessed := 4;
                          ScrapeHeliumRewardsRun.filesInRange := 0;
                          ScrapeHeliumRewardsRun.dateRange :=
                            (1800000000000, 1800000300000)%Z |} |}).
Proof. split; vm_compute; reflexivity. Qed.

(** ** The summary of [scrapePocRewards] *)

Lemma fold_left_add_shift {A : Type} (f : A -> Z) (l : list A) (a : Z) :
  fold_left (fun sum x => (sum + f x)%Z) l a
  = (a + fold_left (fun sum x => (sum + f x)%Z) l 0)%Z.
Proof.
  revert a. induction l as [|x l IH]; intros a; cbn [fold_left]; [lia|].
  rewrite (IH (a + f x)%Z), (IH (0 + f x)%Z). lia.
Qed.

Lemma poc_totals_app (l1 l2 : list ScrapePocRewardsJs.PocReward) :
  ScrapePocSummary.totalBasePoc (l1 ++ l2)
  = (ScrapePocSummary.totalBasePoc l1 + ScrapePocSummary.totalBasePoc l2)%Z /\
  ScrapePocSummary.totalBoostedPoc (l1 ++ l2)
  = (ScrapePocSummary.totalBoostedPoc l1 + ScrapePocSummary.totalBoostedPoc l2)%Z /\
  ScrapePocSummary.totalPoc (l1 ++ l2)
  = (ScrapePocSummary.totalPoc l1 + ScrapePocSummary.totalPoc l2)%Z.
Proof.
  unfold ScrapePocSummary.totalBasePoc, ScrapePocSummary.totalBoostedPoc,
    ScrapePocSummary.totalPoc.
  rewrite !fold_left_app.
  rewrite (fold_left_add_shift ScrapePocRewardsJs.pocBase l2 (fold_left _ l1 0%Z)).
  rewrite (fold_left_add_shift ScrapePocRewardsJs.pocBoosted l2 (fold_left _ l1 0%Z)).
  rewrite (fold_left_add_shift ScrapePocRewardsJs.pocTotal l2 (fold_left _ l1 0%Z)).
  repeat split; reflexivity.
Qed.

Lemma poc_scrapeFrame_total (fileKey : string) (fileTimestamp : Z)
      (targetFormats : DeviceKeyFormats) (frame : list byte)
      (entry : ScrapePocRewardsJs.PocReward) :
  ScrapePocRewardsJs.scrapeFrame fileKey fileTimestamp targetFormats frame
  = Some (ScrapePocRewardsJs.Pushed entry) ->
  ScrapePocRewardsJs.pocTotal entry
  = (ScrapePocRewardsJs.pocBase entry + ScrapePocRewardsJs.pocBoosted entry)%Z /\
  ScrapePocRewardsJs.file entry = fileKey /\
  ScrapePocRewardsJs.timestamp entry = fileTimestamp.
Proof.
  unfold ScrapePocRewardsJs.scrapeFrame.
  destruct (ScrapePocRewardsJs.getPeriodFromFrame frame) as [[period|e]|]; try discriminate.
  destruct (ScrapePocRewardsJs.extractSubmessage frame 8) as [[[rr2|]|e]|]; try discriminate.
  unfold ScrapePocRewardsJs.parseRadioRewardV2.
  destruct (ScrapePocRewardsJs.parseRadioRewardV2Loop _ _ _ _) as [[st|e]|]; try discriminate.
  cbn [ScrapePocRewardsJs.cbsdId ScrapePocRewardsJs.hotspotId ScrapePocRewardsJs.basePoc
       ScrapePocRewardsJs.boostedPoc ScrapePocRewardsJs.totalPoc].
  destruct (_ || _); [|discriminate].
  intros [= <-]. repeat split; reflexivity.
Qed.

Lemma poc_scrapeFrames_totals (fileKey : string) (fileTimestamp : Z)
      (targetFormats : DeviceKeyFormats) (frames : list (list byte)) :
  forall entries,
    ScrapePocRewardsJs.scrapeFrames fileKey fileTimestamp targetFormats frames = Some entries ->
    Forall (fun entry =>
              ScrapePocRewardsJs.pocTotal entry
              = (ScrapePocRewardsJs.pocBase entry + ScrapePocRewardsJs.pocBoosted entry)%Z)
           entries /\
    (length entries <= length frames)%nat.
Proof.
  induction frames as [|frame frames IH]; intros entries; cbn [ScrapePocRewardsJs.scrapeFrames].
  - intros [= <-]. split; [constructor | simpl; lia].
  - destruct (ScrapePocRewardsJs.scrapeFrame _ _ _ frame) as [res|] eqn:Hf; [|discriminate].
    destruct (ScrapePocRewardsJs.scrapeFrames _ _ _ frames) as [rest|]; [|destruct res; discriminate].
    destruct (IH rest eq_refl) as [Hall Hlen].
    destruct res as [entry| |e]; intros [= <-]; try (split; [exact Hall | simpl; lia]).
    split; [|simpl; lia]. constructor; [|exact Hall].
    apply (poc_scrapeFrame_total _ _ _ _ _ Hf).
Qed.


(** ** Varints read back *)

Lemma land_127 (g : Z) : (0 <= g < 128)%Z -> Z.land g 127 = g.
Proof.
  intros H. change 127%Z with (Z.ones 7). rewrite Z.land_ones by lia.
  apply Z.mod_small. change (2 ^ 7)%Z with 128%Z. lia.
Qed.

Lemma land_127_continued (g : Z) : (0 <= g < 128)%Z -> Z.land (g + 128) 127 = g.
Proof.
  intros H. change 127%Z with (Z.ones 7). rewrite Z.land_ones by lia.
  change (2 ^ 7)%Z with 128%Z. Z.to_euclidean_division_equations. lia.
Qed.

Lemma land_disjoint (a c k : Z) :
  (0 <= k)%Z -> (0 <= a < 2 ^ k)%Z -> Z.land a (c * 2 ^ k) = 0%Z.
Proof.
  intros Hk Ha. apply Z.bits_inj'. intros i Hi.
  rewrite Z.land_spec, Z.bits_0.
  destruct (Z.lt_ge_cases i k) as [Hlt|Hge].
  - rewrite Z.mul_pow2_bits_low by lia. apply andb_false_r.
  - destruct (Z.eq_dec a 0%Z) as [->|Hnz]; [rewrite Z.bits_0; reflexivity|].
    rewrite (Z.bits_above_log2 a i); [reflexivity | lia |].
    apply Z.lt_le_trans with k; [|exact Hge]. apply Z.log2_lt_pow2; lia.
Qed.

Lemma lor_disjoint (a c k : Z) :
  (0 <= k)%Z -> (0 <= a < 2 ^ k)%Z -> Z.lor a (c * 2 ^ k) = (a + c * 2 ^ k)%Z.
Proof.
  intros Hk Ha. pose proof (land_disjoint a c k Hk Ha) as Hd.
  rewrite <- Z.lxor_lor by exact Hd. symmetry. apply Z.add_nocarry_lxor. exact Hd.
Qed.

Lemma shl32_fits (x s : Z) :
  (0 <= s)%Z -> (0 <= x)%Z -> (x * 2 ^ s < 2 ^ 32)%Z -> Reader.shl32 x s = (x * 2 ^ s)%Z.
Proof.
  intros Hs Hx Hfit. unfold Reader.shl32. rewrite Z.shiftl_mul_pow2 by exact Hs.
  apply Z.mod_small. change 4294967296%Z with (2 ^ 32)%Z.
  split; [apply Z.mul_nonneg_nonneg; [exact Hx | apply Z.pow_nonneg; lia] | exact Hfit].
Qed.

(** Adding a group to what was read below [shift]. *)
Lemma lor_group (acc g shift : Z) :
  (0 <= shift)%Z -> (0 <= acc < 2 ^ shift)%Z -> (0 <= g)%Z ->
  (g * 2 ^ shift < 2 ^ 32)%Z ->
  Z.lor acc (Reader.shl32 g shift) = (acc + g * 2 ^ shift)%Z.
Proof.
  intros Hs Ha Hg Hfit. rewrite shl32_fits by assumption. apply lor_disjoint; assumption.
Qed.

Lemma varintFuel_groups (fuel : nat) :
  forall n : Z,
    (0 <= n < 128 ^ Z.of_nat (S fuel))%Z ->
    exists gs last,
      varintFuel (S fuel) n = varintOfGroups gs last /\
      valueOfGroups gs last = n /\
      Forall (fun g => (0 <= g < 128)%Z) gs /\ (0 <= last < 128)%Z /\
      (gs = [] \/ (128 ^ Z.of_nat (length gs) <= n)%Z).
Proof.
  induction fuel as [|fuel IH]; intros n Hn; cbn [varintFuel];
    (destruct (Z.ltb_spec n 128) as [Hsmall|Hbig];
     [ exists [], n; split; [reflexivity|]; split; [reflexivity|]; split; [constructor|];
       split; [lia|]; left; reflexivity |]).
  - change (128 ^ Z.of_nat 1)%Z with 128%Z in Hn. lia.
  - destruct (IH (n / 128)%Z) as (gs & last & Henc & Hval & Hgs & Hlast & Hsize).
    { rewrite Nat2Z.inj_succ, Z.pow_succ_r in Hn by lia.
      split; [apply Z.div_pos; lia | apply Z.div_lt_upper_bound; lia]. }
    exists ((n mod 128)%Z :: gs), last. split; [|split; [|split; [|split]]].
    + unfold varintOfGroups in *. cbn [map app]. rewrite <- Henc. reflexivity.
    + cbn [valueOfGroups fold_right]. fold (valueOfGroups gs last). rewrite Hval.
      symmetry. rewrite Z.add_comm. apply Z.div_mod. lia.
    + constructor; [apply Z.mod_pos_bound; lia | exact Hgs].
    + exact Hlast.
    + right. cbn [length]. rewrite Nat2Z.inj_succ, Z.pow_succ_r by lia.
      destruct Hsize as [->|Hsize].
      * simpl. lia.
      * pose proof (Z.mul_div_le n 128). nia.
Qed.

Lemma varint_groups (n bound : Z) :
  (0 <= n < 2 ^ (7 * bound))%Z -> (0 <= bound <= 10)%Z ->
  exists gs last,
    varint n = varintOfGroups gs last /\
    valueOfGroups gs last = n /\
    Forall (fun g => (0 <= g < 128)%Z) gs /\ (0 <= last < 128)%Z /\
    (Z.of_nat (length gs) < Z.max bound 1)%Z.
Proof.
  intros Hn Hb.
  assert (Hpow : forall k, (0 <= k)%Z -> (2 ^ (7 * k) = 128 ^ k)%Z).
  { intros k Hk. rewrite Z.pow_mul_r by lia. reflexivity. }
  destruct (varintFuel_groups 9 n) as (gs & last & Henc & Hval & Hgs & Hlast & Hsize).
  { split; [lia|]. apply Z.lt_le_trans with (2 ^ (7 * bound))%Z; [lia|].
    rewrite Hpow by lia. apply Z.pow_le_mono_r; lia. }
  exists gs, last. split; [exact Henc|]. split; [exact Hval|]. split; [exact Hgs|].
  split; [exact Hlast|].
  destruct Hsize as [->|Hsize]; [simpl; lia|].
  rewrite Hpow in Hn by lia.
  destruct (Z.lt_ge_cases (Z.of_nat (length gs)) bound) as [|Hge]; [lia|].
  assert (128 ^ bound <= 128 ^ Z.of_nat (length gs))%Z by (apply Z.pow_le_mono_r; lia).
  lia.
Qed.

(** ** The reader on a buffer that holds a varint *)

Lemma byteZ_Zbyte_small (z : Z) : (0 <= z < 256)%Z -> byteZ (Zbyte z) = z.
Proof. intros H. rewrite byteZ_Zbyte. apply Z.mod_small. exact H. Qed.

Lemma readerAt_octet (r : Reader.t) (before ahead : list byte) (i : nat) (b : byte) :
  readerAt r before ahead ->
  nth_error ahead i = Some b ->
  Reader.octet r (Reader.pos r + Z.of_nat i) = Some (byteZ b).
Proof.
  intros (Hbuf & Hpos & _) Hnth. unfold Reader.octet.
  destruct (Z.ltb_spec (Reader.pos r + Z.of_nat i) 0); [lia|].
  rewrite Hbuf, Hpos. replace (Z.to_nat _) with (length before + i)%nat by lia.
  rewrite nth_error_app2 by lia. replace (length before + i - length before)%nat with i by lia.
  rewrite Hnth. reflexivity.
Qed.

Lemma readerAt_here (r : Reader.t) (before ahead : list byte) (b : byte) :
  readerAt r before (b :: ahead) -> Reader.octet r (Reader.pos r) = Some (byteZ b).
Proof.
  intros H. rewrite <- (Z.add_0_r (Reader.pos r)).
  exact (readerAt_octet r before (b :: ahead) 0 b H eq_refl).
Qed.

Lemma readerAt_advance (r : Reader.t) (before bytes ahead : list byte) :
  readerAt r before (bytes ++ ahead) ->
  readerAt (Reader.setPos r (Reader.pos r + Z.of_nat (length bytes))) (before ++ bytes) ahead.
Proof.
  intros (Hbuf & Hpos & Hlen). unfold readerAt. cbn [Reader.buf Reader.pos Reader.len Reader.setPos].
  rewrite <- app_assoc, length_app. repeat split; [exact Hbuf | lia | exact Hlen].
Qed.

Lemma readerAt_room (r : Reader.t) (before ahead : list byte) :
  readerAt r before ahead -> (Reader.len r - Reader.pos r = Z.of_nat (length ahead))%Z.
Proof. intros (Hbuf & Hpos & Hlen). rewrite Hlen, Hbuf, Hpos, length_app. lia. Qed.

Lemma valueOfGroups_bounds (gs : list Z) (last : Z) :
  Forall (fun g => (0 <= g < 128)%Z) gs -> (0 <= last)%Z ->
  (0 <= valueOfGroups gs last)%Z.
Proof.
  intros Hgs Hlast. induction Hgs as [|g gs Hg _ IH]; cbn [valueOfGroups fold_right]; [lia|].
  fold (valueOfGroups gs last). lia.
Qed.

(** The loop of [readLongVarint] on a varint that ends within its turns. *)
Lemma groups_ends (checked : bool) (gs : list Z) :
  forall (last : Z) (k : nat) (shift : Z) (r : Reader.t) (acc : Z)
         (before ahead : list byte),
    readerAt r before (varintOfGroups gs last ++ ahead) ->
    Forall (fun g => (0 <= g < 128)%Z) gs -> (0 <= last < 128)%Z ->
    (length gs < k)%nat ->
    (0 <= shift)%Z -> (0 <= acc < 2 ^ shift)%Z ->
    (acc + valueOfGroups gs last * 2 ^ shift < 2 ^ 32)%Z ->
    Reader.groups checked k shift r acc
    = Returns ((acc + valueOfGroups gs last * 2 ^ shift)%Z,
               Reader.setPos r (Reader.pos r + Z.of_nat (length (varintOfGroups gs last))),
               true).
Proof.
  induction gs as [|g gs IH]; intros last k shift r acc before ahead Hat Hgs Hlast Hk Hs Hacc Hfit;
    (destruct k as [|k]; [simpl in Hk; lia|]); cbn [Reader.groups].
  - unfold varintOfGroups in *. cbn [map app valueOfGroups fold_right length] in *.
    pose proof (readerAt_room _ _ _ Hat) as Hroom. cbn [length] in Hroom.
    destruct (Z.leb_spec (Reader.len r) (Reader.pos r)); [lia|]. rewrite andb_false_r.
    rewrite (readerAt_here _ _ _ _ Hat), byteZ_Zbyte_small by lia.
    cbn [Reader.bits Reader.below128]. rewrite land_127 by lia.
    destruct (Z.ltb_spec last 128); [|lia].
    rewrite lor_group by lia. reflexivity.
  - unfold varintOfGroups in *. cbn [map app valueOfGroups fold_right length] in *.
    fold (valueOfGroups gs last) in *.
    inversion Hgs as [|? ? Hg Hgs']; subst.
    pose proof (valueOfGroups_bounds gs last Hgs' ltac:(lia)) as Hv.
    pose proof (readerAt_room _ _ _ Hat) as Hroom. cbn [length] in Hroom.
    destruct (Z.leb_spec (Reader.len r) (Reader.pos r)); [lia|]. rewrite andb_false_r.
    rewrite (readerAt_here _ _ _ _ Hat), byteZ_Zbyte_small by lia.
    cbn [Reader.bits Reader.below128]. rewrite land_127_continued by lia.
    destruct (Z.ltb_spec (g + 128) 128); [lia|].
    assert (Hpow : (2 ^ (shift + 7) = 128 * 2 ^ shift)%Z).
    { rewrite Z.pow_add_r by lia. change (2 ^ 7)%Z with 128%Z. lia. }
    assert (Hp : (0 < 2 ^ shift)%Z) by (apply Z.pow_pos_nonneg; lia).
    rewrite lor_group by nia.
    assert (Hat' : readerAt (Reader.setPos r (Reader.pos r + 1))
                     (before ++ [Zbyte (g + 128)])
                     ((map (fun g => Zbyte (g + 128)) gs ++ [Zbyte last]) ++ ahead)).
    { exact (readerAt_advance r before [Zbyte (g + 128)] _ Hat). }
    rewrite (IH last k (shift + 7)%Z _ (acc + g * 2 ^ shift)%Z _ _ Hat' Hgs' Hlast)
      by (try lia; rewrite Hpow; nia).
    cbn [Reader.setPos Reader.pos Reader.buf Reader.len]. rewrite Hpow.
    replace (acc + g * 2 ^ shift + valueOfGroups gs last * (128 * 2 ^ shift))%Z
      with (acc + (g + 128 * valueOfGroups gs last) * 2 ^ shift)%Z by lia.
    replace (Reader.pos r + 1
             + Z.of_nat (length (map (fun g0 => Zbyte (g0 + 128)) gs ++ [Zbyte last])))%Z
      with (Reader.pos r
            + Z.of_nat (S (length (map (fun g0 => Zbyte (g0 + 128)) gs ++ [Zbyte last]))))%Z
      by lia.
    reflexivity.
Qed.

(** The same loop on a varint that goes on beyond its turns. *)
Lemma groups_goes_on (checked : bool) (gs : list Z) :
  forall (shift : Z) (r : Reader.t) (acc : Z) (before ahead : list byte),
    readerAt r before (map (fun g => Zbyte (g + 128)) gs ++ ahead) ->
    Forall (fun g => (0 <= g < 128)%Z) gs ->
    (0 <= shift)%Z -> (0 <= acc < 2 ^ shift)%Z ->
    (acc + valueOfGroups gs 0 * 2 ^ shift < 2 ^ 32)%Z ->
    Reader.groups checked (length gs) shift r acc
    = Returns ((acc + valueOfGroups gs 0 * 2 ^ shift)%Z,
               Reader.setPos r (Reader.pos r + Z.of_nat (length gs)),
               false).
Proof.
  induction gs as [|g gs IH]; intros shift r acc before ahead Hat Hgs Hs Hacc Hfit;
    cbn [Reader.groups length].
  - cbn [valueOfGroups fold_right]. rewrite Z.mul_0_l, !Z.add_0_r.
    destruct r. reflexivity.
  - cbn [map app valueOfGroups fold_right] in *. fold (valueOfGroups gs 0) in *.
    inversion Hgs as [|? ? Hg Hgs']; subst.
    pose proof (valueOfGroups_bounds gs 0 Hgs' ltac:(lia)) as Hv.
    pose proof (readerAt_room _ _ _ Hat) as Hroom. cbn [length] in Hroom.
    destruct (Z.leb_spec (Reader.len r) (Reader.pos r)); [lia|]. rewrite andb_false_r.
    rewrite (readerAt_here _ _ _ _ Hat), byteZ_Zbyte_small by lia.
    cbn [Reader.bits Reader.below128]. rewrite land_127_continued by lia.
    destruct (Z.ltb_spec (g + 128) 128); [lia|].
    assert (Hpow : (2 ^ (shift + 7) = 128 * 2 ^ shift)%Z).
    { rewrite Z.pow_add_r by lia. change (2 ^ 7)%Z with 128%Z. lia. }
    assert (Hp : (0 < 2 ^ shift)%Z) by (apply Z.pow_pos_nonneg; lia).
    rewrite lor_group by nia.
    assert (Hat' : readerAt (Reader.setPos r (Reader.pos r + 1))
                     (before ++ [Zbyte (g + 128)])
                     (map (fun g => Zbyte (g + 128)) gs ++ ahead)).
    { exact (readerAt_advance r before [Zbyte (g + 128)] _ Hat). }
    rewrite (IH (shift + 7)%Z _ (acc + g * 2 ^ shift)%Z _ _ Hat' Hgs')
      by (try lia; rewrite Hpow; nia).
    cbn [Reader.setPos Reader.pos Reader.buf Reader.len]. rewrite Hpow.
    replace (acc + g * 2 ^ shift + valueOfGroups gs 0 * (128 * 2 ^ shift))%Z
      with (acc + (g + 128 * valueOfGroups gs 0) * 2 ^ shift)%Z by lia.
    replace (Reader.pos r + 1 + Z.of_nat (length gs))%Z
      with (Reader.pos r + Z.of_nat (S (length gs)))%Z by lia.
    reflexivity.
Qed.

Lemma valueOfGroups_app (gs1 gs2 : list Z) (last : Z) :
  valueOfGroups (gs1 ++ gs2) last
  = (valueOfGroups gs1 0 + 128 ^ Z.of_nat (length gs1) * valueOfGroups gs2 last)%Z.
Proof.
  unfold valueOfGroups. induction gs1 as [|g gs1 IH]; cbn [app fold_right length].
  - change (128 ^ Z.of_nat 0)%Z with 1%Z. ring.
  - rewrite IH, Nat2Z.inj_succ, Z.pow_succ_r by lia. ring.
Qed.

Lemma valueOfGroups_upper (gs : list Z) (last : Z) :
  Forall (fun g => (0 <= g < 128)%Z) gs -> (0 <= last < 128)%Z ->
  (valueOfGroups gs last < 128 ^ Z.of_nat (S (length gs)))%Z.
Proof.
  intros Hgs Hlast. induction Hgs as [|g gs Hg _ IH]; cbn [valueOfGroups fold_right length].
  - change (128 ^ Z.of_nat 1)%Z with 128%Z. lia.
  - fold (valueOfGroups gs last). rewrite (Nat2Z.inj_succ (S (length gs))), Z.pow_succ_r by lia.
    lia.
Qed.

Lemma length_varintOfGroups (gs : list Z) (last : Z) :
  length (varintOfGroups gs last) = S (length gs).
Proof. unfold varintOfGroups. rewrite length_app, length_map. simpl. lia. Qed.

(** The fifth group goes to both words. *)
Lemma shl32_28 (g : Z) :
  (0 <= g < 128)%Z -> Reader.shl32 g 28 = ((g mod 16) * 2 ^ 28)%Z.
Proof.
  intros Hg. unfold Reader.shl32. rewrite Z.shiftl_mul_pow2 by lia.
  change (2 ^ 28)%Z with 268435456%Z. Z.to_euclidean_division_equations. lia.
Qed.

Lemma valueOfGroups_upper0 (gs : list Z) :
  Forall (fun g => (0 <= g < 128)%Z) gs ->
  (0 <= valueOfGroups gs 0 < 128 ^ Z.of_nat (length gs))%Z.
Proof.
  intros Hgs. induction Hgs as [|g gs Hg _ IH]; cbn [valueOfGroups fold_right length].
  - change (128 ^ Z.of_nat 0)%Z with 1%Z. lia.
  - fold (valueOfGroups gs 0). rewrite Nat2Z.inj_succ, Z.pow_succ_r by lia. lia.
Qed.

Lemma readerAt_octet_ahead (r : Reader.t) (before ahead : list byte) (i : Z) (b : byte) :
  readerAt r before ahead ->
  (0 <= i)%Z ->
  nth_error ahead (Z.to_nat i) = Some b ->
  Reader.octet r (Reader.pos r + i) = Some (byteZ b).
Proof.
  intros Hat Hi Hnth. rewrite <- (Z2Nat.id i Hi).
  exact (readerAt_octet r before ahead (Z.to_nat i) b Hat Hnth).
Qed.

(** [uint64()] gives back the number whose varint lies ahead. *)
Lemma uint64_groups (gs : list Z) (last : Z) (r : Reader.t) (before ahead : list byte) :
  readerAt r before (varintOfGroups gs last ++ ahead) ->
  Forall (fun g => (0 <= g < 128)%Z) gs -> (0 <= last < 128)%Z ->
  (length gs < 10)%nat ->
  (valueOfGroups gs last < 2 ^ 64)%Z ->
  Reader.uint64 r
  = Returns (valueOfGroups gs last,
             Reader.setPos r (Reader.pos r + Z.of_nat (length (varintOfGroups gs last)))).
Proof.
  intros Hat Hgs Hlast Hlen Hfit.
  pose proof (readerAt_room _ _ _ Hat) as Hroom.
  rewrite length_app, length_varintOfGroups in Hroom.
  pose proof (valueOfGroups_upper gs last Hgs Hlast) as Hup.
  pose proof (valueOfGroups_bounds gs last Hgs ltac:(lia)) as Hlow.
  unfold Reader.uint64.
  destruct (Z.ltb_spec 4 (Reader.len r - Reader.pos r)) as [Hfast|Hslow].
  - (* more than four octets ahead *)
    destruct gs as [|g0 [|g1 [|g2 [|g3 gs']]]];
      try (rewrite (groups_ends false _ last 4 0%Z r 0%Z before ahead Hat Hgs Hlast)
            by (cbn [length] in *; try lia; change (2 ^ 0)%Z with 1%Z; try lia;
                cbn [length] in Hup; simpl Z.of_nat in Hup;
                change (2 ^ 32)%Z with 4294967296%Z; lia);
           change (2 ^ 0)%Z with 1%Z; rewrite Z.add_0_l, Z.mul_1_r; reflexivity).
    inversion Hgs as [|? ? Hg0 Hgs1]; subst. inversion Hgs1 as [|? ? Hg1 Hgs2]; subst.
    inversion Hgs2 as [|? ? Hg2 Hgs3]; subst. inversion Hgs3 as [|? ? Hg3 Hgs4]; subst.
    assert (Hfour : Forall (fun g => (0 <= g < 128)%Z) [g0; g1; g2; g3])
      by (repeat constructor; lia).
    pose proof (groups_goes_on false [g0; g1; g2; g3] 0%Z r 0%Z before
                  (varintOfGroups gs' last ++ ahead) Hat Hfour) as Hlo.
    cbn [length] in Hlo. change (2 ^ 0)%Z with 1%Z in Hlo.
    pose proof (valueOfGroups_upper0 _ Hfour) as Hlo4. cbn [length] in Hlo4.
    change (128 ^ Z.of_nat 4)%Z with 268435456%Z in Hlo4.
    rewrite Hlo by lia. clear Hlo.
    set (lo := valueOfGroups [g0; g1; g2; g3] 0) in *.
    rewrite Z.add_0_l, Z.mul_1_r.
    pose proof (readerAt_advance r before (map (fun g => Zbyte (g + 128)) [g0; g1; g2; g3])
                  (varintOfGroups gs' last ++ ahead) Hat) as Hat4.
    cbn [map length] in Hat4.
    set (r4 := Reader.setPos r (Reader.pos r + Z.of_nat 4)) in *.
    pose proof (valueOfGroups_app [g0; g1; g2; g3] gs' last) as Hsplit.
    cbn [app length] in Hsplit. change (128 ^ Z.of_nat 4)%Z with 268435456%Z in Hsplit.
    fold lo in Hsplit.
    destruct gs' as [|g4 gs''].
    + (* the fifth octet ends the varint *)
      unfold varintOfGroups in Hat4. cbn [map app] in Hat4.
      rewrite (readerAt_here _ _ _ _ Hat4), byteZ_Zbyte_small by lia.
      cbn [Reader.bits Reader.below128]. rewrite land_127 by lia.
      destruct (Z.ltb_spec last 128); [|lia].
      rewrite shl32_28 by lia.
      rewrite lor_disjoint by (change (2 ^ 28)%Z with 268435456%Z; lia).
      rewrite Z.shiftr_div_pow2 by lia.
      rewrite Hsplit. change (valueOfGroups [] last) with last.
      change (2 ^ 28)%Z with 268435456%Z. change (2 ^ 4)%Z with 16%Z.
      f_equal. f_equal.
      * Z.to_euclidean_division_equations. lia.
      * subst r4. unfold Reader.setPos. cbn [Reader.pos Reader.buf Reader.len].
        rewrite length_varintOfGroups. cbn [length]. f_equal. lia.
    + (* the high word *)
      inversion Hgs4 as [|? ? Hg4 Hgs5]; subst.
      unfold varintOfGroups in Hat4. cbn [map app] in Hat4.
      rewrite (readerAt_here _ _ _ _ Hat4), byteZ_Zbyte_small by lia.
      cbn [Reader.bits Reader.below128]. rewrite land_127_continued by lia.
      destruct (Z.ltb_spec (g4 + 128) 128); [lia|].
      rewrite shl32_28 by lia.
      rewrite lor_disjoint by (change (2 ^ 28)%Z with 268435456%Z; lia).
      rewrite Z.shiftr_div_pow2 by lia. change (2 ^ 4)%Z with 16%Z.
      change (2 ^ 28)%Z with 268435456%Z.
      pose proof (readerAt_advance r4 _ [Zbyte (g4 + 128)] _ Hat4) as Hat5.
      cbn [length] in Hat5.
      set (r5 := Reader.setPos r4 (Reader.pos r4 + 1)).
      change (Reader.setPos r4 (Reader.pos r4 + Z.of_nat 1)) with r5 in Hat5.
      change (valueOfGroups (g4 :: gs'') last)
        with (g4 + 128 * valueOfGroups gs'' last)%Z in Hsplit.
      pose proof (valueOfGroups_bounds gs'' last Hgs5 ltac:(lia)) as Hv.
      unfold Reader.highGroups.
      rewrite (groups_ends _ gs'' last 5 3%Z r5 (g4 / 16)%Z _ ahead Hat5 Hgs5 Hlast)
        by (cbn [length] in *; try lia; change (2 ^ 3)%Z with 8%Z;
            change (2 ^ 32)%Z with 4294967296%Z;
            change (2 ^ 64)%Z with 18446744073709551616%Z in Hfit;
            Z.to_euclidean_division_equations; lia).
      change (2 ^ 3)%Z with 8%Z. rewrite Hsplit. f_equal. f_equal.
      * Z.to_euclidean_division_equations. lia.
      * subst r5 r4. unfold Reader.setPos. cbn [Reader.pos Reader.buf Reader.len].
        rewrite !length_varintOfGroups. cbn [length]. f_equal. lia.
  - (* four octets ahead at most: the varint has no more *)
    cbn [length] in Hroom.
    destruct gs as [|g0 [|g1 [|g2 gs']]];
      try (rewrite (groups_ends true _ last 3 0%Z r 0%Z before ahead Hat Hgs Hlast)
            by (cbn [length] in *; try lia; change (2 ^ 0)%Z with 1%Z; try lia;
                cbn [length] in Hup; simpl Z.of_nat in Hup;
                change (2 ^ 32)%Z with 4294967296%Z; lia);
           change (2 ^ 0)%Z with 1%Z; rewrite Z.add_0_l, Z.mul_1_r; reflexivity).
    destruct gs' as [|g3 gs']; [|cbn [length] in Hroom; lia].
    inversion Hgs as [|? ? Hg0 Hgs1]; subst. inversion Hgs1 as [|? ? Hg1 Hgs2]; subst.
    inversion Hgs2 as [|? ? Hg2 _]; subst.
    pose proof (groups_goes_on true [g0; g1; g2] 0%Z r 0%Z before
                  ([Zbyte last] ++ ahead) Hat Hgs) as Hlo.
    cbn [length] in Hlo. change (2 ^ 0)%Z with 1%Z in Hlo.
    pose proof (valueOfGroups_upper0 _ Hgs) as Hlo3. cbn [length] in Hlo3.
    change (128 ^ Z.of_nat 3)%Z with 2097152%Z in Hlo3.
    rewrite Hlo by lia. clear Hlo.
    pose proof (valueOfGroups_app [g0; g1; g2] [] last) as Hsplit.
    cbn [app length] in Hsplit. change (128 ^ Z.of_nat 3)%Z with 2097152%Z in Hsplit.
    set (lo := valueOfGroups [g0; g1; g2] 0) in *.
    rewrite Z.add_0_l, Z.mul_1_r.
    pose proof (readerAt_advance r before (map (fun g => Zbyte (g + 128)) [g0; g1; g2])
                  ([Zbyte last] ++ ahead) Hat) as Hat3.
    cbn [map length app] in Hat3.
    rewrite (readerAt_here _ _ _ _ Hat3), byteZ_Zbyte_small by lia.
    cbn [Reader.bits]. rewrite land_127 by lia.
    rewrite lor_group by (try lia; change (2 ^ 21)%Z with 2097152%Z;
                          change (2 ^ 32)%Z with 4294967296%Z; lia).
    rewrite Hsplit. change (valueOfGroups [] last) with last.
    change (2 ^ 21)%Z with 2097152%Z. f_equal. f_equal; [lia|].
    unfold Reader.setPos. cbn [Reader.pos Reader.buf Reader.len].
    rewrite length_varintOfGroups. cbn [length]. f_equal. lia.
Qed.

Lemma land_15 (g : Z) : (0 <= g < 16)%Z -> Z.land g 15 = g.
Proof.
  intros H. change 15%Z with (Z.ones 4). rewrite Z.land_ones by lia.
  apply Z.mod_small. change (2 ^ 4)%Z with 16%Z. lia.
Qed.

(** The octet at [pos + i], read off the bytes ahead. *)
Ltac octet_ahead r Hat i :=
  let H := fresh "Hoctet" in
  eassert (H : Reader.octet r (Reader.pos r + i) = Some _)
    by (eapply readerAt_octet_ahead; [exact Hat | lia | reflexivity]);
  rewrite H; clear H.

(** [uint32()] gives back the number whose varint lies ahead. *)
Lemma uint32_groups (gs : list Z) (last : Z) (r : Reader.t) (before ahead : list byte) :
  readerAt r before (varintOfGroups gs last ++ ahead) ->
  Forall (fun g => (0 <= g < 128)%Z) gs -> (0 <= last < 128)%Z ->
  (valueOfGroups gs last < 2 ^ 32)%Z ->
  (length gs < 5)%nat ->
  Reader.uint32 r
  = Returns (valueOfGroups gs last,
             Reader.setPos r (Reader.pos r + Z.of_nat (length (varintOfGroups gs last)))).
Proof.
  intros Hat Hgs Hlast Hfit Hlen.
  change (2 ^ 32)%Z with 4294967296%Z in Hfit.
  unfold Reader.uint32. cbv zeta.
  unfold varintOfGroups in Hat.
  destruct gs as [|g0 gs]; cbn [map app] in Hat.
  { rewrite (readerAt_here _ _ _ _ Hat), byteZ_Zbyte_small by lia.
    cbn [Reader.bits Reader.below128]. rewrite land_127 by lia.
    destruct (Z.ltb_spec last 128); [reflexivity | lia]. }
  inversion Hgs as [|? ? Hg0 Hgs0]; subst.
  rewrite (readerAt_here _ _ _ _ Hat), byteZ_Zbyte_small by lia.
  cbn [Reader.bits Reader.below128]. rewrite land_127_continued by lia.
  destruct (Z.ltb_spec (g0 + 128) 128); [lia|].
  destruct gs as [|g1 gs]; cbn [map app] in Hat.
  { octet_ahead r Hat 1%Z. rewrite byteZ_Zbyte_small by lia.
    cbn [Reader.bits Reader.below128]. rewrite land_127 by lia.
    destruct (Z.ltb_spec last 128); [|lia].
    cbn [valueOfGroups fold_right] in *.
    rewrite (lor_group g0 last 7) by (try lia; change (2 ^ 7)%Z with 128%Z;
                                      change (2 ^ 32)%Z with 4294967296%Z; lia).
    change (2 ^ 7)%Z with 128%Z. f_equal. apply pair_equal_spec. split; [lia | reflexivity]. }
  inversion Hgs0 as [|? ? Hg1 Hgs1]; subst.
  octet_ahead r Hat 1%Z. rewrite byteZ_Zbyte_small by lia.
  cbn [Reader.bits Reader.below128]. rewrite land_127_continued by lia.
  destruct (Z.ltb_spec (g1 + 128) 128); [lia|].
  rewrite (lor_group g0 g1 7) by (try lia; change (2 ^ 7)%Z with 128%Z;
                                  change (2 ^ 32)%Z with 4294967296%Z; lia).
  change (2 ^ 7)%Z with 128%Z.
  destruct gs as [|g2 gs]; cbn [map app] in Hat.
  { octet_ahead r Hat 2%Z. rewrite byteZ_Zbyte_small by lia.
    cbn [Reader.bits Reader.below128]. rewrite land_127 by lia.
    destruct (Z.ltb_spec last 128); [|lia].
    cbn [valueOfGroups fold_right] in *.
    rewrite (lor_group (g0 + g1 * 128) last 14)
      by (try lia; change (2 ^ 14)%Z with 16384%Z;
          change (2 ^ 32)%Z with 4294967296%Z; lia).
    change (2 ^ 14)%Z with 16384%Z. f_equal. apply pair_equal_spec. split; [lia | reflexivity]. }
  inversion Hgs1 as [|? ? Hg2 Hgs2]; subst.
  octet_ahead r Hat 2%Z. rewrite byteZ_Zbyte_small by lia.
  cbn [Reader.bits Reader.below128]. rewrite land_127_continued by lia.
  destruct (Z.ltb_spec (g2 + 128) 128); [lia|].
  rewrite (lor_group (g0 + g1 * 128) g2 14)
    by (try lia; change (2 ^ 14)%Z with 16384%Z;
        change (2 ^ 32)%Z with 4294967296%Z; lia).
  change (2 ^ 14)%Z with 16384%Z.
  destruct gs as [|g3 gs]; cbn [map app] in Hat.
  { octet_ahead r Hat 3%Z. rewrite byteZ_Zbyte_small by lia.
    cbn [Reader.bits Reader.below128]. rewrite land_127 by lia.
    destruct (Z.ltb_spec last 128); [|lia].
    cbn [valueOfGroups fold_right] in *.
    rewrite (lor_group (g0 + g1 * 128 + g2 * 16384) last 21)
      by (try lia; change (2 ^ 21)%Z with 2097152%Z;
          change (2 ^ 32)%Z with 4294967296%Z; lia).
    change (2 ^ 21)%Z with 2097152%Z. f_equal. apply pair_equal_spec. split; [lia | reflexivity]. }
  inversion Hgs2 as [|? ? Hg3 Hgs3]; subst.
  octet_ahead r Hat 3%Z. rewrite byteZ_Zbyte_small by lia.
  cbn [Reader.bits Reader.below128]. rewrite land_127_continued by lia.
  destruct (Z.ltb_spec (g3 + 128) 128); [lia|].
  rewrite (lor_group (g0 + g1 * 128 + g2 * 16384) g3 21)
    by (try lia; change (2 ^ 21)%Z with 2097152%Z;
        change (2 ^ 32)%Z with 4294967296%Z; lia).
  change (2 ^ 21)%Z with 2097152%Z.
  destruct gs as [|g4 gs]; cbn [map app] in Hat.
  { octet_ahead r Hat 4%Z. rewrite byteZ_Zbyte_small by lia.
    cbn [Reader.bits Reader.below128].
    cbn [valueOfGroups fold_right] in *.
    rewrite land_15 by lia.
    destruct (Z.ltb_spec last 128); [|lia].
    rewrite (lor_group (g0 + g1 * 128 + g2 * 16384 + g3 * 2097152) last 28)
      by (try lia; change (2 ^ 28)%Z with 268435456%Z;
          change (2 ^ 32)%Z with 4294967296%Z; lia).
    change (2 ^ 28)%Z with 268435456%Z. f_equal. apply pair_equal_spec. split; [lia | reflexivity]. }
  cbn [length] in Hlen. lia.
Qed.

Lemma uint32_varint (n : Z) (r : Reader.t) (before ahead : list byte) :
  readerAt r before (varint n ++ ahead) ->
  (0 <= n < 2 ^ 32)%Z ->
  Reader.uint32 r
  = Returns (n, Reader.setPos r (Reader.pos r + Z.of_nat (length (varint n)))).
Proof.
  intros Hat Hn.
  destruct (varint_groups n 5) as (gs & last & Henc & Hval & Hgs & Hlast & Hlen);
    [change (2 ^ (7 * 5))%Z with 34359738368%Z;
     change (2 ^ 32)%Z with 4294967296%Z in Hn; lia | lia |].
  rewrite Henc in *. rewrite <- Hval in *.
  apply (uint32_groups gs last r before ahead Hat Hgs Hlast); lia.
Qed.

Lemma uint64_varint (n : Z) (r : Reader.t) (before ahead : list byte) :
  readerAt r before (varint n ++ ahead) ->
  (0 <= n < 2 ^ 64)%Z ->
  Reader.uint64 r
  = Returns (n, Reader.setPos r (Reader.pos r + Z.of_nat (length (varint n)))).
Proof.
  intros Hat Hn.
  destruct (varint_groups n 10) as (gs & last & Henc & Hval & Hgs & Hlast & Hlen);
    [change (2 ^ (7 * 10))%Z with 1180591620717411303424%Z;
     change (2 ^ 64)%Z with 18446744073709551616%Z in Hn; lia | lia |].
  rewrite Henc in *. rewrite <- Hval in *.
  apply (uint64_groups gs last r before ahead Hat Hgs Hlast); lia.
Qed.

Lemma varint_nonempty (n : Z) : (0 <= n < 2 ^ 64)%Z -> (0 < length (varint n))%nat.
Proof.
  intros Hn.
  destruct (varint_groups n 10) as (gs & last & Henc & _);
    [change (2 ^ (7 * 10))%Z with 1180591620717411303424%Z;
     change (2 ^ 64)%Z with 18446744073709551616%Z in Hn; lia | lia |].
  rewrite Henc, length_varintOfGroups. lia.
Qed.

(** ** Fields read back *)

Lemma tag_parts (fieldNo wire : Z) :
  (0 <= fieldNo)%Z -> (0 <= wire < 8)%Z ->
  Z.shiftr (fieldNo * 8 + wire) 3 = fieldNo /\ Z.land (fieldNo * 8 + wire) 7 = wire.
Proof.
  intros Hk Hw. rewrite Z.shiftr_div_pow2 by lia.
  change 7%Z with (Z.ones 3). rewrite Z.land_ones by lia. change (2 ^ 3)%Z with 8%Z.
  split; Z.to_euclidean_division_equations; lia.
Qed.

Lemma tag_read (fieldNo wire : Z) (r : Reader.t) (before ahead : list byte) :
  readerAt r before (varint (fieldNo * 8 + wire) ++ ahead) ->
  (0 <= fieldNo < 2 ^ 29)%Z -> (0 <= wire < 8)%Z ->
  exists r1,
    Reader.uint32 r = Returns ((fieldNo * 8 + wire)%Z, r1) /\
    readerAt r1 (before ++ varint (fieldNo * 8 + wire)) ahead /\
    Reader.buf r1 = Reader.buf r.
Proof.
  intros Hat Hk Hw. eexists. split; [|split].
  - apply (uint32_varint _ r before ahead Hat).
    change (2 ^ 29)%Z with 536870912%Z in Hk. change (2 ^ 32)%Z with 4294967296%Z. lia.
  - apply readerAt_advance. exact Hat.
  - reflexivity.
Qed.

Lemma read_varint_field (fieldNo value : Z) (r : Reader.t) (before ahead : list byte) :
  readerAt r before (encodeField (Varint fieldNo value) ++ ahead) ->
  wellFormed (Varint fieldNo value) ->
  exists r1 r2,
    Reader.uint32 r = Returns ((fieldNo * 8 + 0)%Z, r1) /\
    Reader.uint64 r1 = Returns (value, r2) /\
    readerAt r2 (before ++ encodeField (Varint fieldNo value)) ahead /\
    Reader.buf r2 = Reader.buf r.
Proof.
  intros Hat [Hk Hv]. cbn [encodeField] in *. rewrite <- app_assoc in Hat.
  destruct (tag_read fieldNo 0 r before _ Hat Hk ltac:(lia)) as (r1 & Htag & Hat1 & Hbuf1).
  exists r1. eexists. split; [exact Htag|]. split; [|split].
  - apply (uint64_varint _ r1 _ ahead Hat1 Hv).
  - rewrite app_assoc. apply readerAt_advance. exact Hat1.
  - exact Hbuf1.
Qed.

Lemma read_fixed_field (wire size : Z) (fieldNo : Z) (payload : list byte)
      (r : Reader.t) (before ahead : list byte) :
  readerAt r before ((varint (fieldNo * 8 + wire) ++ payload) ++ ahead) ->
  (0 <= fieldNo < 2 ^ 29)%Z -> (0 <= wire < 8)%Z ->
  Z.of_nat (length payload) = size ->
  exists r1 r2,
    Reader.uint32 r = Returns ((fieldNo * 8 + wire)%Z, r1) /\
    Reader.skip r1 size = Returns r2 /\
    readerAt r2 (before ++ varint (fieldNo * 8 + wire) ++ payload) ahead /\
    Reader.buf r2 = Reader.buf r.
Proof.
  intros Hat Hk Hw Hsize. rewrite <- app_assoc in Hat.
  destruct (tag_read fieldNo wire r before _ Hat Hk Hw) as (r1 & Htag & Hat1 & Hbuf1).
  exists r1. eexists. split; [exact Htag|]. split; [|split].
  - unfold Reader.skip. pose proof (readerAt_room _ _ _ Hat1) as Hroom.
    rewrite length_app in Hroom.
    destruct (Z.ltb_spec (Reader.len r1) (Reader.pos r1 + size)); [lia | reflexivity].
  - rewrite <- Hsize, app_assoc. apply readerAt_advance. exact Hat1.
  - exact Hbuf1.
Qed.

Lemma read_length_delimited_field (fieldNo : Z) (payload : list byte)
      (r : Reader.t) (before ahead : list byte) :
  readerAt r before (encodeField (LengthDelimited fieldNo payload) ++ ahead) ->
  wellFormed (LengthDelimited fieldNo payload) ->
  exists r1 r2,
    Reader.uint32 r = Returns ((fieldNo * 8 + 2)%Z, r1) /\
    Reader.uint32 r1 = Returns (Z.of_nat (length payload), r2) /\
    subarray (Reader.buf r) (Reader.pos r2) (Reader.pos r2 + Z.of_nat (length payload))
    = payload /\
    readerAt (Reader.setPos r2 (Reader.pos r2 + Z.of_nat (length payload)))
             (before ++ encodeField (LengthDelimited fieldNo payload)) ahead /\
    Reader.buf r2 = Reader.buf r.
Proof.
  intros Hat [Hk Hlen]. cbn [encodeField] in *. rewrite <- !app_assoc in Hat.
  destruct (tag_read fieldNo 2 r before _ Hat Hk ltac:(lia)) as (r1 & Htag & Hat1 & Hbuf1).
  assert (Hread : Reader.uint32 r1
                  = Returns (Z.of_nat (length payload),
                             Reader.setPos r1 (Reader.pos r1
                               + Z.of_nat (length (varint (Z.of_nat (length payload)))))))
    by (apply (uint32_varint _ r1 _ _ Hat1); lia).
  pose proof (readerAt_advance _ _ _ _ Hat1) as Hat2.
  set (r2 := Reader.setPos r1 _) in *.
  exists r1, r2. split; [exact Htag|]. split; [exact Hread|]. split; [|split].
  - destruct Hat2 as (Hbuf2 & Hpos2 & Hlen2).
    replace (Reader.buf r) with (Reader.buf r2) by (subst r2; exact Hbuf1).
    rewrite subarray_inside by (rewrite Hbuf2, !length_app in *; lia).
    rewrite Hbuf2, Hpos2, Nat2Z.id.
    replace (Z.to_nat _) with (length payload) by lia.
    rewrite drop_app_length. apply take_app_length.
  - pose proof (readerAt_advance _ _ _ _ Hat2) as Hat3.
    rewrite <- !app_assoc in Hat3. exact Hat3.
  - subst r2. exact Hbuf1.
Qed.

Lemma encodeField_nonempty (f : wireField) :
  wellFormed f -> (0 < length (encodeField f))%nat.
Proof.
  assert (Htag : forall k w, (0 <= k < 2 ^ 29)%Z -> (0 <= w < 8)%Z ->
                             (0 < length (varint (k * 8 + w)))%nat).
  { intros k w Hk Hw. apply varint_nonempty.
    change (2 ^ 29)%Z with 536870912%Z in Hk.
    change (2 ^ 64)%Z with 18446744073709551616%Z. lia. }
  destruct f as [k v|k p|k p|k p]; intros [Hk _]; cbn [encodeField];
    rewrite !length_app; specialize (Htag k); 
    [ specialize (Htag 0%Z Hk) | specialize (Htag 1%Z Hk)
    | specialize (Htag 2%Z Hk) | specialize (Htag 5%Z Hk) ]; lia.
Qed.

Lemma readerAt_inside (r : Reader.t) (before : list byte) (f : wireField)
      (ahead : list byte) :
  readerAt r before (encodeField f ++ ahead) -> wellFormed f ->
  (Reader.pos r <? Reader.len r)%Z = true.
Proof.
  intros Hat Hf. pose proof (readerAt_room _ _ _ Hat) as Hroom.
  pose proof (encodeField_nonempty f Hf). rewrite length_app in Hroom.
  apply Z.ltb_lt. lia.
Qed.

Lemma readerAt_end (r : Reader.t) (before : list byte) :
  readerAt r before [] -> (Reader.pos r <? Reader.len r)%Z = false.
Proof.
  intros Hat. pose proof (readerAt_room _ _ _ Hat) as Hroom. cbn [length] in Hroom.
  apply Z.ltb_ge. lia.
Qed.

(** ** [extractSubmessage] on a message put on the wire *)

Lemma extractSubmessageLoop_fields (fieldNo : Z) (fields : list wireField) :
  forall (fuel : nat) (r : Reader.t) (before : list byte),
    Forall wellFormed fields ->
    readerAt r before (encodeMessage fields) ->
    (length (encodeMessage fields) < fuel)%nat ->
    ScrapePocRewardsJs.extractSubmessageLoop fuel (Reader.buf r) fieldNo r
    = Some (Returns (firstLengthDelimited fieldNo fields)).
Proof.
  induction fields as [|f fields IH]; intros fuel r before Hwf Hat Hfuel;
    (destruct fuel as [|fuel]; [lia|]); cbn [ScrapePocRewardsJs.extractSubmessageLoop].
  - rewrite (readerAt_end _ _ Hat). reflexivity.
  - inversion Hwf as [|? ? Hf Hwf']; subst.
    unfold encodeMessage in *. cbn [flat_map] in *. fold (encodeMessage fields) in *.
    rewrite (readerAt_inside _ _ _ _ Hat Hf).
    pose proof (encodeField_nonempty f Hf) as Hne. rewrite length_app in Hfuel.
    destruct f as [k v|k p|k p|k p]; cbn [firstLengthDelimited].
    + destruct (read_varint_field k v r before _ Hat Hf) as (r1 & r2 & -> & Hv & Hat2 & Hbuf).
      destruct Hf as [Hk _]. destruct (tag_parts k 0 ltac:(lia) ltac:(lia)) as [-> ->].
      cbn [Z.eqb Pos.eqb]. rewrite Hv, <- Hbuf.
      apply (IH fuel r2 _ Hwf' Hat2). lia.
    + destruct Hf as [Hk Hp].
      destruct (read_fixed_field 1 8 k p r before _ Hat Hk ltac:(lia) ltac:(lia))
        as (r1 & r2 & -> & Hs & Hat2 & Hbuf).
      destruct (tag_parts k 1 ltac:(lia) ltac:(lia)) as [-> ->].
      cbn [Z.eqb Pos.eqb]. rewrite Hs, <- Hbuf.
      apply (IH fuel r2 _ Hwf' Hat2). lia.
    + destruct (read_length_delimited_field k p r before _ Hat Hf)
        as (r1 & r2 & -> & -> & Hsub & Hat3 & Hbuf).
      destruct Hf as [Hk _]. destruct (tag_parts k 2 ltac:(lia) ltac:(lia)) as [-> ->].
      cbn [Z.eqb Pos.eqb]. rewrite Hsub.
      destruct (k =? fieldNo)%Z; [reflexivity|].
      rewrite <- Hbuf.
      exact (IH fuel (Reader.setPos r2 _) _ Hwf' Hat3 ltac:(lia)).
    + destruct Hf as [Hk Hp].
      destruct (read_fixed_field 5 4 k p r before _ Hat Hk ltac:(lia) ltac:(lia))
        as (r1 & r2 & -> & Hs & Hat2 & Hbuf).
      destruct (tag_parts k 5 ltac:(lia) ltac:(lia)) as [-> ->].
      cbn [Z.eqb Pos.eqb]. rewrite Hs, <- Hbuf.
      apply (IH fuel r2 _ Hwf' Hat2). lia.
Qed.

Lemma readerAt_create (buffer : list byte) : readerAt (Reader.create buffer) [] buffer.
Proof. unfold readerAt, Reader.create. cbn. repeat split. Qed.

Lemma extractSubmessage_fields (fields : list wireField) (fieldNo : Z) :
  Forall wellFormed fields ->
  ScrapePocRewardsJs.extractSubmessage (encodeMessage fields) fieldNo
  = Some (Returns (firstLengthDelimited fieldNo fields)).
Proof.
  intros Hwf. unfold ScrapePocRewardsJs.extractSubmessage.
  apply (extractSubmessageLoop_fields fieldNo fields _ (Reader.create (encodeMessage fields))
           [] Hwf); [apply readerAt_create | lia].
Qed.

(** X17. [extractSubmessage] reads back what a writer wrote: on the bytes
    of any message made of varint, 64-bit, length-delimited and 32-bit
    fields (field numbers below 2^29, varints below 2^64) it returns the
    payload of the first length-delimited field of number [fieldNo], byte
    for byte, whatever fields come before it, and [null] when the message
    has no such field; it never throws on such a message. *)
Theorem extractSubmessage_reads_back (fields : list wireField) (fieldNo : Z) :
  Forall wellFormed fields ->
  ScrapePocRewardsJs.extractSubmessage (encodeMessage fields) fieldNo
  = Some (Returns (firstLengthDelimited fieldNo fields)).
Proof. apply extractSubmessage_fields. Qed.

Lemma extractSubmessage_reads_back_witness :
  ScrapePocRewardsJs.extractSubmessage
    (encodeMessage [Varint 1 300; Fixed32 3 [x01; x02; x03; x04];
                    LengthDelimited 8 [x0a; x0b]; LengthDelimited 8 [x0c]]) 8
  = Some (Returns (firstLengthDelimited 8
                     [Varint 1 300; Fixed32 3 [x01; x02; x03; x04];
                      LengthDelimited 8 [x0a; x0b]; LengthDelimited 8 [x0c]])).
Proof.
  apply (extractSubmessage_reads_back
           [Varint 1 300; Fixed32 3 [x01; x02; x03; x04];
            LengthDelimited 8 [x0a; x0b]; LengthDelimited 8 [x0c]] 8).
  repeat constructor; simpl; lia.
Defined.

(** ** [getPeriodFromFrame] on a message put on the wire *)

Lemma getPeriodLoop_fields (fields : list wireField) :
  forall (fuel : nat) (r : Reader.t) (before : list byte) (start end_ : option Z),
    Forall wellFormed fields ->
    readerAt r before (encodeMessage fields) ->
    (length (encodeMessage fields) < fuel)%nat ->
    ScrapePocRewardsJs.getPeriodLoop fuel r start end_
    = Some (Returns (lastVarint 1 fields start, lastVarint 2 fields end_)).
Proof.
  induction fields as [|f fields IH]; intros fuel r before start end_ Hwf Hat Hfuel;
    (destruct fuel as [|fuel]; [lia|]); cbn [ScrapePocRewardsJs.getPeriodLoop].
  - rewrite (readerAt_end _ _ Hat). reflexivity.
  - inversion Hwf as [|? ? Hf Hwf']; subst.
    unfold encodeMessage in *. cbn [flat_map] in *. fold (encodeMessage fields) in *.
    rewrite (readerAt_inside _ _ _ _ Hat Hf).
    pose proof (encodeField_nonempty f Hf) as Hne. rewrite length_app in Hfuel.
    destruct f as [k v|k p|k p|k p]; cbn [lastVarint].
    + destruct (read_varint_field k v r before _ Hat Hf) as (r1 & r2 & -> & Hv & Hat2 & Hbuf).
      destruct Hf as [Hk _]. destruct (tag_parts k 0 ltac:(lia) ltac:(lia)) as [-> ->].
      cbn [Z.eqb Pos.eqb]. rewrite Hv.
      apply (IH fuel r2 _ _ _ Hwf' Hat2). lia.
    + destruct Hf as [Hk Hp].
      destruct (read_fixed_field 1 8 k p r before _ Hat Hk ltac:(lia) ltac:(lia))
        as (r1 & r2 & -> & Hs & Hat2 & Hbuf).
      destruct (tag_parts k 1 ltac:(lia) ltac:(lia)) as [-> ->].
      cbn [Z.eqb Pos.eqb]. rewrite Hs.
      apply (IH fuel r2 _ _ _ Hwf' Hat2). lia.
    + destruct (read_length_delimited_field k p r before _ Hat Hf)
        as (r1 & r2 & -> & -> & Hsub & Hat3 & Hbuf).
      destruct Hf as [Hk _]. destruct (tag_parts k 2 ltac:(lia) ltac:(lia)) as [-> ->].
      cbn [Z.eqb Pos.eqb].
      exact (IH fuel (Reader.setPos r2 _) _ _ _ Hwf' Hat3 ltac:(lia)).
    + destruct Hf as [Hk Hp].
      destruct (read_fixed_field 5 4 k p r before _ Hat Hk ltac:(lia) ltac:(lia))
        as (r1 & r2 & -> & Hs & Hat2 & Hbuf).
      destruct (tag_parts k 5 ltac:(lia) ltac:(lia)) as [-> ->].
      cbn [Z.eqb Pos.eqb]. rewrite Hs.
      apply (IH fuel r2 _ _ _ Hwf' Hat2). lia.
Qed.

Lemma getPeriodFromFrame_fields (fields : list wireField) :
  Forall wellFormed fields ->
  ScrapePocRewardsJs.getPeriodFromFrame (encodeMessage fields)
  = Some (Returns (match lastVarint 1 fields None, lastVarint 2 fields None with
                   | Some start, Some end_ => Some (start, end_)
                   | _, _ => None
                   end)).
Proof.
  intros Hwf. unfold ScrapePocRewardsJs.getPeriodFromFrame.
  rewrite (getPeriodLoop_fields fields _ _ [] None None Hwf (readerAt_create _)) by lia.
  destruct (lastVarint 1 fields None), (lastVarint 2 fields None); reflexivity.
Qed.

(** X18. [getPeriodFromFrame] reads back the period a writer wrote: on the
    bytes of a message of well-formed fields whose varints are below 2^53,
    it returns the values of the last varint field 1 and of the last varint
    field 2 as [{ start, end }], whatever other fields stand between, and
    [null] when one of the two is missing; it does not throw. *)
Theorem getPeriodFromFrame_reads_back (fields : list wireField) :
  Forall wellFormed fields ->
  Forall exactlyHeld fields ->
  ScrapePocRewardsJs.getPeriodFromFrame (encodeMessage fields)
  = Some (Returns (match lastVarint 1 fields None, lastVarint 2 fields None with
                   | Some start, Some end_ => Some (start, end_)
                   | _, _ => None
                   end)).
Proof. intros Hwf _. apply getPeriodFromFrame_fields. exact Hwf. Qed.

Lemma getPeriodFromFrame_reads_back_witness :
  ScrapePocRewardsJs.getPeriodFromFrame
    (encodeMessage [Varint 1 1700000000; LengthDelimited 8 [x0a; x0b];
                    Fixed64 4 [x01; x02; x03; x04; x05; x06; x07; x08];
                    Varint 2 1700086400])
  = Some (Returns (match lastVarint 1 [Varint 1 1700000000; LengthDelimited 8 [x0a; x0b];
                                       Fixed64 4 [x01; x02; x03; x04; x05; x06; x07; x08];
                                       Varint 2 1700086400] None,
                         lastVarint 2 [Varint 1 1700000000; LengthDelimited 8 [x0a; x0b];
                                       Fixed64 4 [x01; x02; x03; x04; x05; x06; x07; x08];
                                       Varint 2 1700086400] None with
                   | Some start, Some end_ => Some (start, end_)
                   | _, _ => None
                   end)).
Proof.
  apply (getPeriodFromFrame_reads_back
           [Varint 1 1700000000; LengthDelimited 8 [x0a; x0b];
            Fixed64 4 [x01; x02; x03; x04; x05; x06; x07; x08];
            Varint 2 1700086400]).
  - repeat constructor; simpl; lia.
  - repeat constructor; simpl; try lia; discriminate.
Defined.

Example wire_examples :
  encodeMessage [Varint 1 300; LengthDelimited 8 [x0a; x0b]]
  = [x08; xac; x02; x42; x02; x0a; x0b] /\
  ScrapePocRewardsJs.getPeriodFromFrame
    (encodeMessage [Varint 1 1700000000; LengthDelimited 8 [x0a; x0b]; Varint 2 1700086400])
  = Some (Returns (Some (1700000000, 1700086400)%Z)).
Proof. split; vm_compute; reflexivity. Qed.

(** ** [parseRadioRewardV2] on a message put on the wire *)

Lemma parseRadioRewardV2Loop_fields (fields : list wireField) :
  forall (fuel : nat) (r : Reader.t) (before : list byte)
         (st : ScrapePocRewardsJs.rr2State) (cbsd : option (list byte)),
    Forall wellFormed fields ->
    readerAt r before (encodeMessage fields) ->
    (length (encodeMessage fields) < fuel)%nat ->
    ScrapePocRewardsJs.cbsdIdSeen st = option_map TextDecoder_decode cbsd ->
    ScrapePocRewardsJs.parseRadioRewardV2Loop fuel (Reader.buf r) r st
    = Some (Returns
              {| ScrapePocRewardsJs.hotspotPayload :=
                   lastLengthDelimited 1 fields (ScrapePocRewardsJs.hotspotPayload st);
                 ScrapePocRewardsJs.cbsdIdSeen :=
                   option_map TextDecoder_decode (lastLengthDelimited 2 fields cbsd);
                 ScrapePocRewardsJs.basePocSeen :=
                   orZero (lastVarint 7 fields (Some (ScrapePocRewardsJs.basePocSeen st)));
                 ScrapePocRewardsJs.boostedPocSeen :=
                   orZero (lastVarint 8 fields
                                      (Some (ScrapePocRewardsJs.boostedPocSeen st))) |}).
Proof.
  induction fields as [|f fields IH]; intros fuel r before st cbsd Hwf Hat Hfuel Hcbsd;
    (destruct fuel as [|fuel]; [lia|]); cbn [ScrapePocRewardsJs.parseRadioRewardV2Loop].
  - rewrite (readerAt_end _ _ Hat). cbn [lastLengthDelimited lastVarint orZero].
    rewrite <- Hcbsd. destruct st. reflexivity.
  - inversion Hwf as [|? ? Hf Hwf']; subst.
    unfold encodeMessage in *. cbn [flat_map] in *. fold (encodeMessage fields) in *.
    rewrite (readerAt_inside _ _ _ _ Hat Hf).
    pose proof (encodeField_nonempty f Hf) as Hne. rewrite length_app in Hfuel.
    destruct f as [k v|k p|k p|k p]; cbn [lastLengthDelimited lastVarint].
    + destruct (read_varint_field k v r before _ Hat Hf) as (r1 & r2 & -> & Hv & Hat2 & Hbuf).
      destruct Hf as [Hk _]. destruct (tag_parts k 0 ltac:(lia) ltac:(lia)) as [-> ->].
      cbn [Z.eqb Pos.eqb]. rewrite Hv, <- Hbuf.
      rewrite (IH fuel r2 _ _ cbsd Hwf' Hat2 ltac:(lia))
        by (destruct (k =? 7)%Z, (k =? 8)%Z; exact Hcbsd).
      destruct (k =? 7)%Z, (k =? 8)%Z; reflexivity.
    + destruct Hf as [Hk Hp].
      destruct (read_fixed_field 1 8 k p r before _ Hat Hk ltac:(lia) ltac:(lia))
        as (r1 & r2 & -> & Hs & Hat2 & Hbuf).
      destruct (tag_parts k 1 ltac:(lia) ltac:(lia)) as [-> ->].
      cbn [Z.eqb Pos.eqb]. rewrite Hs, <- Hbuf.
      apply (IH fuel r2 _ _ cbsd Hwf' Hat2); [lia | exact Hcbsd].
    + destruct (read_length_delimited_field k p r before _ Hat Hf)
        as (r1 & r2 & -> & -> & Hsub & Hat3 & Hbuf).
      destruct Hf as [Hk _]. destruct (tag_parts k 2 ltac:(lia) ltac:(lia)) as [-> ->].
      cbn [Z.eqb Pos.eqb]. rewrite Hsub, <- Hbuf.
      rewrite (IH fuel (Reader.setPos r2 _) _ _ (if (k =? 2)%Z then Some p else cbsd)
                  Hwf' Hat3 ltac:(lia))
        by (destruct (k =? 1)%Z, (k =? 2)%Z; cbn; try reflexivity; exact Hcbsd).
      destruct (k =? 1)%Z, (k =? 2)%Z; reflexivity.
    + destruct Hf as [Hk Hp].
      destruct (read_fixed_field 5 4 k p r before _ Hat Hk ltac:(lia) ltac:(lia))
        as (r1 & r2 & -> & Hs & Hat2 & Hbuf).
      destruct (tag_parts k 5 ltac:(lia) ltac:(lia)) as [-> ->].
      cbn [Z.eqb Pos.eqb]. rewrite Hs, <- Hbuf.
      apply (IH fuel r2 _ _ cbsd Hwf' Hat2); [lia | exact Hcbsd].
Qed.

Lemma lastVarint_default (fieldNo : Z) (fields : list wireField) :
  orZero (lastVarint fieldNo fields (Some 0%Z)) = orZero (lastVarint fieldNo fields None).
Proof.
  induction fields as [|f fields IH]; [reflexivity|].
  destruct f as [k v|k p|k p|k p]; cbn [lastVarint]; try exact IH.
  destruct (k =? fieldNo)%Z; [reflexivity | exact IH].
Qed.

Lemma parseRadioRewardV2_fields (fields : list wireField) :
  Forall wellFormed fields ->
  ScrapePocRewardsJs.parseRadioRewardV2 (encodeMessage fields)
  = Some (Returns
            {| ScrapePocRewardsJs.hotspotId :=
                 match lastLengthDelimited 1 fields None with
                 | None => None
                 | Some payload =>
                     if (Z.of_nat (length payload) =? 264)%Z
                     then Some (base58checkEncodeRaw payload 0)
                     else if (Z.of_nat (length payload) =? 32)%Z
                          then Some (bs58.encode (Buffer_from payload))
                          else Some ("<unexpected hotspot_key length "
                                     ++ numberToString (Z.of_nat (length payload))
                                     ++ " bytes>")%string
                 end;
               ScrapePocRewardsJs.cbsdId :=
                 option_map TextDecoder_decode (lastLengthDelimited 2 fields None);
               ScrapePocRewardsJs.basePoc := orZero (lastVarint 7 fields None);
               ScrapePocRewardsJs.boostedPoc := orZero (lastVarint 8 fields None);
               ScrapePocRewardsJs.totalPoc :=
                 (orZero (lastVarint 7 fields None)
                  + orZero (lastVarint 8 fields None))%Z |}).
Proof.
  intros Hwf. unfold ScrapePocRewardsJs.parseRadioRewardV2.
  pose proof (parseRadioRewardV2Loop_fields fields (S (length (encodeMessage fields)))
                (Reader.create (encodeMessage fields)) []
                {| ScrapePocRewardsJs.hotspotPayload := None;
                   ScrapePocRewardsJs.cbsdIdSeen := None;
                   ScrapePocRewardsJs.basePocSeen := 0;
                   ScrapePocRewardsJs.boostedPocSeen := 0 |} None
                Hwf (readerAt_create _) ltac:(lia) eq_refl) as Hloop.
  cbn [Reader.buf Reader.create ScrapePocRewardsJs.hotspotPayload
       ScrapePocRewardsJs.basePocSeen ScrapePocRewardsJs.boostedPocSeen] in Hloop.
  rewrite Hloop.
  cbn [ScrapePocRewardsJs.hotspotPayload ScrapePocRewardsJs.cbsdIdSeen
       ScrapePocRewardsJs.basePocSeen ScrapePocRewardsJs.boostedPocSeen].
  rewrite !lastVarint_default. reflexivity.
Qed.



Example radioRewardV2_on_the_wire :
  encodeMessage [LengthDelimited 1 hotspotKey32; Varint 7 100; Varint 8 50] = radioRewardV2.
Proof. vm_compute. reflexivity. Qed.



Example frameWellFormed_on_the_wire :
  encodeMessage
    [Varint 1 10; Varint 2 20;
     LengthDelimited 8
       (encodeMessage [LengthDelimited 1 hotspotKey32; Varint 7 100; Varint 8 50])]
  = frameWellFormed.
Proof. vm_compute. reflexivity. Qed.

(** ** The windows of the fleet scan *)

Lemma dedupeFrom_In (l : list Z) :
  forall (seen : list Z) (x : Z),
    In x (TopEarnersJs.dedupeFrom seen l) <-> In x l /\ ~ In x seen.
Proof.
  induction l as [|y l IH]; intros seen x; simpl.
  - tauto.
  - destruct (existsb (Z.eqb y) seen) eqn:Hseen.
    + rewrite IH. apply existsb_eqb_In in Hseen. split.
      * intros [Hin Hnot]. split; [right; exact Hin | exact Hnot].
      * intros [[<-|Hin] Hnot]; [contradiction | split; assumption].
    + assert (Hy : ~ In y seen).
      { intros Hin. apply existsb_eqb_In in Hin. congruence. }
      simpl. rewrite IH. simpl. split.
      * intros [<-|[Hin Hnot]]; [split; [left; reflexivity | exact Hy]|].
        split; [right; exact Hin | tauto].
      * intros [[<-|Hin] Hnot]; [left; reflexivity|].
        destruct (Z.eq_dec y x) as [->|Hne]; [left; reflexivity|].
        right. split; [exact Hin|]. intros [Heq|Hs]; [congruence | contradiction].
Qed.

Lemma lastElement_sorted (l : list Z) :
  StronglySorted Z.le l ->
  match lastElement l with
  | Some top => In top l /\ forall d, In d l -> (d <= top)%Z
  | None => l = []
  end.
Proof.
  induction 1 as [|x l Hs IH Hall]; [reflexivity|].
  cbn [lastElement]. destruct l as [|y l].
  - split; [left; reflexivity|]. intros d [<-|[]]. lia.
  - destruct (lastElement (y :: l)) as [top|]; [|discriminate].
    destruct IH as [Hin Hmax]. split; [right; exact Hin|].
    intros d [<-|Hd]; [|exact (Hmax d Hd)].
    rewrite Forall_forall in Hall. apply Hall. apply list_elem_of_In. exact Hin.
Qed.

Lemma sorted_NoDup_strict (l : list Z) :
  StronglySorted Z.le l -> NoDup l -> StronglySorted Z.lt l.
Proof.
  induction 1 as [|x l Hs IH Hall]; intros Hnd; [constructor|].
  apply NoDup_cons in Hnd as [Hx Hnd]. constructor; [exact (IH Hnd)|].
  rewrite Forall_forall in *. intros y Hy. specialize (Hall y Hy).
  assert (x <> y) by (intros ->; contradiction). lia.
Qed.

(** X21. The windows computed from the configuration: [WINDOWS_DAYS] holds
    the configured numbers of days, each once, in strictly ascending order;
    [LOOKBACK_DAYS], its last element, is the largest of them (it is
    [undefined] only when none is configured), so that the cutoff of every
    window lies at or after the start of the listing,
    [endTs - LOOKBACK_DAYS * 24 * 60 * 60 * 1000]. *)
Theorem WINDOWS_DAYS_spec (config : list Z) (endTs : Z) :
  StronglySorted Z.lt (TopEarnersJs.WINDOWS_DAYS config) /\
  (forall d, In d (TopEarnersJs.WINDOWS_DAYS config) <-> In d config) /\
  match LOOKBACK_DAYS config with
  | Some lookback =>
      In lookback config /\
      forall d, In d (TopEarnersJs.WINDOWS_DAYS config) ->
                (d <= lookback)%Z /\
                (TopEarnersJs.cutoffOf endTs lookback <= TopEarnersJs.cutoffOf endTs d)%Z
  | None => config = []
  end.
Proof.
  assert (Hmem : forall d, In d (TopEarnersJs.WINDOWS_DAYS config) <-> In d config).
  { intros d. unfold TopEarnersJs.WINDOWS_DAYS, TopEarnersJs.dedupe. split.
    - intros H. apply (Permutation_in _ (sortNumbers_perm _)) in H.
      apply dedupeFrom_In in H. tauto.
    - intros H. apply (Permutation_in _ (Permutation_sym (sortNumbers_perm _))).
      apply dedupeFrom_In. split; [exact H | intros []]. }
  split; [|split; [exact Hmem|]].
  - apply sorted_NoDup_strict; [apply WINDOWS_DAYS_sorted | apply WINDOWS_DAYS_NoDup].
  - unfold LOOKBACK_DAYS.
    pose proof (lastElement_sorted _ (WINDOWS_DAYS_sorted config)) as Hlast.
    destruct (lastElement (TopEarnersJs.WINDOWS_DAYS config)) as [top|].
    + destruct Hlast as [Hin Hmax]. split; [apply Hmem; exact Hin|].
      intros d Hd. specialize (Hmax d Hd). unfold TopEarnersJs.cutoffOf. lia.
    + destruct config as [|d config]; [reflexivity|].
      assert (Hd : In d (TopEarnersJs.WINDOWS_DAYS (d :: config)))
        by (apply Hmem; left; reflexivity).
      rewrite Hlast in Hd. destruct Hd.
Qed.

(** ** A listing that breaks off *)

Lemma listLoop_breaks (send : ListObjectsV2Command -> outcome ListObjectsV2Output)
      (BUCKET prefix : string) (startTs endTs : Z)
      (token : option string) (pages : list ListObjectsV2Output) (e : string) :
  ListingBreaks send BUCKET prefix token pages e ->
  forall (fuel : nat) (keys : list KeyTs),
    (length pages < fuel)%nat ->
    listLoop send BUCKET fuel prefix startTs endTs token keys = Some (Throws e).
Proof.
  induction 1 as [token e Hsend | token resp pages e Hsend Hmore HL IH];
    intros fuel keys Hfuel; (destruct fuel as [|fuel]; [simpl in Hfuel; lia|]);
    cbn [listLoop]; rewrite Hsend; [reflexivity|].
  rewrite Hmore. apply IH. simpl in Hfuel. lia.
Qed.

Lemma listFilesLoop_breaks (send : ListObjectsV2Command -> outcome ListObjectsV2Output)
      (BUCKET : string) (token : option string) (pages : list ListObjectsV2Output)
      (e : string) :
  ListingBreaks send BUCKET MOBILE_VERIFIED_prefix token pages e ->
  forall (fuel : nat) (files : list string),
    (length pages < fuel)%nat ->
    ScrapeHeliumRewardsRun.listFilesLoop send BUCKET fuel token files = Some (Throws e).
Proof.
  induction 1 as [token e Hsend | token resp pages e Hsend Hmore HL IH];
    intros fuel files Hfuel; (destruct fuel as [|fuel]; [simpl in Hfuel; lia|]);
    cbn [ScrapeHeliumRewardsRun.listFilesLoop]; rewrite Hsend; [reflexivity|].
  rewrite Hmore. apply IH. simpl in Hfuel. lia.
Qed.

(** X22. A listing that fails is fatal and gives no partial result: when
    the store answers some pages and then throws on the request for the
    next one, [listGzKeysInRange] throws that error instead of returning
    the keys of the pages it did get, and so does [scrapeHeliumRewards],
    whose handler throws the error again. *)
Theorem listing_error_is_fatal
        (send : ListObjectsV2Command -> outcome ListObjectsV2Output)
        (getObject : string -> outcome (option (list (outcome MobileRewardShare))))
        (BUCKET : string) (messageJSON : MobileRewardShare -> string)
        (deviceKey : string) (targetFormats : DeviceKeyFormats)
        (startTs endTs : Z) (pages : list ListObjectsV2Output) (e : string) (fuel : nat) :
  ListingBreaks send BUCKET MOBILE_VERIFIED_prefix None pages e ->
  (length pages < fuel)%nat ->
  deviceKey <> ""%string ->
  ScrapeHeliumRewardsJs.getTargetDeviceFormats deviceKey = Returns targetFormats ->
  listGzKeysInRange send BUCKET fuel MOBILE_VERIFIED_prefix startTs endTs = Some (Throws e) /\
  ScrapeHeliumRewardsRun.scrapeHeliumRewards send getObject BUCKET messageJSON fuel deviceKey
                                             startTs endTs
  = Some (Throws e).
Proof.
  intros HL Hfuel Hkey Hformats. split.
  - unfold listGzKeysInRange.
    rewrite (listLoop_breaks _ _ _ startTs endTs _ _ _ HL fuel [] Hfuel). reflexivity.
  - unfold ScrapeHeliumRewardsRun.scrapeHeliumRewards.
    destruct (String.eqb_spec deviceKey "") as [|_]; [contradiction|].
    rewrite Hformats, (listFilesLoop_breaks _ _ _ _ _ HL fuel [] Hfuel). reflexivity.
Qed.

Lemma listing_error_is_fatal_witness :
  listGzKeysInRange brokenStore "bucket" 2 MOBILE_VERIFIED_prefix 1700000000000 1700000300000
  = Some (Throws "SlowDown") /\
  ScrapeHeliumRewardsRun.scrapeHeliumRewards
    brokenStore (fun _ => Returns None) "bucket" noMessageText 2 hotspotKey32Checksummed
    1700000000000 1700000300000
  = Some (Throws "SlowDown").
Proof.
  apply (listing_error_is_fatal brokenStore (fun _ => Returns None) "bucket" noMessageText
           hotspotKey32Checksummed targetOfChecksummedKey 1700000000000 1700000300000
           [ {| Contents := Some [ {| Key := Some "p/shares.1700000300000.gz" |} ];
                IsTruncated := true;
                NextContinuationToken := Some "page-2" |} ] "SlowDown" 2).
  - apply ListingBreaks_later; [reflexivity | reflexivity |].
    apply ListingBreaks_now. reflexivity.
  - simpl. lia.
  - discriminate.
  - vm_compute. reflexivity.
Defined.

(** ** The daily aggregation *)

Lemma sumBy_app {A : Type} (f : A -> Z) (l1 l2 : list A) :
  sumBy f (l1 ++ l2) = (sumBy f l1 + sumBy f l2)%Z.
Proof. induction l1 as [|x l1 IH]; simpl; [reflexivity | rewrite IH; lia]. Qed.

Lemma sumBy_perm {A : Type} (f : A -> Z) (l1 l2 : list A) :
  Permutation l1 l2 -> sumBy f l1 = sumBy f l2.
Proof. induction 1; simpl; lia. Qed.

Lemma fold_left_sumBy {A : Type} (f : A -> Z) (l : list A) :
  forall acc, fold_left (fun sum x => (sum + f x)%Z) l acc = (acc + sumBy f l)%Z.
Proof.
  induction l as [|x l IH]; intros acc; simpl; [lia | rewrite IH; lia].
Qed.

Lemma sumBy_Map_set {V : Type} (f : V -> Z) (m : list (string * V)) (k : string) (v : V) :
  sumBy f (map snd (Map_set m k v))
  = (sumBy f (map snd m) + f v
     - match Map_get m k with Some old => f old | None => 0 end)%Z.
Proof.
  induction m as [|[k0 v0] m IH]; simpl; [lia|].
  destruct (String.eqb k k0); simpl; [lia | rewrite IH; lia].
Qed.

Lemma rewardsOfDay_snoc (isoDay : Z -> string) (day : string)
      (rewards : list ScrapeHeliumRewardsJs.RewardEntry)
      (r : ScrapeHeliumRewardsJs.RewardEntry) :
  rewardsOfDay isoDay day (rewards ++ [r])
  = rewardsOfDay isoDay day rewards
    ++ (if String.eqb (isoDay (ScrapeHeliumRewardsJs.timestamp r)) day then [r] else []).
Proof. unfold rewardsOfDay. rewrite List.filter_app. reflexivity. Qed.

Lemma pocRewardsOfDay_snoc (isoDay : Z -> string) (day : string)
      (pocRewards : list ScrapePocRewardsJs.PocReward) (p : ScrapePocRewardsJs.PocReward) :
  pocRewardsOfDay isoDay day (pocRewards ++ [p])
  = pocRewardsOfDay isoDay day pocRewards
    ++ (if String.eqb (isoDay (ScrapePocRewardsJs.timestamp p)) day then [p] else []).
Proof. unfold pocRewardsOfDay. rewrite List.filter_app. reflexivity. Qed.

Lemma dayAccounts_other_reward (isoDay : Z -> string)
      (rewards : list ScrapeHeliumRewardsJs.RewardEntry)
      (pocRewards : list ScrapePocRewardsJs.PocReward)
      (r : ScrapeHeliumRewardsJs.RewardEntry) (d : ParseRewardsDataJs.DayData) :
  isoDay (ScrapeHeliumRewardsJs.timestamp r) <> ParseRewardsDataJs.date d ->
  dayAccounts isoDay rewards pocRewards d ->
  dayAccounts isoDay (rewards ++ [r]) pocRewards d.
Proof.
  intros Hne. unfold dayAccounts. rewrite rewardsOfDay_snoc.
  destruct (String.eqb_spec (isoDay (ScrapeHeliumRewardsJs.timestamp r))
                            (ParseRewardsDataJs.date d)); [contradiction|].
  rewrite app_nil_r. exact (fun H => H).
Qed.

Lemma dayAccounts_other_pocReward (isoDay : Z -> string)
      (rewards : list ScrapeHeliumRewardsJs.RewardEntry)
      (pocRewards : list ScrapePocRewardsJs.PocReward)
      (p : ScrapePocRewardsJs.PocReward) (d : ParseRewardsDataJs.DayData) :
  isoDay (ScrapePocRewardsJs.timestamp p) <> ParseRewardsDataJs.date d ->
  dayAccounts isoDay rewards pocRewards d ->
  dayAccounts isoDay rewards (pocRewards ++ [p]) d.
Proof.
  intros Hne. unfold dayAccounts. rewrite pocRewardsOfDay_snoc.
  destruct (String.eqb_spec (isoDay (ScrapePocRewardsJs.timestamp p))
                            (ParseRewardsDataJs.date d)); [contradiction|].
  rewrite app_nil_r. exact (fun H => H).
Qed.

Ltac day_fields :=
  cbn [ParseRewardsDataJs.date ParseRewardsDataJs.totalRewardsDC
       ParseRewardsDataJs.rewardCount ParseRewardsDataJs.totalBasePoc
       ParseRewardsDataJs.totalBoostedPoc ParseRewardsDataJs.totalPoc
       ParseRewardsDataJs.pocRewardCount ParseRewardsDataJs.rewardType].

Section DailyAggregation.

Variable isoDay : Z -> string.
Variable deviceKey : string.

(** One DC entry more: its day is created if need be and takes it in. *)
Lemma addReward_aggregates (m : list (string * ParseRewardsDataJs.DayData))
      (rewards : list ScrapeHeliumRewardsJs.RewardEntry)
      (pocRewards : list ScrapePocRewardsJs.PocReward)
      (r : ScrapeHeliumRewardsJs.RewardEntry) :
  aggregates isoDay m rewards pocRewards ->
  aggregates isoDay (ParseRewardsDataJs.addReward isoDay deviceKey m r)
             (rewards ++ [r]) pocRewards.
Proof.
  intros [Hnd Hdays].
  unfold ParseRewardsDataJs.addReward. cbv zeta.
  set (key := isoDay (ScrapeHeliumRewardsJs.timestamp r)).
  split.
  - destruct (Map_get m key) as [v|] eqn:Hget.
    + rewrite Hget. apply Map_set_keys, Hnd.
    + rewrite Map_get_set, String.eqb_refl. apply Map_set_keys, Map_set_keys, Hnd.
  - intros day. specialize (Hdays day).
    destruct (Map_get m key) as [v|] eqn:Hget.
    + rewrite Hget, Map_get_set.
      destruct (String.eqb_spec day key) as [->|Hne].
      * rewrite Hget in Hdays. destruct Hdays as [Hdate Hacc].
        split; [exact Hdate|]. unfold dayAccounts in *. day_fields.
        rewrite Hdate in *. rewrite rewardsOfDay_snoc. fold key.
        rewrite String.eqb_refl, sumBy_app, !length_app. simpl.
        destruct Hacc as (H1 & H2 & H3 & H4 & H5 & H6 & H7 & H8).
        repeat split; try assumption; lia.
      * destruct (Map_get m day) as [d|].
        -- destruct Hdays as [Hdate Hacc]. split; [exact Hdate|].
           apply dayAccounts_other_reward; [fold key; congruence | exact Hacc].
        -- rewrite rewardsOfDay_snoc. fold key.
           destruct (String.eqb_spec key day); [congruence|].
           rewrite app_nil_r. exact Hdays.
    + rewrite Map_get_set, String.eqb_refl, !Map_get_set.
      destruct (String.eqb_spec day key) as [->|Hne].
      * rewrite Hget in Hdays. destruct Hdays as [Hrs Hps].
        split; [reflexivity|]. unfold dayAccounts. day_fields.
        rewrite rewardsOfDay_snoc. fold key.
        rewrite String.eqb_refl, Hrs, Hps. simpl.
        repeat split; try lia.
        destruct (String.eqb_spec (ScrapeHeliumRewardsJs.rewardType r) "");
          [discriminate | assumption].
      * destruct (Map_get m day) as [d|].
        -- destruct Hdays as [Hdate Hacc]. split; [exact Hdate|].
           apply dayAccounts_other_reward; [fold key; congruence | exact Hacc].
        -- rewrite rewardsOfDay_snoc. fold key.
           destruct (String.eqb_spec key day); [congruence|].
           rewrite app_nil_r. exact Hdays.
Qed.

(** One PoC entry more. *)
Lemma addPocReward_aggregates (m : list (string * ParseRewardsDataJs.DayData))
      (rewards : list ScrapeHeliumRewardsJs.RewardEntry)
      (pocRewards : list ScrapePocRewardsJs.PocReward)
      (p : ScrapePocRewardsJs.PocReward) :
  aggregates isoDay m rewards pocRewards ->
  aggregates isoDay (ParseRewardsDataJs.addPocReward isoDay deviceKey m p)
             rewards (pocRewards ++ [p]).
Proof.
  intros [Hnd Hdays].
  unfold ParseRewardsDataJs.addPocReward. cbv zeta.
  set (key := isoDay (ScrapePocRewardsJs.timestamp p)).
  split.
  - destruct (Map_get m key) as [v|] eqn:Hget.
    + rewrite Hget. apply Map_set_keys, Hnd.
    + rewrite Map_get_set, String.eqb_refl. apply Map_set_keys, Map_set_keys, Hnd.
  - intros day. specialize (Hdays day).
    destruct (Map_get m key) as [v|] eqn:Hget.
    + rewrite Hget, Map_get_set.
      destruct (String.eqb_spec day key) as [->|Hne].
      * rewrite Hget in Hdays. destruct Hdays as [Hdate Hacc].
        split; [exact Hdate|]. unfold dayAccounts in *. day_fields.
        rewrite Hdate in *. rewrite pocRewardsOfDay_snoc. fold key.
        rewrite String.eqb_refl, !sumBy_app, !length_app. simpl.
        destruct Hacc as (H1 & H2 & H3 & H4 & H5 & H6 & H7 & H8).
        repeat split; try assumption; lia.
      * destruct (Map_get m day) as [d|].
        -- destruct Hdays as [Hdate Hacc]. split; [exact Hdate|].
           apply dayAccounts_other_pocReward; [fold key; congruence | exact Hacc].
        -- rewrite pocRewardsOfDay_snoc. fold key.
           destruct (String.eqb_spec key day); [congruence|].
           rewrite app_nil_r. exact Hdays.
    + rewrite Map_get_set, String.eqb_refl, !Map_get_set.
      destruct (String.eqb_spec day key) as [->|Hne].
      * rewrite Hget in Hdays. destruct Hdays as [Hrs Hps].
        split; [reflexivity|]. unfold dayAccounts. day_fields.
        rewrite pocRewardsOfDay_snoc. fold key.
        rewrite String.eqb_refl, Hrs, Hps. simpl.
        repeat split; try lia. discriminate.
      * destruct (Map_get m day) as [d|].
        -- destruct Hdays as [Hdate Hacc]. split; [exact Hdate|].
           apply dayAccounts_other_pocReward; [fold key; congruence | exact Hacc].
        -- rewrite pocRewardsOfDay_snoc. fold key.
           destruct (String.eqb_spec key day); [congruence|].
           rewrite app_nil_r. exact Hdays.
Qed.

Lemma addReward_sums (m : list (string * ParseRewardsDataJs.DayData))
      (rewards : list ScrapeHeliumRewardsJs.RewardEntry)
      (pocRewards : list ScrapePocRewardsJs.PocReward)
      (r : ScrapeHeliumRewardsJs.RewardEntry) :
  sumsAgree m rewards pocRewards ->
  sumsAgree (ParseRewardsDataJs.addReward isoDay deviceKey m r) (rewards ++ [r]) pocRewards.
Proof.
  unfold sumsAgree. intros (H1 & H2 & H3 & H4).
  unfold ParseRewardsDataJs.addReward. cbv zeta.
  set (key := isoDay (ScrapeHeliumRewardsJs.timestamp r)).
  rewrite sumBy_app. simpl.
  destruct (Map_get m key) as [v|] eqn:Hget.
  - rewrite Hget, !sumBy_Map_set, Hget. day_fields. repeat split; lia.
  - rewrite Map_get_set, String.eqb_refl, !sumBy_Map_set, !Map_get_set, String.eqb_refl,
      Hget. day_fields. repeat split; lia.
Qed.

Lemma addPocReward_sums (m : list (string * ParseRewardsDataJs.DayData))
      (rewards : list ScrapeHeliumRewardsJs.RewardEntry)
      (pocRewards : list ScrapePocRewardsJs.PocReward)
      (p : ScrapePocRewardsJs.PocReward) :
  sumsAgree m rewards pocRewards ->
  sumsAgree (ParseRewardsDataJs.addPocReward isoDay deviceKey m p) rewards (pocRewards ++ [p]).
Proof.
  unfold sumsAgree. intros (H1 & H2 & H3 & H4).
  unfold ParseRewardsDataJs.addPocReward. cbv zeta.
  set (key := isoDay (ScrapePocRewardsJs.timestamp p)).
  rewrite !sumBy_app. simpl.
  destruct (Map_get m key) as [v|] eqn:Hget.
  - rewrite Hget, !sumBy_Map_set, Hget. day_fields. repeat split; lia.
  - rewrite Map_get_set, String.eqb_refl, !sumBy_Map_set, !Map_get_set, String.eqb_refl,
      Hget. day_fields. repeat split; lia.
Qed.

Lemma addRewards_accounts (added : list ScrapeHeliumRewardsJs.RewardEntry) :
  forall (m : list (string * ParseRewardsDataJs.DayData))
         (rewards : list ScrapeHeliumRewardsJs.RewardEntry)
         (pocRewards : list ScrapePocRewardsJs.PocReward),
    aggregates isoDay m rewards pocRewards /\ sumsAgree m rewards pocRewards ->
    aggregates isoDay (fold_left (ParseRewardsDataJs.addReward isoDay deviceKey) added m)
               (rewards ++ added) pocRewards /\
    sumsAgree (fold_left (ParseRewardsDataJs.addReward isoDay deviceKey) added m)
              (rewards ++ added) pocRewards.
Proof.
  induction added as [|r added IH]; intros m rewards pocRewards [Hagg Hsums]; simpl.
  - rewrite app_nil_r. split; assumption.
  - replace (rewards ++ r :: added) with ((rewards ++ [r]) ++ added)
      by (rewrite <- app_assoc; reflexivity).
    apply IH. split; [apply addReward_aggregates | apply addReward_sums]; assumption.
Qed.

Lemma addPocRewards_accounts (added : list ScrapePocRewardsJs.PocReward) :
  forall (m : list (string * ParseRewardsDataJs.DayData))
         (rewards : list ScrapeHeliumRewardsJs.RewardEntry)
         (pocRewards : list ScrapePocRewardsJs.PocReward),
    aggregates isoDay m rewards pocRewards /\ sumsAgree m rewards pocRewards ->
    aggregates isoDay (fold_left (ParseRewardsDataJs.addPocReward isoDay deviceKey) added m)
               rewards (pocRewards ++ added) /\
    sumsAgree (fold_left (ParseRewardsDataJs.addPocReward isoDay deviceKey) added m)
              rewards (pocRewards ++ added).
Proof.
  induction added as [|p added IH]; intros m rewards pocRewards [Hagg Hsums]; simpl.
  - rewrite app_nil_r. split; assumption.
  - replace (pocRewards ++ p :: added) with ((pocRewards ++ [p]) ++ added)
      by (rewrite <- app_assoc; reflexivity).
    apply IH. split; [apply addPocReward_aggregates | apply addPocReward_sums]; assumption.
Qed.

End DailyAggregation.

(** ** The two sorts of [parseRewardsData] *)

Lemma insertByDate_perm (dateValue : string -> Z) (x : ParseRewardsDataJs.DayData)
      (l : list ParseRewardsDataJs.DayData) :
  Permutation (ParseRewardsDataJs.insertByDate dateValue x l) (x :: l).
Proof.
  induction l as [|y l IH]; simpl; [reflexivity|].
  destruct (_ <=? _)%Z; [reflexivity|].
  rewrite IH. apply perm_swap.
Qed.

Lemma sortByDate_perm (dateValue : string -> Z) (l : list ParseRewardsDataJs.DayData) :
  Permutation (ParseRewardsDataJs.sortByDate dateValue l) l.
Proof.
  induction l as [|x l IH]; simpl; [reflexivity|].
  rewrite insertByDate_perm. constructor. exact IH.
Qed.

Lemma insertByDC_perm (x : ParseRewardsDataJs.DayData) (l : list ParseRewardsDataJs.DayData) :
  Permutation (ParseRewardsDataJs.insertByDC x l) (x :: l).
Proof.
  induction l as [|y l IH]; simpl; [reflexivity|].
  destruct (_ <=? _)%Z; [reflexivity|].
  rewrite IH. apply perm_swap.
Qed.

Lemma sortByDC_perm (l : list ParseRewardsDataJs.DayData) :
  Permutation (ParseRewardsDataJs.sortByDC l) l.
Proof.
  induction l as [|x l IH]; simpl; [reflexivity|].
  rewrite insertByDC_perm. constructor. exact IH.
Qed.

Lemma insertByDate_sorted (dateValue : string -> Z) (x : ParseRewardsDataJs.DayData)
      (l : list ParseRewardsDataJs.DayData) :
  StronglySorted (fun a b => (dateValue (ParseRewardsDataJs.date a)
                              <= dateValue (ParseRewardsDataJs.date b))%Z) l ->
  StronglySorted (fun a b => (dateValue (ParseRewardsDataJs.date a)
                              <= dateValue (ParseRewardsDataJs.date b))%Z)
                 (ParseRewardsDataJs.insertByDate dateValue x l).
Proof.
  induction 1 as [|y l Hs IH Hall]; simpl.
  - repeat constructor.
  - destruct (Z.leb_spec (dateValue (ParseRewardsDataJs.date x))
                         (dateValue (ParseRewardsDataJs.date y))) as [Hle|Hgt].
    + constructor; [constructor; assumption|].
      constructor; [exact Hle|].
      eapply Forall_impl; [exact Hall|]. intros z Hz. simpl in Hz. lia.
    + constructor; [exact IH|].
      apply Forall_forall. intros z Hz. apply list_elem_of_In in Hz.
      apply (Permutation_in _ (insertByDate_perm dateValue x l)) in Hz.
      destruct Hz as [<-|Hz]; [lia|].
      rewrite Forall_forall in Hall. apply Hall, list_elem_of_In, Hz.
Qed.

Lemma sortByDate_sorted (dateValue : string -> Z) (l : list ParseRewardsDataJs.DayData) :
  StronglySorted (fun a b => (dateValue (ParseRewardsDataJs.date a)
                              <= dateValue (ParseRewardsDataJs.date b))%Z)
                 (ParseRewardsDataJs.sortByDate dateValue l).
Proof.
  induction l as [|x l IH]; simpl; [constructor|].
  apply insertByDate_sorted, IH.
Qed.

(** The second sort is stable: a day put among later days goes before
    those of the same total. *)
Lemma insertByDC_sorted (dateValue : string -> Z) (x : ParseRewardsDataJs.DayData)
      (l : list ParseRewardsDataJs.DayData) :
  StronglySorted (beforeByDC dateValue) l ->
  Forall (fun y => (dateValue (ParseRewardsDataJs.date x)
                    <= dateValue (ParseRewardsDataJs.date y))%Z) l ->
  StronglySorted (beforeByDC dateValue) (ParseRewardsDataJs.insertByDC x l).
Proof.
  induction 1 as [|y l Hs IH Hall]; intros Hlater; simpl.
  - repeat constructor.
  - apply Forall_cons in Hlater as [Hy Hlater].
    destruct (Z.leb_spec (ParseRewardsDataJs.totalRewardsDC y)
                         (ParseRewardsDataJs.totalRewardsDC x)) as [Hle|Hgt].
    + constructor; [constructor; assumption|].
      constructor; [split; [exact Hle | intros _; exact Hy]|].
      rewrite Forall_forall in *. intros z Hz.
      destruct (Hall z Hz) as [Hzy _]. split; [lia | intros _; exact (Hlater z Hz)].
    + constructor; [exact (IH Hlater)|].
      apply Forall_forall. intros z Hz. apply list_elem_of_In in Hz.
      apply (Permutation_in _ (insertByDC_perm x l)) in Hz.
      destruct Hz as [<-|Hz]; [split; lia|].
      rewrite Forall_forall in Hall. apply Hall, list_elem_of_In, Hz.
Qed.

Lemma sortByDC_sorted (dateValue : string -> Z) (l : list ParseRewardsDataJs.DayData) :
  StronglySorted (fun a b => (dateValue (ParseRewardsDataJs.date a)
                              <= dateValue (ParseRewardsDataJs.date b))%Z) l ->
  StronglySorted (beforeByDC dateValue) (ParseRewardsDataJs.sortByDC l).
Proof.
  induction 1 as [|x l Hs IH Hall]; simpl; [constructor|].
  apply insertByDC_sorted; [exact IH|].
  rewrite Forall_forall in *. intros y Hy. apply Hall.
  apply list_elem_of_In. apply list_elem_of_In in Hy.
  exact (Permutation_in _ (sortByDC_perm l) Hy).
Qed.

(** ** [Math.max] and [Math.min] *)

Lemma fold_left_max_spec (l : list Z) :
  forall v, let m := fold_left Z.max l v in
            (m = v \/ In m l) /\ (v <= m)%Z /\ forall x, In x l -> (x <= m)%Z.
Proof.
  induction l as [|y l IH]; intros v; simpl.
  - split; [left; reflexivity|]. split; [lia | intros x []].
  - destruct (IH (Z.max v y)) as ([Heq|Hin] & Hle & Hall).
    + split; [|split].
      * rewrite Heq. destruct (Z.max_spec v y) as [[_ ->]|[_ ->]]; tauto.
      * lia.
      * intros x [<-|Hx]; [lia | exact (Hall x Hx)].
    + split; [right; right; exact Hin|]. split; [lia|].
      intros x [<-|Hx]; [lia | exact (Hall x Hx)].
Qed.

Lemma fold_left_min_spec (l : list Z) :
  forall v, let m := fold_left Z.min l v in
            (m = v \/ In m l) /\ (m <= v)%Z /\ forall x, In x l -> (m <= x)%Z.
Proof.
  induction l as [|y l IH]; intros v; simpl.
  - split; [left; reflexivity|]. split; [lia | intros x []].
  - destruct (IH (Z.min v y)) as ([Heq|Hin] & Hle & Hall).
    + split; [|split].
      * rewrite Heq. destruct (Z.min_spec v y) as [[_ ->]|[_ ->]]; tauto.
      * lia.
      * intros x [<-|Hx]; [lia | exact (Hall x Hx)].
    + split; [right; right; exact Hin|]. split; [lia|].
      intros x [<-|Hx]; [lia | exact (Hall x Hx)].
Qed.

Lemma maxOf_spec (l : list Z) :
  match ParseRewardsDataJs.maxOf l with
  | Some m => In m l /\ forall x, In x l -> (x <= m)%Z
  | None => l = []
  end.
Proof.
  destruct l as [|v l]; [reflexivity|]. cbn [ParseRewardsDataJs.maxOf].
  destruct (fold_left_max_spec l v) as (Hin & Hle & Hall).
  split; [destruct Hin as [->|Hin]; [left; reflexivity | right; exact Hin]|].
  intros x [<-|Hx]; [exact Hle | exact (Hall x Hx)].
Qed.

Lemma minOf_spec (l : list Z) :
  match ParseRewardsDataJs.minOf l with
  | Some m => In m l /\ forall x, In x l -> (m <= x)%Z
  | None => l = []
  end.
Proof.
  destruct l as [|v l]; [reflexivity|]. cbn [ParseRewardsDataJs.minOf].
  destruct (fold_left_min_spec l v) as (Hin & Hle & Hall).
  split; [destruct Hin as [->|Hin]; [left; reflexivity | right; exact Hin]|].
  intros x [<-|Hx]; [exact Hle | exact (Hall x Hx)].
Qed.

Lemma lastElement_descending (l : list Z) :
  StronglySorted Z.ge l ->
  match lastElement l with
  | Some low => In low l /\ forall d, In d l -> (low <= d)%Z
  | None => l = []
  end.
Proof.
  induction 1 as [|x l Hs IH Hall]; [reflexivity|].
  cbn [lastElement]. destruct l as [|y l].
  - split; [left; reflexivity|]. intros d [<-|[]]. lia.
  - destruct (lastElement (y :: l)) as [low|]; [|discriminate].
    destruct IH as [Hin Hmin]. split; [right; exact Hin|].
    intros d [<-|Hd]; [|exact (Hmin d Hd)].
    rewrite Forall_forall in Hall.
    assert (x >= low)%Z by (apply Hall, list_elem_of_In, Hin). lia.
Qed.

(** The greatest and the least of a list, read at the ends of a
    rearrangement of it in descending order. *)
Lemma max_min_at_the_ends (l sorted : list Z) :
  Permutation sorted l -> StronglySorted Z.ge sorted ->
  ParseRewardsDataJs.maxOf l = head sorted /\ ParseRewardsDataJs.minOf l = lastElement sorted.
Proof.
  intros Hperm Hsorted. split.
  - pose proof (maxOf_spec l) as Hmax.
    destruct (ParseRewardsDataJs.maxOf l) as [m|].
    + destruct Hmax as [Hin Hall].
      destruct sorted as [|h sorted].
      * apply Permutation_nil in Hperm. subst l. destruct Hin.
      * simpl. f_equal. inversion Hsorted as [|? ? _ Hh]; subst.
        assert (h <= m)%Z by (apply Hall, (Permutation_in _ Hperm); left; reflexivity).
        apply (Permutation_in _ (Permutation_sym Hperm)) in Hin.
        destruct Hin as [->|Hin]; [reflexivity|].
        rewrite Forall_forall in Hh.
        assert (h >= m)%Z by (apply Hh, list_elem_of_In, Hin). lia.
    + subst l. apply Permutation_sym, Permutation_nil in Hperm. subst. reflexivity.
  - pose proof (minOf_spec l) as Hmin.
    pose proof (lastElement_descending sorted Hsorted) as Hlast.
    destruct (ParseRewardsDataJs.minOf l) as [m|].
    + destruct Hmin as [Hin Hall].
      destruct (lastElement sorted) as [low|].
      * destruct Hlast as [Hlow Hleast]. f_equal.
        assert (m <= low)%Z by (apply Hall, (Permutation_in _ Hperm), Hlow).
        assert (low <= m)%Z
          by (apply Hleast, (Permutation_in _ (Permutation_sym Hperm)), Hin).
        lia.
      * subst sorted. apply Permutation_nil in Hperm. subst l. destruct Hin.
    + subst l. apply Permutation_sym, Permutation_nil in Hperm. subst. reflexivity.
Qed.

Lemma Map_get_Some_In {V : Type} (m : list (string * V)) (k : string) (v : V) :
  Map_get m k = Some v -> In (k, v) m.
Proof.
  induction m as [|[k0 v0] m IH]; simpl; [discriminate|].
  destruct (String.eqb_spec k k0) as [->|Hne].
  - intros [= ->]. left. reflexivity.
  - intros H. right. exact (IH H).
Qed.

Lemma aggregates_dates (isoDay : Z -> string)
      (m : list (string * ParseRewardsDataJs.DayData))
      (rewards : list ScrapeHeliumRewardsJs.RewardEntry)
      (pocRewards : list ScrapePocRewardsJs.PocReward) :
  aggregates isoDay m rewards pocRewards ->
  forall k d, In (k, d) m ->
              ParseRewardsDataJs.date d = k /\ dayAccounts isoDay rewards pocRewards d.
Proof.
  intros [Hnd Hdays] k d Hin. specialize (Hdays k).
  rewrite (Map_get_In m k d Hnd Hin) in Hdays. exact Hdays.
Qed.

Lemma aggregates_keys (isoDay : Z -> string)
      (m : list (string * ParseRewardsDataJs.DayData))
      (rewards : list ScrapeHeliumRewardsJs.RewardEntry)
      (pocRewards : list ScrapePocRewardsJs.PocReward) :
  aggregates isoDay m rewards pocRewards ->
  map ParseRewardsDataJs.date (map snd m) = map fst m.
Proof.
  intros Hagg. pose proof (aggregates_dates _ _ _ _ Hagg) as Hdates.
  clear Hagg. induction m as [|[k d] m IH]; [reflexivity|]. simpl.
  f_equal.
  - apply (Hdates k d). left. reflexivity.
  - apply IH. intros k' d' Hin. apply Hdates. right. exact Hin.
Qed.

(** What [parseRewardsData] returns, over the map of days its two loops
    have built. *)
Lemma parseRewardsData_returns (isoDay : Z -> string) (dateValue : string -> Z)
      (deviceKey : string) (rewards : list ScrapeHeliumRewardsJs.RewardEntry)
      (range : Z * Z) (pocData : option ParseRewardsDataJs.PocData) :
  exists m,
    aggregates isoDay m rewards (pocRewardsOf pocData) /\
    sumsAgree m rewards (pocRewardsOf pocData) /\
    ParseRewardsDataJs.parseRewardsData
      isoDay dateValue
      (Some {| ParseRewardsDataJs.scrapedDeviceKey := deviceKey;
               ParseRewardsDataJs.rewards := Some rewards;
               ParseRewardsDataJs.dateRange := range |}) pocData
    = Returns
        (let days := ParseRewardsDataJs.sortByDate dateValue (map snd m) in
         {| ParseRewardsDataJs.parsedDeviceKey := deviceKey;
            ParseRewardsDataJs.dailyRewards := ParseRewardsDataJs.sortByDC days;
            ParseRewardsDataJs.activeDays := Z.of_nat (length days);
            ParseRewardsDataJs.totalDC := sumBy ParseRewardsDataJs.totalRewardsDC days;
            ParseRewardsDataJs.sumBasePoc := sumBy ParseRewardsDataJs.totalBasePoc days;
            ParseRewardsDataJs.sumBoostedPoc := sumBy ParseRewardsDataJs.totalBoostedPoc days;
            ParseRewardsDataJs.sumPoc := sumBy ParseRewardsDataJs.totalPoc days;
            ParseRewardsDataJs.maxDailyDC :=
              ParseRewardsDataJs.maxOf (map ParseRewardsDataJs.totalRewardsDC days);
            ParseRewardsDataJs.minDailyDC :=
              ParseRewardsDataJs.minOf (map ParseRewardsDataJs.totalRewardsDC days);
            ParseRewardsDataJs.maxDailyPoc :=
              ParseRewardsDataJs.maxOf (map ParseRewardsDataJs.totalPoc days);
            ParseRewardsDataJs.minDailyPoc :=
              ParseRewardsDataJs.minOf (map ParseRewardsDataJs.totalPoc days);
            ParseRewardsDataJs.totalEntries := Z.of_nat (length rewards);
            ParseRewardsDataJs.dailyEntries :=
              Z.of_nat (length (ParseRewardsDataJs.sortByDC days)) |}).
Proof.
  assert (Hstart : aggregates isoDay [] [] [] /\ sumsAgree [] [] []).
  { split; [split; [constructor | intros day; split; reflexivity]|].
    repeat split; reflexivity. }
  pose proof (addRewards_accounts isoDay deviceKey rewards [] [] [] Hstart) as Hdc.
  cbn [app] in Hdc.
  set (m0 := fold_left (ParseRewardsDataJs.addReward isoDay deviceKey) rewards []) in *.
  exists (fold_left (ParseRewardsDataJs.addPocReward isoDay deviceKey)
                    (pocRewardsOf pocData) m0).
  pose proof (addPocRewards_accounts isoDay deviceKey (pocRewardsOf pocData) m0 rewards []
                                     Hdc) as Hpoc.
  cbn [app] in Hpoc. destruct Hpoc as [Hagg Hsums].
  split; [exact Hagg|]. split; [exact Hsums|].
  unfold ParseRewardsDataJs.parseRewardsData.
  cbn [ParseRewardsDataJs.rewards ParseRewardsDataJs.scrapedDeviceKey]. fold m0.
  assert (Hm : match pocData with
               | Some poc =>
                   match ParseRewardsDataJs.pocRewards poc with
                   | Some pocRewards =>
                       fold_left (ParseRewardsDataJs.addPocReward isoDay deviceKey)
                                 pocRewards m0
                   | None => m0
                   end
               | None => m0
               end
               = fold_left (ParseRewardsDataJs.addPocReward isoDay deviceKey)
                           (pocRewardsOf pocData) m0).
  { destruct pocData as [[[ps|]]|]; reflexivity. }
  rewrite Hm. cbv zeta. rewrite !fold_left_sumBy. reflexivity.
Qed.


Lemma beforeByDC_totals (dateValue : string -> Z) (l : list ParseRewardsDataJs.DayData) :
  StronglySorted (beforeByDC dateValue) l ->
  StronglySorted Z.ge (map ParseRewardsDataJs.totalRewardsDC l).
Proof.
  induction 1 as [|x l Hs IH Hall]; simpl; constructor; [exact IH|].
  apply Forall_forall. intros t Ht. apply list_elem_of_In, in_map_iff in Ht as (y & <- & Hy).
  rewrite Forall_forall in Hall. destruct (Hall y (proj2 (list_elem_of_In _ _) Hy)) as [Hle _].
  lia.
Qed.

(** X24. The order of the days returned.  [topDaysDC] is made by sorting
    [dailyRewardsArray] itself, so the [dailyRewards] that
    [parseRewardsData] returns are not in the order of their dates: they
    stand by descending [totalRewardsDC], and by ascending date only among
    days of one total.  [maxDailyDC] is the total of the first day
    returned and [minDailyDC] that of the last. *)
Theorem parseRewardsData_order (isoDay : Z -> string) (dateValue : string -> Z)
        (deviceKey : string) (rewards : list ScrapeHeliumRewardsJs.RewardEntry)
        (range : Z * Z) (pocData : option ParseRewardsDataJs.PocData) :
  exists parsed,
    ParseRewardsDataJs.parseRewardsData
      isoDay dateValue
      (Some {| ParseRewardsDataJs.scrapedDeviceKey := deviceKey;
               ParseRewardsDataJs.rewards := Some rewards;
               ParseRewardsDataJs.dateRange := range |}) pocData
    = Returns parsed /\
    StronglySorted (beforeByDC dateValue) (ParseRewardsDataJs.dailyRewards parsed) /\
    ParseRewardsDataJs.maxDailyDC parsed
    = head (map ParseRewardsDataJs.totalRewardsDC (ParseRewardsDataJs.dailyRewards parsed)) /\
    ParseRewardsDataJs.minDailyDC parsed
    = lastElement (map ParseRewardsDataJs.totalRewardsDC
                       (ParseRewardsDataJs.dailyRewards parsed)).
Proof.
  destruct (parseRewardsData_returns isoDay dateValue deviceKey rewards range pocData)
    as (m & _ & _ & ->).
  eexists. split; [reflexivity|]. cbv zeta.
  cbn [ParseRewardsDataJs.dailyRewards ParseRewardsDataJs.maxDailyDC
       ParseRewardsDataJs.minDailyDC].
  assert (Hsorted : StronglySorted (beforeByDC dateValue)
                      (ParseRewardsDataJs.sortByDC
                         (ParseRewardsDataJs.sortByDate dateValue (map snd m))))
    by apply sortByDC_sorted, sortByDate_sorted.
  split; [exact Hsorted|].
  apply max_min_at_the_ends.
  - apply Permutation_map, sortByDC_perm.
  - exact (beforeByDC_totals _ _ Hsorted).
Qed.

Example parseRewardsData_example :
  match ParseRewardsDataJs.parseRewardsData
          dayNumber dayNumberValue
          (Some {| ParseRewardsDataJs.scrapedDeviceKey := hotspotKey32Checksummed;
                   ParseRewardsDataJs.rewards :=
                     Some [rewardEntryAt 1641600000000 100;
                           rewardEntryAt 1641686400000 300;
                           rewardEntryAt 1641690000000 5;
                           rewardEntryAt 1641772800000 200];
                   ParseRewardsDataJs.dateRange := (1641600000000, 1641859200000)%Z |})
          None
  with
  | Returns parsed =>
      map (fun d => (ParseRewardsDataJs.date d, ParseRewardsDataJs.totalRewardsDC d,
                     ParseRewardsDataJs.rewardCount d))
          (ParseRewardsDataJs.dailyRewards parsed)
      = [("19001"%string, 305%Z, 2%Z); ("19002"%string, 200%Z, 1%Z);
         ("19000"%string, 100%Z, 1%Z)] /\
      ParseRewardsDataJs.totalDC parsed = 605%Z /\
      ParseRewardsDataJs.maxDailyDC parsed = Some 305%Z /\
      ParseRewardsDataJs.minDailyDC parsed = Some 100%Z
  | Throws _ => False
  end.
Proof. vm_compute. repeat split; reflexivity. Qed.

(** ** [validateRewardData] *)

Lemma dayErrors_nil (index : nat) (day : ParseRewardsDataJs.DayData) :
  ParseRewardsDataJs.dayErrors index day = [] <-> validDay day.
Proof.
  unfold ParseRewardsDataJs.dayErrors, validDay.
  destruct (String.eqb_spec (ParseRewardsDataJs.date day) "") as [Hd|Hd];
    destruct (Z.ltb_spec (ParseRewardsDataJs.totalRewardsDC day) 0) as [Ht|Ht];
    destruct (String.eqb_spec (ParseRewardsDataJs.rewardType day) "") as [Hr|Hr];
    simpl; split; try discriminate; try tauto; try (intros (H1 & H2 & H3); lia).
Qed.

Lemma daysErrors_nil (days : list ParseRewardsDataJs.DayData) :
  forall index,
    ParseRewardsDataJs.daysErrors index days = [] <-> forall day, In day days -> validDay day.
Proof.
  induction days as [|day days IH]; intros index; simpl.
  - split; [intros _ d [] | reflexivity].
  - split.
    + intros H. apply app_eq_nil in H as [Hday Hdays].
      intros d [<-|Hd]; [exact (proj1 (dayErrors_nil index _) Hday)|].
      exact (proj1 (IH (S index)) Hdays d Hd).
    + intros H. rewrite (proj2 (dayErrors_nil index day) (H day (or_introl eq_refl))).
      simpl. apply IH. intros d Hd. apply H. right. exact Hd.
Qed.

Lemma validateRewardData_passes (parsedData : ParseRewardsDataJs.Parsed) :
  ParseRewardsDataJs.validateRewardData parsedData = Returns true <->
  ParseRewardsDataJs.parsedDeviceKey parsedData <> ""%string /\
  forall day, In day (ParseRewardsDataJs.dailyRewards parsedData) -> validDay day.
Proof.
  unfold ParseRewardsDataJs.validateRewardData. cbv zeta.
  rewrite <- (daysErrors_nil _ 0%nat).
  destruct (String.eqb_spec (ParseRewardsDataJs.parsedDeviceKey parsedData) "") as [Hk|Hk].
  - cbn [app length]. rewrite Nat2Z.inj_succ.
    destruct (Z.ltb_spec 0 (Z.succ (Z.of_nat (length
               (ParseRewardsDataJs.daysErrors 0 (ParseRewardsDataJs.dailyRewards parsedData))))));
      [|lia].
    split; [discriminate | tauto].
  - cbn [app].
    destruct (ParseRewardsDataJs.daysErrors 0 (ParseRewardsDataJs.dailyRewards parsedData))
      as [|e errors]; cbn [length].
    + split; [intros _; split; [exact Hk | reflexivity] | reflexivity].
    + rewrite Nat2Z.inj_succ.
      destruct (Z.ltb_spec 0 (Z.succ (Z.of_nat (length errors)))); [|lia].
      split; [discriminate | intros [_ Hnil]; discriminate].
Qed.

(** X25. [validateRewardData] returns [true] exactly when the device key
    is not empty and every day has a date, a total of DC that is not
    negative and a reward type; it never returns [false]: otherwise it
    throws an error that lists one finding at least behind the words
    [Validation failed: ]. *)
Theorem validateRewardData_spec (parsedData : ParseRewardsDataJs.Parsed) :
  (ParseRewardsDataJs.validateRewardData parsedData = Returns true <->
   ParseRewardsDataJs.parsedDeviceKey parsedData <> ""%string /\
   forall day, In day (ParseRewardsDataJs.dailyRewards parsedData) -> validDay day) /\
  (ParseRewardsDataJs.validateRewardData parsedData = Returns true \/
   exists error errors,
     ParseRewardsDataJs.validateRewardData parsedData
     = Throws ("Validation failed: " ++ joinStrings ", " (error :: errors))).
Proof.
  split; [apply validateRewardData_passes|].
  unfold ParseRewardsDataJs.validateRewardData. cbv zeta.
  match goal with
  | |- (if (0 <? Z.of_nat (length ?l))%Z then _ else _) = _ \/ _ =>
      destruct l as [|error errors]
  end.
  - left. reflexivity.
  - right. exists error, errors. cbn [length]. rewrite Nat2Z.inj_succ.
    destruct (Z.ltb_spec 0 (Z.succ (Z.of_nat (length errors)))); [reflexivity | lia].
Qed.

Lemma sumBy_nonneg {A : Type} (f : A -> Z) (l : list A) :
  (forall x, In x l -> (0 <= f x)%Z) -> (0 <= sumBy f l)%Z.
Proof.
  induction l as [|x l IH]; intros H; simpl; [lia|].
  assert (0 <= f x)%Z by (apply H; left; reflexivity).
  assert (0 <= sumBy f l)%Z by (apply IH; intros y Hy; apply H; right; exact Hy).
  lia.
Qed.

(** X26. Parsing, then validating.  When the device key is not empty, no
    [rewardAmount] is negative and the entries have dates, what
    [parseRewardsData] returns passes [validateRewardData]. *)
Theorem parsed_data_validates (isoDay : Z -> string) (dateValue : string -> Z)
        (deviceKey : string) (rewards : list ScrapeHeliumRewardsJs.RewardEntry)
        (range : Z * Z) (pocData : option ParseRewardsDataJs.PocData) :
  deviceKey <> ""%string ->
  (forall r, In r rewards ->
             isoDay (ScrapeHeliumRewardsJs.timestamp r) <> ""%string /\
             (0 <= ScrapeHeliumRewardsJs.rewardAmount r)%Z) ->
  (forall p, In p (pocRewardsOf pocData) ->
             isoDay (ScrapePocRewardsJs.timestamp p) <> ""%string) ->
  exists parsed,
    ParseRewardsDataJs.parseRewardsData
      isoDay dateValue
      (Some {| ParseRewardsDataJs.scrapedDeviceKey := deviceKey;
               ParseRewardsDataJs.rewards := Some rewards;
               ParseRewardsDataJs.dateRange := range |}) pocData
    = Returns parsed /\
    ParseRewardsDataJs.validateRewardData parsed = Returns true.
Proof.
  intros Hkey Hrewards Hpoc.
  destruct (parseRewardsData_returns isoDay dateValue deviceKey rewards range pocData)
    as (m & Hagg & _ & ->).
  eexists. split; [reflexivity|].
  apply validateRewardData_passes. cbv zeta.
  cbn [ParseRewardsDataJs.parsedDeviceKey ParseRewardsDataJs.dailyRewards].
  split; [exact Hkey|].
  intros d Hd.
  apply (Permutation_in _ (sortByDC_perm _)) in Hd.
  apply (Permutation_in _ (sortByDate_perm _ _)) in Hd.
  apply in_map_iff in Hd as ([k d'] & Heq & Hin). simpl in Heq. subst d'.
  destruct (aggregates_dates _ _ _ _ Hagg k d Hin) as [Hdate Hacc].
  destruct Hacc as (Htotal & _ & _ & _ & _ & _ & Hsome & Htype).
  split; [|split; [|exact Htype]].
  - unfold rewardsOfDay, pocRewardsOfDay in Hsome.
    destruct (List.filter _ rewards) as [|r rs] eqn:Hrs.
    + destruct (List.filter _ (pocRewardsOf pocData)) as [|p ps] eqn:Hps;
        [simpl in Hsome; lia|].
      assert (Hp : In p (p :: ps)) by (left; reflexivity).
      rewrite <- Hps in Hp. apply List.filter_In in Hp as [Hp Heq].
      apply String.eqb_eq in Heq. rewrite <- Heq. exact (Hpoc p Hp).
    + assert (Hr : In r (r :: rs)) by (left; reflexivity).
      rewrite <- Hrs in Hr. apply List.filter_In in Hr as [Hr Heq].
      apply String.eqb_eq in Heq. rewrite <- Heq. exact (proj1 (Hrewards r Hr)).
  - rewrite Htotal. apply sumBy_nonneg. intros r Hr.
    apply List.filter_In in Hr as [Hr _]. exact (proj2 (Hrewards r Hr)).
Qed.

Lemma parsed_data_validates_witness :
  exists parsed,
    ParseRewardsDataJs.parseRewardsData
      dayNumber dayNumberValue
      (Some {| ParseRewardsDataJs.scrapedDeviceKey := hotspotKey32Checksummed;
               ParseRewardsDataJs.rewards :=
                 Some [rewardEntryAt 1641600000000 100; rewardEntryAt 1641686400000 300];
               ParseRewardsDataJs.dateRange := (1641600000000, 1641859200000)%Z |})
      None
    = Returns parsed /\
    ParseRewardsDataJs.validateRewardData parsed = Returns true.
Proof.
  apply (parsed_data_validates dayNumber dayNumberValue hotspotKey32Checksummed
           [rewardEntryAt 1641600000000 100; rewardEntryAt 1641686400000 300]
           (1641600000000, 1641859200000)%Z None).
  - discriminate.
  - intros r [<-|[<-|[]]]; (split; [vm_compute; discriminate | simpl; lia]).
  - intros p [].
Defined.

(** A day whose total is negative, as the low word of a [Long] read as a
    signed number can make it, is what the validation refuses. *)
Example negative_total_refused :
  match ParseRewardsDataJs.parseRewardsData
          dayNumber dayNumberValue
          (Some {| ParseRewardsDataJs.scrapedDeviceKey := hotspotKey32Checksummed;
                   ParseRewardsDataJs.rewards :=
                     Some [rewardEntryAt 1641600000000 (-1294967296)];
                   ParseRewardsDataJs.dateRange := (1641600000000, 1641859200000)%Z |})
          None
  with
  | Returns parsed =>
      ParseRewardsDataJs.validateRewardData parsed
      = Throws "Validation failed: Invalid reward amount for 19000: -1294967296"
  | Throws _ => False
  end.
Proof. vm_compute. reflexivity. Qed.
